(* ===== verification/_CoqProject ===== *)
-Q . S2P
Prelude.v
Effects.v
Endian.v
Wire.v
Serialization.v
Socket.v
Requests.v
Responses.v
Messages.v
PathUtils.v
Conversion.v
TimedCache.v
CacheThreads.v
Posix.v
MemFs.v
ClientHandler.v
Protocol.v
FileContents.v
Daemon.v
Server.v
WinPath.v
Adb.v
Connection.v
Client.v
Connect.v
ClientCache.v
ClientSpec.v
Discipline.v
EndToEnd.v
Session.v
SharedConnection.v
Robust.v
Operations.v
Callbacks.v
Mount.v
Lines.v
Logger.v
Traffic.v
Nandroid.v
DeviceTracker.v
TrayMenu.v
App.v
