(* ===== verification/Prelude.v ===== *)
(** * NandroidFS: a verification library

    NandroidFS mounts the file system of an Android device as a Windows drive.
    This library models the program and proves what makes it correct.  Paths below
    are relative to src/.

    ** The program and its parts

    On the device runs the daemon (nandroid_daemon/src/main.cpp), which accepts
    one connection and serves requests on it ([ClientHandler], ClientHandler.cpp)
    by making POSIX system calls.  On the computer, for each device, the client
    ([Nandroid], nandroidfs/Nandroid.cpp) starts the daemon through adb (Adb.cpp),
    connects to it ([Connection], Connection.cpp) and mounts a drive: Dokan calls the
    callbacks of operations.cpp for what Windows asks, and these send requests.
    Stats and listings are cached for a fraction of a second (TimedCache.hpp).
    Both ends share the message formats (nandroid_shared/requests.cpp and
    responses.cpp), the buffered reader and writer they are sent with
    (serialization.cpp) and the path functions (path_utils.cpp).  [DeviceTracker]
    follows which devices are there, [TrayMenuManager] and [ContextLogger] talk to
    the user, and nandroidfs/main.cpp runs the tracker until it is told to stop.

    ** Which file models what

    - Prelude: machine integers as [Z] with their conversions written out, byte
      strings with C++'s index arithmetic ([zlen], [ztake], [zdrop]), shared
      tactics and lemmas.
    - Effects: the monad [M S A] of functions that mutate an [S] and may throw; a
      throw keeps the mutations made before it.  Weakest preconditions [wp] for
      both outcomes, lenses for members of an object.
    - Endian: htons/htonl/htonll of both builds (serialization.cpp).
    - Wire: the wire format as encoders and decoders of byte lists (a reference).
    - Serialization: [DataReader], [DataWriter] (serialization.cpp) over the
      interface [Duplex] of a stream.
    - Socket: [read] and [write] of both ends over [recv] and [send]; each end is
      an instance of [Duplex].
    - Requests, Responses, Messages: the enumerations, structures, readers and
      writers of requests.cpp and responses.cpp, and the class of message types.
    - PathUtils, Conversion: path_utils.cpp and nandroidfs/conversion.cpp.
    - TimedCache: TimedCache.hpp, with an abstract cache it refines; CacheThreads:
      the same operations as the steps that threads interleave under its mutex.
    - Posix, MemFs: the system calls of the daemon as an interface with laws, and
      an executable instance, a small in-memory file system.
    - ClientHandler: every handler, the dispatch, the message loop and the
      handshake of ClientHandler.cpp.
    - Protocol: requests and responses as values and the abstract daemon [serve];
      FileContents: its transfers against the content of a file.
    - Daemon: the simulation of ClientHandler.v by Protocol.v.
    - Server: the daemon's main.cpp, from its listening socket to the end.
    - WinPath: win_path_util.cpp; Adb: Adb.cpp, running a process with its output
      through a pipe, and finding and calling adb.
    - Connection: the handshake and every [req_*] function of Connection.cpp with
      the two caches; Connect: its constructor and destructor.
    - Client, ClientCache: what each request puts on the wire, takes off it,
      returns and does to the caches, given the response.
    - ClientSpec: the calls of the client as programs of atomic steps (operations of
      the caches, exchanges, [request_mutex]), on caches that are never swept;
      Discipline: what those programs respect.
    - EndToEnd: a request with the daemon on the other end; Session: sequences of calls
      from the handshake on.
    - SharedConnection: the calls of any number of threads through one connection.
    - Robust: the same requests on arbitrary bytes.
    - Operations: every callback of operations.cpp, its macros and FileContext.hpp.
    - Callbacks: the callbacks with the daemon on the other end.
    - Mount: the calls Dokan makes on a mounted device, as a transition system.
    - Lines: text split at newlines; Logger: Logger.hpp and Logger.cpp; Traffic: the
      byte counters of Connection.cpp in debug builds and the thread that logs them.
    - Nandroid: Nandroid.cpp, from the daemon's output to the drive letter and the
      destructor; DeviceTracker: DeviceTracker.cpp, parsing adb's list and the set of
      instances.
    - TrayMenu: TrayMenu.cpp, the window with its messages, the menu, the console.
    - App: nandroidfs/main.cpp, the main thread and the callback that stops it as a
      transition system, and [WinMain] with the tray menu around it.

    ** Correspondence

    A member function is a computation over its object's record: [handler] for
    ClientHandler, [connection] for Connection, [dokan] for what a callback sees
    (the connection, the heap of FileContexts, the unmount flag, the file info),
    [nandroid], [tracker], [tray], each beside the part of Windows it acts on
    ([host] for processes and adb's path).  Names are the source's.  Loops that are
    not structural take fuel: the callers in the model pass a bound computed from the
    loop's own data (bytes wanted plus a constant for the readers and writers, the
    length of the buffer for [send], the bytes wanted for the file transfers, the
    entries left in a directory for listings, the bytes left in the pipe for the
    output of a process, the 23 letters from D), and the theorems show the bound is
    never reached; where no bound is at hand the fuel is an argument and the theorems
    say how much is enough: for the daemon's message loop more than the number of
    requests, for the client reading a listing more than the number of entries or of
    the bytes to come.  Output parameters are returned, [None] where the source leaves
    them unassigned.

    Four outcomes are not C++ exceptions, and no handler of the model catches them:
    [UndefinedBehaviour] (a dangling pointer), [BufferOverrun] (more bytes read than the
    caller's buffer holds), [ProcessAborted] (a bounded copy of the C library that does
    not fit) and [OutOfFuel] (a loop or a wait that does not end).  Where a call can end
    the program or not come back at all its result is a [fate] of Effects.v: [Done],
    [Ended] (an exception that leaves a destructor, joining a thread that was never
    started) or [Stuck].

    Outside the program, and hence parameters with documented behaviour as laws:
    [recv], [send] and [connect] ([SocketLaws]: bytes are delivered in order,
    calls make progress or fail), the socket library and the listening socket
    ([WinsockLaws], [Listener]), the system calls ([PosixLaws], [PosixFiles]), pipes
    and processes ([ProcessLaws]), the window system ([GuiLaws]), the string
    conversions and paths of Windows ([WideStrings], [ExePath]), the steady clock
    (readings that do not decrease), Dokan ([Dokan], its flag translation).  Each
    class of laws has an executable instance.

    ** What the theorems show

    - Serialization, Messages, Socket, Endian: the buffered classes read and
      write exactly the bytes of the wire format for every buffer size, fill level
      and split of the transport; messages survive the trip between hosts of any
      byte order; send loops finish.
    - TimedCache, CacheThreads: refinement of a cache that never sweeps, for one
      thread and, as linearisability, for interleaved ones; bounded growth.
    - Conversion, PathUtils: round trips and bounds of times and paths.
    - Daemon, Server: a whole session sends exactly the responses of the abstract
      daemon and performs its system calls; the process announces itself, serves one
      client whose requests are valid and gives back its sockets.
    - EndToEnd: listings and stats report the device and are answered from the cache
      afterwards; creations and removals take effect and drop the cached stat of the path
      and the cached listing of its directory, the root's apart; errors stay errors.
    - Session: any sequence of calls within the limits of the protocol is answered as the
      programs of ClientSpec answer it, on the device's own state, and client and daemon
      agree on every byte.
    - SharedConnection: whatever the interleaving of threads, what a call returns was
      true when the device said it, is no older than the caches allow and no request on
      that very path has changed it since; the threads do not deadlock and every call
      returns.
    - Callbacks: the same seen by Windows, what is written is read back, access
      checks and the contract of [create_file].
    - Mount: no callback follows a dangling context or lets an exception escape,
      in any reachable state and whatever the peer sends; three of them can end the
      process, and when is said.
    - Adb, Connect, TrayMenu: what is acquired is released on every path, or what is
      not is said; adb's output is reported whole.
    - Nandroid, DeviceTracker: the ready message is recognised in any chunks, the
      thread that starts a device is always woken, the mounted devices follow adb's
      list unless a failing start ends the program.
    - Logger, TrayMenu, Traffic: the log has one line per message, the console follows
      the menu, every byte is accounted for in the log and its thread stops.
    - App: once it is requested the shutdown happens, and the loop is left for no
      other reason but an exception or the end of the program.
    - Faults of the code, stated as theorems: a failed seek leaves its payload on
      the stream, setting times hides a file from the cached listing, a cached stat
      outlives writes and truncations of its file and moves of its directory, a path too
      long leaves its type byte in the buffer, a refused connection goes unnoticed, one
      that fails its handshake leaks its socket, refused opens leak their context, a
      failed bind is announced as success, a failing adb ends the program, the menu of
      the tray icon is never destroyed.

    ** What is left out

    Threads interleave in CacheThreads (the steps of the caches), SharedConnection (the
    requests, whose operations on the caches are single steps there), App (the main
    thread and the callback), Nandroid (the thread that runs the agent is the list of
    events that happen before the thread that waits for it wakes up) and Traffic
    (requests and the thread that logs); elsewhere a request is a single step.  A
    request that throws is not among the steps of SharedConnection.  Data races are not
    modelled.  Log messages are modelled where a theorem is about them (Logger, App, the
    daemon's output); the text that std::format produces is the standard library's.  A
    [recv] or file-system call that blocks for ever and a process that never exits are
    outside the model.
    nandroidfs/StatCache.cpp and nandroidfs/responses.cpp are superseded and part of
    no build. *)

From Stdlib Require Import ZArith Lia.
From Stdlib Require Export Strings.Byte.
From stdpp Require Export base gmap list numbers option strings.

#[global] Open Scope Z_scope.

(** ** Machine integers

    A [w]-bit unsigned integer is a [Z] in [[0, 2^w)]; a [w]-bit signed one is
    a [Z] in [[-2^(w-1), 2^(w-1))].  [wrap] and [to_signed] are the C++
    conversions to those types (modular, as C++20 defines them). *)
Definition wrap (w : Z) (z : Z) : Z := z mod 2 ^ w.

Definition to_signed (w : Z) (z : Z) : Z :=
  let u := z mod 2 ^ w in if u <? 2 ^ (w - 1) then u else u - 2 ^ w.

Abbreviation to_u8 := (wrap 8).
Abbreviation to_u16 := (wrap 16).
Abbreviation to_u32 := (wrap 32).
Abbreviation to_u64 := (wrap 64).
Abbreviation to_i32 := (to_signed 32).
Abbreviation to_i64 := (to_signed 64).

Definition is_unsigned (w z : Z) : Prop := 0 ≤ z < 2 ^ w.
Definition is_signed (w z : Z) : Prop := - 2 ^ (w - 1) ≤ z < 2 ^ (w - 1).

Abbreviation is_u8 := (is_unsigned 8).
Abbreviation is_u16 := (is_unsigned 16).
Abbreviation is_u32 := (is_unsigned 32).
Abbreviation is_u64 := (is_unsigned 64).
Abbreviation is_i64 := (is_signed 64).

Lemma wrap_id (w z : Z) : is_unsigned w z → wrap w z = z.
Proof. intros H. unfold wrap, is_unsigned in *. by apply Z.mod_small. Qed.

Lemma wrap_range (w z : Z) : 0 ≤ w → is_unsigned w (wrap w z).
Proof. intros Hw. unfold is_unsigned, wrap. apply Z.mod_pos_bound. lia. Qed.

Lemma pow2_split (w : Z) : 0 < w → 2 ^ w = 2 * 2 ^ (w - 1).
Proof. intros H. replace w with (1 + (w - 1)) at 1 by lia. rewrite Z.pow_add_r by lia. lia. Qed.

Lemma to_signed_id (w z : Z) : 0 < w → is_signed w z → to_signed w z = z.
Proof.
  intros Hw [Hlo Hhi]. unfold to_signed. pose proof (pow2_split w Hw) as E.
  destruct (Z.ltb_spec (z mod 2 ^ w) (2 ^ (w - 1))).
  - destruct (Z_le_gt_dec 0 z); [apply Z.mod_small; lia|].
    rewrite <- (Z.mod_unique z (2 ^ w) (-1) (z + 2 ^ w)) in *; lia.
  - destruct (Z_le_gt_dec 0 z); [rewrite Z.mod_small in *; lia|].
    rewrite <- (Z.mod_unique z (2 ^ w) (-1) (z + 2 ^ w)); lia.
Qed.

Lemma to_signed_wrap (w z : Z) : 0 < w → is_signed w z → to_signed w (wrap w z) = z.
Proof.
  intros Hw Hz. rewrite <- (to_signed_id w z Hw Hz) at 2.
  unfold to_signed, wrap. by rewrite Z.mod_mod by lia.
Qed.

Lemma to_signed_range (w z : Z) : 0 < w → is_signed w (to_signed w z).
Proof.
  intros Hw. unfold is_signed, to_signed. pose proof (pow2_split w Hw).
  pose proof (Z.mod_pos_bound z (2 ^ w) ltac:(lia)).
  destruct (Z.ltb_spec (z mod 2 ^ w) (2 ^ (w - 1))); lia.
Qed.

Lemma to_signed_nonneg (w z : Z) : 0 < w → 0 ≤ z < 2 ^ (w - 1) → to_signed w z = z.
Proof. intros Hw Hz. apply to_signed_id; [done|]. unfold is_signed. lia. Qed.

Lemma to_signed_le (w z : Z) : 0 < w → is_unsigned w z → to_signed w z ≤ z.
Proof.
  unfold is_unsigned. intros Hw Hz. unfold to_signed. rewrite Z.mod_small by lia.
  pose proof (pow2_split w Hw). repeat case_match; lia.
Qed.

(** ** Bytes

    [uint8_t] and [char] objects in memory are Rocq bytes; [b2z] and [z2b]
    convert to and from the unsigned 8-bit value. *)
Definition b2z (b : byte) : Z := Z.of_N (Byte.to_N b).

Definition z2b (z : Z) : byte := default x00 (Byte.of_N (Z.to_N (z mod 256))).

Lemma b2z_range (b : byte) : 0 ≤ b2z b < 256.
Proof. unfold b2z. pose proof (Byte.to_N_bounded b). lia. Qed.

Lemma b2z_z2b (z : Z) : b2z (z2b z) = z mod 256.
Proof.
  unfold b2z, z2b. pose proof (Z.mod_pos_bound z 256 eq_refl).
  destruct (Byte.of_N (Z.to_N (z mod 256))) as [b|] eqn:E; simpl.
  - apply Byte.to_of_N in E. rewrite E. lia.
  - apply Byte.of_N_None_iff in E. lia.
Qed.

Lemma z2b_b2z (b : byte) : z2b (b2z b) = b.
Proof.
  unfold z2b. rewrite Z.mod_small by apply b2z_range.
  unfold b2z. by rewrite N2Z.id, Byte.of_to_N.
Qed.

Lemma b2z_inj (a b : byte) : b2z a = b2z b → a = b.
Proof. intros E. rewrite <- (z2b_b2z a), <- (z2b_b2z b). by rewrite E. Qed.

#[global] Instance byte_eq_dec : EqDecision byte := Byte.byte_eq_dec.

#[global] Instance byte_countable : Countable byte :=
  inj_countable Byte.to_N Byte.of_N Byte.of_to_N.

(** A [std::string] is its list of bytes; [bs "..."] writes a literal. *)
Abbreviation bytes := (list byte).
Abbreviation bs := String.list_byte_of_string.

(** ** Lists indexed by integers *)
Definition zlen {A} (l : list A) : Z := Z.of_nat (length l).
Definition ztake {A} (n : Z) (l : list A) : list A := take (Z.to_nat n) l.
Definition zdrop {A} (n : Z) (l : list A) : list A := drop (Z.to_nat n) l.

Lemma zlen_nonneg {A} (l : list A) : 0 ≤ zlen l.
Proof. unfold zlen. lia. Qed.

Lemma zlen_app {A} (k l : list A) : zlen (k ++ l) = zlen k + zlen l.
Proof. unfold zlen. rewrite length_app. lia. Qed.

Lemma zlen_nil {A} : zlen (@nil A) = 0.
Proof. done. Qed.

Lemma zlen_cons {A} (x : A) (l : list A) : zlen (x :: l) = 1 + zlen l.
Proof. unfold zlen. simpl. lia. Qed.

Lemma zlen_zero {A} (l : list A) : zlen l = 0 → l = [].
Proof. unfold zlen. destruct l; simpl; [done|lia]. Qed.

Lemma zlen_ztake {A} (n : Z) (l : list A) : zlen (ztake n l) = Z.max 0 (Z.min n (zlen l)).
Proof. unfold zlen, ztake. rewrite length_take. lia. Qed.

Lemma zlen_zdrop {A} (n : Z) (l : list A) : zlen (zdrop n l) = Z.max 0 (zlen l - Z.max 0 n).
Proof. unfold zlen, zdrop. rewrite length_drop. lia. Qed.

Lemma ztake_zdrop {A} (n : Z) (l : list A) : ztake n l ++ zdrop n l = l.
Proof. apply take_drop. Qed.

Lemma ztake_app_exact {A} (n : Z) (k l : list A) : zlen k = n → ztake n (k ++ l) = k.
Proof. unfold zlen, ztake. intros <-. rewrite Nat2Z.id. apply take_app_length. Qed.

Lemma zdrop_app_exact {A} (n : Z) (k l : list A) : zlen k = n → zdrop n (k ++ l) = l.
Proof. unfold zlen, zdrop. intros <-. rewrite Nat2Z.id. apply drop_app_length. Qed.

Lemma ztake_all {A} (n : Z) (l : list A) : zlen l ≤ n → ztake n l = l.
Proof. unfold zlen, ztake. intros. apply take_ge. lia. Qed.

Lemma zdrop_all {A} (n : Z) (l : list A) : zlen l ≤ n → zdrop n l = [].
Proof. unfold zlen, zdrop. intros. apply drop_ge. lia. Qed.

Lemma ztake_nonpos {A} (n : Z) (l : list A) : n ≤ 0 → ztake n l = [].
Proof. unfold ztake. intros. by rewrite Z2Nat.nonpos. Qed.

Lemma zdrop_nonpos {A} (n : Z) (l : list A) : n ≤ 0 → zdrop n l = l.
Proof. unfold zdrop. intros. by rewrite Z2Nat.nonpos. Qed.

Lemma zdrop_zdrop {A} (n m : Z) (l : list A) :
  0 ≤ n → 0 ≤ m → zdrop n (zdrop m l) = zdrop (m + n) l.
Proof. unfold zdrop. intros. rewrite drop_drop. f_equal. lia. Qed.

Lemma ztake_app_le {A} (n : Z) (k l : list A) : n ≤ zlen k → ztake n (k ++ l) = ztake n k.
Proof. unfold zlen, ztake. intros. apply take_app_le. lia. Qed.

Lemma zdrop_app_le {A} (n : Z) (k l : list A) : n ≤ zlen k → zdrop n (k ++ l) = zdrop n k ++ l.
Proof. unfold zlen, zdrop. intros. apply drop_app_le. lia. Qed.

(** Turns every length fact into linear arithmetic over [zlen]. *)
Ltac zlen_norm :=
  repeat first [ rewrite zlen_app in * | rewrite zlen_cons in * | rewrite zlen_nil in *
               | rewrite zlen_ztake in * | rewrite zlen_zdrop in * ].
Ltac zlia :=
  repeat match goal with
  | l : list _ |- _ =>
      lazymatch goal with _ : 0 ≤ zlen l |- _ => fail | _ => pose proof (zlen_nonneg l) end
  end; zlen_norm; lia.

(** ** Executions

    Every execution from [s] gets to a state of [P]: the next step exists, and
    whichever it is, the same holds after it. *)
Inductive inevitable {A} (R : A → A → Prop) (P : A → Prop) : A → Prop :=
  | inev_now s : P s → inevitable R P s
  | inev_next s : (∃ s', R s s') → (∀ s', R s s' → inevitable R P s') → inevitable R P s.

Lemma inevitable_mono {A} (R : A → A → Prop) (P Q : A → Prop) s :
  (∀ s', P s' → Q s') → inevitable R P s → inevitable R Q s.
Proof. intros HPQ. induction 1; [by apply inev_now, HPQ|by apply inev_next]. Qed.
