(* ===== verification/Effects.v ===== *)
(** * Effects: the state-and-exception monad the program is written in

    A C++ function that mutates an object and may throw is a function from the
    object's state to its new state and a result.  An exception does not roll
    the state back: whatever was mutated before the throw stays mutated, so the
    new state is there in both cases. *)

From S2P Require Import Prelude.

(** ** Exceptions

    The exceptions the program throws or lets through, and the ways an execution can
    end that are none: [UndefinedBehaviour], to which the C++ standard gives no meaning
    (a pointer that points to nothing, an index outside an array); [BufferOverrun], the
    same for the one buffer that is filled by the count a peer sends;
    [ProcessAborted], when the runtime ends the process; and [OutOfFuel], the model's
    own: a loop ran longer than the bound its definition was given, or a wait does not
    end. *)
Inductive exn : Type :=
  | EOFException
  | RuntimeError (what : string)
  | UnixException (err_num : Z)
  | WinSockException (err_code : Z)
  | UndefinedBehaviour
  | BufferOverrun
  | ProcessAborted
  | OutOfFuel.

#[global] Instance exn_eq_dec : EqDecision exn.
Proof. solve_decision. Defined.

(** Failures of the transport below the program: what a socket call throws. *)
Definition io_error (e : exn) : bool :=
  match e with UnixException _ | WinSockException _ => true | _ => false end.

(** A C++ exception, which a [catch] block can catch; the other ends pass by it. *)
Definition is_catchable (e : exn) : bool :=
  match e with UndefinedBehaviour | BufferOverrun | ProcessAborted | OutOfFuel => false | _ => true end.
Definition catchable (e : exn) : Prop := is_catchable e = true.

Lemma io_catchable e : io_error e = true → catchable e.
Proof. by destruct e. Qed.

Inductive result (A : Type) : Type :=
  | Ok (a : A)
  | Throw (e : exn).
Arguments Ok {A} _.
Arguments Throw {A} _.

Definition M (S A : Type) : Type := S → S * result A.

Section Monad.
Context {S : Type}.

Definition ret {A} (a : A) : M S A := λ s, (s, Ok a).
Definition throw {A} (e : exn) : M S A := λ s, (s, Throw e).
Definition bind {A B} (m : M S A) (k : A → M S B) : M S B :=
  λ s, match m s with
       | (s', Ok a) => k a s'
       | (s', Throw e) => (s', Throw e)
       end.
Definition try_catch {A} (m : M S A) (h : exn → M S A) : M S A :=
  λ s, match m s with
       | (s', Ok a) => (s', Ok a)
       | (s', Throw e) => if is_catchable e then h e s' else (s', Throw e)
       end.
Definition gets {A} (f : S → A) : M S A := λ s, (s, Ok (f s)).
Definition modify (f : S → S) : M S unit := λ s, (f s, Ok tt).
End Monad.

Declare Scope effect_scope.
Delimit Scope effect_scope with effect.
#[global] Open Scope effect_scope.

Notation "'let*' x := m 'in' k" := (bind m (λ x, k))
  (at level 10, x name, m at level 100, k at level 200) : effect_scope.
Notation "'let*' ' p := m 'in' k" := (bind m (λ x, match x with p => k end))
  (at level 10, p strict pattern, m at level 100, k at level 200) : effect_scope.
Notation "'do*' m 'in' k" := (bind m (λ _ : unit, k))
  (at level 10, m at level 100, k at level 200) : effect_scope.

(** ** Sub-objects

    A [lens] picks a sub-object out of an object; [zoom] runs a member function
    of the sub-object inside the enclosing object. *)
Record lens (T S : Type) : Type := Lens { view : T → S; update : S → T → T }.
Arguments Lens {T S} _ _.
Arguments view {T S} _ _.
Arguments update {T S} _ _ _.

Class LensLaws {T S} (L : lens T S) : Prop := {
  view_update : ∀ s t, view L (update L s t) = s;
  update_view : ∀ t, update L (view L t) t = t;
  update_update : ∀ s s' t, update L s' (update L s t) = update L s' t;
}.

Definition zoom {T S A} (L : lens T S) (m : M S A) : M T A :=
  λ t, let '(s', r) := m (view L t) in (update L s' t, r).

(** ** Weakest preconditions

    [wp m Φ E s]: run from [s], [m] either returns a value and a state that
    satisfy [Φ], or throws with an exception and a state that satisfy [E]. *)
Definition wp {S A} (m : M S A) (Φ : A → S → Prop) (E : exn → S → Prop) (s : S) : Prop :=
  match m s with
  | (s', Ok a) => Φ a s'
  | (s', Throw e) => E e s'
  end.

(** The exceptional postcondition of code that can only fail because its
    transport does. *)
Definition only_io {S} (e : exn) (s : S) : Prop := io_error e = true.

Section Wp.
Context {S : Type}.
Implicit Types s : S.

Lemma wp_ret {A} (a : A) Φ E s : Φ a s → wp (ret a) Φ E s.
Proof. done. Qed.

Lemma wp_throw {A} e (Φ : A → S → Prop) E s : E e s → wp (throw e) Φ E s.
Proof. done. Qed.

Lemma wp_gets {A} (f : S → A) Φ E s : Φ (f s) s → wp (gets f) Φ E s.
Proof. done. Qed.

Lemma wp_modify f (Φ : unit → S → Prop) E s : Φ tt (f s) → wp (modify f) Φ E s.
Proof. done. Qed.

Lemma wp_bind {A B} (m : M S A) (k : A → M S B) Φ E s :
  wp m (λ a s', wp (k a) Φ E s') E s → wp (bind m k) Φ E s.
Proof. unfold wp, bind. by destruct (m s) as [s' [a|e]]. Qed.

Lemma wp_try_catch {A} (m : M S A) h Φ E s :
  wp m Φ (λ e s', if is_catchable e then wp (h e) Φ E s' else E e s') s → wp (try_catch m h) Φ E s.
Proof. unfold wp, try_catch. destruct (m s) as [s' [a|e]]; [done|]. by destruct (is_catchable e). Qed.

Lemma wp_mono {A} (m : M S A) (Φ Ψ : A → S → Prop) (E F : exn → S → Prop) s :
  wp m Φ E s → (∀ a s', Φ a s' → Ψ a s') → (∀ e s', E e s' → F e s') → wp m Ψ F s.
Proof. unfold wp. destruct (m s) as [s' [a|e]]; auto. Qed.

(** Code that fails with C++ exceptions only has them all caught. *)
Lemma wp_try_catch_all {A} (m : M S A) h Φ E s :
  wp m Φ (λ e s', catchable e ∧ wp (h e) Φ E s') s → wp (try_catch m h) Φ E s.
Proof.
  intros Hm. apply wp_try_catch. eapply wp_mono; [exact Hm|done|]. intros e s' [He Hh]. unfold catchable in He. by rewrite He.
Qed.

Lemma wp_conj {A} (m : M S A) (Φ Ψ : A → S → Prop) (E F : exn → S → Prop) s :
  wp m Φ E s → wp m Ψ F s → wp m (λ a s', Φ a s' ∧ Ψ a s') (λ e s', E e s' ∧ F e s') s.
Proof. unfold wp. by destruct (m s) as [s' [a|e]]. Qed.

Lemma wp_weaken {A} (m : M S A) (Φ : A → S → Prop) (E : exn → S → Prop) s :
  wp m Φ only_io s → (∀ e s', io_error e = true → E e s') → wp m Φ E s.
Proof. intros Hm HE. by eapply wp_mono. Qed.

Lemma wp_zoom {T A} (L : lens T S) (m : M S A) Φ E (t : T) :
  wp m (λ a s', Φ a (update L s' t)) (λ e s', E e (update L s' t)) (view L t) →
  wp (zoom L m) Φ E t.
Proof. unfold wp, zoom. by destruct (m (view L t)) as [s' [a|e]]. Qed.

Lemma wp_ok {A} (m : M S A) a s s' :
  wp m (λ a' s'', a' = a ∧ s'' = s') (λ _ _, False) s → m s = (s', Ok a).
Proof. unfold wp. destruct (m s) as [s1 [a1|e]]; [|done]. by intros [-> ->]. Qed.

Lemma wp_if {A} (b : bool) (m n : M S A) Φ E s :
  (b = true → wp m Φ E s) → (b = false → wp n Φ E s) → wp (if b then m else n) Φ E s.
Proof. destruct b; auto. Qed.
End Wp.

(** ** Calls that may not come back

    How a call ends where the model follows more than exceptions: it is done, it has
    ended the program, or it is stuck, waiting for something that does not happen. *)
Inductive fate (A : Type) : Type :=
  | Done (a : A)
  | Ended
  | Stuck.
Arguments Done {A} _.
Arguments Ended {A}.
Arguments Stuck {A}.

Definition fate_bind {A B} (m : fate A) (k : A → fate B) : fate B :=
  match m with Done a => k a | Ended => Ended | Stuck => Stuck end.

Notation "'let?' x := m 'in' k" := (fate_bind m (λ x, k))
  (at level 10, x name, m at level 100, k at level 200) : effect_scope.
Notation "'let?' ' p := m 'in' k" := (fate_bind m (λ x, match x with p => k end))
  (at level 10, p strict pattern, m at level 100, k at level 200) : effect_scope.

(** The call does not get stuck; when it is done, [Φ] holds of what it gives, and when
    it ends the program, [T] holds. *)
Definition fwp {A} (m : fate A) (Φ : A → Prop) (T : Prop) : Prop :=
  match m with Done a => Φ a | Ended => T | Stuck => False end.

Lemma fwp_bind {A B} (m : fate A) (k : A → fate B) Φ T :
  fwp m (λ a, fwp (k a) Φ T) T → fwp (fate_bind m k) Φ T.
Proof. by destruct m. Qed.

Lemma fwp_mono {A} (m : fate A) (Φ Ψ : A → Prop) (T U : Prop) :
  fwp m Φ T → (∀ a, Φ a → Ψ a) → (T → U) → fwp m Ψ U.
Proof. destruct m; simpl; auto. Qed.

(** Equality of computations is pointwise; the monad laws hold for it, so
    programs can be rearranged under [≡]. *)
#[global] Instance M_equiv {S A} : Equiv (M S A) := λ m n, ∀ s, m s = n s.

#[global] Instance M_equivalence {S A} : Equivalence (≡@{M S A}).
Proof.
  split; [by intros m s|by intros m n H s; rewrite H|].
  intros m n k H1 H2 s. by rewrite (H1 s), (H2 s).
Qed.

#[global] Instance bind_proper {S A B} :
  Proper ((≡) ==> pointwise_relation A (≡) ==> (≡)) (@bind S A B).
Proof.
  intros m n Hmn k l Hkl s. unfold bind. rewrite (Hmn s).
  destruct (n s) as [s' [a|e]]; [apply Hkl|done].
Qed.

#[global] Instance wp_proper {S A} :
  Proper ((≡@{M S A}) ==> pointwise_relation A (pointwise_relation S iff)
          ==> pointwise_relation exn (pointwise_relation S iff) ==> (=) ==> iff) wp.
Proof.
  intros m n Hmn Φ Ψ HΦ E F HE s ? <-. unfold wp. rewrite (Hmn s).
  destruct (n s) as [s' [a|e]]; [apply HΦ|apply HE].
Qed.

Lemma bind_ret_l {S A B} (a : A) (k : A → M S B) : bind (ret a) k ≡ k a.
Proof. by intros s. Qed.

Lemma bind_assoc {S A B C} (m : M S A) (k : A → M S B) (l : B → M S C) :
  bind (bind m k) l ≡ bind m (λ a, bind (k a) l).
Proof. intros s. unfold bind. by destruct (m s) as [s' [a|e]]. Qed.

Lemma zoom_bind {T S A B} (L : lens T S) `{!LensLaws L} (m : M S A) (k : A → M S B) :
  zoom L (bind m k) ≡ bind (zoom L m) (λ a, zoom L (k a)).
Proof.
  intros t. unfold zoom, bind. destruct (m (view L t)) as [s' [a|e]]; [|done].
  rewrite view_update. destruct (k a s') as [s'' r]. by rewrite update_update.
Qed.

(** One symbolic-execution step. *)
Ltac wp_step :=
  lazymatch goal with
  | |- wp (bind _ _) _ _ _ => apply wp_bind
  | |- wp (ret _) _ _ _ => apply wp_ret
  | |- wp (throw _) _ _ _ => apply wp_throw
  | |- wp (gets _) _ _ _ => apply wp_gets
  | |- wp (modify _) _ _ _ => apply wp_modify
  | |- wp (try_catch _ _) _ _ _ => apply wp_try_catch
  | |- wp (if _ then _ else _) _ _ _ => apply wp_if; intros ?
  end.
