(* ===== verification/Endian.v ===== *)
(** * Byte order: integers in memory and on the wire

    The conversions of nandroid_shared/serialization.cpp.  The same source is
    built for the Windows client (winsock's [htonll]) and for the daemon, where
    [htonll] and [ntohll] are the file's own; what reaches the wire is big-endian
    in every build. *)

From S2P Require Import Prelude.

Inductive endian : Type := LittleEndian | BigEndian.

(** The build targets: [_WIN32], or not, with the compiler's [__BYTE_ORDER__]. *)
Inductive host : Type := Win32 | Unix (byte_order : endian).

Definition host_order (h : host) : endian :=
  match h with Win32 => LittleEndian | Unix e => e end.

(** ** Object representation of an [n]-byte unsigned integer *)
Fixpoint le_split (n : nat) (z : Z) : bytes :=
  match n with
  | O => []
  | S n => z2b z :: le_split n (z / 256)
  end.

Fixpoint le_combine (l : bytes) : Z :=
  match l with
  | [] => 0
  | b :: l => b2z b + 256 * le_combine l
  end.

Definition store (e : endian) (n : nat) (z : Z) : bytes :=
  match e with LittleEndian => le_split n z | BigEndian => reverse (le_split n z) end.

Definition load (e : endian) (l : bytes) : Z :=
  match e with LittleEndian => le_combine l | BigEndian => le_combine (reverse l) end.

(** Network byte order. *)
Definition be_split (n : nat) (z : Z) : bytes := store BigEndian n z.
Definition be_combine (l : bytes) : Z := load BigEndian l.

Definition bswap (n : nat) (z : Z) : Z := le_combine (reverse (le_split n z)).

Definition htons (h : host) (v : Z) : Z :=
  match host_order h with LittleEndian => bswap 2 v | BigEndian => v end.
Definition htonl (h : host) (v : Z) : Z :=
  match host_order h with LittleEndian => bswap 4 v | BigEndian => v end.

(** [htonll] outside Windows, from two 32-bit swaps:
    [(uint64_t) htonl(v) << 32 | (uint64_t) htonl(v >> 32)]. *)
Definition unix_htonll (e : endian) (v : Z) : Z :=
  match e with
  | LittleEndian =>
      Z.lor (to_u64 (Z.shiftl (htonl (Unix LittleEndian) (to_u32 v)) 32))
            (htonl (Unix LittleEndian) (to_u32 (Z.shiftr v 32)))
  | BigEndian => v
  end.

Definition htonll (h : host) (v : Z) : Z :=
  match h with Win32 => bswap 8 v | Unix e => unix_htonll e v end.

Definition ntohs := htons.
Definition ntohl := htonl.
Definition ntohll := htonll.

(** ** Splitting and combining *)
Lemma length_le_split (n : nat) (z : Z) : length (le_split n z) = n.
Proof. revert z. induction n; intros; simpl; auto. Qed.

Lemma length_be_split (n : nat) (z : Z) : length (be_split n z) = n.
Proof. unfold be_split, store. by rewrite length_reverse, length_le_split. Qed.

Lemma pow256_succ (n : nat) : 256 ^ Z.of_nat (S n) = 256 * 256 ^ Z.of_nat n.
Proof. rewrite Nat2Z.inj_succ, Z.pow_succ_r; lia. Qed.

Lemma le_combine_split (n : nat) (z : Z) : le_combine (le_split n z) = z mod 256 ^ Z.of_nat n.
Proof.
  revert z. induction n as [|n IH]; intros z; [by rewrite Z.mod_1_r|].
  cbn [le_split le_combine]. rewrite IH, b2z_z2b, pow256_succ.
  rewrite Z.rem_mul_r by lia. lia.
Qed.

Lemma le_combine_bound (l : bytes) : 0 ≤ le_combine l < 256 ^ Z.of_nat (length l).
Proof.
  induction l as [|b l IH]; [done|].
  cbn [le_combine length]. rewrite pow256_succ. pose proof (b2z_range b). lia.
Qed.

Lemma z2b_mod (b : byte) (k : Z) : z2b (b2z b + 256 * k) = b.
Proof.
  unfold z2b. rewrite Z.mul_comm, Z.mod_add by lia.
  pose proof (z2b_b2z b) as E. unfold z2b in E. exact E.
Qed.

Lemma le_split_combine (l : bytes) : le_split (length l) (le_combine l) = l.
Proof.
  induction l as [|b l IH]; [done|]. cbn [le_combine length le_split].
  rewrite z2b_mod. f_equal. pose proof (b2z_range b).
  rewrite Z.mul_comm, Z.div_add, Z.div_small by lia. exact IH.
Qed.

Lemma le_split_add (n m : nat) (z : Z) :
  le_split (n + m) z = le_split n z ++ le_split m (z / 256 ^ Z.of_nat n).
Proof.
  revert z. induction n as [|n IH]; intros z; [by rewrite Z.div_1_r|].
  cbn [le_split Nat.add app]. rewrite IH, pow256_succ, Z.div_div by lia. done.
Qed.

Lemma z2b_mod256 (z : Z) : z2b (z mod 256) = z2b z.
Proof. unfold z2b. by rewrite Z.mod_mod by lia. Qed.

Lemma le_split_mod (n : nat) (z : Z) : le_split n (z mod 256 ^ Z.of_nat n) = le_split n z.
Proof. rewrite <- le_combine_split. rewrite <- (length_le_split n z) at 1. apply le_split_combine. Qed.

Lemma le_combine_app (k l : bytes) :
  le_combine (k ++ l) = le_combine k + 256 ^ Z.of_nat (length k) * le_combine l.
Proof.
  induction k as [|b k IH]; [by simpl; destruct (le_combine l)|].
  cbn [app le_combine length]. rewrite IH, pow256_succ. lia.
Qed.

Lemma bswap_bswap (n : nat) (z : Z) : bswap n (bswap n z) = z mod 256 ^ Z.of_nat n.
Proof.
  unfold bswap.
  replace (le_split n (le_combine (reverse (le_split n z)))) with (reverse (le_split n z)).
  - by rewrite reverse_involutive, le_combine_split.
  - rewrite <- (le_split_combine (reverse (le_split n z))) at 1.
    by rewrite length_reverse, length_le_split.
Qed.

(** ** [htonll] is a 64-bit byte swap *)
Lemma lor_shiftl_add (a b k : Z) :
  0 ≤ k → 0 ≤ a < 2 ^ k → Z.lor (Z.shiftl b k) a = b * 2 ^ k + a.
Proof.
  intros Hk Ha. rewrite <- Z.shiftl_mul_pow2 by done.
  assert (D : Z.land (Z.shiftl b k) a = 0).
  { apply Z.bits_inj'. intros i Hi. rewrite Z.land_spec, Z.bits_0.
    destruct (Z_lt_ge_dec i k); [by rewrite Z.shiftl_spec_low|].
    rewrite <- (Z.mod_small a (2 ^ k)) by lia.
    rewrite Z.mod_pow2_bits_high by lia. apply andb_false_r. }
  by rewrite Z.add_nocarry_lxor, Z.lxor_lor.
Qed.

Lemma unix_htonll_bswap (v : Z) : is_u64 v → unix_htonll LittleEndian v = bswap 8 v.
Proof.
  intros Hv. unfold unix_htonll, htonl. cbn [host_order]. unfold bswap.
  change 8%nat with (4 + 4)%nat. rewrite le_split_add, reverse_app, le_combine_app.
  rewrite length_reverse, length_le_split.
  change (256 ^ Z.of_nat 4) with (2 ^ 32).
  assert (B : ∀ z, 0 ≤ le_combine (reverse (le_split 4 z)) < 2 ^ 32).
  { intros z. pose proof (le_combine_bound (reverse (le_split 4 z))) as H.
    by rewrite length_reverse, length_le_split in H. }
  assert (W : ∀ z, le_split 4 (to_u32 z) = le_split 4 z)
    by (intros z; apply (le_split_mod 4)).
  rewrite !W, Z.shiftr_div_pow2 by lia.
  pose proof (B v). pose proof (B (v / 2 ^ 32)).
  rewrite wrap_id.
  - rewrite lor_shiftl_add by (done || lia). lia.
  - unfold is_unsigned. rewrite Z.shiftl_mul_pow2 by lia. change (2 ^ 64) with (2 ^ 32 * 2 ^ 32). nia.
Qed.

(** ** Host integers reach the wire in network order, on every host *)
Lemma store_hton (h : host) (n : nat) (z hz : Z) :
  hz = match host_order h with LittleEndian => bswap n z | BigEndian => z end →
  store (host_order h) n hz = be_split n z.
Proof.
  intros ->. unfold be_split, store. destruct (host_order h); [|done].
  unfold bswap. rewrite <- (le_split_combine (reverse (le_split n z))) at 2.
  by rewrite length_reverse, length_le_split.
Qed.

Lemma load_ntoh (h : host) (n : nat) (l : bytes) :
  length l = n →
  (match host_order h with
   | LittleEndian => bswap n (load (host_order h) l) | BigEndian => load (host_order h) l
   end) = be_combine l.
Proof.
  intros <-. unfold be_combine, load. destruct (host_order h); [|done].
  unfold bswap. by rewrite le_split_combine.
Qed.

Lemma htonll_spec (h : host) (v : Z) :
  is_u64 v →
  htonll h v = match host_order h with LittleEndian => bswap 8 v | BigEndian => v end.
Proof. intros Hv. destruct h as [|[]]; [done|by apply unix_htonll_bswap|done]. Qed.

Lemma load_range (e : endian) (l : bytes) : 0 ≤ load e l < 256 ^ Z.of_nat (length l).
Proof.
  destruct e; unfold load; [apply le_combine_bound|].
  pose proof (le_combine_bound (reverse l)) as H. by rewrite length_reverse in H.
Qed.

Lemma store_htons h v : store (host_order h) 2 (htons h v) = be_split 2 v.
Proof. by apply store_hton. Qed.
Lemma store_htonl h v : store (host_order h) 4 (htonl h v) = be_split 4 v.
Proof. by apply store_hton. Qed.
Lemma store_htonll h v : is_u64 v → store (host_order h) 8 (htonll h v) = be_split 8 v.
Proof. intros. apply store_hton. by apply htonll_spec. Qed.

Lemma ntohs_load h l : length l = 2%nat → ntohs h (load (host_order h) l) = be_combine l.
Proof. apply load_ntoh. Qed.
Lemma ntohl_load h l : length l = 4%nat → ntohl h (load (host_order h) l) = be_combine l.
Proof. apply load_ntoh. Qed.
Lemma ntohll_load h l : length l = 8%nat → ntohll h (load (host_order h) l) = be_combine l.
Proof.
  intros Hl. unfold ntohll. rewrite htonll_spec; [by apply load_ntoh|].
  pose proof (load_range (host_order h) l) as H. by rewrite Hl in H.
Qed.

Lemma be_combine_split (n : nat) (z : Z) :
  0 ≤ z < 256 ^ Z.of_nat n → be_combine (be_split n z) = z.
Proof.
  intros Hz. unfold be_combine, be_split, load, store.
  by rewrite reverse_involutive, le_combine_split, Z.mod_small.
Qed.

Lemma be_split_mod (n : nat) (z : Z) : be_split n (z mod 256 ^ Z.of_nat n) = be_split n z.
Proof. unfold be_split, store. by rewrite le_split_mod. Qed.

Lemma be_split_combine (n : nat) (l : bytes) : length l = n → be_split n (be_combine l) = l.
Proof.
  intros <-. unfold be_combine, be_split, load, store.
  rewrite <- (length_reverse l), le_split_combine. apply reverse_involutive.
Qed.

Lemma be_combine_range (l : bytes) : 0 ≤ be_combine l < 256 ^ Z.of_nat (length l).
Proof. apply load_range. Qed.

(** ** Claims *)

(** C30. The file's own [htonll] (two 32-bit swaps joined by a shift and an or,
    built where winsock's is missing) is the 64-bit byte swap on every 64-bit
    value: the two builds of serialization.cpp agree, and applying it twice gives
    the value back. *)
Theorem unix_htonll_equivalent (v : Z) :
  is_u64 v →
  htonll (Unix LittleEndian) v = htonll Win32 v ∧
  ntohll (Unix LittleEndian) (htonll (Unix LittleEndian) v) = v.
Proof.
  intros Hv. assert (Hb : is_u64 (bswap 8 v)).
  { unfold bswap. pose proof (le_combine_bound (reverse (le_split 8 v))) as Hr.
    by rewrite length_reverse, length_le_split in Hr. }
  unfold ntohll, htonll. rewrite unix_htonll_bswap by done. split; [done|].
  rewrite unix_htonll_bswap, bswap_bswap by done. by apply Z.mod_small.
Qed.

Lemma unix_htonll_equivalent_witness :
  htonll (Unix LittleEndian) 0x0123456789ABCDEF = 0xEFCDAB8967452301 ∧
  htonll (Unix LittleEndian) 0x0123456789ABCDEF = htonll Win32 0x0123456789ABCDEF ∧
  ntohll (Unix LittleEndian) (htonll (Unix LittleEndian) 0x0123456789ABCDEF) = 0x0123456789ABCDEF.
Proof.
  split; [vm_compute; reflexivity|].
  apply (unix_htonll_equivalent 0x0123456789ABCDEF). unfold is_unsigned; lia.
Defined.
