(* ===== verification/Wire.v ===== *)
(** * The wire format, as a reference

    Encoders and decoders over byte lists, with no buffering and no I/O: the
    specification that the classes of serialization.cpp implement and that the
    message types of requests.cpp and responses.cpp are built from. *)

From S2P Require Import Prelude Endian.

(** ** Decoders *)
Definition parser (A : Type) : Type := bytes → option (A * bytes).

Definition pret {A} (a : A) : parser A := λ l, Some (a, l).

Definition pbind {A B} (p : parser A) (q : A → parser B) : parser B :=
  λ l, match p l with Some (a, l') => q a l' | None => None end.

Declare Scope parser_scope.
Delimit Scope parser_scope with parser.
#[global] Open Scope parser_scope.
Notation "'let!' x := p 'in' q" := (pbind p (λ x, q))
  (at level 10, x name, p at level 100, q at level 200) : parser_scope.

Definition ptake (n : Z) : parser bytes :=
  λ l, if n <=? zlen l then Some (ztake n l, zdrop n l) else None.

Definition p_uint (n : nat) : parser Z := let! d := ptake (Z.of_nat n) in pret (be_combine d).
Definition p_u8 : parser Z := p_uint 1.
Definition p_u16 : parser Z := p_uint 2.
Definition p_u32 : parser Z := p_uint 4.
Definition p_u64 : parser Z := p_uint 8.
Definition p_string : parser bytes := let! n := p_u16 in ptake n.

(** ** Encoders *)
Definition e_u8 (z : Z) : bytes := be_split 1 z.
Definition e_u16 (z : Z) : bytes := be_split 2 z.
Definition e_u32 (z : Z) : bytes := be_split 4 z.
Definition e_u64 (z : Z) : bytes := be_split 8 z.
Definition e_string (s : bytes) : bytes := e_u16 (zlen s) ++ s.

(** Strings that fit the 2-byte length prefix. *)
Definition short (s : bytes) : Prop := zlen s ≤ 65535.

(** ** The interface of a message type

    A decoder that inverts its encoder on every valid value, whatever follows
    on the stream. *)
Class Wire (A : Type) : Type := {
  valid : A → Prop;
  encode : A → bytes;
  parse : parser A;
  parse_encode : ∀ a tl, valid a → parse (encode a ++ tl) = Some (a, tl);
}.

(** ** Laws of the combinators *)
Lemma pbind_Some {A B} (p : parser A) (q : A → parser B) l a l' :
  p l = Some (a, l') → pbind p q l = q a l'.
Proof. unfold pbind. by intros ->. Qed.

Lemma ptake_app (n : Z) (d tl : bytes) : zlen d = n → ptake n (d ++ tl) = Some (d, tl).
Proof.
  intros Hd. unfold ptake. rewrite zlen_app. pose proof (zlen_nonneg tl).
  rewrite (proj2 (Z.leb_le _ _)) by lia.
  by rewrite ztake_app_exact, zdrop_app_exact.
Qed.

Lemma p_uint_split (n : nat) (z : Z) tl :
  0 ≤ z < 256 ^ Z.of_nat n → p_uint n (be_split n z ++ tl) = Some (z, tl).
Proof.
  intros Hz. unfold p_uint. erewrite pbind_Some.
  2: { apply ptake_app. unfold zlen. by rewrite length_be_split. }
  unfold pret. by rewrite be_combine_split.
Qed.

Lemma p_u8_encode z tl : is_u8 z → p_u8 (e_u8 z ++ tl) = Some (z, tl).
Proof. intros H. by apply (p_uint_split 1). Qed.
Lemma p_u16_encode z tl : is_u16 z → p_u16 (e_u16 z ++ tl) = Some (z, tl).
Proof. intros H. by apply (p_uint_split 2). Qed.
Lemma p_u32_encode z tl : is_u32 z → p_u32 (e_u32 z ++ tl) = Some (z, tl).
Proof. intros H. by apply (p_uint_split 4). Qed.
Lemma p_u64_encode z tl : is_u64 z → p_u64 (e_u64 z ++ tl) = Some (z, tl).
Proof. intros H. by apply (p_uint_split 8). Qed.

Lemma p_string_encode s tl : short s → p_string (e_string s ++ tl) = Some (s, tl).
Proof.
  intros Hs. unfold p_string, e_string. rewrite <- app_assoc.
  erewrite pbind_Some; [by apply ptake_app|].
  apply p_u16_encode. unfold is_unsigned, short in *. pose proof (zlen_nonneg s). lia.
Qed.

(** Decodes a concatenation of encodings field by field; the side conditions
    (each field fits its width) go to the caller. *)
Create HintDb wire.
#[export] Hint Resolve p_u8_encode p_u16_encode p_u32_encode p_u64_encode p_string_encode : wire.

Ltac wire_simpl :=
  cbn -[e_u8 e_u16 e_u32 e_u64 e_string p_u8 p_u16 p_u32 p_u64 p_string app] in *.

Ltac wire_decode :=
  rewrite <- ?app_assoc;
  repeat (erewrite pbind_Some;
          [| first [ apply p_u8_encode | apply p_u16_encode | apply p_u32_encode
                   | apply p_u64_encode | apply p_string_encode | apply parse_encode ];
             try done]).

(** The lengths that reach the wire. *)
Lemma zlen_e_u8 z : zlen (e_u8 z) = 1.
Proof. unfold zlen, e_u8. by rewrite length_be_split. Qed.
Lemma zlen_e_u32 z : zlen (e_u32 z) = 4.
Proof. unfold zlen, e_u32. by rewrite length_be_split. Qed.

Lemma p_uint_range (n : nat) l z tl : p_uint n l = Some (z, tl) → 0 ≤ z < 256 ^ Z.of_nat n.
Proof.
  unfold p_uint, pbind, ptake. destruct (Z.leb_spec (Z.of_nat n) (zlen l)); [|done].
  intros [= <- <-]. pose proof (be_combine_range (ztake (Z.of_nat n) l)) as Hr.
  replace (length (ztake (Z.of_nat n) l)) with n in Hr; [done|].
  unfold ztake, zlen in *. rewrite length_take. lia.
Qed.
