(* ===== verification/Serialization.v ===== *)
(** * Buffered serialization: [DataReader] and [DataWriter]

    The classes of nandroid_shared/serialization.cpp over an abstract stream.
    The buffers, the loops and the early exits are the source's; what they
    implement is stated against two abstractions, the bytes still to be read
    ([DataReader.rest]) and the bytes written so far ([DataWriter.written]). *)

From S2P Require Import Prelude Effects Endian Wire.

(** ** The stream interfaces

    [Readable::read] fills at most [length] bytes and returns how many, 0 at end
    of stream; the model returns the bytes themselves.  [Writable::write] sends
    the whole buffer. *)
Class Readable (S : Type) : Type := read : Z → M S bytes.
Class Writable (S : Type) : Type := write : bytes → M S unit.

(** What the buffering classes rely on: [incoming] is everything the peer will
    deliver before it closes its side, [outgoing] everything handed to the
    transport so far. *)
Class Duplex (S : Type) `{Readable S} `{Writable S} : Type := {
  incoming : S → bytes;
  outgoing : S → bytes;
  read_law : ∀ n s, 0 < n →
    wp (read n) (λ d s', incoming s = d ++ incoming s' ∧ zlen d ≤ n ∧
      (d = [] → incoming s = []) ∧ outgoing s' = outgoing s) only_io s;
  write_law : ∀ d s,
    wp (write d) (λ _ s', outgoing s' = outgoing s ++ d ∧ incoming s' = incoming s) only_io s;
}.

Definition fst_lens {A B} : lens (A * B) A := Lens fst (λ a p, (a, snd p)).

Module DataReader.
(** The fields of [DataReader] (the stream it points to is the other half of
    the state). *)
Record t : Type := mk {
  buffer : bytes;
  buffer_size : Z;
  read_into_buffer : Z;
  position_in_buffer : Z;
}.

Definition create (buffer_size : Z) : t :=
  {| buffer := replicate (Z.to_nat buffer_size) x00; buffer_size := buffer_size;
     read_into_buffer := 0; position_in_buffer := 0 |}.

Definition advance (n : Z) (r : t) : t :=
  {| buffer := buffer r; buffer_size := buffer_size r;
     read_into_buffer := read_into_buffer r;
     position_in_buffer := position_in_buffer r + n |}.

(** [stream->read(buffer, buffer_size)] returned [d]. *)
Definition refill (d : bytes) (r : t) : t :=
  {| buffer := d ++ zdrop (zlen d) (buffer r); buffer_size := buffer_size r;
     read_into_buffer := zlen d; position_in_buffer := 0 |}.

Section Operations.
Context {S : Type} `{Readable S} (h : host).

(** The inner loop of [read_exact]: straight into the destination while a
    whole buffer or more is wanted. *)
Fixpoint direct_loop (fuel : nat) (buffer_size num_bytes bytes_read : Z) (into : bytes)
    : M S (Z * bytes) :=
  match fuel with
  | O => throw OutOfFuel
  | Datatypes.S fuel =>
      if (buffer_size <=? num_bytes) && (0 <? bytes_read) then
        let* d := read num_bytes in
        direct_loop fuel buffer_size (num_bytes - zlen d) (zlen d) (into ++ d)
      else ret (num_bytes, into)
  end.

Fixpoint read_exact_loop (fuel : nat) (num_bytes : Z) (into : bytes) : M (S * t) bytes :=
  match fuel with
  | O => throw OutOfFuel
  | Datatypes.S fuel =>
      if 0 <? num_bytes then
        let* r := gets snd in
        let rem_bytes_in_buffer := read_into_buffer r - position_in_buffer r in
        let bytes_to_copy := Z.min num_bytes rem_bytes_in_buffer in
        let copied := ztake bytes_to_copy (zdrop (position_in_buffer r) (buffer r)) in
        do* modify (λ st, (fst st, advance bytes_to_copy (snd st))) in
        let* ' (num_bytes, into) :=
          zoom fst_lens (direct_loop (2 + Z.to_nat num_bytes) (buffer_size r)
                           (num_bytes - bytes_to_copy) 1 (into ++ copied)) in
        if 0 <? num_bytes then
          let* d := zoom fst_lens (read (buffer_size r)) in
          if zlen d =? 0 then throw EOFException
          else
            do* modify (λ st, (fst st, refill d (snd st))) in
            read_exact_loop fuel num_bytes into
        else read_exact_loop fuel num_bytes into
      else ret into
  end.

Definition read_exact (num_bytes : Z) : M (S * t) bytes :=
  read_exact_loop (2 + Z.to_nat num_bytes) num_bytes [].

Definition read_byte : M (S * t) Z :=
  let* d := read_exact 1 in ret (load (host_order h) d).
Definition read_u16 : M (S * t) Z :=
  let* d := read_exact 2 in ret (ntohs h (load (host_order h) d)).
Definition read_u32 : M (S * t) Z :=
  let* d := read_exact 4 in ret (ntohl h (load (host_order h) d)).
Definition read_u64 : M (S * t) Z :=
  let* d := read_exact 8 in ret (ntohll h (load (host_order h) d)).
Definition read_utf8_string : M (S * t) bytes :=
  let* length := read_u16 in read_exact length.
End Operations.

(** ** Invariant and abstraction *)
Definition unread (r : t) : bytes :=
  ztake (read_into_buffer r - position_in_buffer r) (zdrop (position_in_buffer r) (buffer r)).

Definition wf (r : t) : Prop :=
  0 < buffer_size r ∧ zlen (buffer r) = buffer_size r ∧
  0 ≤ position_in_buffer r ≤ read_into_buffer r ∧ read_into_buffer r ≤ buffer_size r.

Definition rest {S : Type} `{Duplex S} (st : S * t) : bytes := unread (snd st) ++ incoming (fst st).

Lemma reader_create_wf (n : Z) : 0 < n → wf (create n) ∧ unread (create n) = [].
Proof.
  intros Hn. unfold wf, unread, create, zlen; simpl. rewrite length_replicate.
  split; [lia|by rewrite ztake_nonpos by lia].
Qed.

Lemma unread_length (r : t) : wf r → zlen (unread r) = read_into_buffer r - position_in_buffer r.
Proof. intros (?&?&?&?). unfold unread. zlen_norm. lia. Qed.

Lemma unread_refill (d : bytes) (r : t) : unread (refill d r) = d.
Proof.
  unfold unread, refill; simpl. rewrite zdrop_nonpos by lia.
  rewrite Z.sub_0_r. by apply ztake_app_exact.
Qed.

Lemma wf_refill (d : bytes) (r : t) : wf r → zlen d ≤ buffer_size r → wf (refill d r).
Proof. intros (?&?&?&?) Hd. pose proof (zlen_nonneg d). unfold wf, refill; simpl. zlen_norm. lia. Qed.

Lemma advance_unread (n : Z) (r : t) :
  wf r → 0 ≤ n ≤ read_into_buffer r - position_in_buffer r →
  unread r = ztake n (zdrop (position_in_buffer r) (buffer r)) ++ unread (advance n r) ∧
  wf (advance n r).
Proof.
  intros (?&?&?&?) Hn. split; [|unfold wf, advance; simpl; lia].
  unfold unread, advance; simpl. rewrite <- zdrop_zdrop by lia.
  set (l := zdrop (position_in_buffer r) (buffer r)).
  assert (Hl : read_into_buffer r - position_in_buffer r ≤ zlen l) by (subst l; zlen_norm; lia).
  unfold ztake, zdrop, zlen in *. rewrite take_drop_commute.
  rewrite <- (take_drop (Z.to_nat n) (take (Z.to_nat (read_into_buffer r - _)) l)) at 1.
  rewrite take_take. f_equal; f_equal; [lia|]. f_equal. lia.
Qed.

Section Correctness.
Context {S : Type} `{Duplex S} (h : host).
Implicit Types (s : S) (r : t).

Lemma wp_read n s (Φ : bytes → S → Prop) (E : exn → S → Prop) :
  0 < n →
  (∀ d s', incoming s = d ++ incoming s' → zlen d ≤ n → (d = [] → incoming s = []) →
    outgoing s' = outgoing s → Φ d s') →
  (∀ e s', io_error e = true → E e s') →
  wp (read n) Φ E s.
Proof. intros Hn HΦ HE. eapply wp_mono; [by apply read_law| |done].
  intros d s' (? & ? & ? & ?). by apply HΦ. Qed.

Lemma direct_loop_spec fuel bsz num br into s :
  0 < bsz → 0 ≤ num → (0 < br ∨ incoming s = []) →
  num + (if decide (0 < br) then 1 else 0) < Z.of_nat fuel →
  wp (direct_loop fuel bsz num br into)
     (λ p s', ∃ d, p = (num - zlen d, into ++ d) ∧ incoming s = d ++ incoming s' ∧
        outgoing s' = outgoing s ∧ zlen d ≤ num ∧ (num - zlen d < bsz ∨ incoming s' = []))
     only_io s.
Proof.
  intros Hb. revert num br into s.
  induction fuel as [|fuel IH]; intros num br into s Hn Hbr Hf; [case_decide; lia|].
  simpl. apply wp_if; intros Hc.
  - wp_step. apply wp_read; [lia| |done].
    intros d s' Hin Hd Hnil Hout. pose proof (zlen_nonneg d).
    eapply wp_mono; [apply IH| |done].
    + lia.
    + destruct d; [right|left; zlia]. by rewrite <- (Hnil eq_refl), Hin.
    + repeat case_decide; lia.
    + intros p s'' (d' & -> & Hin' & Hout' & Hd' & Hstop). exists (d ++ d').
      rewrite zlen_app, <- !app_assoc, <- Hin'.
      split_and!; [f_equal; lia|done|congruence|lia|by rewrite Z.sub_add_distr].
  - wp_step. exists []. rewrite app_nil_r, zlen_nil, Z.sub_0_r.
    split_and!; [done..|lia|]. destruct Hbr; [left; lia|by right].
Qed.

(** The state after a run that consumed [d]. *)
Definition consumed (d : bytes) (st st' : S * t) : Prop :=
  rest st = d ++ rest st' ∧ wf (snd st') ∧ buffer_size (snd st') = buffer_size (snd st) ∧
  outgoing (fst st') = outgoing (fst st).

Lemma consumed_nil st : wf (snd st) → consumed [] st st.
Proof. by intros ?. Qed.

Lemma consumed_trans d d' st st' st'' :
  consumed d st st' → consumed d' st' st'' → consumed (d ++ d') st st''.
Proof.
  intros (E & ? & ? & ?) (E' & ? & ? & ?).
  split_and!; [by rewrite E, E', app_assoc|congruence..].
Qed.

(** Copying out of the buffer. *)
Lemma consumed_copy n s r :
  wf r → 0 ≤ n ≤ read_into_buffer r - position_in_buffer r →
  consumed (ztake n (zdrop (position_in_buffer r) (buffer r))) (s, r) (s, advance n r).
Proof.
  intros Hwf Hn. destruct (advance_unread n r Hwf Hn) as [Hun Hwf'].
  split_and!; [|done..]. unfold rest; simpl. by rewrite Hun, app_assoc at 1.
Qed.

(** Reading past the buffer, which must be used up. *)
Lemma consumed_direct d s s' r :
  wf r → unread r = [] ∨ d = [] → incoming s = d ++ incoming s' →
  outgoing s' = outgoing s → consumed d (s, r) (s', r).
Proof.
  intros Hwf Hd Hin Hout. split_and!; [|done..]. unfold rest; simpl.
  destruct Hd as [->| ->]; by rewrite Hin.
Qed.

Lemma consumed_refill d s s' r :
  wf r → unread r = [] → incoming s = d ++ incoming s' → zlen d ≤ buffer_size r →
  outgoing s' = outgoing s → consumed [] (s, r) (s', refill d r).
Proof.
  intros Hwf Hun Hin Hd Hout. split_and!; [|by apply wf_refill|done..].
  unfold rest; simpl. by rewrite Hun, unread_refill, Hin.
Qed.

(** One turn of the outer loop up to the refill: it consumes [d], leaves
    [num - zlen d] to read and, when that is positive, an empty buffer. *)
Lemma copy_and_direct_spec num into s r :
  wf r → 0 < num →
  let n := Z.min num (read_into_buffer r - position_in_buffer r) in
  let copied := ztake n (zdrop (position_in_buffer r) (buffer r)) in
  wp (direct_loop (2 + Z.to_nat num) (buffer_size r) (num - n) 1 (into ++ copied))
     (λ p s', ∃ d, p = (num - zlen d, into ++ d) ∧ n ≤ zlen d ≤ num ∧
        consumed d (s, r) (s', advance n r) ∧
        (0 < num - zlen d → unread (advance n r) = []))
     only_io s.
Proof.
  intros Hwf Hnum n copied. pose proof (unread_length r Hwf) as Hlen.
  pose proof (zlen_nonneg (unread r)).
  destruct (advance_unread n r Hwf) as [_ Hwf']; [lia|].
  assert (Hcop : zlen copied = n) by (subst copied; destruct Hwf as (?&?&?&?); zlia).
  eapply wp_mono; [apply direct_loop_spec; [apply Hwf|lia|lia|case_decide; lia]| |done].
  intros p s' (d & -> & Hin & Hout & Hd & Hstop). exists (copied ++ d).
  pose proof (zlen_nonneg d). rewrite zlen_app, Hcop, app_assoc.
  assert (Hun : n < num → unread (advance n r) = []).
  { intros. apply zlen_zero. rewrite (unread_length _ Hwf'). simpl. lia. }
  split_and!; [f_equal; lia|lia|lia| |intros; apply Hun; lia].
  eapply consumed_trans; [apply consumed_copy; [done|lia]|apply consumed_direct; auto].
  destruct (decide (n < num)); [left; auto|right; apply zlen_zero; lia].
Qed.

Lemma read_exact_loop_spec fuel num into st :
  wf (snd st) →
  Z.max num 0 + (if decide (0 < num ∧ unread (snd st) = []) then 1 else 0) < Z.of_nat fuel →
  wp (read_exact_loop fuel num into)
     (λ out st', ∃ d, out = into ++ d ∧ zlen d = Z.max num 0 ∧ consumed d st st')
     (λ e st', wf (snd st') ∧ (io_error e = true ∨
        e = EOFException ∧ zlen (rest st) < num ∧ outgoing (fst st') = outgoing (fst st))) st.
Proof.
  revert num into st. induction fuel as [|fuel IH]; intros num into [s r] Hwf Hf;
    [case_decide; lia|]. simpl in Hwf, Hf |- *.
  apply wp_if; intros Hnum;
    [|wp_step; exists []; rewrite app_nil_r, zlen_nil; split_and!; [done|lia|by apply consumed_nil]].
  do 4 wp_step. simpl. wp_step. apply wp_zoom. simpl.
  assert (Hadv : wf (advance (Z.min num (read_into_buffer r - position_in_buffer r)) r)).
  { pose proof (unread_length r Hwf). pose proof (zlen_nonneg (unread r)). apply advance_unread; [done|lia]. }
  eapply wp_mono; [apply copy_and_direct_spec; [done|lia]| |by split; [|left]].
  intros p s' (d & -> & Hd & Hcons & Hun).
  set (n := Z.min num _) in *. cbv iota beta.
  pose proof (unread_length r Hwf) as Hlen. pose proof (zlen_nonneg (unread r)).
  assert (Hprog : unread r ≠ [] → 0 < n).
  { destruct (unread r); [done|]. rewrite zlen_cons in *. pose proof (zlen_nonneg l). lia. }
  assert (Hnext : ∀ st', consumed d (s, r) st' →
    Z.max (num - zlen d) 0 +
      (if decide (0 < num - zlen d ∧ unread (snd st') = []) then 1 else 0) < Z.of_nat fuel →
    wp (read_exact_loop fuel (num - zlen d) (into ++ d))
     (λ out st', ∃ d, out = into ++ d ∧ zlen d = Z.max num 0 ∧ consumed d (s, r) st')
     (λ e st', wf (snd st') ∧ (io_error e = true ∨
        e = EOFException ∧ zlen (rest (s, r)) < num ∧ outgoing (fst st') = outgoing s)) st').
  { intros st' Hc Hfuel. eapply wp_mono; [apply IH; [apply Hc|done]| |].
    - intros out st'' (d' & -> & Hd' & Hc'). exists (d ++ d').
      rewrite zlen_app, app_assoc. split_and!; [done|lia|by eapply consumed_trans].
    - intros e st'' [Hw [?|(-> & Hlt & Ho)]]; (split; [done|]); [by left|right]. destruct Hc as (Hr & _ & _ & Ho').
      split_and!; [done|rewrite Hr, zlen_app; lia|simpl in Ho'; congruence]. }
  apply wp_if; intros Hleft.
  - specialize (Hun ltac:(lia)). wp_step. apply wp_zoom. simpl.
    apply wp_read; [apply Hwf| |by split; [|left]].
    intros b s'' Hin Hb Hbnil Hout. apply wp_if; intros Hz.
    + wp_step. split; [done|]. right. apply Z.eqb_eq, zlen_zero in Hz. destruct Hcons as (Hr & _ & _ & Ho).
      split_and!; [done| |simpl in *; congruence].
      rewrite Hr. unfold rest; simpl. rewrite Hun, (Hbnil Hz), app_nil_r. zlia.
    + do 2 wp_step. simpl. apply Hnext.
      * rewrite <- (app_nil_r d). eapply consumed_trans; [exact Hcons|].
        apply (consumed_refill _ s'); auto.
      * simpl. rewrite unread_refill, decide_False by (intros [_ ->]; done).
        destruct (decide _) as [?|Hne] in Hf; [lia|].
        assert (0 < n) by (apply Hprog; intros Hu; apply Hne; split; [lia|done]). lia.
  - apply Hnext; [exact Hcons|]. rewrite decide_False by lia. case_decide; lia.
Qed.

(** ** Reading implements decoding

    [reads m p]: run with [rest] bytes to come, [m] returns what [p] decodes
    from them and leaves what [p] leaves; it throws [EOFException] exactly
    when [p] finds too few bytes, and nothing else but transport errors.  The
    reader is well formed either way. *)
Definition reads {A} (m : M (S * t) A) (p : parser A) : Prop :=
  ∀ st, wf (snd st) →
    wp m (λ a st', p (rest st) = Some (a, rest st') ∧ wf (snd st') ∧
            buffer_size (snd st') = buffer_size (snd st) ∧
            outgoing (fst st') = outgoing (fst st))
         (λ e st', wf (snd st') ∧ (io_error e = true ∨
            e = EOFException ∧ p (rest st) = None ∧
            outgoing (fst st') = outgoing (fst st))) st.

Lemma reads_ret {A} (a : A) : reads (ret a) (pret a).
Proof. by intros st Hwf. Qed.

Lemma reads_bind {A B} (m : M (S * t) A) (k : A → M (S * t) B) p q :
  reads m p → (∀ a, reads (k a) (q a)) → reads (bind m k) (pbind p q).
Proof.
  intros Hm Hk st Hwf. wp_step. eapply wp_mono; [by apply Hm|..].
  - intros a st' (Hp & Hwf' & Hs & Ho). eapply wp_mono; [by apply Hk|..].
    + intros b st'' (Hq & ? & ? & ?). unfold pbind. rewrite Hp.
      split_and!; [done|done|congruence..].
    + intros e st'' [Hw [?|(-> & Hq & ?)]]; (split; [done|]); [by left|]. right. unfold pbind. rewrite Hp.
      split_and!; [done..|congruence].
  - intros e st' [Hw [?|(-> & Hp & ?)]]; (split; [done|]); [by left|]. right. unfold pbind. by rewrite Hp.
Qed.

Lemma reads_exact n : reads (read_exact n) (ptake n).
Proof.
  intros st Hwf. unfold read_exact.
  eapply wp_mono; [apply read_exact_loop_spec; [done|case_decide; lia]|..].
  - intros out st' (d & -> & Hd & Hr & ? & ? & ?). split; [|done].
    rewrite Hr. simpl. destruct (decide (0 ≤ n)); [apply ptake_app; lia|].
    assert (d = []) as -> by (apply zlen_zero; lia).
    unfold ptake. simpl. pose proof (zlen_nonneg (rest st')).
    destruct (Z.leb_spec n (zlen (rest st'))); [|lia].
    by rewrite ztake_nonpos, zdrop_nonpos by lia.
  - intros e st' [Hw [?|(-> & Hlt & ?)]]; (split; [done|]); [by left|]. right. split_and!; [done| |done].
    unfold ptake. by destruct (Z.leb_spec n (zlen (rest st))); [lia|].
Qed.

(** [reads] only looks at what the decoder returns. *)
Lemma reads_ext {A} (m : M (S * t) A) (p q : parser A) :
  (∀ l, p l = q l) → reads m p → reads m q.
Proof. intros E Hm st Hwf. rewrite <- !E. by apply Hm. Qed.

Lemma reads_uint (n : nat) (f : bytes → Z) :
  (∀ d, length d = n → f d = be_combine d) →
  reads (let* d := read_exact (Z.of_nat n) in ret (f d)) (p_uint n).
Proof.
  intros Hf. apply (reads_ext _ (let! d := ptake (Z.of_nat n) in pret (f d))).
  - intros l. unfold p_uint, pbind, ptake.
    destruct (Z.leb_spec (Z.of_nat n) (zlen l)); [|done].
    unfold pret. rewrite Hf; [done|]. unfold ztake, zlen in *. rewrite length_take. lia.
  - apply reads_bind; [apply reads_exact|intros; apply reads_ret].
Qed.

Lemma reads_byte : reads (read_byte h) p_u8.
Proof.
  apply (reads_uint 1). intros [|b [|]] Hd; try done.
  unfold load, be_combine, load. by destruct (host_order h).
Qed.
Lemma reads_u16 : reads (read_u16 h) p_u16.
Proof. apply (reads_uint 2). apply ntohs_load. Qed.
Lemma reads_u32 : reads (read_u32 h) p_u32.
Proof. apply (reads_uint 4). apply ntohl_load. Qed.
Lemma reads_u64 : reads (read_u64 h) p_u64.
Proof. apply (reads_uint 8). apply ntohll_load. Qed.
Lemma reads_utf8_string : reads (read_utf8_string h) p_string.
Proof. apply reads_bind; [apply reads_u16|apply reads_exact]. Qed.
End Correctness.

Create HintDb reads discriminated.
#[export] Hint Constants Opaque : reads.
#[export] Hint Resolve reads_ret reads_exact reads_byte reads_u16 reads_u32
  reads_u64 reads_utf8_string : reads.
End DataReader.

Module DataWriter.
(** The fields of [DataWriter]. *)
Record t : Type := mk {
  buffer : bytes;
  buffer_size : Z;
  buffer_bytes_filled : Z;
}.

Definition create (buffer_size : Z) : t :=
  {| buffer := replicate (Z.to_nat buffer_size) x00; buffer_size := buffer_size;
     buffer_bytes_filled := 0 |}.

(** [memcpy(buffer + buffer_bytes_filled, d, len)] and the update of the fill
    count, for [d] of length [len]. *)
Definition append (d : bytes) (w : t) : t :=
  {| buffer := ztake (buffer_bytes_filled w) (buffer w) ++ d
               ++ zdrop (buffer_bytes_filled w + zlen d) (buffer w);
     buffer_size := buffer_size w;
     buffer_bytes_filled := buffer_bytes_filled w + zlen d |}.

Definition reset (w : t) : t :=
  {| buffer := buffer w; buffer_size := buffer_size w; buffer_bytes_filled := 0 |}.

Section Operations.
Context {S : Type} `{Writable S} (h : host).

Definition flush : M (S * t) unit :=
  let* w := gets snd in
  do* zoom fst_lens (write (ztake (buffer_bytes_filled w) (buffer w))) in
  modify (λ st, (fst st, reset (snd st))).

Fixpoint write_exact_loop (fuel : nat) (data_ptr : bytes) (data_len : Z) : M (S * t) unit :=
  match fuel with
  | O => throw OutOfFuel
  | Datatypes.S fuel =>
      if 0 <? data_len then
        let* w := gets snd in
        let rem_buffer_len := buffer_size w - buffer_bytes_filled w in
        let len_to_write := Z.min data_len rem_buffer_len in
        if len_to_write =? buffer_size w then
          zoom fst_lens (write (ztake data_len data_ptr))
        else
          do* modify (λ st, (fst st, append (ztake len_to_write data_ptr) (snd st))) in
          do* (if 0 <? data_len - len_to_write then flush else ret tt) in
          write_exact_loop fuel (zdrop len_to_write data_ptr) (data_len - len_to_write)
      else ret tt
  end.

Definition write_exact (data_ptr : bytes) (data_len : Z) : M (S * t) unit :=
  write_exact_loop (2 + Z.to_nat data_len) data_ptr data_len.

Definition write_byte (data : Z) : M (S * t) unit :=
  write_exact (store (host_order h) 1 data) 1.
Definition write_u16 (data : Z) : M (S * t) unit :=
  write_exact (store (host_order h) 2 (htons h data)) 2.
Definition write_u32 (data : Z) : M (S * t) unit :=
  write_exact (store (host_order h) 4 (htonl h data)) 4.
Definition write_u64 (data : Z) : M (S * t) unit :=
  write_exact (store (host_order h) 8 (htonll h data)) 8.

Definition write_utf8_string (data : bytes) : M (S * t) unit :=
  if 65535 <? zlen data then
    throw (RuntimeError "String too long to write to stream. Was path length properly limited?")
  else
    do* write_u16 (to_u16 (zlen data)) in
    write_exact data (to_i32 (zlen data)).
End Operations.

(** ** Invariant and abstraction *)
Definition pending (w : t) : bytes := ztake (buffer_bytes_filled w) (buffer w).

Definition wf (w : t) : Prop :=
  0 < buffer_size w ∧ zlen (buffer w) = buffer_size w ∧
  0 ≤ buffer_bytes_filled w ≤ buffer_size w.

Definition written {S : Type} `{Duplex S} (st : S * t) : bytes :=
  outgoing (fst st) ++ pending (snd st).

Lemma writer_create_wf (n : Z) : 0 < n → wf (create n) ∧ pending (create n) = [].
Proof.
  intros Hn. unfold wf, pending, create, zlen; simpl. rewrite length_replicate.
  split; [lia|by rewrite ztake_nonpos by lia].
Qed.

Lemma append_spec (d : bytes) (w : t) :
  wf w → zlen d ≤ buffer_size w - buffer_bytes_filled w →
  wf (append d w) ∧ pending (append d w) = pending w ++ d.
Proof.
  intros (?&?&?) Hd. pose proof (zlen_nonneg d). unfold wf, append, pending; simpl. split.
  - zlen_norm. lia.
  - rewrite app_assoc. apply ztake_app_exact. zlen_norm. lia.
Qed.

Section Correctness.
Context {S : Type} `{Duplex S} (h : host).

(** A failure of the transport leaves the writer well formed. *)
Definition cut_off (e : exn) (st : S * t) : Prop := io_error e = true ∧ wf (snd st).

Lemma cut_off_io e st : cut_off e st → only_io e st.
Proof. by intros []. Qed.

(** The state after a run that wrote [d]. *)
Definition emitted (d : bytes) (st st' : S * t) : Prop :=
  written st' = written st ++ d ∧ wf (snd st') ∧
  buffer_size (snd st') = buffer_size (snd st) ∧ incoming (fst st') = incoming (fst st).

Lemma emitted_trans d d' st st' st'' :
  emitted d st st' → emitted d' st' st'' → emitted (d ++ d') st st''.
Proof.
  intros (E & ? & ? & ?) (E' & ? & ? & ?).
  split_and!; [by rewrite E', E, app_assoc|congruence..].
Qed.

Lemma wp_write d s (Φ : unit → S → Prop) (E : exn → S → Prop) :
  (∀ s', outgoing s' = outgoing s ++ d → incoming s' = incoming s → Φ tt s') →
  (∀ e s', io_error e = true → E e s') →
  wp (write d) Φ E s.
Proof. intros HΦ HE. eapply wp_mono; [apply write_law|by intros [] s' []; auto|done]. Qed.

Lemma emitted_append d s w :
  wf w → zlen d ≤ buffer_size w - buffer_bytes_filled w → emitted d (s, w) (s, append d w).
Proof.
  intros Hwf Hd. destruct (append_spec d w Hwf Hd) as [Hwf' Hp].
  split_and!; [|done..]. unfold written; simpl. by rewrite Hp, app_assoc.
Qed.

Lemma flush_spec st :
  wf (snd st) →
  wp flush (λ _ st', emitted [] st st' ∧ outgoing (fst st') = written st ∧
              buffer_bytes_filled (snd st') = 0) cut_off st.
Proof.
  destruct st as [s w]. intros Hwf. simpl in Hwf. unfold flush. do 3 wp_step. apply wp_zoom. simpl.
  apply wp_write; [|done]. intros s' Ho Hi. wp_step. simpl. split_and!; [|done..].
  destruct Hwf as (?&?&?). unfold emitted, written, wf, pending, reset; simpl.
  rewrite (ztake_nonpos 0), !app_nil_r, Ho by lia. by split_and!; lia || done.
Qed.

Lemma write_exact_loop_spec fuel data len st :
  wf (snd st) → len ≤ zlen data →
  Z.max len 0 + (if decide (0 < len ∧ buffer_bytes_filled (snd st) = buffer_size (snd st))
                 then 1 else 0) < Z.of_nat fuel →
  wp (write_exact_loop fuel data len) (λ _ st', emitted (ztake len data) st st') cut_off st.
Proof.
  revert data len st.
  induction fuel as [|fuel IH]; intros data len [s w] Hwf Hlen Hf; [case_decide; lia|].
  simpl in Hwf, Hf |- *. pose proof Hwf as (?&?&?). apply wp_if; intros Hpos.
  2: { wp_step. rewrite ztake_nonpos by lia. unfold emitted. by rewrite app_nil_r. }
  do 2 wp_step. simpl. set (n := Z.min len _). apply wp_if; intros Hfull.
  - apply wp_zoom. simpl. apply wp_write; [|done]. intros s' Ho Hi.
    assert (Hp : pending w = []) by (apply zlen_zero; unfold pending; zlen_norm; lia).
    split_and!; [|done..]. unfold written; simpl. by rewrite Ho, Hp, !app_nil_r.
  - do 2 wp_step. simpl.
    assert (Hn : zlen (ztake n data) = n) by (zlen_norm; lia).
    pose proof (emitted_append (ztake n data) s w Hwf ltac:(lia)) as Happ.
    assert (Hsplit : ztake len data = ztake n data ++ ztake (len - n) (zdrop n data)).
    { unfold ztake, zdrop. rewrite <- (take_drop (Z.to_nat n) (take _ data)).
      rewrite take_take, take_drop_commute. f_equal; f_equal; [lia|f_equal; lia]. }
    rewrite Hsplit. wp_step. apply wp_if; intros Hmore.
    + eapply wp_mono; [apply flush_spec; apply Happ| |done].
      intros [] st' (Hfl & _ & Hz).
      eapply wp_mono; [apply IH; [apply Hfl|zlen_norm; lia|]| |done].
      * rewrite decide_False; [case_decide; lia|].
        intros [_ E]. rewrite Hz in E. pose proof (proj1 (proj1 (proj2 Hfl))). lia.
      * intros [] st'' Hrest. eapply emitted_trans; [exact Happ|].
        rewrite <- (app_nil_l (ztake _ _)). by eapply emitted_trans.
    + wp_step. eapply wp_mono; [apply IH; [apply Happ|zlen_norm; lia|]| |done].
      * rewrite decide_False by lia. case_decide; lia.
      * intros [] st'' Hrest. by eapply emitted_trans.
Qed.

(** ** Writing implements encoding

    [writes m d]: [m] appends [d] to the bytes written and fails only if the
    transport does; the writer is well formed either way. *)
Definition writes {A} (m : M (S * t) A) (d : bytes) : Prop :=
  ∀ st, wf (snd st) → wp m (λ _ st', emitted d st st') cut_off st.

Lemma writes_ret {A} (a : A) : writes (ret a) [].
Proof. intros st Hwf. wp_step. unfold emitted. by rewrite app_nil_r. Qed.

Lemma writes_bind {A B} (m : M (S * t) A) (k : A → M (S * t) B) d d' :
  writes m d → (∀ a, writes (k a) d') → writes (bind m k) (d ++ d').
Proof.
  intros Hm Hk st Hwf. wp_step. eapply wp_mono; [by apply Hm| |done].
  intros a st' Hd. eapply wp_mono; [apply Hk; apply Hd| |done].
  intros b st'' Hd'. exact (emitted_trans _ _ _ _ _ Hd Hd').
Qed.

Lemma writes_flush : writes flush [].
Proof. intros st Hwf. eapply wp_mono; [by apply flush_spec|by intros ?? (?&?&?)|done]. Qed.

Lemma writes_exact data len : len ≤ zlen data → writes (write_exact data len) (ztake len data).
Proof. intros Hl st Hwf. apply write_exact_loop_spec; [done..|case_decide; lia]. Qed.

Lemma writes_exact_all data n : n = zlen data → writes (write_exact data n) data.
Proof.
  intros ->. pose proof (writes_exact data (zlen data) ltac:(lia)) as W.
  by rewrite ztake_all in W by lia.
Qed.

Lemma writes_store (n : nat) (data d : bytes) (k : Z) :
  data = d → k = Z.of_nat n → length d = n → writes (write_exact data k) d.
Proof. intros -> -> Hd. apply writes_exact_all. unfold zlen. by rewrite Hd. Qed.

Lemma writes_byte z : writes (write_byte h z) (e_u8 z).
Proof. by apply (writes_store 1); [destruct (host_order h)|..]. Qed.
Lemma writes_u16 z : writes (write_u16 h z) (e_u16 z).
Proof. apply (writes_store 2); [apply store_htons|done|apply length_be_split]. Qed.
Lemma writes_u32 z : writes (write_u32 h z) (e_u32 z).
Proof. apply (writes_store 4); [apply store_htonl|done|apply length_be_split]. Qed.
Lemma writes_u64 z : is_u64 z → writes (write_u64 h z) (e_u64 z).
Proof. intros. apply (writes_store 8); [by apply store_htonll|done|apply length_be_split]. Qed.

Lemma writes_utf8_string s : short s → writes (write_utf8_string h s) (e_string s).
Proof.
  unfold short. intros Hs. pose proof (zlen_nonneg s). unfold write_utf8_string.
  rewrite (proj2 (Z.ltb_ge _ _)), wrap_id by (unfold is_unsigned; lia).
  apply writes_bind; [apply writes_u16|intros _; apply writes_exact_all].
  apply to_signed_nonneg; lia.
Qed.
End Correctness.

Create HintDb writes discriminated.
#[export] Hint Constants Opaque : writes.
#[export] Hint Resolve writes_ret writes_byte writes_u16 writes_u32 writes_u64
  writes_utf8_string : writes.
End DataWriter.

(** Proves [reads] and [writes] of a straight-line reader or writer from those of
    its fields. *)
Ltac solve_reads :=
  repeat (apply DataReader.reads_bind; [solve [auto 3 with reads]|intros ?]); auto 3 with reads.
Ltac solve_writes :=
  repeat (apply DataWriter.writes_bind; [solve [auto 3 with writes]|intros ?]); auto 3 with writes.

(** ** A concrete stream

    Bytes to deliver, bytes sent, and how many bytes one [read] returns at most
    ([chunk + 1]): a stream with short reads. *)
Record pipe : Type := Pipe { pipe_in : bytes; pipe_out : bytes; pipe_chunk : nat }.

Definition pipe_take (n : Z) (s : pipe) : pipe * bytes :=
  let k := Z.min n (Z.of_nat (S (pipe_chunk s))) in
  (Pipe (zdrop k (pipe_in s)) (pipe_out s) (pipe_chunk s), ztake k (pipe_in s)).

Definition pipe_put (d : bytes) (s : pipe) : pipe :=
  Pipe (pipe_in s) (pipe_out s ++ d) (pipe_chunk s).

Lemma pipe_take_spec n s :
  0 < n →
  let '(s', d) := pipe_take n s in
  pipe_in s = d ++ pipe_in s' ∧ zlen d ≤ n ∧ (d = [] → pipe_in s = []) ∧ pipe_out s' = pipe_out s.
Proof.
  destruct s as [i o c]. intros Hn. simpl. split_and!; [by rewrite ztake_zdrop|zlen_norm; lia| |done].
  intros E. apply zlen_zero. apply (f_equal zlen) in E. pose proof (zlen_nonneg i). zlen_norm. lia.
Qed.

Module PipeStream.
#[export] Instance pipe_readable : Readable pipe :=
  λ n s, let '(s', d) := pipe_take n s in (s', Ok d).
#[export] Instance pipe_writable : Writable pipe := λ d s, (pipe_put d s, Ok tt).
#[export] Instance pipe_duplex : Duplex pipe.
Proof.
  refine {| incoming := pipe_in; outgoing := pipe_out |}.
  - intros n s Hn. pose proof (pipe_take_spec n s Hn) as Hs.
    unfold wp, read, pipe_readable. by destruct (pipe_take n s).
  - by intros d [].
Defined.
End PipeStream.

(** ** Correctness of the buffered classes *)
Section Claims.
Context {S : Type} `{Duplex S}.

(** C10. [DataReader::read_exact] returns exactly the next [num_bytes] bytes of
    the stream, however the transport splits them and whatever is buffered:
    the bytes already in the buffer come first, the rest follows in order,
    nothing is lost or read twice and the reader stays well formed.  It throws
    [EOFException] only when fewer bytes remain, a transport error is the only
    other failure, and its loops always finish. *)
Theorem read_exact_correct (num_bytes : Z) (st : S * DataReader.t) :
  DataReader.wf (snd st) → 0 ≤ num_bytes →
  wp (DataReader.read_exact num_bytes)
     (λ d st', zlen d = num_bytes ∧ DataReader.rest st = d ++ DataReader.rest st' ∧
        DataReader.wf (snd st') ∧ outgoing (fst st') = outgoing (fst st))
     (λ e _, io_error e = true ∨ e = EOFException ∧ zlen (DataReader.rest st) < num_bytes) st.
Proof.
  intros Hwf Hn.
  eapply wp_mono; [apply DataReader.read_exact_loop_spec; [done|case_decide; lia]|..].
  - intros d st' (d' & -> & Hd & Hr & ? & _ & ?). split_and!; [simpl; lia|done..].
  - intros e st' [_ [?|(-> & ? & _)]]; [by left|by right].
Qed.

(** C11. [DataWriter::write_exact] appends the given bytes, in order and once
    each, to what the stream has been given plus what is buffered, for any
    buffer size, fill level and data length (buffered, flushed midway or passed
    straight through); a [flush] then leaves all of it on the stream and the
    buffer empty.  Only a transport error can make either fail. *)
Theorem write_exact_flush_correct (data : bytes) (st : S * DataWriter.t) :
  DataWriter.wf (snd st) →
  wp (do* DataWriter.write_exact data (zlen data) in DataWriter.flush)
     (λ _ st', outgoing (fst st') = outgoing (fst st) ++ DataWriter.pending (snd st) ++ data ∧
        DataWriter.buffer_bytes_filled (snd st') = 0 ∧ DataWriter.wf (snd st') ∧
        incoming (fst st') = incoming (fst st))
     only_io st.
Proof.
  intros Hwf. wp_step.
  eapply wp_mono; [by apply DataWriter.writes_exact_all| |apply DataWriter.cut_off_io].
  intros [] st' (Hw & Hwf' & _ & Hi).
  eapply wp_mono; [by apply DataWriter.flush_spec| |apply DataWriter.cut_off_io].
  intros [] st'' ((_ & ? & _ & Hi') & Ho & Hz). rewrite Ho, Hw. unfold DataWriter.written.
  rewrite <- app_assoc. split_and!; [done..|congruence].
Qed.
End Claims.

Module SerializationWitnesses.
Import PipeStream.

Definition small_reader : pipe * DataReader.t :=
  (Pipe (bs "nandroid") [] 2, DataReader.mk (bs "fs!") 3 2 1).

Lemma read_exact_correct_witness :
  DataReader.read_exact 6 small_reader =
    (Pipe (bs "id") [] 2, DataReader.mk (bs "dro") 3 3 2, Ok (bs "snandr")) ∧
  wp (DataReader.read_exact 6)
     (λ d st', zlen d = 6 ∧ DataReader.rest small_reader = d ++ DataReader.rest st' ∧
        DataReader.wf (snd st') ∧ outgoing (fst st') = outgoing (fst small_reader))
     (λ e _, io_error e = true ∨ e = EOFException ∧ zlen (DataReader.rest small_reader) < 6)
     small_reader.
Proof.
  split; [vm_compute; reflexivity|].
  apply (read_exact_correct 6 small_reader); [unfold DataReader.wf; vm_compute; intuition congruence|lia].
Defined.

Definition small_writer : pipe * DataWriter.t :=
  (Pipe [] (bs ">") 0, DataWriter.mk (bs "ab..") 4 2).

Lemma write_exact_flush_correct_witness :
  pipe_out (fst (fst ((do* DataWriter.write_exact (bs "cdefgh") 6 in DataWriter.flush) small_writer)))
    = bs ">abcdefgh" ∧
  wp (do* DataWriter.write_exact (bs "cdefgh") (zlen (bs "cdefgh")) in DataWriter.flush)
     (λ _ st', outgoing (fst st') =
          outgoing (fst small_writer) ++ DataWriter.pending (snd small_writer) ++ bs "cdefgh" ∧
        DataWriter.buffer_bytes_filled (snd st') = 0 ∧ DataWriter.wf (snd st') ∧
        incoming (fst st') = incoming (fst small_writer))
     only_io small_writer.
Proof.
  split; [vm_compute; reflexivity|].
  apply (write_exact_flush_correct (bs "cdefgh") small_writer).
  unfold DataWriter.wf; vm_compute; intuition congruence.
Defined.
End SerializationWitnesses.
