(* ===== verification/Socket.v ===== *)
(** * Sockets: the transport under both ends of the connection

    [ClientHandler] and [Connection] are [Readable] and [Writable] through
    [recv] and [send], which are the operating system's: parameters, with the
    documented behaviour of a stream socket as laws.  The retry loop around
    [send] and the error conversions are the program's. *)

From S2P Require Import Prelude Effects Serialization.

(** [recv] gives the return value and the bytes it placed in the buffer; [errno]
    is the error of the last failing call ([WSAGetLastError] on Windows). *)
Class Socket (N : Type) : Type := {
  recv : Z → N → N * (Z * bytes);
  send : bytes → N → N * Z;
  errno : N → Z;
}.

Class SocketLaws (N : Type) `{Socket N} : Type := {
  sock_incoming : N → bytes;
  sock_outgoing : N → bytes;
  recv_law : ∀ n s, 0 < n →
    let '(s', (r, d)) := recv n s in
    r = -1 ∨ r = zlen d ∧ r ≤ n ∧ sock_incoming s = d ++ sock_incoming s' ∧
      (d = [] → sock_incoming s = []) ∧ sock_outgoing s' = sock_outgoing s;
  send_law : ∀ d s, d ≠ [] →
    let '(s', r) := send d s in
    r = -1 ∨ 1 ≤ r ≤ zlen d ∧ sock_outgoing s' = sock_outgoing s ++ ztake r d ∧
      sock_incoming s' = sock_incoming s;
}.

Section Calls.
Context {N : Type} `{Socket N}.

(** [throw_unless] of UnixException.cpp, [errno] read when it is called. *)
Definition throw_unless (return_val : Z) : M N Z :=
  let* err := gets errno in
  if return_val =? -1 then throw (UnixException err) else ret return_val.

(** The check [Connection] writes out after each winsock call. *)
Definition throw_on_error (result : Z) : M N Z :=
  let* err := gets errno in
  if result =? -1 then throw (WinSockException err) else ret result.

Definition recv_call (length : Z) : M N (Z * bytes) := λ s, let '(s', r) := recv length s in (s', Ok r).
Definition send_call (data : bytes) : M N Z := λ s, let '(s', r) := send data s in (s', Ok r).

Definition client_handler_read (length : Z) : M N bytes :=
  let* ' (r, d) := recv_call length in
  let* n := throw_unless r in ret (ztake n d).

Definition connection_read (length : Z) : M N bytes :=
  let* ' (r, d) := recv_call length in
  let* n := throw_on_error r in ret (ztake n d).

(** The loop of both [write]s,
    [while (length > 0) { sent = send(...); length -= sent; buffer += sent; }],
    for a check of the return value that throws the side's own exception. *)
Fixpoint send_loop (check : Z → M N Z) (fuel : nat) (buffer : bytes) (length : Z) : M N unit :=
  match fuel with
  | O => throw OutOfFuel
  | S fuel =>
      if 0 <? length then
        let* r := send_call (ztake length buffer) in
        let* bytes_sent := check r in
        send_loop check fuel (zdrop bytes_sent buffer) (length - bytes_sent)
      else ret tt
  end.

Definition client_handler_write (buffer : bytes) : M N unit :=
  send_loop throw_unless (S (length buffer)) buffer (zlen buffer).

Definition connection_write (buffer : bytes) : M N unit :=
  send_loop throw_on_error (S (length buffer)) buffer (zlen buffer).
End Calls.

Section Laws.
Context {N : Type} `{SocketLaws N}.
Implicit Types s : N.

(** A check passes any return value but -1, on which it throws. *)
Definition checks (check : Z → M N Z) : Prop :=
  ∀ r s, check r s = (s, Ok r) ∧ r ≠ -1 ∨ ∃ e, check r s = (s, Throw e) ∧ io_error e = true.

Lemma throw_unless_checks : checks throw_unless.
Proof.
  intros r s. unfold throw_unless, bind, gets.
  destruct (Z.eqb_spec r (-1)); [right; by eexists|by left].
Qed.

Lemma throw_on_error_checks : checks throw_on_error.
Proof.
  intros r s. unfold throw_on_error, bind, gets.
  destruct (Z.eqb_spec r (-1)); [right; by eexists|by left].
Qed.

Lemma recv_checked check n s :
  0 < n → checks check →
  wp (let* ' (r, d) := recv_call n in let* k := check r in ret (ztake k d))
    (λ d s', sock_incoming s = d ++ sock_incoming s' ∧ zlen d ≤ n ∧
      (d = [] → sock_incoming s = []) ∧ sock_outgoing s' = sock_outgoing s) only_io s.
Proof.
  intros Hn Hc. pose proof (recv_law n s Hn) as L.
  unfold wp, bind, recv_call. destruct (recv n s) as [s' [r d]].
  destruct (Hc r s') as [[-> Hr]|(e & -> & ?)]; [|done].
  destruct L as [?|(-> & ? & ? & ? & ?)]; [done|]. unfold ret.
  rewrite ztake_all by lia. auto.
Qed.

(** One send makes progress or throws. *)
Lemma send_checked check d s Φ :
  d ≠ [] → checks check →
  (∀ r s', 1 ≤ r ≤ zlen d → sock_outgoing s' = sock_outgoing s ++ ztake r d →
     sock_incoming s' = sock_incoming s → Φ r s') →
  wp (let* r := send_call d in check r) Φ only_io s.
Proof.
  intros Hd Hc HΦ. pose proof (send_law d s Hd) as L.
  unfold wp, bind, send_call. destruct (send d s) as [s' r].
  destruct (Hc r s') as [[-> Hr]|(e & -> & ?)]; [|done].
  destruct L as [?|(?&?&?)]; [done|]. by apply HΦ.
Qed.

Lemma send_loop_spec check fuel d s :
  checks check → zlen d < Z.of_nat fuel →
  wp (send_loop check fuel d (zlen d))
    (λ _ s', sock_outgoing s' = sock_outgoing s ++ d ∧ sock_incoming s' = sock_incoming s) only_io s.
Proof.
  intros Hc. revert d s.
  induction fuel as [|fuel IH]; intros d s Hf; pose proof (zlen_nonneg d); [lia|].
  simpl. apply wp_if; intros Hl.
  2: { wp_step. assert (d = []) as -> by (apply zlen_zero; lia). by rewrite app_nil_r. }
  setoid_rewrite <- bind_assoc.
  wp_step. rewrite (ztake_all (zlen d)) by lia.
  apply send_checked; [by intros ->|done|]. intros r s' Hr Ho Hi.
  replace (zlen d - r) with (zlen (zdrop r d)) by (zlen_norm; lia).
  eapply wp_mono; [apply IH; zlen_norm; lia| |done].
  intros [] s'' [-> ->]. by rewrite Ho, <- app_assoc, ztake_zdrop.
Qed.

(** Each end of the connection is a [Duplex] stream over its socket. *)
Definition client_handler_duplex :
  @Duplex N (client_handler_read) (client_handler_write).
Proof.
  refine {| incoming := sock_incoming; outgoing := sock_outgoing |}.
  - intros n s Hn. by apply recv_checked; [|apply throw_unless_checks].
  - intros d s. apply send_loop_spec; [apply throw_unless_checks|unfold zlen; lia].
Defined.

Definition connection_duplex : @Duplex N connection_read connection_write.
Proof.
  refine {| incoming := sock_incoming; outgoing := sock_outgoing |}.
  - intros n s Hn. by apply recv_checked; [|apply throw_on_error_checks].
  - intros d s. apply send_loop_spec; [apply throw_on_error_checks|unfold zlen; lia].
Defined.
End Laws.

(** ** A concrete socket: the pipe, with short sends as well as short reads *)
#[global] Instance pipe_socket : Socket pipe := {|
  recv n s := let '(s', d) := pipe_take n s in (s', (zlen d, d));
  send d s :=
    let k := Z.min (zlen d) (Z.of_nat (S (pipe_chunk s))) in (pipe_put (ztake k d) s, k);
  errno _ := 0;
|}.

#[global] Instance pipe_laws : SocketLaws pipe.
Proof.
  refine {| sock_incoming := pipe_in; sock_outgoing := pipe_out |}.
  - intros n s Hn. pose proof (pipe_take_spec n s Hn) as Hs. unfold recv, pipe_socket.
    destruct (pipe_take n s) as [s' d]. right. tauto.
  - intros d [i o c] Hd. simpl. right. split; [|done].
    assert (0 < zlen d) by (destruct d; [done|zlia]). lia.
Defined.

(** ** Claims *)

(** C29. [ClientHandler::write] and [Connection::write] hand the whole buffer to
    the socket, in order and once, however few bytes each [send] accepts; they
    leave the incoming bytes alone, finish after at most one [send] per byte, and
    fail only when a [send] does. *)
Theorem socket_writes_everything {N : Type} `{SocketLaws N} (buffer : bytes) (s : N) :
  wp (client_handler_write buffer)
     (λ _ s', sock_outgoing s' = sock_outgoing s ++ buffer ∧ sock_incoming s' = sock_incoming s) only_io s ∧
  wp (connection_write buffer)
     (λ _ s', sock_outgoing s' = sock_outgoing s ++ buffer ∧ sock_incoming s' = sock_incoming s) only_io s.
Proof.
  split; apply send_loop_spec; try (unfold zlen; lia);
    [apply throw_unless_checks|apply throw_on_error_checks].
Qed.
