(* ===== verification/Requests.v ===== *)
(** * Request messages: nandroid_shared/requests.hpp and requests.cpp

    The enumerations and argument structures of the requests, how each is
    written to a [DataWriter] and read from a [DataReader], and the wire format
    both agree on. *)

From S2P Require Import Prelude Effects Endian Wire Serialization.

Definition AGENT_PORT : Z := 28933.
Definition AGENT_READY_MSG : bytes := bs "NANDROID_READY_FOR_CONNECTION".

(** A scoped enumeration over [uint8_t] also holds the values no enumerator
    names: casts from a byte read off the wire produce them. *)
Inductive RequestType : Type :=
  | StatFile | ListDirectory | CreateDirectory | CheckRemoveFile | CheckRemoveDirectory
  | RemoveFile | RemoveDirectory | MoveEntry | OpenHandle | CloseHandle | ReadHandle
  | WriteHandle | TruncateHandle | SetFileTime | GetDiskStats
  | OtherRequest (code : Z).

Definition request_code (r : RequestType) : Z :=
  match r with
  | StatFile => 0 | ListDirectory => 1 | CreateDirectory => 2 | CheckRemoveFile => 3
  | CheckRemoveDirectory => 4 | RemoveFile => 5 | RemoveDirectory => 6 | MoveEntry => 7
  | OpenHandle => 8 | CloseHandle => 9 | ReadHandle => 10 | WriteHandle => 11
  | TruncateHandle => 12 | SetFileTime => 13 | GetDiskStats => 14
  | OtherRequest code => code
  end.

Definition request_of_code (code : Z) : RequestType :=
  match code with
  | 0 => StatFile | 1 => ListDirectory | 2 => CreateDirectory | 3 => CheckRemoveFile
  | 4 => CheckRemoveDirectory | 5 => RemoveFile | 6 => RemoveDirectory | 7 => MoveEntry
  | 8 => OpenHandle | 9 => CloseHandle | 10 => ReadHandle | 11 => WriteHandle
  | 12 => TruncateHandle | 13 => SetFileTime | 14 => GetDiskStats
  | code => OtherRequest code
  end.

Inductive OpenMode : Type :=
  | OpenOnly | CreateIfNotExist | Truncate | CreateOrTruncate | CreateAlways
  | OtherMode (code : Z).

Definition open_mode_code (m : OpenMode) : Z :=
  match m with
  | OpenOnly => 0 | CreateIfNotExist => 1 | Truncate => 2 | CreateOrTruncate => 3
  | CreateAlways => 4 | OtherMode code => code
  end.

Definition open_mode_of_code (code : Z) : OpenMode :=
  match code with
  | 0 => OpenOnly | 1 => CreateIfNotExist | 2 => Truncate | 3 => CreateOrTruncate
  | 4 => CreateAlways | code => OtherMode code
  end.

#[global] Instance RequestType_eq_dec : EqDecision RequestType.
Proof. solve_decision. Defined.
#[global] Instance OpenMode_eq_dec : EqDecision OpenMode.
Proof. solve_decision. Defined.

Definition listed_request (r : RequestType) : Prop :=
  match r with OtherRequest _ => False | _ => True end.
Definition listed_mode (m : OpenMode) : Prop :=
  match m with OtherMode _ => False | _ => True end.

Lemma request_of_code_code (r : RequestType) : listed_request r → request_of_code (request_code r) = r.
Proof. by destruct r. Qed.

Lemma request_code_u8 (r : RequestType) : listed_request r → is_u8 (request_code r).
Proof. unfold is_unsigned. destruct r; simpl; intros []; lia. Qed.

(** ** The argument structures *)
Record OpenHandleArgs : Type := mkOpenHandleArgs {
  oh_path : bytes; oh_mode : OpenMode; oh_read_access : bool; oh_write_access : bool }.
Record ReadHandleArgs : Type := mkReadHandleArgs {
  rh_handle : Z; rh_data_len : Z; rh_offset : Z }.
Record WriteHandleInitArgs : Type := mkWriteHandleInitArgs {
  wh_handle : Z; wh_offset : Z; wh_data_len : Z }.
Record MoveEntryArgs : Type := mkMoveEntryArgs {
  me_from_path : bytes; me_to_path : bytes; me_overwrite : bool }.
Record TruncateHandleArgs : Type := mkTruncateHandleArgs {
  th_handle : Z; th_new_length : Z }.
Record SetFileTimeArgs : Type := mkSetFileTimeArgs {
  sf_path : bytes; sf_access_time : Z; sf_write_time : Z }.

(** The byte that packs an open mode with the access bits. *)
Definition pack_mode (mode : OpenMode) (read_access write_access : bool) : Z :=
  Z.lor (Z.lor (open_mode_code mode) (if read_access then 128 else 0))
        (if write_access then 64 else 0).

Definition bool_of_z (z : Z) : bool := negb (z =? 0).

Definition unpack_mode (path : bytes) (mode_and_perms : Z) : OpenHandleArgs :=
  {| oh_path := path;
     oh_mode := open_mode_of_code (Z.land mode_and_perms 63);
     oh_read_access := bool_of_z (Z.land mode_and_perms 128);
     oh_write_access := bool_of_z (Z.land mode_and_perms 64) |}.

(** ** Reading and writing the structures *)
Section Messages.
Context {S : Type} `{Readable S} `{Writable S} (h : host).
Import DataReader DataWriter.

Definition read_OpenHandleArgs : M (S * DataReader.t) OpenHandleArgs :=
  let* path := read_utf8_string h in
  let* mode_and_perms := read_byte h in
  ret (unpack_mode path mode_and_perms).

Definition write_OpenHandleArgs (a : OpenHandleArgs) : M (S * DataWriter.t) unit :=
  do* write_utf8_string h (oh_path a) in
  write_byte h (pack_mode (oh_mode a) (oh_read_access a) (oh_write_access a)).

Definition read_ReadHandleArgs : M (S * DataReader.t) ReadHandleArgs :=
  let* handle := read_u32 h in
  let* data_len := read_u32 h in
  let* offset := read_u64 h in
  ret (mkReadHandleArgs handle data_len offset).

Definition write_ReadHandleArgs (a : ReadHandleArgs) : M (S * DataWriter.t) unit :=
  do* write_u32 h (rh_handle a) in
  do* write_u32 h (rh_data_len a) in
  write_u64 h (rh_offset a).

Definition read_WriteHandleInitArgs : M (S * DataReader.t) WriteHandleInitArgs :=
  let* handle := read_u32 h in
  let* offset := read_u64 h in
  let* data_len := read_u32 h in
  ret (mkWriteHandleInitArgs handle offset data_len).

Definition write_WriteHandleInitArgs (a : WriteHandleInitArgs) : M (S * DataWriter.t) unit :=
  do* write_u32 h (wh_handle a) in
  do* write_u64 h (wh_offset a) in
  write_u32 h (wh_data_len a).

Definition read_MoveEntryArgs : M (S * DataReader.t) MoveEntryArgs :=
  let* from_path := read_utf8_string h in
  let* to_path := read_utf8_string h in
  let* overwrite := read_byte h in
  ret (mkMoveEntryArgs from_path to_path (bool_of_z overwrite)).

Definition write_MoveEntryArgs (a : MoveEntryArgs) : M (S * DataWriter.t) unit :=
  do* write_utf8_string h (me_from_path a) in
  do* write_utf8_string h (me_to_path a) in
  write_byte h (Z.b2z (me_overwrite a)).

Definition read_TruncateHandleArgs : M (S * DataReader.t) TruncateHandleArgs :=
  let* handle := read_u32 h in
  let* new_length := read_u64 h in
  ret (mkTruncateHandleArgs handle new_length).

Definition write_TruncateHandleArgs (a : TruncateHandleArgs) : M (S * DataWriter.t) unit :=
  do* write_u32 h (th_handle a) in
  write_u64 h (th_new_length a).

(** The times are [int64_t] fields that travel as [uint64_t]. *)
Definition read_SetFileTimeArgs : M (S * DataReader.t) SetFileTimeArgs :=
  let* path := read_utf8_string h in
  let* access_time := read_u64 h in
  let* write_time := read_u64 h in
  ret (mkSetFileTimeArgs path (to_i64 access_time) (to_i64 write_time)).

Definition write_SetFileTimeArgs (a : SetFileTimeArgs) : M (S * DataWriter.t) unit :=
  do* write_utf8_string h (sf_path a) in
  do* write_u64 h (to_u64 (sf_access_time a)) in
  write_u64 h (to_u64 (sf_write_time a)).
End Messages.

(** ** The wire format of each structure *)
Lemma unpack_pack (path : bytes) (m : OpenMode) (r w : bool) :
  listed_mode m →
  unpack_mode path (pack_mode m r w) = mkOpenHandleArgs path m r w ∧ is_u8 (pack_mode m r w).
Proof. unfold is_unsigned. by destruct m, r, w. Qed.

#[global] Instance OpenHandleArgs_wire : Wire OpenHandleArgs.
Proof.
  refine {|
    valid a := short (oh_path a) ∧ listed_mode (oh_mode a);
    encode a := e_string (oh_path a)
      ++ e_u8 (pack_mode (oh_mode a) (oh_read_access a) (oh_write_access a));
    parse := let! path := p_string in let! b := p_u8 in pret (unpack_mode path b) |}.
  intros [p m r w] tl [Hp Hm]; wire_simpl. destruct (unpack_pack p m r w Hm) as [E Hr].
  wire_decode. unfold pret. by rewrite E.
Defined.

#[global] Instance ReadHandleArgs_wire : Wire ReadHandleArgs.
Proof.
  refine {|
    valid a := is_u32 (rh_handle a) ∧ is_u32 (rh_data_len a) ∧ is_u64 (rh_offset a);
    encode a := e_u32 (rh_handle a) ++ e_u32 (rh_data_len a) ++ e_u64 (rh_offset a);
    parse := let! f := p_u32 in let! n := p_u32 in let! o := p_u64 in
             pret (mkReadHandleArgs f n o) |}.
  intros [f n o] tl (?&?&?); wire_simpl. by wire_decode.
Defined.

#[global] Instance WriteHandleInitArgs_wire : Wire WriteHandleInitArgs.
Proof.
  refine {|
    valid a := is_u32 (wh_handle a) ∧ is_u64 (wh_offset a) ∧ is_u32 (wh_data_len a);
    encode a := e_u32 (wh_handle a) ++ e_u64 (wh_offset a) ++ e_u32 (wh_data_len a);
    parse := let! f := p_u32 in let! o := p_u64 in let! n := p_u32 in
             pret (mkWriteHandleInitArgs f o n) |}.
  intros [f o n] tl (?&?&?); wire_simpl. by wire_decode.
Defined.

#[global] Instance MoveEntryArgs_wire : Wire MoveEntryArgs.
Proof.
  refine {|
    valid a := short (me_from_path a) ∧ short (me_to_path a);
    encode a := e_string (me_from_path a) ++ e_string (me_to_path a)
      ++ e_u8 (Z.b2z (me_overwrite a));
    parse := let! f := p_string in let! t := p_string in let! b := p_u8 in
             pret (mkMoveEntryArgs f t (bool_of_z b)) |}.
  intros [f t b] tl (?&?); wire_simpl.
  assert (is_u8 (Z.b2z b)) by (by destruct b). wire_decode. by destruct b.
Defined.

#[global] Instance TruncateHandleArgs_wire : Wire TruncateHandleArgs.
Proof.
  refine {|
    valid a := is_u32 (th_handle a) ∧ is_u64 (th_new_length a);
    encode a := e_u32 (th_handle a) ++ e_u64 (th_new_length a);
    parse := let! f := p_u32 in let! n := p_u64 in pret (mkTruncateHandleArgs f n) |}.
  intros [f n] tl (?&?); wire_simpl. by wire_decode.
Defined.

#[global] Instance SetFileTimeArgs_wire : Wire SetFileTimeArgs.
Proof.
  refine {|
    valid a := short (sf_path a) ∧ is_i64 (sf_access_time a) ∧ is_i64 (sf_write_time a);
    encode a := e_string (sf_path a) ++ e_u64 (to_u64 (sf_access_time a))
      ++ e_u64 (to_u64 (sf_write_time a));
    parse := let! p := p_string in let! a := p_u64 in let! w := p_u64 in
             pret (mkSetFileTimeArgs p (to_i64 a) (to_i64 w)) |}.
  intros [p a w] tl (?&?&?); wire_simpl.
  pose proof (wrap_range 64 a ltac:(lia)). pose proof (wrap_range 64 w ltac:(lia)).
  wire_decode. unfold pret. by rewrite !to_signed_wrap by (done || lia).
Defined.

(** ** The readers and writers implement it *)
Section Correctness.
Context {S : Type} `{Duplex S} (h : host).
Import DataReader DataWriter.

Lemma reads_OpenHandleArgs : reads (read_OpenHandleArgs h) parse.
Proof. unfold read_OpenHandleArgs; cbn [parse encode OpenHandleArgs_wire]. solve_reads. Qed.
Lemma reads_ReadHandleArgs : reads (read_ReadHandleArgs h) parse.
Proof. unfold read_ReadHandleArgs; cbn [parse encode ReadHandleArgs_wire]. solve_reads. Qed.
Lemma reads_WriteHandleInitArgs : reads (read_WriteHandleInitArgs h) parse.
Proof. unfold read_WriteHandleInitArgs; cbn [parse encode WriteHandleInitArgs_wire]. solve_reads. Qed.
Lemma reads_MoveEntryArgs : reads (read_MoveEntryArgs h) parse.
Proof. unfold read_MoveEntryArgs; cbn [parse encode MoveEntryArgs_wire]. solve_reads. Qed.
Lemma reads_TruncateHandleArgs : reads (read_TruncateHandleArgs h) parse.
Proof. unfold read_TruncateHandleArgs; cbn [parse encode TruncateHandleArgs_wire]. solve_reads. Qed.
Lemma reads_SetFileTimeArgs : reads (read_SetFileTimeArgs h) parse.
Proof. unfold read_SetFileTimeArgs; cbn [parse encode SetFileTimeArgs_wire]. solve_reads. Qed.

Lemma writes_OpenHandleArgs a : valid a → writes (write_OpenHandleArgs h a) (encode a).
Proof. intros (?&?). unfold write_OpenHandleArgs; cbn [parse encode OpenHandleArgs_wire]. solve_writes. Qed.
Lemma writes_ReadHandleArgs a : valid a → writes (write_ReadHandleArgs h a) (encode a).
Proof. intros (?&?&?). unfold write_ReadHandleArgs; cbn [parse encode ReadHandleArgs_wire]. solve_writes. Qed.
Lemma writes_WriteHandleInitArgs a :
  valid a → writes (write_WriteHandleInitArgs h a) (encode a).
Proof. intros (?&?&?). unfold write_WriteHandleInitArgs; cbn [parse encode WriteHandleInitArgs_wire]. solve_writes. Qed.
Lemma writes_MoveEntryArgs a : valid a → writes (write_MoveEntryArgs h a) (encode a).
Proof. intros (?&?). unfold write_MoveEntryArgs; cbn [parse encode MoveEntryArgs_wire]. solve_writes. Qed.
Lemma writes_TruncateHandleArgs a : valid a → writes (write_TruncateHandleArgs h a) (encode a).
Proof. intros (?&?). unfold write_TruncateHandleArgs; cbn [parse encode TruncateHandleArgs_wire]. solve_writes. Qed.
Lemma writes_SetFileTimeArgs a : valid a → writes (write_SetFileTimeArgs h a) (encode a).
Proof.
  intros (?&?&?). unfold write_SetFileTimeArgs; cbn [parse encode SetFileTimeArgs_wire].
  pose proof (λ z, wrap_range 64 z ltac:(lia)). solve_writes.
Qed.
End Correctness.

#[export] Hint Resolve reads_OpenHandleArgs reads_ReadHandleArgs reads_WriteHandleInitArgs
  reads_MoveEntryArgs reads_TruncateHandleArgs reads_SetFileTimeArgs : reads.
#[export] Hint Resolve writes_OpenHandleArgs writes_ReadHandleArgs writes_WriteHandleInitArgs
  writes_MoveEntryArgs writes_TruncateHandleArgs writes_SetFileTimeArgs : writes.
