(* ===== verification/Responses.v ===== *)
(** * Response messages: nandroid_shared/responses.hpp and responses.cpp *)

From S2P Require Import Prelude Effects Endian Wire Serialization.

Inductive ResponseStatus : Type :=
  | Success | GenericFailure | AccessDenied | NotADirectory | NotAFile | FileNotFound
  | FileExists | DirectoryNotEmpty | NoMoreEntries
  | OtherStatus (code : Z).

#[global] Instance ResponseStatus_eq_dec : EqDecision ResponseStatus.
Proof. solve_decision. Defined.

(** [(uint8_t) status] and [(ResponseStatus) byte]. *)
Definition status_code (s : ResponseStatus) : Z :=
  match s with
  | Success => 0 | GenericFailure => 1 | AccessDenied => 2 | NotADirectory => 3
  | NotAFile => 4 | FileNotFound => 5 | FileExists => 6 | DirectoryNotEmpty => 7
  | NoMoreEntries => 8 | OtherStatus code => code
  end.

Definition status_of_code (code : Z) : ResponseStatus :=
  match code with
  | 0 => Success | 1 => GenericFailure | 2 => AccessDenied | 3 => NotADirectory
  | 4 => NotAFile | 5 => FileNotFound | 6 => FileExists | 7 => DirectoryNotEmpty
  | 8 => NoMoreEntries | code => OtherStatus code
  end.

Definition listed_status (s : ResponseStatus) : Prop :=
  match s with OtherStatus _ => False | _ => True end.

Lemma status_of_code_code (s : ResponseStatus) : listed_status s → status_of_code (status_code s) = s.
Proof. by destruct s. Qed.

Lemma status_code_u8 (s : ResponseStatus) : listed_status s → is_u8 (status_code s).
Proof. unfold is_unsigned. destruct s; simpl; intros []; lia. Qed.

Record FileStat : Type := mkFileStat {
  st_mode : Z; st_size : Z; st_access_time : Z; st_write_time : Z }.

Definition FileStat_zero : FileStat := mkFileStat 0 0 0 0.

Record DiskStats : Type := mkDiskStats {
  ds_free_bytes : Z; ds_available_bytes : Z; ds_total_bytes : Z }.

Definition DiskStats_zero : DiskStats := mkDiskStats 0 0 0.

#[global] Instance FileStat_eq_dec : EqDecision FileStat.
Proof. solve_decision. Defined.

Section Messages.
Context {S : Type} `{Readable S} `{Writable S} (h : host).
Import DataReader DataWriter.

Definition write_FileStat (f : FileStat) : M (S * DataWriter.t) unit :=
  do* write_u16 h (st_mode f) in
  do* write_u64 h (st_size f) in
  do* write_u64 h (st_access_time f) in
  write_u64 h (st_write_time f).

Definition read_FileStat : M (S * DataReader.t) FileStat :=
  let* mode := read_u16 h in
  let* size := read_u64 h in
  let* access_time := read_u64 h in
  let* write_time := read_u64 h in
  ret (mkFileStat mode size access_time write_time).

Definition read_DiskStats : M (S * DataReader.t) DiskStats :=
  let* free_bytes := read_u64 h in
  let* available_bytes := read_u64 h in
  let* total_bytes := read_u64 h in
  ret (mkDiskStats free_bytes available_bytes total_bytes).

Definition write_DiskStats (d : DiskStats) : M (S * DataWriter.t) unit :=
  do* write_u64 h (ds_free_bytes d) in
  do* write_u64 h (ds_available_bytes d) in
  write_u64 h (ds_total_bytes d).
End Messages.

(** ** Wire format *)
#[global] Instance FileStat_wire : Wire FileStat.
Proof.
  refine {|
    valid f := is_u16 (st_mode f) ∧ is_u64 (st_size f) ∧
               is_u64 (st_access_time f) ∧ is_u64 (st_write_time f);
    encode f := e_u16 (st_mode f) ++ e_u64 (st_size f)
      ++ e_u64 (st_access_time f) ++ e_u64 (st_write_time f);
    parse := let! m := p_u16 in let! s := p_u64 in let! a := p_u64 in let! w := p_u64 in
             pret (mkFileStat m s a w) |}.
  intros [m s a w] tl (?&?&?&?); wire_simpl. by wire_decode.
Defined.

#[global] Instance DiskStats_wire : Wire DiskStats.
Proof.
  refine {|
    valid d := is_u64 (ds_free_bytes d) ∧ is_u64 (ds_available_bytes d) ∧ is_u64 (ds_total_bytes d);
    encode d := e_u64 (ds_free_bytes d) ++ e_u64 (ds_available_bytes d) ++ e_u64 (ds_total_bytes d);
    parse := let! f := p_u64 in let! a := p_u64 in let! t := p_u64 in pret (mkDiskStats f a t) |}.
  intros [f a t] tl (?&?&?); wire_simpl. by wire_decode.
Defined.

(** A status byte; the decoder is total on bytes, as the cast is. *)
#[global] Instance ResponseStatus_wire : Wire ResponseStatus.
Proof.
  refine {| valid := listed_status; encode s := e_u8 (status_code s);
            parse := let! c := p_u8 in pret (status_of_code c) |}.
  intros s tl Hs. pose proof (status_code_u8 s Hs). wire_decode.
  unfold pret. by rewrite status_of_code_code.
Defined.

Section Correctness.
Context {S : Type} `{Duplex S} (h : host).
Import DataReader DataWriter.

Lemma reads_FileStat : reads (read_FileStat h) parse.
Proof. unfold read_FileStat; cbn [parse FileStat_wire]. solve_reads. Qed.
Lemma reads_DiskStats : reads (read_DiskStats h) parse.
Proof. unfold read_DiskStats; cbn [parse DiskStats_wire]. solve_reads. Qed.
Lemma writes_FileStat f : valid f → writes (write_FileStat h f) (encode f).
Proof.
  intros (?&?&?&?). unfold write_FileStat; cbn [encode FileStat_wire]. solve_writes.
Qed.
Lemma writes_DiskStats d : valid d → writes (write_DiskStats h d) (encode d).
Proof. intros (?&?&?). unfold write_DiskStats; cbn [encode DiskStats_wire]. solve_writes. Qed.
End Correctness.

#[export] Hint Resolve reads_FileStat reads_DiskStats : reads.
#[export] Hint Resolve writes_FileStat writes_DiskStats : writes.
