(* ===== verification/Messages.v ===== *)
(** * Messages between hosts

    The interface every message type offers both ends: a writer and a reader that
    implement one wire format whatever the host's byte order. *)

From S2P Require Import Prelude Effects Endian Wire Serialization Requests Responses.

Class Message (A : Type) `{Wire A} : Type := {
  write_message : ∀ {S} `{Readable S} `{Writable S}, host → A → M (S * DataWriter.t) unit;
  read_message : ∀ {S} `{Readable S} `{Writable S}, host → M (S * DataReader.t) A;
  writes_message : ∀ {S} `{Duplex S} (h : host) a,
    valid a → DataWriter.writes (write_message h a) (encode a);
  reads_message : ∀ {S} `{Duplex S} (h : host), DataReader.reads (read_message h) parse;
}.

#[global] Instance OpenHandleArgs_message : Message OpenHandleArgs := {|
  write_message _ _ _ := write_OpenHandleArgs; read_message _ _ _ := read_OpenHandleArgs;
  writes_message _ _ _ _ := writes_OpenHandleArgs; reads_message _ _ _ _ := reads_OpenHandleArgs |}.
#[global] Instance ReadHandleArgs_message : Message ReadHandleArgs := {|
  write_message _ _ _ := write_ReadHandleArgs; read_message _ _ _ := read_ReadHandleArgs;
  writes_message _ _ _ _ := writes_ReadHandleArgs; reads_message _ _ _ _ := reads_ReadHandleArgs |}.
#[global] Instance WriteHandleInitArgs_message : Message WriteHandleInitArgs := {|
  write_message _ _ _ := write_WriteHandleInitArgs; read_message _ _ _ := read_WriteHandleInitArgs;
  writes_message _ _ _ _ := writes_WriteHandleInitArgs;
  reads_message _ _ _ _ := reads_WriteHandleInitArgs |}.
#[global] Instance MoveEntryArgs_message : Message MoveEntryArgs := {|
  write_message _ _ _ := write_MoveEntryArgs; read_message _ _ _ := read_MoveEntryArgs;
  writes_message _ _ _ _ := writes_MoveEntryArgs; reads_message _ _ _ _ := reads_MoveEntryArgs |}.
#[global] Instance TruncateHandleArgs_message : Message TruncateHandleArgs := {|
  write_message _ _ _ := write_TruncateHandleArgs; read_message _ _ _ := read_TruncateHandleArgs;
  writes_message _ _ _ _ := writes_TruncateHandleArgs;
  reads_message _ _ _ _ := reads_TruncateHandleArgs |}.
#[global] Instance SetFileTimeArgs_message : Message SetFileTimeArgs := {|
  write_message _ _ _ := write_SetFileTimeArgs; read_message _ _ _ := read_SetFileTimeArgs;
  writes_message _ _ _ _ := writes_SetFileTimeArgs; reads_message _ _ _ _ := reads_SetFileTimeArgs |}.
#[global] Instance FileStat_message : Message FileStat := {|
  write_message _ _ _ := write_FileStat; read_message _ _ _ := read_FileStat;
  writes_message _ _ _ _ := writes_FileStat; reads_message _ _ _ _ := reads_FileStat |}.
#[global] Instance DiskStats_message : Message DiskStats := {|
  write_message _ _ _ := write_DiskStats; read_message _ _ _ := read_DiskStats;
  writes_message _ _ _ _ := writes_DiskStats; reads_message _ _ _ _ := reads_DiskStats |}.

(** ** Sending a message from one host to another *)
Section Transfer.
Context {S T : Type} `{Duplex S} `{Duplex T}.

(** The receiver [rx] is to be given everything the sender has put on its
    stream after [before]. *)
Definition delivers (before : bytes) (tx : S) (rx : T * DataReader.t) (tl : bytes) : Prop :=
  ∃ d, outgoing tx = before ++ d ∧ DataReader.rest rx = d ++ tl.

Lemma message_transfer {A} `{Message A} (h h' : host) (a : A) (tx : S * DataWriter.t) :
  valid a → DataWriter.wf (snd tx) → DataWriter.pending (snd tx) = [] →
  wp (do* write_message h a in DataWriter.flush)
     (λ _ tx', ∀ (rx : T * DataReader.t) tl, DataReader.wf (snd rx) →
        delivers (outgoing (fst tx)) (fst tx') rx tl →
        wp (read_message h') (λ b rx', b = a ∧ DataReader.rest rx' = tl) only_io rx)
     only_io tx.
Proof.
  intros Ha Hwf Hp. wp_step. eapply wp_mono; [by apply writes_message| |apply DataWriter.cut_off_io].
  intros [] tx1 (Hw & Hwf1 & _). eapply wp_mono; [by apply DataWriter.flush_spec| |apply DataWriter.cut_off_io].
  intros [] tx2 (_ & Hout & _) rx tl Hrx (d & Hd & Hrest).
  rewrite Hout, Hw in Hd. unfold DataWriter.written in Hd. rewrite Hp, app_nil_r in Hd.
  apply app_inv_head in Hd as <-.
  pose proof (parse_encode a tl Ha) as Hparse. rewrite <- Hrest in Hparse.
  eapply wp_mono; [by apply reads_message|..].
  - intros b rx' (Hb & _). rewrite Hparse in Hb. by injection Hb as -> ->.
  - intros e rx' [_ [?|(_ & Hn & _)]]; [done|congruence].
Qed.
End Transfer.

(** ** Claims *)

(** C26. Every message type of requests.cpp and responses.cpp survives the trip
    between the two hosts, whatever their byte orders, buffer sizes and the way
    the transport splits the bytes: what one side writes and flushes, the other
    side reads back field for field, leaving exactly what follows it on the
    stream. *)
Theorem message_round_trip {S T : Type} `{Duplex S} `{Duplex T} {A} `{Message A}
    (h h' : host) (a : A) (tx : S * DataWriter.t) :
  valid a → DataWriter.wf (snd tx) → DataWriter.pending (snd tx) = [] →
  wp (do* write_message h a in DataWriter.flush)
     (λ _ tx', ∀ (rx : T * DataReader.t) tl, DataReader.wf (snd rx) →
        delivers (outgoing (fst tx)) (fst tx') rx tl →
        wp (read_message h') (λ b rx', b = a ∧ DataReader.rest rx' = tl) only_io rx)
     only_io tx.
Proof. apply message_transfer. Qed.

Module MessageWitnesses.
Import PipeStream.

Definition sender : pipe * DataWriter.t := (Pipe [] [] 2, DataWriter.create 5).
Definition sample : OpenHandleArgs := mkOpenHandleArgs (bs "/sdcard/DCIM") CreateOrTruncate false true.

Lemma message_round_trip_witness :
  wp (do* write_message Win32 sample in DataWriter.flush)
     (λ _ tx', pipe_out (fst tx') = encode sample) only_io sender ∧
  wp (do* write_message Win32 sample in DataWriter.flush)
     (λ _ tx', ∀ (rx : pipe * DataReader.t) tl, DataReader.wf (snd rx) →
        delivers (outgoing (fst sender)) (fst tx') rx tl →
        wp (read_message (Unix BigEndian)) (λ b rx', b = sample ∧ DataReader.rest rx' = tl) only_io rx)
     only_io sender.
Proof.
  split; [vm_compute; reflexivity|].
  apply (message_round_trip Win32 (Unix BigEndian) sample sender).
  - split; [unfold short; vm_compute; congruence|exact I].
  - unfold DataWriter.wf; vm_compute; intuition congruence.
  - reflexivity.
Defined.
End MessageWitnesses.
