(* ===== verification/PathUtils.v ===== *)
(** * Paths: nandroid_shared/path_utils.cpp, and the string operations used *)

From S2P Require Import Prelude.

(** ** [std::string] operations *)
Definition slash : byte := "/"%byte.
Definition backslash : byte := "\"%byte.

Definition ends_with_char (s : bytes) (c : byte) : bool :=
  match last s with Some d => bool_decide (d = c) | None => false end.

(** [pop_back] (undefined on the empty string; every call is guarded). *)
Definition pop_back (s : bytes) : bytes := take (length s - 1) s.

Definition starts_with (s prefix : bytes) : bool := bool_decide (take (length prefix) s = prefix).
Definition ends_with (s suffix : bytes) : bool :=
  bool_decide (length suffix ≤ length s)%nat &&
  bool_decide (drop (length s - length suffix) s = suffix).

(** [find(c, from)] and [find_last_of(c)]: [None] is [npos]. *)
Fixpoint find_from (c : byte) (s : bytes) (i : nat) : option nat :=
  match s with
  | [] => None
  | d :: s => if bool_decide (d = c) then Some i else find_from c s (S i)
  end.
Definition find (s : bytes) (c : byte) (from : nat) : option nat :=
  find_from c (drop from s) from.

Fixpoint find_last_of (s : bytes) (c : byte) : option nat :=
  match s with
  | [] => None
  | d :: s =>
      match find_last_of s c with
      | Some i => Some (S i)
      | None => if bool_decide (d = c) then Some O else None
      end
  end.

(** [substr(pos, count)]: at most [count] bytes. *)
Definition substr (s : bytes) (pos count : nat) : bytes := take count (drop pos s).

(** What a [const char*] parameter sees of a string: up to the first NUL. *)
Fixpoint c_str (s : bytes) : bytes :=
  match s with
  | [] => []
  | c :: s => if bool_decide (c = x00) then [] else c :: c_str s
  end.

(** ** The functions of path_utils.cpp *)
Definition get_full_path (dir_path file_name : bytes) : bytes :=
  (if ends_with_char dir_path slash then dir_path else dir_path ++ [slash]) ++ file_name.

Definition get_parent_path (path : bytes) : option bytes :=
  let path := if ends_with_char path slash then pop_back path else path in
  match find_last_of path slash with
  | None => None
  | Some last_separator_offset =>
      let path := take last_separator_offset path in
      if bool_decide (path = []) then None else Some path
  end.

(** ** Facts about the string operations *)
Lemma ends_with_char_snoc (s : bytes) (c d : byte) :
  ends_with_char (s ++ [c]) d = bool_decide (c = d).
Proof. unfold ends_with_char. by rewrite last_snoc. Qed.

Lemma ends_with_char_true (s : bytes) (c : byte) :
  ends_with_char s c = true → s = pop_back s ++ [c].
Proof.
  destruct s as [|d s _] using rev_ind; [done|]. rewrite ends_with_char_snoc.
  intros ->%bool_decide_eq_true. unfold pop_back. f_equal.
  rewrite length_app; simpl. by rewrite take_app_le, firstn_all2 by lia.
Qed.

Lemma pop_back_snoc (s : bytes) (c : byte) : pop_back (s ++ [c]) = s.
Proof.
  unfold pop_back. rewrite length_app; simpl. by rewrite take_app_le, firstn_all2 by lia.
Qed.

Lemma find_last_of_None (s : bytes) (c : byte) : find_last_of s c = None ↔ c ∉ s.
Proof.
  induction s as [|d s IH]; simpl; [set_solver|]. rewrite not_elem_of_cons, <- IH. clear IH.
  destruct (find_last_of s c); [naive_solver|]. case_bool_decide; naive_solver.
Qed.

Lemma find_last_of_app (s t : bytes) (c : byte) :
  c ∉ t → find_last_of (s ++ c :: t) c = Some (length s).
Proof.
  intros Ht. induction s as [|d s IH]; simpl; [|by rewrite IH].
  rewrite (proj2 (find_last_of_None t c) Ht). by rewrite bool_decide_true.
Qed.

(** ** Properties *)

(** A component: a non-empty name without separators. *)
Definition component (name : bytes) : Prop := name ≠ [] ∧ slash ∉ name.

Lemma component_no_trailing (dir name : bytes) :
  component name → ends_with_char (dir ++ name) slash = false.
Proof.
  intros [Hne Hns]. destruct name as [|c name _] using rev_ind; [done|].
  rewrite app_assoc, ends_with_char_snoc. apply bool_decide_eq_false. set_solver.
Qed.

Lemma parent_of_child (dir name : bytes) :
  component name → ends_with_char dir slash = false →
  get_parent_path (get_full_path dir name) = if bool_decide (dir = []) then None else Some dir.
Proof.
  intros Hc Hd. unfold get_full_path. rewrite Hd.
  unfold get_parent_path. rewrite component_no_trailing by done.
  rewrite <- app_assoc. simpl. rewrite find_last_of_app by apply Hc.
  by rewrite take_app_length.
Qed.

Lemma parent_trailing_slash (path : bytes) :
  ends_with_char path slash = false → get_parent_path (path ++ [slash]) = get_parent_path path.
Proof.
  intros Hp. unfold get_parent_path. rewrite Hp, ends_with_char_snoc, bool_decide_true by done.
  by rewrite pop_back_snoc.
Qed.

(** An entry of a directory (the root is the empty string here), with or without a
    separator at its end. *)
Definition lies_in (d p : bytes) : Prop :=
  ∃ name, component name ∧ (p = d ++ slash :: name ∨ p = d ++ slash :: name ++ [slash]).

(** A directory other than the root, written without a separator at its end. *)
Definition plain_dir (d : bytes) : Prop := d ≠ [] ∧ ends_with_char d slash = false.

Lemma lies_in_child d p :
  ends_with_char d slash = false → lies_in d p →
  get_parent_path p = if bool_decide (d = []) then None else Some d.
Proof.
  intros Hd (name & Hn & Hp).
  assert (E : get_parent_path (d ++ slash :: name) = if bool_decide (d = []) then None else Some d).
  { pose proof (parent_of_child d name Hn Hd) as Hc. unfold get_full_path in Hc. rewrite Hd, <- app_assoc in Hc.
    exact Hc. }
  destruct Hp as [-> | ->]; [done|]. rewrite app_comm_cons, app_assoc, parent_trailing_slash; [done|].
  rewrite cons_middle, app_assoc. by apply component_no_trailing.
Qed.

Lemma lies_in_parent d p : plain_dir d → lies_in d p → get_parent_path p = Some d.
Proof. intros [Hne Hd] Hp. rewrite (lies_in_child d p Hd Hp). by rewrite bool_decide_false. Qed.

Lemma lies_in_root p : lies_in [] p → get_parent_path p = None.
Proof. intros Hp. by rewrite (lies_in_child [] p). Qed.

(** ** Claims *)

(** C35. [get_parent_path] inverts [get_full_path]: the parent of an entry of a
    directory (given with or without its trailing separator) is that directory,
    whatever the entry's name, except for the root directory, whose entries are
    reported to have no parent. *)
Theorem parent_of_full_path (dir name : bytes) :
  component name → ends_with_char dir slash = false →
  get_parent_path (get_full_path dir name) = (if bool_decide (dir = []) then None else Some dir) ∧
  get_full_path (dir ++ [slash]) name = get_full_path dir name ∧
  get_parent_path (get_full_path dir name ++ [slash]) = get_parent_path (get_full_path dir name).
Proof.
  intros Hc Hd. split; [by apply parent_of_child|]. split.
  - unfold get_full_path. by rewrite ends_with_char_snoc, bool_decide_true, Hd.
  - apply parent_trailing_slash. unfold get_full_path. rewrite Hd.
    by apply component_no_trailing.
Qed.

Lemma parent_of_full_path_witness :
  get_parent_path (bs "/sdcard/DCIM") = Some (bs "/sdcard") ∧
  get_parent_path (get_full_path (bs "/sdcard") (bs "DCIM")) =
    (if bool_decide (bs "/sdcard" = []) then None else Some (bs "/sdcard")) ∧
  get_full_path (bs "/sdcard" ++ [slash]) (bs "DCIM") = get_full_path (bs "/sdcard") (bs "DCIM") ∧
  get_parent_path (get_full_path (bs "/sdcard") (bs "DCIM") ++ [slash]) =
    get_parent_path (get_full_path (bs "/sdcard") (bs "DCIM")).
Proof.
  split; [vm_compute; reflexivity|].
  apply (parent_of_full_path (bs "/sdcard") (bs "DCIM")); [|vm_compute; reflexivity].
  split; [discriminate|]. apply (bool_decide_eq_true_1 _). vm_compute. reflexivity.
Defined.
