(* ===== verification/Conversion.v ===== *)
(** * Conversions between Unix and Windows forms: nandroidfs/conversion.cpp *)

From S2P Require Import Prelude Effects Endian Responses PathUtils.

(** The NTSTATUS values the client returns. *)
Inductive NTSTATUS : Type :=
  | STATUS_SUCCESS | STATUS_UNSUCCESSFUL | STATUS_NOT_IMPLEMENTED | STATUS_ACCESS_DENIED
  | STATUS_OBJECT_NAME_NOT_FOUND | STATUS_OBJECT_NAME_COLLISION | STATUS_FILE_IS_A_DIRECTORY
  | STATUS_DIRECTORY_NOT_EMPTY | STATUS_NOT_A_DIRECTORY.

#[global] Instance NTSTATUS_eq_dec : EqDecision NTSTATUS.
Proof. solve_decision. Defined.

Definition ntstatus_from_respstatus (resp_status : ResponseStatus) : NTSTATUS :=
  match resp_status with
  | Success => STATUS_SUCCESS
  | FileNotFound => STATUS_OBJECT_NAME_NOT_FOUND
  | AccessDenied => STATUS_ACCESS_DENIED
  | FileExists => STATUS_OBJECT_NAME_COLLISION
  | NotADirectory => STATUS_NOT_A_DIRECTORY
  | DirectoryNotEmpty => STATUS_DIRECTORY_NOT_EMPTY
  | _ => STATUS_UNSUCCESSFUL
  end.

Definition FILE_ATTRIBUTE_DIRECTORY : Z := 16.
Definition FILE_ATTRIBUTE_NORMAL : Z := 128.

Definition file_attributes_from_st_mode (st_mode : Z) : Z :=
  let file_type := Z.land st_mode 0xF000 in
  if file_type =? 0x4000 then FILE_ATTRIBUTE_DIRECTORY else FILE_ATTRIBUTE_NORMAL.

(** [attributes & FILE_ATTRIBUTE_DIRECTORY] as the callers test it. *)
Definition attr_is_directory (attributes : Z) : bool :=
  negb (Z.land attributes FILE_ATTRIBUTE_DIRECTORY =? 0).

(** ** Times *)
Record FILETIME : Type := mkFILETIME { dwLowDateTime : Z; dwHighDateTime : Z }.

Definition EPOCH_DIFFERENCE : Z := 11644473600.

Definition filetime_from_unix_time (unix_time : Z) : FILETIME :=
  let since_windows_epoch := to_u64 (unix_time + EPOCH_DIFFERENCE) in
  let win_epoch_valid_res := to_u64 (10000000 * since_windows_epoch) in
  {| dwLowDateTime := to_u32 win_epoch_valid_res;
     dwHighDateTime := to_u32 (Z.shiftr win_epoch_valid_res 32) |}.

Definition unix_time_from_filetime (file_time : FILETIME) : Z :=
  let file_time_u64 := Z.lor (to_u64 (Z.shiftl (dwHighDateTime file_time) 32)) (dwLowDateTime file_time) in
  let file_time_u64 := file_time_u64 / 10000000 in
  let signed_file_time := to_i64 (to_u64 (to_i64 file_time_u64 - EPOCH_DIFFERENCE)) in
  Z.max signed_file_time 0.

(** ** Paths

    UTF-16 strings are lists of 16-bit units.  The encoding conversions are the
    Windows API's ([WideCharToMultiByte], whose output includes the terminating
    NUL) and the C++ library's deprecated [wstring_convert]: parameters. *)
Abbreviation wstring := (list Z).

Class WideStrings : Type := {
  WideCharToMultiByte : wstring → bytes;
  from_bytes : bytes → result wstring;
}.

(** [std::replace] over a whole string. *)
Definition replace_byte (old new : byte) (s : bytes) : bytes :=
  map (λ c, if bool_decide (c = old) then new else c) s.
Definition replace_wchar (old new : Z) (s : wstring) : wstring :=
  map (λ c, if c =? old then new else c) s.

(** Drop the trailing separator unless the path is the root. *)
Definition strip_trailing (unix_path : bytes) : bytes :=
  if (1 <? zlen unix_path) && ends_with_char unix_path slash then pop_back unix_path else unix_path.

Section Paths.
Context `{WideStrings}.

(** With no bytes converted, [resize(size_needed - 1)] asks for [SIZE_MAX] and
    throws [std::length_error]. *)
Definition win32_path_to_unix (win32_path : wstring) : result bytes :=
  let unix_path := WideCharToMultiByte win32_path in
  let size_needed := zlen unix_path in
  if size_needed =? 0 then Throw (RuntimeError "string too long")
  else
    let unix_path := ztake (size_needed - 1) unix_path in
    let unix_path := replace_byte backslash slash unix_path in
    Ok (strip_trailing unix_path).

Definition wstring_from_string (string : bytes) : result wstring := from_bytes string.

Definition unix_path_to_win32 (unix_path : bytes) : result wstring :=
  match wstring_from_string unix_path with
  | Ok win32_path => Ok (replace_wchar 47 92 win32_path)
  | Throw e => Throw e
  end.
End Paths.

(** ** Properties of the conversions *)
Lemma attributes_cases (m : Z) :
  file_attributes_from_st_mode m = FILE_ATTRIBUTE_DIRECTORY ∧ Z.land m 0xF000 = 0x4000 ∨
  file_attributes_from_st_mode m = FILE_ATTRIBUTE_NORMAL ∧ Z.land m 0xF000 ≠ 0x4000.
Proof. unfold file_attributes_from_st_mode. destruct (Z.eqb_spec (Z.land m 0xF000) 0x4000); auto. Qed.

(** The 64-bit tick count a FILETIME stands for. *)
Definition ticks (f : FILETIME) : Z := dwHighDateTime f * 2 ^ 32 + dwLowDateTime f.

Definition filetime_wf (f : FILETIME) : Prop := is_u32 (dwLowDateTime f) ∧ is_u32 (dwHighDateTime f).

Lemma unix_time_from_ticks (f : FILETIME) :
  filetime_wf f →
  unix_time_from_filetime f = Z.max (ticks f / 10000000 - EPOCH_DIFFERENCE) 0.
Proof.
  intros [Hlo Hhi]. unfold is_unsigned in *. unfold unix_time_from_filetime.
  assert (Hw : Z.lor (to_u64 (Z.shiftl (dwHighDateTime f) 32)) (dwLowDateTime f) = ticks f).
  { rewrite wrap_id; [by apply lor_shiftl_add|].
    unfold is_unsigned. rewrite Z.shiftl_mul_pow2 by lia. nia. }
  rewrite Hw. set (q := ticks f / 10000000).
  assert (0 ≤ q < 2 ^ 41).
  { subst q. unfold ticks. split; [apply Z.div_pos; nia|apply Z.div_lt_upper_bound; nia]. }
  unfold EPOCH_DIFFERENCE. f_equal.
  rewrite (to_signed_id 64 q) by (unfold is_signed; lia).
  apply to_signed_wrap; unfold is_signed; lia.
Qed.

(** The last second a FILETIME can represent. *)
Definition LAST_UNIX_TIME : Z := 1833029933770.

Lemma filetime_from_unix_ticks (t : Z) :
  0 ≤ t ≤ LAST_UNIX_TIME →
  filetime_wf (filetime_from_unix_time t) ∧
  ticks (filetime_from_unix_time t) = 10000000 * (t + EPOCH_DIFFERENCE).
Proof.
  unfold LAST_UNIX_TIME. intros Ht. unfold filetime_wf, ticks, filetime_from_unix_time; simpl.
  unfold EPOCH_DIFFERENCE. rewrite !(wrap_id 64) by (unfold is_unsigned; rewrite ?wrap_id; unfold is_unsigned; lia).
  set (v := 10000000 * _). assert (0 ≤ v < 2 ^ 64) by lia.
  rewrite Z.shiftr_div_pow2 by lia. split; [split; apply wrap_range; lia|].
  rewrite (wrap_id 32 (v / 2 ^ 32)).
  - unfold wrap. rewrite (Z.div_mod v (2 ^ 32)) at 3 by lia. lia.
  - unfold is_unsigned. split; [apply Z.div_pos; lia|apply Z.div_lt_upper_bound; lia].
Qed.

Lemma replace_byte_gone (s : bytes) (old new : byte) : old ≠ new → old ∉ replace_byte old new s.
Proof.
  intros Hne. unfold replace_byte. rewrite list_elem_of_fmap. intros (c & E & _).
  case_bool_decide; congruence.
Qed.

Lemma strip_trailing_incl (s : bytes) (c : byte) : c ∈ strip_trailing s → c ∈ s.
Proof.
  unfold strip_trailing, pop_back. destruct (_ && _); [|done].
  intros Hc. rewrite <- (take_drop (length s - 1) s). apply elem_of_app. by left.
Qed.

(** ** A concrete conversion: one unit per byte *)
Module SingleByteStrings.
#[export] Instance single_byte : WideStrings := {|
  WideCharToMultiByte w := map z2b w ++ [x00];
  from_bytes d := Ok (map b2z d);
|}.
End SingleByteStrings.

(** A wide string literal of ASCII characters. *)
Definition ws (s : bytes) : wstring := map b2z s.

(** ** Claims *)

(** C34. File times survive the trip to Windows and back: every Unix time from the
    epoch to the last second a FILETIME can hold converts to a FILETIME and back
    to itself, with no intermediate overflow. *)
Theorem filetime_round_trip (t : Z) :
  0 ≤ t ≤ LAST_UNIX_TIME → unix_time_from_filetime (filetime_from_unix_time t) = t.
Proof.
  intros Ht. destruct (filetime_from_unix_ticks t Ht) as [Hwf Htk].
  rewrite unix_time_from_ticks by done. rewrite Htk, Z.mul_comm, Z.div_mul by lia. lia.
Qed.

Lemma filetime_round_trip_witness :
  filetime_from_unix_time 1700000000 = mkFILETIME 3329032192 31070023 ∧
  unix_time_from_filetime (filetime_from_unix_time 1700000000) = 1700000000.
Proof.
  split; [vm_compute; reflexivity|].
  apply (filetime_round_trip 1700000000). unfold LAST_UNIX_TIME. lia.
Defined.

(** Any FILETIME becomes a non-negative Unix time: dates before 1970 become 0,
    later ones lose only their fraction of a second, so converting back gives a
    FILETIME less than one second earlier. *)
Theorem unix_time_clamped (f : FILETIME) :
  filetime_wf f →
  0 ≤ unix_time_from_filetime f ∧
  (ticks f < 10000000 * EPOCH_DIFFERENCE → unix_time_from_filetime f = 0) ∧
  (10000000 * EPOCH_DIFFERENCE ≤ ticks f →
   ticks (filetime_from_unix_time (unix_time_from_filetime f)) ≤ ticks f
     < ticks (filetime_from_unix_time (unix_time_from_filetime f)) + 10000000).
Proof.
  intros Hwf. rewrite unix_time_from_ticks by done. split; [lia|].
  pose proof (Z.mul_div_le (ticks f) 10000000 ltac:(lia)).
  pose proof (Z.mul_succ_div_gt (ticks f) 10000000 ltac:(lia)).
  destruct Hwf as [Hlo Hhi]. unfold is_unsigned in *. unfold EPOCH_DIFFERENCE in *.
  assert (ticks f < 2 ^ 64) by (unfold ticks; nia).
  split; [lia|]. intros Hle.
  set (q := ticks f / 10000000) in *. rewrite Z.max_l by lia.
  destruct (filetime_from_unix_ticks (q - 11644473600)) as [_ E]; [unfold LAST_UNIX_TIME; lia|].
  unfold EPOCH_DIFFERENCE in E. lia.
Qed.

Lemma unix_time_clamped_witness :
  unix_time_from_filetime (mkFILETIME 3329032193 31070023) = 1700000000 ∧
  0 ≤ unix_time_from_filetime (mkFILETIME 5 0) ∧
  (ticks (mkFILETIME 5 0) < 10000000 * EPOCH_DIFFERENCE → unix_time_from_filetime (mkFILETIME 5 0) = 0) ∧
  (10000000 * EPOCH_DIFFERENCE ≤ ticks (mkFILETIME 5 0) →
   ticks (filetime_from_unix_time (unix_time_from_filetime (mkFILETIME 5 0))) ≤ ticks (mkFILETIME 5 0)
     < ticks (filetime_from_unix_time (unix_time_from_filetime (mkFILETIME 5 0))) + 10000000).
Proof.
  split; [vm_compute; reflexivity|].
  apply (unix_time_clamped (mkFILETIME 5 0)). split; unfold is_unsigned; simpl; lia.
Defined.

(** A path from Windows arrives in Unix form: with [d] the converted bytes
    before the terminating NUL, the result has no backslash, every other byte in
    place, and one trailing separator removed unless the path is the root; it ends
    in a separator only if it is the root or [d] ended in two. *)
Theorem unix_path_normal `{WideStrings} (w : wstring) (d : bytes) :
  WideCharToMultiByte w = d ++ [x00] →
  ∃ p, win32_path_to_unix w = Ok p ∧ backslash ∉ p ∧
    (p = replace_byte backslash slash d ∨ p ++ [slash] = replace_byte backslash slash d) ∧
    (ends_with_char p slash = true →
     p = [slash] ∨ p ++ [slash] = replace_byte backslash slash d).
Proof.
  intros Hw. unfold win32_path_to_unix. rewrite Hw.
  assert (Hl : zlen (d ++ [x00]) = zlen d + 1) by (rewrite zlen_app; done).
  pose proof (zlen_nonneg d). rewrite Hl, (proj2 (Z.eqb_neq _ _)) by lia.
  replace (zlen d + 1 - 1) with (zlen d) by lia. rewrite ztake_app_exact by done.
  set (r := replace_byte backslash slash d). eexists. split; [done|].
  split; [intros Hin; apply strip_trailing_incl in Hin; revert Hin; by apply replace_byte_gone|].
  unfold strip_trailing. destruct (ends_with_char r slash) eqn:E; rewrite ?andb_true_r, ?andb_false_r.
  2: { split; [by left|]. congruence. }
  destruct (Z.ltb_spec 1 (zlen r)).
  - apply ends_with_char_true in E. split; [by right|]. intros _. by right.
  - split; [by left|]. intros _. left. apply ends_with_char_true in E. revert E.
    destruct r as [|a [|b r]]; [done|by intros [= ->]|]. rewrite !zlen_cons in *. pose proof (zlen_nonneg r). lia.
Qed.

Module ConversionWitnesses.
Import SingleByteStrings.

Lemma unix_path_normal_witness :
  ∃ p, win32_path_to_unix (ws (bs "\DCIM\a.jpg\")) = Ok p ∧ backslash ∉ p ∧
    (p = replace_byte backslash slash (bs "\DCIM\a.jpg\") ∨
     p ++ [slash] = replace_byte backslash slash (bs "\DCIM\a.jpg\")) ∧
    (ends_with_char p slash = true →
     p = [slash] ∨ p ++ [slash] = replace_byte backslash slash (bs "\DCIM\a.jpg\")).
Proof.
  apply (unix_path_normal (ws (bs "\DCIM\a.jpg\")) (bs "\DCIM\a.jpg\")). vm_compute. reflexivity.
Defined.
End ConversionWitnesses.
