(* ===== verification/TimedCache.v ===== *)
(** * The timed cache: nandroidfs/TimedCache.hpp

    Entries expire [cached_item_valid_for] milliseconds after they were stored;
    expired entries are swept out once per [cache_scan_interval].  Time points of
    [std::chrono::steady_clock] are nanosecond counts, passed to each operation
    in the order its source reads the clock.

    The abstract cache ([spec]) is a map that is never swept; [TimedCache] gives
    the same answers at every time. *)

From S2P Require Import Prelude.

Definition ms (d : Z) : Z := d * 1000000.

Section TimedCache.
Context {T : Type}.

Record CachedData : Type := mkCachedData { data : T; fetched_at : Z }.

Record TimedCache : Type := mkTimedCache {
  cache_scan_interval : Z;
  cached_item_valid_for : Z;
  total_cache_hits : Z;
  total_data_fetched : Z;
  last_cache_scan : Z;
  cached_data : gmap bytes CachedData;
}.

Record CacheStatistics : Type := mkCacheStatistics { stat_hits : Z; stat_fetched : Z }.

Definition with_data (m : gmap bytes CachedData) (c : TimedCache) : TimedCache :=
  {| cache_scan_interval := cache_scan_interval c;
     cached_item_valid_for := cached_item_valid_for c;
     total_cache_hits := total_cache_hits c; total_data_fetched := total_data_fetched c;
     last_cache_scan := last_cache_scan c; cached_data := m |}.

Definition with_scan (now : Z) (c : TimedCache) : TimedCache :=
  {| cache_scan_interval := cache_scan_interval c;
     cached_item_valid_for := cached_item_valid_for c;
     total_cache_hits := total_cache_hits c; total_data_fetched := total_data_fetched c;
     last_cache_scan := now; cached_data := cached_data c |}.

Definition count (hit : bool) (c : TimedCache) : TimedCache :=
  {| cache_scan_interval := cache_scan_interval c;
     cached_item_valid_for := cached_item_valid_for c;
     total_cache_hits := if hit then to_u64 (total_cache_hits c + 1) else total_cache_hits c;
     total_data_fetched := to_u64 (total_data_fetched c + 1);
     last_cache_scan := last_cache_scan c; cached_data := cached_data c |}.

(** ** Operations *)
Definition create (scan_interval valid_for now : Z) : TimedCache :=
  {| cache_scan_interval := scan_interval; cached_item_valid_for := valid_for;
     total_cache_hits := 0; total_data_fetched := 0;
     last_cache_scan := now; cached_data := ∅ |}.

Definition expired (valid_for now : Z) (d : CachedData) : bool := ms valid_for <? now - fetched_at d.

(** The sweep: one pass over the map, erasing as it goes. *)
Definition clean_cache (now : Z) (c : TimedCache) : TimedCache :=
  with_data
    (foldl (λ m kd, if expired (cached_item_valid_for c) now (snd kd) then delete (fst kd) m else m)
           (cached_data c) (map_to_list (cached_data c))) c.

Definition get_cached (now : Z) (file_path : bytes) (c : TimedCache) : TimedCache * option T :=
  match cached_data c !! file_path with
  | Some cached =>
      if now - fetched_at cached <=? ms (cached_item_valid_for c)
      then (count true c, Some (data cached))
      else (count false c, None)
  | None => (count false c, None)
  end.

(** [now] is the first reading of the clock, [now'] the one in [clean_cache]. *)
Definition cache (now now' : Z) (file_path : bytes) (datum : T) (c : TimedCache) : TimedCache :=
  let c := with_data (<[file_path := mkCachedData datum now]> (cached_data c)) c in
  if ms (cache_scan_interval c) <? now - last_cache_scan c
  then clean_cache now' (with_scan now c)
  else c.

(** The existence test under the shared lock, then the erase under the unique
    one. *)
Definition invalidate (file_path : bytes) (c : TimedCache) : TimedCache :=
  match cached_data c !! file_path with
  | None => c
  | Some _ => with_data (delete file_path (cached_data c)) c
  end.

Definition get_cache_statistics (c : TimedCache) : CacheStatistics :=
  {| stat_hits := total_cache_hits c; stat_fetched := total_data_fetched c |}.

(** ** The sweep removes exactly the expired entries *)
Lemma sweep_lookup (valid_for now : Z) (l : list (bytes * CachedData)) (m : gmap bytes CachedData)
    (k : bytes) :
  (∀ k d, (k, d) ∈ l → m !! k = Some d) → NoDup l.*1 →
  foldl (λ m kd, if expired valid_for now (snd kd) then delete (fst kd) m else m) m l !! k =
  match m !! k with
  | Some d => if bool_decide (k ∈ l.*1) && expired valid_for now d then None else Some d
  | None => None
  end.
Proof.
  revert m. induction l as [|[k' d'] l IH]; intros m Hl Hnd; simpl.
  - by destruct (m !! k).
  - apply NoDup_cons in Hnd as [Hk' Hnd]; simpl in Hk'.
    assert (Hd' : m !! k' = Some d') by (apply Hl; set_solver).
    rewrite IH; [|clear IH|done].
    + destruct (expired valid_for now d') eqn:E, (decide (k = k')) as [->|Hne].
      * rewrite lookup_delete_eq, Hd', E. by rewrite (bool_decide_true (k' ∈ _)) by set_solver.
      * rewrite lookup_delete_ne by done. destruct (m !! k); [|done].
        by rewrite (bool_decide_ext (k ∈ k' :: _) (k ∈ l.*1)) by set_solver.
      * rewrite Hd', E. by rewrite !andb_false_r.
      * destruct (m !! k); [|done].
        by rewrite (bool_decide_ext (k ∈ k' :: _) (k ∈ l.*1)) by set_solver.
    + intros k0 d0 Hin. assert (k0 ∈ l.*1) by (apply list_elem_of_fmap; by exists (k0, d0)).
      destruct (expired _ _ _); [rewrite lookup_delete_ne by set_solver|]; apply Hl; set_solver.
Qed.

Lemma clean_cache_lookup now c k :
  cached_data (clean_cache now c) !! k =
  match cached_data c !! k with
  | Some d => if expired (cached_item_valid_for c) now d then None else Some d
  | None => None
  end.
Proof.
  unfold clean_cache; simpl. rewrite sweep_lookup; [|by intros ?? ?%elem_of_map_to_list|
    apply NoDup_fst_map_to_list].
  destruct (cached_data c !! k) as [d|] eqn:E; [|done].
  rewrite bool_decide_true; [done|]. apply elem_of_map_to_list in E.
  apply list_elem_of_fmap. by exists (k, d).
Qed.

(** ** The abstract cache *)
Definition spec : Type := gmap bytes CachedData.

Definition spec_get (valid_for now : Z) (k : bytes) (m : gmap bytes CachedData) : option T :=
  d ← m !! k; if expired valid_for now d then None else Some (data d).

(** [c] stands for [m] at time [t]: it holds what [m] holds, but for entries
    that are expired at [t]. *)
Definition represents (t : Z) (c : TimedCache) (m : gmap bytes CachedData) : Prop :=
  ∀ k, cached_data c !! k = m !! k ∨
       cached_data c !! k = None ∧ ∃ d, m !! k = Some d ∧ expired (cached_item_valid_for c) t d = true.

Lemma expired_mono valid_for t t' d : t ≤ t' → expired valid_for t d = true → expired valid_for t' d = true.
Proof. unfold expired. rewrite !Z.ltb_lt. lia. Qed.

Lemma represents_mono (t t' : Z) c m : t ≤ t' → represents t c m → represents t' c m.
Proof.
  intros Ht Hr k. destruct (Hr k) as [?|(? & d & ? & ?)]; [by left|right].
  split; [done|]. exists d. eauto using expired_mono.
Qed.

Lemma get_cached_represents t now k c m :
  represents t c m → t ≤ now →
  snd (get_cached now k c) = spec_get (cached_item_valid_for c) now k m ∧
  represents now (fst (get_cached now k c)) m.
Proof.
  intros Hr Ht. apply (represents_mono _ now) in Hr; [|done].
  unfold get_cached, spec_get. destruct (Hr k) as [->|(-> & d & -> & He)]; simpl.
  - destruct (m !! k) as [d|]; simpl; [|by split; [|apply Hr]].
    unfold expired.
    destruct (Z.leb_spec (now - fetched_at d) (ms (cached_item_valid_for c)));
      destruct (Z.ltb_spec (ms (cached_item_valid_for c)) (now - fetched_at d)); try lia;
      by split; [|apply Hr].
  - rewrite He. by split; [|apply Hr].
Qed.

Lemma clean_represents t c m : represents t c m → represents t (clean_cache t c) m.
Proof.
  intros Hr k. rewrite clean_cache_lookup. destruct (Hr k) as [->|(-> & d & -> & He)].
  - destruct (m !! k) as [d|]; [|by left].
    destruct (expired (cached_item_valid_for c) t d) eqn:E; [|by left].
    right. split; [done|]. by exists d.
  - right. split; [done|]. by exists d.
Qed.

Lemma cache_represents t now now' k v c m :
  represents t c m → t ≤ now ≤ now' →
  represents now' (cache now now' k v c) (<[k := mkCachedData v now]> m).
Proof.
  intros Hr Ht. apply (represents_mono _ now') in Hr; [|lia].
  assert (Hi : represents now' (with_data (<[k := mkCachedData v now]> (cached_data c)) c)
                 (<[k := mkCachedData v now]> m)).
  { intros k'. simpl. destruct (decide (k = k')) as [->|Hne];
      [left; by rewrite !lookup_insert_eq|rewrite !lookup_insert_ne by done; apply Hr]. }
  unfold cache. destruct (_ <? _); [|done]. by apply clean_represents.
Qed.

Lemma invalidate_lookup k c : cached_data (invalidate k c) = delete k (cached_data c).
Proof.
  unfold invalidate. destruct (cached_data c !! k) eqn:E; [done|]. by rewrite delete_id.
Qed.

Lemma invalidate_valid_for k c : cached_item_valid_for (invalidate k c) = cached_item_valid_for c.
Proof. unfold invalidate. by destruct (cached_data c !! k). Qed.

Lemma invalidate_represents t k c m :
  represents t c m → represents t (invalidate k c) (delete k m).
Proof.
  intros Hr k'. rewrite invalidate_lookup.
  replace (cached_item_valid_for (invalidate k c)) with (cached_item_valid_for c)
    by (unfold invalidate; by destruct (_ !! _)).
  destruct (decide (k = k')) as [->|Hne]; [left; by rewrite !lookup_delete_eq|].
  rewrite !lookup_delete_ne by done. apply Hr.
Qed.

(** ** Runs *)
Inductive op : Type :=
  | OpGet (now : Z) (k : bytes)
  | OpCache (now now' : Z) (k : bytes) (v : T)
  | OpInvalidate (k : bytes).

Definition run_op (c : TimedCache) (o : op) : TimedCache * option T :=
  match o with
  | OpGet now k => get_cached now k c
  | OpCache now now' k v => (cache now now' k v c, None)
  | OpInvalidate k => (invalidate k c, None)
  end.

Definition spec_op (valid_for : Z) (m : gmap bytes CachedData) (o : op)
    : gmap bytes CachedData * option T :=
  match o with
  | OpGet now k => (m, spec_get valid_for now k m)
  | OpCache now _ k v => (<[k := mkCachedData v now]> m, None)
  | OpInvalidate k => (delete k m, None)
  end.

Fixpoint run (c : TimedCache) (ops : list op) : list (option T) :=
  match ops with
  | [] => []
  | o :: ops => snd (run_op c o) :: run (fst (run_op c o)) ops
  end.

Fixpoint spec_run (valid_for : Z) (m : gmap bytes CachedData) (ops : list op) : list (option T) :=
  match ops with
  | [] => []
  | o :: ops => snd (spec_op valid_for m o) :: spec_run valid_for (fst (spec_op valid_for m o)) ops
  end.

(** The clock is steady: each reading is at or after the one before. *)
Fixpoint steady (t : Z) (ops : list op) : Prop :=
  match ops with
  | [] => True
  | OpGet now _ :: ops => t ≤ now ∧ steady now ops
  | OpCache now now' _ _ :: ops => t ≤ now ≤ now' ∧ steady now' ops
  | OpInvalidate _ :: ops => steady t ops
  end.

Lemma valid_for_const c o :
  cached_item_valid_for (fst (run_op c o)) = cached_item_valid_for c.
Proof.
  destruct o; simpl.
  - unfold get_cached. destruct (_ !! _); [destruct (_ <=? _)|]; done.
  - unfold cache. by destruct (_ <? _).
  - unfold invalidate. by destruct (_ !! _).
Qed.

Lemma run_refines t c m ops :
  represents t c m → steady t ops → run c ops = spec_run (cached_item_valid_for c) m ops.
Proof.
  revert t c m. induction ops as [|o ops IH]; intros t c m Hr Hs; [done|].
  assert (∃ t', snd (run_op c o) = snd (spec_op (cached_item_valid_for c) m o) ∧
            represents t' (fst (run_op c o)) (fst (spec_op (cached_item_valid_for c) m o)) ∧
            steady t' ops) as (t' & E & Hr' & Hs').
  { destruct o as [now k|now now' k v|k]; simpl in Hs |- *.
    - destruct Hs as [Ht Hs]. exists now.
      destruct (get_cached_represents t now k c m Hr Ht). by split_and!.
    - destruct Hs as [Ht Hs]. exists now'. split_and!; [done| |done]. by apply (cache_represents t).
    - exists t. split_and!; [done| |done]. by apply invalidate_represents. }
  simpl. rewrite E. f_equal. rewrite (IH t' _ _ Hr' Hs'). by rewrite valid_for_const.
Qed.

(** ** Bounded growth: what survives a [cache] call *)
Definition swept (c : TimedCache) : Prop :=
  map_Forall (λ _ d, last_cache_scan c - ms (cached_item_valid_for c) ≤ fetched_at d) (cached_data c).

Lemma create_swept i v now : swept (create i v now).
Proof. apply map_Forall_empty. Qed.

Lemma cache_swept now now' k v c :
  swept c → now ≤ now' → last_cache_scan c ≤ now → 0 ≤ cached_item_valid_for c →
  let c' := cache now now' k v c in
  swept c' ∧ last_cache_scan c' ≤ now ∧
  now - last_cache_scan c' ≤ Z.max 0 (ms (cache_scan_interval c)).
Proof.
  intros Hs Hnow Hl Hv. unfold cache. simpl.
  assert (Hi : swept (with_data (<[k := mkCachedData v now]> (cached_data c)) c)).
  { apply map_Forall_insert_2; [simpl; unfold ms; lia|exact Hs]. }
  destruct (Z.ltb_spec (ms (cache_scan_interval c)) (now - last_cache_scan c)); simpl.
  - split_and!; [|unfold clean_cache; simpl; lia..]. intros k' d. rewrite clean_cache_lookup; simpl.
    destruct (_ !! k') as [d0|]; [|done]. unfold expired.
    destruct (Z.ltb_spec (ms (cached_item_valid_for c)) (now' - fetched_at d0)); [done|].
    intros [= <-]. lia.
  - split_and!; [done|lia..].
Qed.

Lemma invalidate_swept k c : swept c → swept (invalidate k c).
Proof.
  unfold swept. rewrite invalidate_lookup. intros Hs.
  replace (last_cache_scan (invalidate k c)) with (last_cache_scan c)
    by (unfold invalidate; by destruct (_ !! _)).
  replace (cached_item_valid_for (invalidate k c)) with (cached_item_valid_for c)
    by (unfold invalidate; by destruct (_ !! _)).
  by apply map_Forall_delete.
Qed.

(** ** States reached by runs *)
Definition run_state (c : TimedCache) (ops : list op) : TimedCache :=
  foldl (λ c o, fst (run_op c o)) c ops.
Definition spec_state (m : gmap bytes CachedData) (ops : list op) : gmap bytes CachedData :=
  foldl (λ m o, fst (spec_op 0 m o)) m ops.

(** The last reading of the clock in a run that started at [t]. *)
Fixpoint end_time (t : Z) (ops : list op) : Z :=
  match ops with
  | [] => t
  | OpGet now _ :: ops => end_time now ops
  | OpCache _ now' _ _ :: ops => end_time now' ops
  | OpInvalidate _ :: ops => end_time t ops
  end.

Lemma steady_app t ops ops' : steady t (ops ++ ops') ↔ steady t ops ∧ steady (end_time t ops) ops'.
Proof.
  revert t. induction ops as [|[now k|now now' k v|k] ops IH]; intros t; simpl; [tauto|..];
    rewrite IH; tauto.
Qed.

Lemma run_state_represents t c m ops :
  represents t c m → steady t ops → represents (end_time t ops) (run_state c ops) (spec_state m ops).
Proof.
  revert t c m. induction ops as [|[now k|now now' k v|k] ops IH]; intros t c m Hr Hs; simpl in *; [done|..].
  - destruct Hs as [Ht Hs]. apply IH; [|done]. by apply (get_cached_represents t).
  - destruct Hs as [Ht Hs]. apply IH; [|done]. by apply (cache_represents t).
  - apply IH; [|done]. by apply invalidate_represents.
Qed.

Lemma run_state_config c ops :
  cached_item_valid_for (run_state c ops) = cached_item_valid_for c.
Proof.
  revert c. induction ops as [|o ops IH]; intros c; simpl; [done|]. by rewrite IH, valid_for_const.
Qed.

Definition touches (k : bytes) (o : op) : Prop :=
  match o with OpGet _ _ => False | OpCache _ _ k' _ | OpInvalidate k' => k' = k end.

Lemma spec_state_lookup ops k v t :
  spec_state ∅ ops !! k = Some (mkCachedData v t) ↔
  ∃ pre t' post, ops = pre ++ OpCache t t' k v :: post ∧ Forall (λ o, ¬ touches k o) post.
Proof.
  induction ops as [|o ops IH] using rev_ind.
  { split; [done|]. intros (pre & ? & ? & E & _). by destruct pre. }
  unfold spec_state. rewrite foldl_app. fold (spec_state ∅ ops). simpl.
  assert (Hkeep : ¬ touches k o → (spec_state ∅ ops !! k = Some (mkCachedData v t) ↔
    ∃ pre t' post, ops ++ [o] = pre ++ OpCache t t' k v :: post ∧ Forall (λ o, ¬ touches k o) post)).
  { intros Ho. rewrite IH. split.
    - intros (pre & t' & post & -> & Hp). exists pre, t', (post ++ [o]).
      rewrite <- app_assoc. split; [done|]. apply Forall_app. by auto.
    - intros (pre & t' & post & E & Hp). destruct post as [|o' post _] using rev_ind.
      + apply app_inj_tail in E as [_ ->]. by destruct Ho.
      + rewrite app_comm_cons, app_assoc in E. apply app_inj_tail in E as [-> ->].
        apply Forall_app in Hp as [Hp _]. eauto. }
  assert (Hlast : touches k o →
    (∃ pre t' post, ops ++ [o] = pre ++ OpCache t t' k v :: post ∧ Forall (λ o, ¬ touches k o) post) ↔
    ∃ t', o = OpCache t t' k v).
  { intros Ho. split.
    - intros (pre & t' & post & E & Hp). destruct post as [|o' post _] using rev_ind.
      + apply app_inj_tail in E as [_ ->]. eauto.
      + rewrite app_comm_cons, app_assoc in E. apply app_inj_tail in E as [_ ->].
        apply Forall_app in Hp as [_ Hp]. rewrite Forall_singleton in Hp. contradiction.
    - intros [t' ->]. by exists ops, t', []. }
  destruct o as [now k'|now now' k' v'|k']; simpl; [exact (Hkeep id)|..];
    destruct (decide (k' = k)) as [->|Hne].
  - rewrite Hlast by done. rewrite lookup_insert_eq. naive_solver.
  - rewrite lookup_insert_ne by done. by apply Hkeep.
  - rewrite Hlast by done. rewrite lookup_delete_eq. naive_solver.
  - rewrite lookup_delete_ne by done. by apply Hkeep.
Qed.

(** ** Growth along a run *)
Lemma get_cached_swept now k c : swept c → swept (fst (get_cached now k c)).
Proof. unfold get_cached. destruct (_ !! _); [destruct (_ <=? _)|]; done. Qed.

Lemma run_swept t c ops :
  swept c → last_cache_scan c ≤ t → 0 ≤ cached_item_valid_for c → steady t ops →
  swept (run_state c ops) ∧ last_cache_scan (run_state c ops) ≤ end_time t ops ∧
  cache_scan_interval (run_state c ops) = cache_scan_interval c.
Proof.
  revert t c. induction ops as [|[now k|now now' k v|k] ops IH]; intros t c Hs Hl Hv Hst; simpl in *.
  - done.
  - destruct Hst as [Ht Hst]. pose proof (valid_for_const c (OpGet now k)) as E. simpl in E.
    assert (E' : last_cache_scan (fst (get_cached now k c)) = last_cache_scan c ∧
                 cache_scan_interval (fst (get_cached now k c)) = cache_scan_interval c)
      by (unfold get_cached; destruct (_ !! _); [destruct (_ <=? _)|]; done).
    destruct E' as [E1 E2]. rewrite <- E2. apply IH; [by apply get_cached_swept|lia..|done].
  - destruct Hst as [[Ht Ht'] Hst]. pose proof (valid_for_const c (OpCache now now' k v)) as E. simpl in E.
    destruct (cache_swept now now' k v c Hs Ht' ltac:(lia) Hv) as (Hs' & Hl' & _).
    assert (E2 : cache_scan_interval (cache now now' k v c) = cache_scan_interval c)
      by (unfold cache; by destruct (_ <? _)).
    rewrite <- E2. apply IH; [done|lia..|done].
  - assert (E : last_cache_scan (invalidate k c) = last_cache_scan c ∧
                cache_scan_interval (invalidate k c) = cache_scan_interval c ∧
                cached_item_valid_for (invalidate k c) = cached_item_valid_for c)
      by (unfold invalidate; by destruct (_ !! _)).
    destruct E as (E1 & E2 & E3). rewrite <- E2. apply IH; [by apply invalidate_swept|lia..|done].
Qed.
End TimedCache.

Arguments TimedCache T : clear implicits.
Arguments CachedData T : clear implicits.
Arguments op T : clear implicits.

(** ** Claims *)
Section Claims.
Context {T : Type}.
Implicit Types (ops pre post : list (op T)) (x : T).

(** Along every sequence of [cache], [get_cached] and [invalidate] calls with
    a steady clock, the cache answers as the abstract cache that never sweeps:
    sweeping expired entries, whenever it happens, changes no answer. *)
Theorem timed_cache_refines scan_interval valid_for (t0 : Z) ops :
  steady t0 ops → run (create scan_interval valid_for t0) ops = spec_run valid_for ∅ ops.
Proof. intros Hs. apply (run_refines t0); [|done]. intros k. left. by rewrite lookup_empty. Qed.

(** [get_cached] returns a value exactly when the most recent [cache] or
    [invalidate] of its path was a [cache] of that value no more than
    [cached_item_valid_for] milliseconds before: an answer is never stale, an
    invalidated path never answers, and a fresh one always does. *)
Theorem cached_value_is_fresh scan_interval valid_for (t0 now : Z) (k : bytes) ops x :
  steady t0 (ops ++ [OpGet now k]) →
  snd (get_cached now k (run_state (create scan_interval valid_for t0) ops)) = Some x ↔
  ∃ pre t t' post, ops = pre ++ OpCache t t' k x :: post ∧ Forall (λ o, ¬ touches k o) post ∧
    now - t ≤ ms valid_for.
Proof.
  intros [Hs [Ht _]]%steady_app. set (c := create scan_interval valid_for t0).
  assert (Hr : represents t0 c ∅) by (intros p; left; by rewrite lookup_empty).
  pose proof (run_state_represents t0 c ∅ ops Hr Hs) as Hr'.
  destruct (get_cached_represents _ now k _ _ Hr' Ht) as [-> _].
  rewrite run_state_config. unfold spec_get, expired. simpl. split.
  - destruct (spec_state ∅ ops !! k) as [[v t]|] eqn:E; simpl; [|done].
    destruct (Z.ltb_spec (ms valid_for) (now - t)); [done|]. intros [= ->].
    apply spec_state_lookup in E as (pre & t' & post & ? & ?). eauto 9.
  - intros (pre & t & t' & post & E1 & E2 & E3).
    rewrite (proj2 (spec_state_lookup ops k x t)) by eauto. simpl.
    by rewrite (proj2 (Z.ltb_ge _ _)) by lia.
Qed.

(** C28. The cache does not grow without bound: right after any [cache] call of a
    run, every entry it still holds was stored within the last
    [cache_scan_interval + cached_item_valid_for] milliseconds. *)
Theorem cache_growth_bounded scan_interval valid_for (t0 now now' : Z) (k : bytes) ops x :
  0 ≤ scan_interval → 0 ≤ valid_for → steady t0 (ops ++ [OpCache now now' k x]) →
  map_Forall (λ _ d, now - fetched_at d ≤ ms (scan_interval + valid_for))
    (cached_data (run_state (create scan_interval valid_for t0) (ops ++ [OpCache now now' k x]))).
Proof.
  intros Hi Hv [Hs [[Ht Ht'] _]]%steady_app. set (c := create scan_interval valid_for t0).
  destruct (run_swept t0 c ops (create_swept _ _ _) ltac:(simpl; lia) Hv Hs) as (Hsw & Hl & Hint).
  unfold run_state. rewrite foldl_app. fold (run_state c ops). cbn [foldl run_op fst].
  pose proof (run_state_config c ops) as Hvf. pose proof (valid_for_const (run_state c ops) (OpCache now now' k x)) as E.
  cbn [run_op fst] in E.
  destruct (cache_swept now now' k x (run_state c ops) Hsw Ht' ltac:(lia) ltac:(rewrite Hvf; done))
    as (Hsw' & _ & Hnow).
  intros p d Hd. specialize (Hsw' p d Hd). simpl in Hsw'. rewrite E, Hvf in Hsw'. rewrite Hint in Hnow.
  unfold ms in *. simpl in *. lia.
Qed.
End Claims.

Module TimedCacheWitnesses.
Definition sec : Z := 1000000000.
Definition trace : list (op Z) :=
  [OpCache 0 1 (bs "/a") 1; OpGet (sec / 10) (bs "/a"); OpCache (sec / 10) (sec / 10) (bs "/b") 2;
   OpInvalidate (bs "/b"); OpGet (sec / 5) (bs "/b"); OpGet sec (bs "/a")].

Lemma timed_cache_refines_witness :
  run (create 5000 200 0) trace = [None; Some 1; None; None; None; None] ∧
  run (create 5000 200 0) trace = spec_run 200 ∅ trace.
Proof.
  split; [vm_compute; reflexivity|].
  apply (timed_cache_refines 5000 200 0 trace). vm_compute. intuition congruence.
Defined.

Lemma cached_value_is_fresh_witness :
  snd (get_cached (ms 200) (bs "/a") (run_state (create 5000 200 0) [OpCache 0 1 (bs "/a") 7])) = Some 7 ↔
  ∃ pre t t' post, [OpCache 0 1 (bs "/a") 7] = pre ++ OpCache t t' (bs "/a") 7 :: post ∧
    Forall (λ o, ¬ touches (bs "/a") o) post ∧ ms 200 - t ≤ ms 200.
Proof.
  apply (cached_value_is_fresh 5000 200 0 (ms 200) (bs "/a") [OpCache 0 1 (bs "/a") 7] 7).
  vm_compute. intuition congruence.
Defined.

Lemma cache_growth_bounded_witness :
  map_Forall (λ _ d, 6 * sec - fetched_at d ≤ ms (5000 + 200))
    (cached_data (run_state (create 5000 200 0)
       ([OpCache 0 0 (bs "/a") 1] ++ [OpCache (6 * sec) (6 * sec) (bs "/b") 2]))).
Proof.
  apply (cache_growth_bounded 5000 200 0 (6 * sec) (6 * sec) (bs "/b") [OpCache 0 0 (bs "/a") 1] 2);
    [lia|lia|vm_compute; intuition congruence].
Defined.
End TimedCacheWitnesses.
