(* ===== verification/CacheThreads.v ===== *)
(** * The timed cache under several threads: nandroidfs/TimedCache.hpp

    Dokan calls the callbacks from several threads, and these look into the caches
    before they take the connection's mutex.  Here each call is the sequence of steps
    its source makes under [cache_mutex], taken shared or unique, and the steps of
    different threads interleave in every way the mutex allows.  The calls behave as
    if each happened at once, at some point between its start and its end. *)

From S2P Require Import Prelude TimedCache.

Section Threads.
Context {T : Type} `{!Inhabited T}.

(** ** Threads *)
Inductive cache_call : Type :=
  | CallGet (k : bytes)
  | CallCache (k : bytes) (v : T)
  | CallInvalidate (k : bytes).

(** Where a thread is.  The comment gives the lock it holds. *)
Inductive pc : Type :=
  | Ready
  | GetLocked (k : bytes)                     (* shared *)
  | GetCounted (k : bytes)                    (* shared *)
  | GetFound (k : bytes)                      (* shared *)
  | GetHit (v : T)                            (* shared *)
  | GetDone (r : option T)                    (* shared *)
  | CacheLocked (k : bytes) (v : T)           (* unique *)
  | CacheStored (k : bytes) (v : T) (now : Z) (* unique *)
  | CacheDone                                 (* unique *)
  | InvLocked (k : bytes)                     (* shared *)
  | InvAbsent                                 (* shared *)
  | InvFound (k : bytes)                      (* shared *)
  | InvUnlocked (k : bytes)
  | InvErasing (k : bytes)                    (* unique *)
  | InvErased.                                (* unique *)

Definition shared (p : pc) : nat :=
  match p with
  | GetLocked _ | GetCounted _ | GetFound _ | GetHit _ | GetDone _ | InvLocked _ | InvAbsent | InvFound _ => 1
  | _ => 0
  end.
Definition unique (p : pc) : nat :=
  match p with CacheLocked _ _ | CacheStored _ _ _ | CacheDone | InvErasing _ | InvErased => 1 | _ => 0 end.

(** A thread: the calls it has still to make and what the earlier ones returned
    ([None] for those that return nothing). *)
Record thread : Type := mkThread { th_pc : pc; th_todo : list cache_call; th_results : list (option T) }.

Definition readers (ts : list thread) : nat := sum_list_with (λ t, shared (th_pc t)) ts.
Definition writers (ts : list thread) : nat := sum_list_with (λ t, unique (th_pc t)) ts.

(** ** Steps *)
Definition fetch_counted (c : TimedCache T) : TimedCache T :=
  {| cache_scan_interval := cache_scan_interval c; cached_item_valid_for := cached_item_valid_for c;
     total_cache_hits := total_cache_hits c; total_data_fetched := to_u64 (total_data_fetched c + 1);
     last_cache_scan := last_cache_scan c; cached_data := cached_data c |}.
Definition hit_counted (c : TimedCache T) : TimedCache T :=
  {| cache_scan_interval := cache_scan_interval c; cached_item_valid_for := cached_item_valid_for c;
     total_cache_hits := to_u64 (total_cache_hits c + 1); total_data_fetched := total_data_fetched c;
     last_cache_scan := last_cache_scan c; cached_data := cached_data c |}.

(** [cached_data[file_path]], which makes an entry where there is none. *)
Definition subscript (k : bytes) (c : TimedCache T) : TimedCache T * CachedData T :=
  match cached_data c !! k with
  | Some d => (c, d)
  | None => let d := mkCachedData inhabitant 0 in (with_data (<[k := d]> (cached_data c)) c, d)
  end.

(** The end of [cache]: the check whether it is time to clear the cache. *)
Definition scan_if_due (now now' : Z) (c : TimedCache T) : TimedCache T :=
  if ms (cache_scan_interval c) <? now - last_cache_scan c then clean_cache now' (with_scan now c) else c.

(** A step of one thread while the others hold the mutex [r] times shared and [w]
    times unique; the last component is the latest reading of the clock. *)
Inductive thread_step (r w : nat) : thread * TimedCache T * Z → thread * TimedCache T * Z → Prop :=
  | get_lock k l a c t : w = 0%nat →
      thread_step r w (mkThread Ready (CallGet k :: l) a, c, t) (mkThread (GetLocked k) l a, c, t)
  | get_count k l a c t :
      thread_step r w (mkThread (GetLocked k) l a, c, t) (mkThread (GetCounted k) l a, fetch_counted c, t)
  | get_absent k l a c t : cached_data c !! k = None →
      thread_step r w (mkThread (GetCounted k) l a, c, t) (mkThread (GetDone None) l a, c, t)
  | get_present k l a c t : is_Some (cached_data c !! k) →
      thread_step r w (mkThread (GetCounted k) l a, c, t) (mkThread (GetFound k) l a, c, t)
  | get_read k l a c t c' cached now : t ≤ now → subscript k c = (c', cached) →
      thread_step r w (mkThread (GetFound k) l a, c, t)
        (mkThread (if now - fetched_at cached <=? ms (cached_item_valid_for c) then GetHit (data cached)
                   else GetDone None) l a, c', now)
  | get_hit v l a c t :
      thread_step r w (mkThread (GetHit v) l a, c, t) (mkThread (GetDone (Some v)) l a, hit_counted c, t)
  | get_return x l a c t :
      thread_step r w (mkThread (GetDone x) l a, c, t) (mkThread Ready l (a ++ [x]), c, t)
  | cache_lock k v l a c t : r = 0%nat → w = 0%nat →
      thread_step r w (mkThread Ready (CallCache k v :: l) a, c, t) (mkThread (CacheLocked k v) l a, c, t)
  | cache_store k v l a c t now : t ≤ now →
      thread_step r w (mkThread (CacheLocked k v) l a, c, t)
        (mkThread (CacheStored k v now) l a, with_data (<[k := mkCachedData v now]> (cached_data c)) c, now)
  | cache_scan k v now l a c t now' : t ≤ now' →
      thread_step r w (mkThread (CacheStored k v now) l a, c, t) (mkThread CacheDone l a, scan_if_due now now' c, now')
  | cache_return l a c t :
      thread_step r w (mkThread CacheDone l a, c, t) (mkThread Ready l (a ++ [None]), c, t)
  | inv_lock k l a c t : w = 0%nat →
      thread_step r w (mkThread Ready (CallInvalidate k :: l) a, c, t) (mkThread (InvLocked k) l a, c, t)
  | inv_absent k l a c t : cached_data c !! k = None →
      thread_step r w (mkThread (InvLocked k) l a, c, t) (mkThread InvAbsent l a, c, t)
  | inv_present k l a c t : is_Some (cached_data c !! k) →
      thread_step r w (mkThread (InvLocked k) l a, c, t) (mkThread (InvFound k) l a, c, t)
  | inv_return l a c t :
      thread_step r w (mkThread InvAbsent l a, c, t) (mkThread Ready l (a ++ [None]), c, t)
  | inv_unlock k l a c t :
      thread_step r w (mkThread (InvFound k) l a, c, t) (mkThread (InvUnlocked k) l a, c, t)
  | inv_relock k l a c t : r = 0%nat → w = 0%nat →
      thread_step r w (mkThread (InvUnlocked k) l a, c, t) (mkThread (InvErasing k) l a, c, t)
  | inv_erase k l a c t :
      thread_step r w (mkThread (InvErasing k) l a, c, t)
        (mkThread InvErased l a, with_data (delete k (cached_data c)) c, t)
  | inv_erased l a c t :
      thread_step r w (mkThread InvErased l a, c, t) (mkThread Ready l (a ++ [None]), c, t).

Record system : Type := mkSystem { sy_threads : list thread; sy_cache : TimedCache T; sy_clock : Z }.

Inductive system_step : system → system → Prop :=
  | sys_step l1 t l2 c now t' c' now' :
      thread_step (readers (l1 ++ l2)) (writers (l1 ++ l2)) (t, c, now) (t', c', now') →
      system_step (mkSystem (l1 ++ t :: l2) c now) (mkSystem (l1 ++ t' :: l2) c' now').

Definition start_threads (scan_interval valid_for t0 : Z) (programs : list (list cache_call)) : system :=
  mkSystem (map (λ p, mkThread Ready p []) programs) (create scan_interval valid_for t0) t0.

(** The states an execution has gone through, the latest first. *)
Inductive execution (s : system) : list system → Prop :=
  | exec_start : execution s [s]
  | exec_step s1 s2 past : execution s (s1 :: past) → system_step s1 s2 → execution s (s2 :: s1 :: past).

Definition thread_finished (t : thread) : Prop := th_pc t = Ready ∧ th_todo t = [].
#[global] Instance thread_finished_dec t : Decision (thread_finished t).
Proof. destruct t as [[] [|x l] a]; first [by left|by right; intros []]. Defined.
Definition finished (s : system) : Prop := Forall thread_finished (sy_threads s).

(** ** Every execution ends, and none is stuck *)
Definition pc_weight (p : pc) : nat :=
  match p with
  | Ready => 0
  | GetDone _ | CacheDone | InvErased | InvAbsent => 1
  | GetHit _ | CacheStored _ _ _ | InvErasing _ => 2
  | GetFound _ | CacheLocked _ _ | InvUnlocked _ => 3
  | GetCounted _ | InvFound _ => 4
  | GetLocked _ | InvLocked _ => 5
  end.
Definition thread_weight (t : thread) : nat := pc_weight (th_pc t) + 6 * length (th_todo t).
Definition weight (s : system) : nat := sum_list_with thread_weight (sy_threads s).

Lemma thread_step_weight r w t c now t' c' now' :
  thread_step r w (t, c, now) (t', c', now') → (thread_weight t' < thread_weight t)%nat.
Proof. unfold thread_weight. intros Hs. inversion Hs; subst; simpl; try lia. destruct (_ <=? _); simpl; lia. Qed.

Lemma system_step_weight s s' : system_step s s' → (weight s' < weight s)%nat.
Proof.
  intros [l1 t l2 c now t' c' now' Hs%thread_step_weight]. unfold weight. simpl. rewrite !sum_list_with_app. simpl. lia.
Qed.

Lemma executions_end s : Acc (flip system_step) s.
Proof.
  induction s as [s IH] using (induction_ltof1 _ weight). constructor. intros s' Hs. apply IH. by apply system_step_weight.
Qed.

(** A thread that holds the mutex is never blocked, and no thread is when nobody
    holds it. *)
Lemma holder_steps r w t c now :
  (0 < shared (th_pc t) + unique (th_pc t))%nat → ∃ t' c' now', thread_step r w (t, c, now) (t', c', now').
Proof.
  destruct t as [[] l a]; simpl; intros Hl; try lia; try (by eexists _, _, _; constructor).
  - destruct (cached_data c !! k) eqn:E; eexists _, _, _; [by apply get_present; rewrite E|by apply get_absent].
  - destruct (subscript k c) as [c' d] eqn:E. eexists _, _, _. by apply (get_read _ _ k l a c now c' d now).
  - destruct (cached_data c !! k) eqn:E; eexists _, _, _; [by apply inv_present; rewrite E|by apply inv_absent].
Qed.

Lemma free_steps t c now :
  ¬ thread_finished t → ∃ t' c' now', thread_step 0 0 (t, c, now) (t', c', now').
Proof.
  intros Hf. destruct (decide (0 < shared (th_pc t) + unique (th_pc t))%nat) as [Hl|Hl]; [by apply holder_steps|].
  destruct t as [[] l a]; simpl in Hl; try lia; [|by eexists _, _, _; apply inv_relock].
  destruct l as [|[k|k v|k] l]; [by destruct Hf| |..]; eexists _, _, _; by constructor.
Qed.

Lemma sum_zero {A} (f : A → nat) l : sum_list_with f l = 0%nat ↔ Forall (λ x, f x = 0%nat) l.
Proof.
  induction l as [|x l IH]; simpl; [by split|]. rewrite Forall_cons, <- IH. lia.
Qed.

Lemma not_stuck s : finished s ∨ ∃ s', system_step s s'.
Proof.
  destruct s as [ts c now]. unfold finished. simpl.
  assert (Hstep : ∀ l1 t l2, ts = l1 ++ t :: l2 →
    (∃ t' c' now', thread_step (readers (l1 ++ l2)) (writers (l1 ++ l2)) (t, c, now) (t', c', now')) →
    ∃ s', system_step (mkSystem ts c now) s').
  { intros l1 t l2 -> (t' & c' & now' & Hs). eexists. by constructor. }
  destruct (decide (Exists (λ t, (0 < shared (th_pc t) + unique (th_pc t))%nat) ts)) as [He|Hn].
  - right. apply list.Exists_exists in He as (t & (l1 & l2 & E)%list_elem_of_split & Ht).
    apply (Hstep l1 t l2 E). by apply holder_steps.
  - destruct (decide (Forall thread_finished ts)) as [|Hf]; [by left|right].
    apply not_Forall_Exists, list.Exists_exists in Hf as (t & (l1 & l2 & E)%list_elem_of_split & Ht); [|apply _].
    apply (Hstep l1 t l2 E). apply not_Exists_Forall in Hn; [|apply _]. subst ts.
    apply Forall_app in Hn as [H1 [_ H2]%Forall_cons].
    replace (readers (l1 ++ l2)) with 0%nat; [replace (writers (l1 ++ l2)) with 0%nat; [by apply free_steps|]|].
    all: symmetry; apply sum_zero, Forall_app; split; (eapply Forall_impl; [eassumption|]); simpl; lia.
Qed.

(** ** The order in which the calls take effect

    A call takes effect at one of its steps: [get_cached] where it decides what to
    return, [cache] when it is done with the map, [invalidate] when it finds nothing
    or erases.  A log lists the effects in this order, with the thread and what was
    returned. *)
Definition instance_of (x : cache_call) (o : op T) : Prop :=
  match x, o with
  | CallGet k, OpGet _ k' => k = k'
  | CallCache k v, OpCache _ _ k' v' => k = k' ∧ v = v'
  | CallInvalidate k, OpInvalidate k' => k = k'
  | _, _ => False
  end.

Definition event : Type := nat * (op T * option T).
Definition ops_of (log : list event) : list (op T) := log.*2.*1.
Definition answers_of (log : list event) : list (option T) := log.*2.*2.
Definition events (i : nat) (log : list event) : list event := base.filter (λ e, fst e = i) log.

(** The call that has not taken effect yet, and what was decided but not returned. *)
Definition current (p : pc) : list cache_call :=
  match p with
  | GetLocked k | GetCounted k | GetFound k => [CallGet k]
  | CacheLocked k v | CacheStored k v _ => [CallCache k v]
  | InvLocked k | InvFound k | InvUnlocked k | InvErasing k => [CallInvalidate k]
  | _ => []
  end.
Definition decided (p : pc) : list (option T) :=
  match p with
  | GetHit v => [Some v]
  | GetDone r => [r]
  | CacheDone | InvAbsent | InvErased => [None]
  | _ => []
  end.

Definition thread_ok (program : list cache_call) (t : thread) (log : list event) : Prop :=
  ∃ done, program = done ++ current (th_pc t) ++ th_todo t ∧ Forall2 instance_of done (ops_of log) ∧
    answers_of log = th_results t ++ decided (th_pc t).

(** What the shared cache is ahead of or behind the effects: an entry stored but not
    done with, fetches counted before and hits counted after the decision. *)
Definition stored (p : pc) : list (bytes * T * Z) := match p with CacheStored k v now => [(k, v, now)] | _ => [] end.
Definition counted (p : pc) : nat := match p with GetCounted _ | GetFound _ => 1 | _ => 0 end.
Definition uncounted (p : pc) : nat := match p with GetHit _ => 1 | _ => 0 end.

Definition all_stored (ts : list thread) : list (bytes * T * Z) := concat (map (λ t, stored (th_pc t)) ts).
Definition total (f : pc → nat) (ts : list thread) : Z := Z.of_nat (sum_list_with (λ t, f (th_pc t)) ts).
Definition store (e : bytes * T * Z) (m : gmap bytes (CachedData T)) : gmap bytes (CachedData T) :=
  let '(k, v, now) := e in <[k := mkCachedData v now]> m.

Definition agrees_at (st : list (bytes * T * Z)) (n h : Z) (seq c : TimedCache T) : Prop :=
  cached_data c = foldr store (cached_data seq) st ∧
  last_cache_scan c = last_cache_scan seq ∧ cache_scan_interval c = cache_scan_interval seq ∧
  cached_item_valid_for c = cached_item_valid_for seq ∧
  total_data_fetched c = to_u64 (total_data_fetched seq + n) ∧
  total_cache_hits seq = to_u64 (total_cache_hits c + h) ∧
  is_u64 (total_data_fetched seq) ∧ is_u64 (total_cache_hits c).
Definition agrees (ts : list thread) : TimedCache T → TimedCache T → Prop :=
  agrees_at (all_stored ts) (total counted ts) (total uncounted ts).

Lemma wrap_add_l a b : to_u64 (to_u64 a + b) = to_u64 (a + b).
Proof. unfold wrap. apply Zplus_mod_idemp_l. Qed.

Lemma agrees_fetch st n h seq c : agrees_at st n h seq c → agrees_at st (n + 1) h seq (fetch_counted c).
Proof.
  intros (E1 & E2 & E3 & E4 & E5 & E6 & R1 & R2). unfold agrees_at. simpl. split_and!; try done.
  rewrite E5, wrap_add_l. f_equal. lia.
Qed.

Lemma agrees_hit st n h seq c : agrees_at st n (h + 1) seq c → agrees_at st n h seq (hit_counted c).
Proof.
  intros (E1 & E2 & E3 & E4 & E5 & E6 & R1 & R2). unfold agrees_at. simpl. split_and!; try done.
  - rewrite E6, wrap_add_l. f_equal. lia.
  - by apply wrap_range.
Qed.

(** The decision of [get_cached]. *)
Lemma agrees_count n h seq c (hit : bool) :
  agrees_at [] (n + 1) h seq c → agrees_at [] n (if hit then h + 1 else h) (TimedCache.count hit seq) c.
Proof.
  intros (E1 & E2 & E3 & E4 & E5 & E6 & R1 & R2). unfold agrees_at. simpl. split_and!; try done.
  - rewrite E5, wrap_add_l. f_equal. lia.
  - destruct hit; [|done]. rewrite E6, wrap_add_l. f_equal. lia.
  - by apply wrap_range.
Qed.

Lemma get_decides now k n h seq c :
  agrees_at [] n h seq c →
  get_cached now k seq =
    match cached_data c !! k with
    | Some d => if now - fetched_at d <=? ms (cached_item_valid_for c)
                then (TimedCache.count true seq, Some (data d)) else (TimedCache.count false seq, None)
    | None => (TimedCache.count false seq, None)
    end.
Proof. intros (E1 & _ & _ & E4 & _). unfold get_cached. simpl in E1. by rewrite E1, E4. Qed.

Lemma agrees_store k v now n h seq c :
  agrees_at [] n h seq c →
  agrees_at [(k, v, now)] n h seq (with_data (<[k := mkCachedData v now]> (cached_data c)) c).
Proof. intros (E1 & E). split; [|exact E]. simpl in *. by rewrite E1. Qed.

Lemma agrees_scan k v now now' n h seq c :
  agrees_at [(k, v, now)] n h seq c →
  agrees_at [] n h (cache now now' k v seq) (scan_if_due now now' c).
Proof.
  intros (E1 & E2 & E3 & E4 & E). unfold cache, scan_if_due. simpl in *. rewrite E2, E3.
  destruct (_ <? _); (split; [|by split_and!; try apply E]).
  - unfold clean_cache. simpl. by rewrite E1, E4.
  - done.
Qed.

Lemma agrees_delete k n h seq c :
  agrees_at [] n h seq c → agrees_at [] n h (invalidate k seq) (with_data (delete k (cached_data c)) c).
Proof.
  intros (E1 & E2 & E3 & E4 & E5 & E6 & R1 & R2). unfold agrees_at. rewrite invalidate_lookup. simpl in *.
  rewrite E1. unfold invalidate. by destruct (cached_data seq !! k).
Qed.

Lemma invalidate_absent k n h seq c :
  agrees_at [] n h seq c → cached_data c !! k = None → invalidate k seq = seq.
Proof. intros (E1 & _) Hk. simpl in E1. unfold invalidate. by rewrite <- E1, Hk. Qed.

(** The threads split at the one that acts. *)
Lemma all_stored_split l1 t l2 : all_stored (l1 ++ t :: l2) = all_stored l1 ++ stored (th_pc t) ++ all_stored l2.
Proof. unfold all_stored. rewrite map_app. simpl. by rewrite concat_app. Qed.
Lemma total_split f l1 t l2 : total f (l1 ++ t :: l2) = total f (l1 ++ l2) + Z.of_nat (f (th_pc t)).
Proof. unfold total. rewrite !sum_list_with_app. simpl. lia. Qed.
Lemma readers_split l1 t l2 : readers (l1 ++ t :: l2) = (readers (l1 ++ l2) + shared (th_pc t))%nat.
Proof. unfold readers. rewrite !sum_list_with_app. simpl. lia. Qed.
Lemma writers_split l1 t l2 : writers (l1 ++ t :: l2) = (writers (l1 ++ l2) + unique (th_pc t))%nat.
Proof. unfold writers. rewrite !sum_list_with_app. simpl. lia. Qed.

Lemma no_writers_stored l1 l2 : writers (l1 ++ l2) = 0%nat → all_stored l1 = [] ∧ all_stored l2 = [].
Proof.
  unfold writers. rewrite sum_list_with_app. intros Hw.
  assert (Hl : ∀ l, sum_list_with (λ t, unique (th_pc t)) l = 0%nat → all_stored l = []).
  { induction l as [|t l IH]; [done|]. simpl. intros Hs. unfold all_stored. simpl. fold (all_stored l).
    rewrite IH by lia. by destruct (th_pc t). }
  split; apply Hl; lia.
Qed.

Lemma agrees_split l1 t l2 seq c :
  agrees (l1 ++ t :: l2) seq c ↔
  agrees_at (all_stored l1 ++ stored (th_pc t) ++ all_stored l2) (total counted (l1 ++ l2) + Z.of_nat (counted (th_pc t)))
    (total uncounted (l1 ++ l2) + Z.of_nat (uncounted (th_pc t))) seq c.
Proof. unfold agrees. by rewrite all_stored_split, !total_split. Qed.

Lemma agrees_alone l1 t l2 seq c :
  writers (l1 ++ l2) = 0%nat →
  agrees (l1 ++ t :: l2) seq c ↔
  agrees_at (stored (th_pc t)) (total counted (l1 ++ l2) + Z.of_nat (counted (th_pc t)))
    (total uncounted (l1 ++ l2) + Z.of_nat (uncounted (th_pc t))) seq c.
Proof. intros [E1 E2]%no_writers_stored. by rewrite agrees_split, E1, E2, app_nil_r. Qed.

(** What a thread relies on while it holds the mutex; [e] is the last reading of the
    clock by an effect. *)
Definition relies (c : TimedCache T) (e now : Z) (p : pc) : Prop :=
  match p with
  | GetFound k => is_Some (cached_data c !! k)
  | CacheStored _ _ t => e ≤ t ≤ now
  | _ => True
  end.

Definition locks_ok (ts : list thread) : Prop := writers ts = 0%nat ∨ writers ts = 1%nat ∧ readers ts = 0%nat.

Section Invariant.
Context (t0 : Z) (c0 : TimedCache T) (programs : list (list cache_call)).

Record linearised (s : system) (log : list event) : Prop := mkLinearised {
  lin_locks : locks_ok (sy_threads s);
  lin_steady : steady t0 (ops_of log);
  lin_time : end_time t0 (ops_of log) ≤ sy_clock s;
  lin_answers : answers_of log = run c0 (ops_of log);
  lin_agrees : agrees (sy_threads s) (run_state c0 (ops_of log)) (sy_cache s);
  lin_length : length (sy_threads s) = length programs;
  lin_threads : ∀ i t, sy_threads s !! i = Some t →
    thread_ok (programs !!! i) t (events i log) ∧ relies (sy_cache s) (end_time t0 (ops_of log)) (sy_clock s) (th_pc t);
}.

Lemma ops_app log new : ops_of (log ++ new) = ops_of log ++ ops_of new.
Proof. unfold ops_of. by rewrite !fmap_app. Qed.
Lemma answers_app log new : answers_of (log ++ new) = answers_of log ++ answers_of new.
Proof. unfold answers_of. by rewrite !fmap_app. Qed.

Lemma run_app (c : TimedCache T) (l1 l2 : list (op T)) : run c (l1 ++ l2) = run c l1 ++ run (run_state c l1) l2.
Proof. revert c. induction l1 as [|o l1 IH]; intros c; simpl; [done|]. by rewrite IH. Qed.
Lemma run_state_app (c : TimedCache T) (l1 l2 : list (op T)) : run_state c (l1 ++ l2) = run_state (run_state c l1) l2.
Proof. apply foldl_app. Qed.
Lemma end_time_app (t : Z) (l1 l2 : list (op T)) : end_time t (l1 ++ l2) = end_time (end_time t l1) l2.
Proof. revert t. induction l1 as [|[] l1 IH]; intros t; simpl; by rewrite ?IH. Qed.

Lemma lookup_other {A} (l1 l2 : list A) (x y z : A) i :
  i ≠ length l1 → (l1 ++ y :: l2) !! i = Some z → (l1 ++ x :: l2) !! i = Some z ∧ z ∈ l1 ++ l2.
Proof.
  intros Hi. destruct (decide (i < length l1)%nat) as [Hlt|Hge].
  - rewrite !lookup_app_l by done. intros Hz. split; [done|]. apply elem_of_app. left. by eapply list_elem_of_lookup_2.
  - rewrite !lookup_app_r by lia. destruct (i - length l1)%nat as [|j] eqn:E; [lia|]. simpl. intros Hz. split; [done|].
    apply elem_of_app. right. by eapply list_elem_of_lookup_2.
Qed.

Lemma events_other i log new :
  (new = [] ∨ ∃ e, new = [(i, e)]) → ∀ j, j ≠ i → events j (log ++ new) = events j log.
Proof.
  intros Hn j Hj. unfold events. rewrite filter_app. destruct Hn as [->|[e ->]]; [by rewrite app_nil_r|].
  rewrite filter_cons_False by done. by rewrite filter_nil, app_nil_r.
Qed.
Lemma events_own i log new : (new = [] ∨ ∃ e, new = [(i, e)]) → events i (log ++ new) = events i log ++ new.
Proof.
  intros Hn. unfold events. rewrite filter_app. destruct Hn as [->|[e ->]]; [done|].
  by rewrite filter_cons_True, filter_nil.
Qed.

(** One step of a thread, with the effect it has if any. *)
Lemma linearised_step l1 t l2 c now t' c' now' log new :
  let e := end_time t0 (ops_of log) in let e' := end_time e (ops_of new) in
  let seq := run_state c0 (ops_of log) in
  linearised (mkSystem (l1 ++ t :: l2) c now) log →
  (new = [] ∨ ∃ x, new = [(length l1, x)]) →
  locks_ok (l1 ++ t' :: l2) →
  (∀ p evs, thread_ok p t evs → thread_ok p t' (evs ++ new)) →
  steady e (ops_of new) → e' ≤ now' → answers_of new = run seq (ops_of new) →
  agrees (l1 ++ t' :: l2) (run_state seq (ops_of new)) c' →
  (∀ u, u ∈ l1 ++ l2 → relies c e now (th_pc u) → relies c' e' now' (th_pc u)) → relies c' e' now' (th_pc t') →
  linearised (mkSystem (l1 ++ t' :: l2) c' now') (log ++ new).
Proof.
  intros e e' seq [Hl Hs Ht Ha Hg Hn Hth] Hnew Hlock Hok Hst Hend Hans Hagr Hu Ht'. simpl in *.
  split; simpl; rewrite ?ops_app, ?answers_app, ?end_time_app, ?run_state_app, ?run_app; try done.
  - apply steady_app. by split.
  - by rewrite Ha, Hans.
  - rewrite <- Hn, !length_app. done.
  - intros i u Hi. destruct (decide (i = length l1)) as [->|Hne].
    + rewrite list_lookup_middle in Hi by done. injection Hi as <-. rewrite events_own by done. split; [|done].
      apply Hok. apply (Hth (length l1) t). by apply list_lookup_middle.
    + destruct (lookup_other l1 l2 t t' u i Hne Hi) as [Hi' Hin]. rewrite (events_other (length l1)) by done.
      destruct (Hth i u Hi'). auto.
Qed.

Lemma sum_elem {A} (f : A → nat) l x : x ∈ l → (f x ≤ sum_list_with f l)%nat.
Proof. induction 1; simpl; lia. Qed.

(** The other threads are not disturbed: a thread that changes the map, or reads the
    clock for an effect, holds the mutex. *)
Lemma others_rely l c e now c' e' now' u :
  (readers l = 0%nat ∨ ∀ k, is_Some (cached_data c !! k) → is_Some (cached_data c' !! k)) →
  (writers l = 0%nat ∨ e' ≤ e) → now ≤ now' →
  u ∈ l → relies c e now (th_pc u) → relies c' e' now' (th_pc u).
Proof.
  intros Hr Hw Hn Hu. pose proof (sum_elem (λ t, shared (th_pc t)) l u Hu). pose proof (sum_elem (λ t, unique (th_pc t)) l u Hu).
  unfold readers, writers in *. destruct (th_pc u); simpl in *; try done.
  - destruct Hr; [lia|auto].
  - destruct Hw; lia.
Qed.

(** A step at which no call takes effect. *)
Lemma linearised_quiet l1 t l2 c now t' c' now' log :
  linearised (mkSystem (l1 ++ t :: l2) c now) log → locks_ok (l1 ++ t' :: l2) →
  current (th_pc t) ++ th_todo t = current (th_pc t') ++ th_todo t' →
  th_results t ++ decided (th_pc t) = th_results t' ++ decided (th_pc t') → now ≤ now' →
  (readers (l1 ++ l2) = 0%nat ∨ ∀ k, is_Some (cached_data c !! k) → is_Some (cached_data c' !! k)) →
  agrees (l1 ++ t' :: l2) (run_state c0 (ops_of log)) c' →
  relies c' (end_time t0 (ops_of log)) now' (th_pc t') →
  linearised (mkSystem (l1 ++ t' :: l2) c' now') log.
Proof.
  intros Hlin Hl Ec Er Hn Hk Ha Hr. rewrite <- (app_nil_r log).
  apply (linearised_step l1 t l2 c now t' c' now' log []); try done; try (by left); simpl.
  - intros p evs (done & -> & Hi & Hd). exists done. rewrite app_nil_r. split_and!; [by rewrite Ec|done|congruence].
  - pose proof (lin_time _ _ Hlin). simpl in *. lia.
  - intros u Hu. apply (others_rely (l1 ++ l2)); auto. right. lia.
Qed.

(** A step that does nothing to the cache either. *)
Lemma linearised_silent l1 t l2 c now t' log :
  linearised (mkSystem (l1 ++ t :: l2) c now) log → locks_ok (l1 ++ t' :: l2) →
  current (th_pc t) ++ th_todo t = current (th_pc t') ++ th_todo t' →
  th_results t ++ decided (th_pc t) = th_results t' ++ decided (th_pc t') →
  stored (th_pc t) = stored (th_pc t') → counted (th_pc t) = counted (th_pc t') →
  uncounted (th_pc t) = uncounted (th_pc t') →
  relies c (end_time t0 (ops_of log)) now (th_pc t') →
  linearised (mkSystem (l1 ++ t' :: l2) c now) log.
Proof.
  intros Hlin Hl Ec Er Es En Eu Hr. apply (linearised_quiet l1 t l2 c now t'); auto; [done|].
  pose proof (lin_agrees _ _ Hlin) as Ha. cbn [sy_threads sy_cache] in Ha.
  apply agrees_split in Ha. apply agrees_split. by rewrite <- Es, <- En, <- Eu.
Qed.

Lemma linearised_effect l1 t l2 c now t' c' now' log x o r seq' :
  let e := end_time t0 (ops_of log) in let seq := run_state c0 (ops_of log) in
  linearised (mkSystem (l1 ++ t :: l2) c now) log → locks_ok (l1 ++ t' :: l2) →
  current (th_pc t) = [x] → current (th_pc t') = [] → instance_of x o → th_todo t' = th_todo t →
  decided (th_pc t) = [] → decided (th_pc t') = [r] → th_results t' = th_results t →
  steady e [o] → end_time e [o] ≤ now' → now ≤ now' → writers (l1 ++ l2) = 0%nat →
  (readers (l1 ++ l2) = 0%nat ∨ ∀ k, is_Some (cached_data c !! k) → is_Some (cached_data c' !! k)) →
  run_op seq o = (seq', r) → agrees (l1 ++ t' :: l2) seq' c' →
  linearised (mkSystem (l1 ++ t' :: l2) c' now') (log ++ [(length l1, (o, r))]).
Proof.
  intros e seq Hlin Hl Ex Ex' Hio Et Ed Ed' Er Hs He Hn Hw Hk Hrun Ha.
  apply (linearised_step l1 t l2 c now t' c' now'); try done; fold e seq; cbn [ops_of answers_of fmap list_fmap fst snd].
  - right. eauto.
  - intros p evs (done & -> & Hi & Hr). exists (done ++ [x]). rewrite ops_app, answers_app, Ex, Ex', Et, Er, Ed', Hr, Ed.
    rewrite <- app_assoc, app_nil_r. split_and!; [done| |done]. apply Forall2_app; [done|]. by repeat constructor.
  - cbn [run]. by rewrite Hrun.
  - cbn [run_state foldl]. by rewrite Hrun.
  - intros u Hu. apply (others_rely (l1 ++ l2)); auto.
  - destruct (th_pc t'); done.
Qed.

Ltac locks := unfold locks_ok in *; rewrite ?writers_split, ?readers_split in *; simpl in *; lia.

Lemma linearised_preserved s log s' :
  linearised s log → system_step s s' → ∃ new, linearised s' (log ++ new).
Proof.
  intros Hlin Hstep. destruct Hstep as [l1 t l2 c now t' c' now' Hs].
  pose proof (lin_locks _ _ Hlin) as Hl. pose proof (lin_agrees _ _ Hlin) as Ha. pose proof (lin_time _ _ Hlin) as Ht.
  assert (Hr : relies c (end_time t0 (ops_of log)) now (th_pc t))
    by (apply (lin_threads _ _ Hlin (length l1)); by apply list_lookup_middle).
  cbn [sy_threads sy_cache sy_clock] in *.
  assert (Hw : (0 < shared (th_pc t) + unique (th_pc t))%nat → writers (l1 ++ l2) = 0%nat) by locks.
  inversion Hs; subst; clear Hs; simpl in Hw; try specialize (Hw ltac:(lia));
    try (exists []; rewrite app_nil_r; eapply linearised_silent; [exact Hlin|locks|..]; simpl; by rewrite ?app_nil_r).
  all: rewrite agrees_alone in Ha by done; simpl in Ha.
  - exists []. rewrite app_nil_r. eapply linearised_quiet; [exact Hlin|locks|done..|by right| |done].
    apply agrees_alone; [done|]. simpl. rewrite !Z.add_0_r in *. by apply agrees_fetch.
  - eexists. eapply (linearised_effect _ _ _ _ _ _ _ _ _ _ (OpGet now' k)); try done; [locks|by right| |].
    + simpl. by rewrite (get_decides now' k _ _ _ _ Ha), H0.
    + apply agrees_alone; [done|]. simpl. rewrite !Z.add_0_r in *. by apply (agrees_count _ _ _ _ false).
  - unfold subscript in *. destruct Hr as [d Hd]. rewrite Hd in *. simplify_eq.
    pose proof (get_decides now' k _ _ _ _ Ha) as Hg. rewrite Hd in Hg. rewrite !Z.add_0_r in Ha.
    destruct (_ <=? _); eexists; (eapply (linearised_effect _ _ _ _ _ _ _ _ _ _ (OpGet now' k));
      try done; [locks|simpl; lia|by right|]); apply agrees_alone; try done; simpl; rewrite ?Z.add_0_r.
    + by apply (agrees_count _ _ _ _ true).
    + by apply (agrees_count _ _ _ _ false).
  - exists []. rewrite app_nil_r. eapply linearised_quiet; [exact Hlin|locks|done..|by right| |done].
    apply agrees_alone; [done|]. simpl. rewrite !Z.add_0_r in *. by apply agrees_hit.
  - exists []. rewrite app_nil_r. eapply linearised_quiet; [exact Hlin|locks|done..|left; locks| |simpl; lia].
    apply agrees_alone; [done|]. by apply agrees_store.
  - eexists. eapply (linearised_effect _ _ _ _ _ _ _ _ _ _ (OpCache now0 now' k v)); try done;
      [locks|simpl in *; lia|left; locks|]. apply agrees_alone; [done|]. by apply agrees_scan.
  - eexists. eapply (linearised_effect _ _ _ _ _ _ _ _ _ _ (OpInvalidate k)); try done; [locks|by right|].
    apply agrees_alone; [done|]. by erewrite invalidate_absent.
  - eexists. eapply (linearised_effect _ _ _ _ _ _ _ _ _ _ (OpInvalidate k)); try done; [locks|left; locks|].
    apply agrees_alone; [done|]. by apply agrees_delete.
Qed.

End Invariant.

Lemma start_linearised scan_interval valid_for t0 programs :
  linearised t0 (create scan_interval valid_for t0) programs (start_threads scan_interval valid_for t0 programs) [].
Proof.
  assert (Hz : ∀ f : pc → nat, f Ready = 0%nat →
    sum_list_with (λ t, f (th_pc t)) (map (λ p, mkThread Ready p []) programs) = 0%nat).
  { intros f Hf. induction programs; simpl; lia. }
  assert (Hst : all_stored (map (λ p, mkThread Ready p []) programs) = [])
    by (clear; induction programs as [|p l IH]; [done|exact IH]).
  split; simpl; try done.
  - left. by apply Hz.
  - unfold agrees, total. rewrite Hst, !Hz by done. by split_and!.
  - by rewrite length_map.
  - intros i t Ht. apply list_lookup_fmap_Some in Ht as (p & -> & Hp). split; [|done].
    exists []. rewrite (list_lookup_total_correct _ _ _ Hp). by split_and!.
Qed.

(** The effects so far, at every moment of an execution: each list of them goes on
    with the next. *)
Inductive histories (P : system → list event → Prop) : list system → list (list event) → Prop :=
  | hist_start s log : P s log → histories P [s] [log]
  | hist_step s past log logs new :
      histories P past (log :: logs) → P s (log ++ new) → histories P (s :: past) ((log ++ new) :: log :: logs).

Lemma histories_mono (P Q : system → list event → Prop) past logs :
  (∀ s log, P s log → Q s log) → histories P past logs → histories Q past logs.
Proof. intros HPQ. induction 1; constructor; auto. Qed.

Lemma histories_prefix P past logs i j li lj :
  histories P past logs → logs !! i = Some li → logs !! j = Some lj → (i ≤ j)%nat → lj `prefix_of` li.
Proof.
  intros Hh. revert i j li lj. induction Hh as [s log _|s past log logs new Hh IH _]; intros i j li lj Hi Hj Hij.
  - destruct i; [|done]. destruct j; [|done]. by simplify_eq/=.
  - destruct i as [|i], j as [|j]; simplify_eq/=; [done| |lia|by apply (IH i j); [..|lia]].
    etrans; [apply (IH 0%nat j log lj); [done|done|lia]|]. by apply prefix_app_r.
Qed.

Lemma execution_linearised scan_interval valid_for t0 programs past :
  execution (start_threads scan_interval valid_for t0 programs) past →
  ∃ logs, histories (linearised t0 (create scan_interval valid_for t0) programs) past logs.
Proof.
  induction 1 as [|s1 s2 past _ [logs IH] Hs].
  - exists [[]]. constructor. apply start_linearised.
  - inversion IH as [? log Hlog|? past' log logs' new Hh Hlog]; subst;
      (edestruct linearised_preserved as [new' Hnew]; [exact Hlog|exact Hs|]); eexists; (eapply hist_step; [exact IH|exact Hnew]).
Qed.

Lemma agrees_finished ts seq c : Forall thread_finished ts → agrees ts seq c → c = seq.
Proof.
  intros Hf. assert (Hz : ∀ f : pc → nat, f Ready = 0%nat → total f ts = 0).
  { intros f Hr. unfold total. induction Hf as [|t ts [E _] _ IH]; simpl; [done|]. rewrite E, Hr. lia. }
  assert (Hst : all_stored ts = []).
  { clear Hz. unfold all_stored. induction Hf as [|t ts [E _] _ IH]; simpl; [done|]. by rewrite E, IH. }
  unfold agrees. rewrite Hst, !Hz by done. destruct seq, c. intros (E1 & E2 & E3 & E4 & E5 & E6 & R1 & R2).
  simpl in *. rewrite Z.add_0_r, wrap_id in E5, E6 by done. congruence.
Qed.
End Threads.

Arguments cache_call T : clear implicits.
Arguments system T : clear implicits.

(** ** Claims *)
Section Claims.
Context {T : Type} `{!Inhabited T}.

(** The effects [log] account for the state [s]: the clock does not go back in them, each
    returned what the abstract cache, which is never swept, answers at its place, and
    every thread has its calls among them in its order: those that have returned, and
    the one it is in if that has taken effect; not the one it is in otherwise, nor those
    it has not started. *)
Definition accounts_for valid_for t0 (programs : list (list (cache_call T))) (s : system T) (log : list event) : Prop :=
  steady t0 (ops_of log) ∧ answers_of log = spec_run valid_for ∅ (ops_of log) ∧
  ∀ i p, programs !! i = Some p →
    ∃ t done, sy_threads s !! i = Some t ∧ p = done ++ current (th_pc t) ++ th_todo t ∧
      Forall2 instance_of done (ops_of (events i log)) ∧
      answers_of (events i log) = th_results t ++ decided (th_pc t).

(** C12. The cache may be shared by threads: its calls are linearisable.  However the
    steps of any number of threads interleave, there is an order of effects that grows
    with the execution, at every moment by adding to its end: a call is in it from one
    of its own steps on, after it has locked the mutex and before it returns.  So a call
    that has returned before another one starts comes first, whichever threads they
    are of.  In this order the readings of the clock do not decrease and every call
    returned what the abstract cache, which is never swept, answers at its place, and
    when all threads are done the cache with its statistics is as if the calls had been
    made one after the other.  This is so although [invalidate] lets go of the mutex
    between its test and its erase.  No execution is stuck before all threads are done,
    and none goes on for ever. *)
Theorem cache_calls_linearise scan_interval valid_for t0 (programs : list (list (cache_call T))) (s : system T) past :
  execution (start_threads scan_interval valid_for t0 programs) (s :: past) →
  Acc (flip system_step) s ∧ (finished s ∨ ∃ s', system_step s s') ∧
  ∃ log logs, histories (accounts_for valid_for t0 programs) (s :: past) (log :: logs) ∧
    (∀ earlier, earlier ∈ logs → earlier `prefix_of` log) ∧
    (finished s → sy_cache s = run_state (create scan_interval valid_for t0) (ops_of log)).
Proof.
  intros Hex. split; [apply executions_end|]. split; [apply not_stuck|].
  destruct (execution_linearised _ _ _ _ _ Hex) as [logs Hlin].
  assert (Hlog : ∃ log logs', logs = log :: logs' ∧ linearised t0 (create scan_interval valid_for t0) programs s log)
    by (inversion Hlin; subst; eauto).
  destruct Hlog as (log & logs' & -> & Hnow). exists log, logs'. split_and!.
  - eapply histories_mono; [|exact Hlin]. clear. intros s log [_ Hs _ Ha Hg Hn Ht]. split_and!; [done|..].
    + rewrite Ha. apply (run_refines t0); [|done]. intros k. left. by rewrite lookup_empty.
    + intros i p Hp. destruct (lookup_lt_is_Some_2 (sy_threads s) i) as [t Hi].
      { rewrite Hn. by eapply lookup_lt_Some. }
      destruct (Ht i t Hi) as [(done & Ep & Hd & Hr) _]. rewrite (list_lookup_total_correct _ _ _ Hp) in Ep. eauto 6.
  - intros earlier [j Hj]%list_elem_of_lookup. by eapply (histories_prefix _ _ _ 0%nat (S j)); [exact Hlin|done|done|lia].
  - intros Hf. destruct Hnow as [_ _ _ _ Hg _ _]. by apply (agrees_finished (sy_threads s)).
Qed.
End Claims.

Module CacheThreadsWitnesses.
Definition a : bytes := bs "/a".
Definition programs : list (list (cache_call Z)) := [[CallCache a 1; CallCache a 2; CallGet a]; [CallInvalidate a]].
Definition begun : system Z := start_threads 5000 200 0 programs.

Lemma first_steps s0 t u c now t' c' now' :
  (∃ past, execution s0 (mkSystem [t; u] c now :: past)) →
  thread_step (T := Z) (readers [u]) (writers [u]) (t, c, now) (t', c', now') →
  ∃ past, execution s0 (mkSystem [t'; u] c' now' :: past).
Proof. intros [past Hr] Hs. eexists. eapply exec_step; [exact Hr|]. by apply (sys_step [] t [u]). Qed.

Lemma second_steps s0 t u c now u' c' now' :
  (∃ past, execution s0 (mkSystem [t; u] c now :: past)) →
  thread_step (T := Z) (readers [t]) (writers [t]) (u, c, now) (u', c', now') →
  ∃ past, execution s0 (mkSystem [t; u'] c' now' :: past).
Proof. intros [past Hr] Hs. eexists. eapply exec_step; [exact Hr|]. by apply (sys_step [t] u []). Qed.

(** The second value is stored between the test and the erase of [invalidate]. *)
Definition raced : { s : system Z | (∃ past, execution begun (s :: past)) ∧ finished s ∧
  map th_results (sy_threads s) = [[None; None; None]; [None]] }.
Proof.
  eexists. split.
  - 1: eapply first_steps. 1: eapply first_steps. 1: eapply first_steps. 1: eapply first_steps.
    1: eapply second_steps. 1: eapply second_steps. 1: eapply second_steps.
    1: eapply first_steps. 1: eapply first_steps. 1: eapply first_steps. 1: eapply first_steps.
    1: eapply second_steps. 1: eapply second_steps. 1: eapply second_steps.
    1: eapply first_steps. 1: eapply first_steps. 1: eapply first_steps. 1: eapply first_steps.
    1: eexists; apply exec_start.
    1: by apply cache_lock. 1: by apply (cache_store _ _ _ _ _ _ _ _ 10). 1: by apply (cache_scan _ _ _ _ _ _ _ _ _ 10). 1: apply cache_return.
    1: by apply inv_lock. 1: apply inv_present; by eexists. 1: apply inv_unlock.
    1: by apply cache_lock. 1: by apply (cache_store _ _ _ _ _ _ _ _ 20). 1: by apply (cache_scan _ _ _ _ _ _ _ _ _ 20). 1: apply cache_return.
    1: by apply inv_relock. 1: apply inv_erase. 1: apply inv_erased.
    1: by apply get_lock. 1: apply get_count. 1: by apply get_absent. apply get_return.
  - split; [|reflexivity]. repeat constructor.
Defined.

Lemma cache_calls_linearise_witness :
  let s := proj1_sig raced in
  ∃ past, Acc (flip system_step) s ∧ (finished s ∨ ∃ s', system_step s s') ∧
  ∃ log logs, histories (accounts_for 200 0 programs) (s :: past) (log :: logs) ∧
    (∀ earlier, earlier ∈ logs → earlier `prefix_of` log) ∧
    (finished s → sy_cache s = run_state (create 5000 200 0) (ops_of log)).
Proof.
  destruct (proj1 (proj2_sig raced)) as [past Hpast]. exists past.
  exact (cache_calls_linearise 5000 200 0 programs (proj1_sig raced) past Hpast).
Defined.
End CacheThreadsWitnesses.
