(* ===== verification/Posix.v ===== *)
(** * The operating system under the daemon

    The system calls ClientHandler.cpp makes, as an interface over an abstract
    system state.  A call that fails returns its [errno] ([inl]); the daemon looks
    at nothing else of a failure.  [PosixLaws] collects the documented behaviour
    the daemon's loops rely on. *)

From S2P Require Import Prelude Responses PathUtils.

(** The Linux values of the constants the source names. *)
Definition ENOENT : Z := 2.
Definition EACCES : Z := 13.
Definition EEXIST : Z := 17.
Definition ENOTDIR : Z := 20.
Definition EISDIR : Z := 21.
Definition ENOTEMPTY : Z := 39.

Definition O_RDONLY : Z := 0.
Definition O_WRONLY : Z := 1.
Definition O_RDWR : Z := 2.
Definition O_CREAT : Z := 64.
Definition O_EXCL : Z := 128.
Definition O_TRUNC : Z := 512.

Definition R_OK : Z := 4.
Definition W_OK : Z := 2.
Definition X_OK : Z := 1.

Record posix_stat : Type := mkStat {
  pst_mode : Z; pst_size : Z; pst_atime : Z; pst_mtime : Z }.

Record posix_statvfs : Type := mkStatvfs {
  f_bsize : Z; f_blocks : Z; f_bfree : Z; f_bavail : Z; f_favail : Z }.

(** [tv_sec] may be left uninitialised ([None]) when [tv_nsec] is [UTIME_OMIT]. *)
Record timespec : Type := mkTimespec { tv_sec : option Z; tv_nsec : Z }.
Definition UTIME_OMIT : Z := 1073741822.

Class Posix (OS : Type) : Type := {
  DIR : Type;
  sys_stat : bytes → OS → OS * (Z + posix_stat);
  sys_opendir : bytes → OS → OS * (Z + DIR);
  sys_readdir : DIR → OS → OS * option bytes;
  sys_closedir : DIR → OS → OS;
  sys_rename : bytes → bytes → OS → OS * (Z + unit);
  sys_unlink : bytes → OS → OS * (Z + unit);
  sys_rmdir : bytes → OS → OS * (Z + unit);
  sys_mkdir : bytes → Z → OS → OS * (Z + unit);
  sys_open : bytes → Z → Z → OS → OS * (Z + Z);
  sys_close : Z → OS → OS;
  sys_lseek : Z → Z → OS → OS * (Z + Z);
  sys_read : Z → Z → OS → OS * (Z + bytes);
  sys_write : Z → bytes → OS → OS * (Z + Z);
  sys_ftruncate : Z → Z → OS → OS * (Z + unit);
  sys_utimensat : bytes → timespec → timespec → OS → OS * (Z + unit);
  sys_statvfs : bytes → OS → OS * (Z + posix_statvfs);
  sys_access : bytes → Z → OS → OS * (Z + unit);
  (** how many entries a directory stream can still return, at most *)
  dir_remaining : DIR → OS → nat;
}.

Class PosixLaws (OS : Type) `{Posix OS} : Prop := {
  (** [read] fills at most the count it was given *)
  sys_read_bound : ∀ fd n o, match snd (sys_read fd n o) with inr d => zlen d ≤ n | inl _ => True end;
  (** [write] of a non-empty buffer writes part of it or fails *)
  sys_write_progress : ∀ fd d o, d ≠ [] →
    match snd (sys_write fd d o) with inr k => 1 ≤ k ≤ zlen d | inl _ => True end;
  (** a directory stream ends, and looking at an entry does not extend it *)
  sys_readdir_ends : ∀ dir o,
    match sys_readdir dir o with
    | (o', Some name) => (dir_remaining dir o' < dir_remaining dir o)%nat
    | (o', None) => True
    end;
  sys_stat_dir : ∀ dir path o,
    dir_remaining dir (fst (sys_stat path o)) = dir_remaining dir o;
  (** entry names fit [d_name] *)
  sys_readdir_name : ∀ dir o, match snd (sys_readdir dir o) with Some name => zlen name ≤ 255 | None => True end;
}.

(** ** Regular files

    The documented meaning of [lseek], [read] and [write] on a descriptor open on
    a regular file: [fd_file] is the file's content and the descriptor's offset.
    [overwrite] places bytes at an offset, filling a gap with zeros. *)
Definition overwrite (pos : Z) (d content : bytes) : bytes :=
  ztake pos content ++ replicate (Z.to_nat (pos - zlen content)) x00 ++ d
    ++ zdrop (pos + zlen d) content.

Class PosixFiles (OS : Type) `{Posix OS} : Type := {
  fd_file : Z → OS → option (bytes * Z);
  sys_lseek_file : ∀ fd off o content pos,
    fd_file fd o = Some (content, pos) → 0 ≤ off →
    ∃ o', sys_lseek fd off o = (o', inr off) ∧ fd_file fd o' = Some (content, off);
  sys_read_file : ∀ fd n o content pos,
    fd_file fd o = Some (content, pos) → 0 ≤ pos → 0 < n →
    match sys_read fd n o with
    | (o', inr d) =>
        d = ztake (zlen d) (zdrop pos content) ∧ (d = [] → zlen content ≤ pos) ∧
        fd_file fd o' = Some (content, pos + zlen d)
    | (o', inl _) => True
    end;
  sys_write_file : ∀ fd d o content pos,
    fd_file fd o = Some (content, pos) → 0 ≤ pos → d ≠ [] →
    match sys_write fd d o with
    | (o', inr k) => fd_file fd o' = Some (overwrite pos (ztake k d) content, pos + k)
    | (o', inl _) => True
    end;
}.
