(* ===== verification/MemFs.v ===== *)
(** * A small in-memory system

    An executable instance of the system-call interface: a flat map of absolute
    paths to nodes, open descriptors with an offset, and directory streams that
    snapshot the names of a directory.  [read] returns at most four bytes per
    call and [write] takes at most three, so the daemon's transfer loops have
    work to do.  It shows that the laws of [PosixLaws] and [PosixFiles] can hold
    together and runs the examples. *)

From S2P Require Import Prelude Responses PathUtils Posix.

Record node : Type := mkNode { nd_mode : Z; nd_data : bytes; nd_atime : Z; nd_mtime : Z }.

Record memfs : Type := mkMemFs {
  fs_nodes : gmap bytes node;
  fs_fds : gmap Z (bytes * Z);
  fs_streams : gmap nat (list bytes);
}.

Definition set_nodes (n : gmap bytes node) (o : memfs) : memfs := mkMemFs n (fs_fds o) (fs_streams o).
Definition set_fds (f : gmap Z (bytes * Z)) (o : memfs) : memfs := mkMemFs (fs_nodes o) f (fs_streams o).
Definition set_streams (s : gmap nat (list bytes)) (o : memfs) : memfs := mkMemFs (fs_nodes o) (fs_fds o) s.

Definition S_IFDIR : Z := 16384.
Definition S_IFREG : Z := 32768.
Definition is_dir (n : node) : bool := Z.land (nd_mode n) 61440 =? S_IFDIR.
Definition new_file : node := mkNode (Z.lor S_IFREG 432) [] 0 0.
Definition new_dir : node := mkNode (Z.lor S_IFDIR 504) [] 0 0.
Definition set_data (d : bytes) (n : node) : node := mkNode (nd_mode n) d (nd_atime n) (nd_mtime n).
Definition EINVAL : Z := 22.
Definition EBADF : Z := 9.

(** The last component of a path that lies directly in [dir]. *)
Definition name_in (dir path : bytes) : option bytes :=
  let prefix := get_full_path dir [] in
  if starts_with path prefix then
    let name := drop (length prefix) path in
    if bool_decide (name ≠ [] ∧ slash ∉ name ∧ (length name ≤ 255)%nat) then Some name else None
  else None.

Definition names_of (dir : bytes) (o : memfs) : list bytes :=
  bs "." :: bs ".." :: omap (λ e, name_in dir (fst e)) (map_to_list (fs_nodes o)).

Definition has_flag (flags f : Z) : bool := negb (Z.land flags f =? 0).

Definition mem_stat (p : bytes) (o : memfs) : memfs * (Z + posix_stat) :=
  (o, match fs_nodes o !! p with
      | Some n => inr (mkStat (nd_mode n) (zlen (nd_data n)) (nd_atime n) (nd_mtime n))
      | None => inl ENOENT
      end).

Definition mem_opendir (p : bytes) (o : memfs) : memfs * (Z + nat) :=
  match fs_nodes o !! p with
  | None => (o, inl ENOENT)
  | Some n =>
      if is_dir n then
        let d := fresh (dom (fs_streams o)) in
        (set_streams (<[d := names_of p o]> (fs_streams o)) o, inr d)
      else (o, inl ENOTDIR)
  end.

Definition mem_readdir (d : nat) (o : memfs) : memfs * option bytes :=
  match fs_streams o !! d with
  | Some (name :: names) =>
      if bool_decide (length name ≤ 255)%nat
      then (set_streams (<[d := names]> (fs_streams o)) o, Some name)
      else (o, None)
  | _ => (o, None)
  end.

Definition mem_open (p : bytes) (flags mode : Z) (o : memfs) : memfs * (Z + Z) :=
  let fd := fresh (dom (fs_fds o)) in
  match fs_nodes o !! p with
  | Some n =>
      if has_flag flags O_CREAT && has_flag flags O_EXCL then (o, inl EEXIST)
      else if is_dir n then (o, inl EISDIR)
      else
        let n := if has_flag flags O_TRUNC then set_data [] n else n in
        (mkMemFs (<[p := n]> (fs_nodes o)) (<[fd := (p, 0)]> (fs_fds o)) (fs_streams o), inr fd)
  | None =>
      if has_flag flags O_CREAT then
        (mkMemFs (<[p := new_file]> (fs_nodes o)) (<[fd := (p, 0)]> (fs_fds o)) (fs_streams o), inr fd)
      else (o, inl ENOENT)
  end.

(** The file an open descriptor refers to, with the descriptor's offset. *)
Definition mem_file (fd : Z) (o : memfs) : option (bytes * node * Z) :=
  '(p, pos) ← fs_fds o !! fd; n ← fs_nodes o !! p; Some (p, n, pos).

Definition mem_lseek (fd off : Z) (o : memfs) : memfs * (Z + Z) :=
  match mem_file fd o with
  | Some (p, _, _) =>
      if off <? 0 then (o, inl EINVAL) else (set_fds (<[fd := (p, off)]> (fs_fds o)) o, inr off)
  | None => (o, inl EBADF)
  end.

Definition mem_read (fd n : Z) (o : memfs) : memfs * (Z + bytes) :=
  if n <? 0 then (o, inl EINVAL) else
  match mem_file fd o with
  | Some (p, nd, pos) =>
      let d := ztake (Z.min n 4) (zdrop pos (nd_data nd)) in
      (set_fds (<[fd := (p, pos + zlen d)]> (fs_fds o)) o, inr d)
  | None => (o, inl EBADF)
  end.

Definition mem_write (fd : Z) (d : bytes) (o : memfs) : memfs * (Z + Z) :=
  match mem_file fd o with
  | Some (p, nd, pos) =>
      let d := ztake 3 d in
      (mkMemFs (<[p := set_data (overwrite pos d (nd_data nd)) nd]> (fs_nodes o))
         (<[fd := (p, pos + zlen d)]> (fs_fds o)) (fs_streams o), inr (zlen d))
  | None => (o, inl EBADF)
  end.

Definition mem_ftruncate (fd n : Z) (o : memfs) : memfs * (Z + unit) :=
  match mem_file fd o with
  | Some (p, nd, pos) =>
      if n <? 0 then (o, inl EINVAL)
      else (set_nodes (<[p := set_data (ztake n (nd_data nd) ++
              replicate (Z.to_nat (n - zlen (nd_data nd))) x00) nd]> (fs_nodes o)) o, inr tt)
  | None => (o, inl EBADF)
  end.

Definition mem_remove (dir : bool) (p : bytes) (o : memfs) : memfs * (Z + unit) :=
  match fs_nodes o !! p with
  | None => (o, inl ENOENT)
  | Some n =>
      if negb (eqb (is_dir n) dir) then (o, inl (if dir then ENOTDIR else EISDIR))
      else if dir && negb (bool_decide (length (names_of p o) = 2%nat)) then (o, inl ENOTEMPTY)
      else (set_nodes (delete p (fs_nodes o)) o, inr tt)
  end.

Definition mem_rename (from to : bytes) (o : memfs) : memfs * (Z + unit) :=
  match fs_nodes o !! from with
  | None => (o, inl ENOENT)
  | Some n => (set_nodes (<[to := n]> (delete from (fs_nodes o))) o, inr tt)
  end.

Definition mem_mkdir (p : bytes) (mode : Z) (o : memfs) : memfs * (Z + unit) :=
  match fs_nodes o !! p with
  | Some _ => (o, inl EEXIST)
  | None => (set_nodes (<[p := new_dir]> (fs_nodes o)) o, inr tt)
  end.

Definition new_time (t : timespec) (old : Z) : Z :=
  if tv_nsec t =? UTIME_OMIT then old else default old (tv_sec t).

Definition mem_utimensat (p : bytes) (a m : timespec) (o : memfs) : memfs * (Z + unit) :=
  match fs_nodes o !! p with
  | Some n =>
      (set_nodes (<[p := mkNode (nd_mode n) (nd_data n) (new_time a (nd_atime n))
                            (new_time m (nd_mtime n))]> (fs_nodes o)) o, inr tt)
  | None => (o, inl ENOENT)
  end.

#[global] Instance memfs_posix : Posix memfs := {|
  DIR := nat;
  sys_stat := mem_stat;
  sys_opendir := mem_opendir;
  sys_readdir := mem_readdir;
  sys_closedir d o := set_streams (delete d (fs_streams o)) o;
  sys_rename := mem_rename;
  sys_unlink := mem_remove false;
  sys_rmdir := mem_remove true;
  sys_mkdir := mem_mkdir;
  sys_open := mem_open;
  sys_close fd o := set_fds (delete fd (fs_fds o)) o;
  sys_lseek := mem_lseek;
  sys_read := mem_read;
  sys_write := mem_write;
  sys_ftruncate := mem_ftruncate;
  sys_utimensat := mem_utimensat;
  sys_statvfs _ o := (o, inr (mkStatvfs 4096 1000 600 500 77));
  sys_access p _ o := (o, match fs_nodes o !! p with Some _ => inr tt | None => inl ENOENT end);
  dir_remaining d o := length (default [] (fs_streams o !! d));
|}.

#[global] Instance memfs_laws : PosixLaws memfs.
Proof.
  split.
  - intros fd n o. simpl. unfold mem_read. destruct (Z.ltb_spec n 0); [done|].
    destruct (mem_file fd o) as [[[p nd] pos]|]; [|done]. simpl. zlen_norm. lia.
  - intros fd d o Hd. simpl. unfold mem_write.
    destruct (mem_file fd o) as [[[p nd] pos]|]; [|done]. simpl.
    assert (0 < zlen d) by (destruct d; [done|zlia]). zlen_norm. lia.
  - intros d o. change nat in d. simpl. unfold mem_readdir. destruct (fs_streams o !! d) as [[|name names]|] eqn:E; [exact I| |exact I].
    destruct (bool_decide _); [|exact I]. simpl. rewrite lookup_insert_eq. simpl. lia.
  - done.
  - intros d o. change nat in d. simpl. unfold mem_readdir. destruct (fs_streams o !! d) as [[|name names]|]; [done| |done].
    case_bool_decide; [|done]. simpl. unfold zlen. lia.
Qed.

Definition mem_fd_file (fd : Z) (o : memfs) : option (bytes * Z) :=
  match mem_file fd o with Some (_, n, pos) => Some (nd_data n, pos) | None => None end.

Lemma mem_fd_file_inv fd o content pos :
  mem_fd_file fd o = Some (content, pos) →
  ∃ p nd, mem_file fd o = Some (p, nd, pos) ∧ fs_nodes o !! p = Some nd ∧ nd_data nd = content.
Proof.
  unfold mem_fd_file, mem_file. destruct (fs_fds o !! fd) as [[p pos']|]; simpl; [|done].
  destruct (fs_nodes o !! p) as [nd|] eqn:E; simpl; [|done]. intros [= <- <-]. eauto 6.
Qed.

Lemma mem_fd_file_set n fds s fd p nd pos :
  n !! p = Some nd → mem_fd_file fd (mkMemFs n (<[fd := (p, pos)]> fds) s) = Some (nd_data nd, pos).
Proof. intros E. unfold mem_fd_file, mem_file. simpl. rewrite lookup_insert_eq. simpl. by rewrite E. Qed.

#[global] Instance memfs_files : PosixFiles memfs.
Proof.
  refine {| fd_file := mem_fd_file |}.
  - intros fd off o content pos (p & nd & E & En & <-)%mem_fd_file_inv Hoff. simpl. unfold mem_lseek.
    rewrite E, (proj2 (Z.ltb_ge off 0)) by lia. eexists. split; [done|]. by apply mem_fd_file_set.
  - intros fd n o content pos (p & nd & E & En & <-)%mem_fd_file_inv Hpos Hn. simpl. unfold mem_read.
    rewrite E, (proj2 (Z.ltb_ge n 0)) by lia. set (d := ztake _ _). split_and!.
    + subst d. unfold ztake, zlen. rewrite length_take, Nat2Z.id, <- take_take, firstn_all. done.
    + intros Hd. apply (f_equal zlen) in Hd. subst d. zlen_norm. lia.
    + by apply mem_fd_file_set.
  - intros fd d o content pos (p & nd & E & En & <-)%mem_fd_file_inv Hpos Hd. simpl. unfold mem_write.
    rewrite E. rewrite (mem_fd_file_set _ _ _ _ p (set_data (overwrite pos (ztake 3 d) (nd_data nd)) nd));
      [|by rewrite lookup_insert_eq].
    do 3 f_equal. unfold ztake, zlen. rewrite length_take, Nat2Z.id, <- take_take, firstn_all. done.
Defined.

(** A device with one directory and one file. *)
Definition demo_fs : memfs :=
  mkMemFs {[ bs "/sdcard" := new_dir; bs "/sdcard/b" := set_data (bs "old") new_file ]} ∅ ∅.
(** The same device with the file open as descriptor 3. *)
Definition demo_open_fs : memfs := set_fds {[ 3 := (bs "/sdcard/b", 0) ]} demo_fs.
