(* ===== verification/ClientHandler.v ===== *)
(** * The daemon's connection handler: nandroid_daemon/src/ClientHandler.cpp

    One handler per request, over the socket, the two buffers and the operating
    system. *)

From S2P Require Import Prelude Effects Endian Wire Serialization Socket Requests Responses.
From S2P Require Import PathUtils Posix.

Definition BUFFER_SIZE : Z := 8192.
Definition DEFAULT_FILE_MODE : Z := 33200.
Definition DEFAULT_DIRECTORY_MODE : Z := 16888.
Definition FREE_SPACE_FS_PATH : bytes := bs "/sdcard/".

(** The daemon runs on little-endian ARM. *)
Definition android : host := Unix LittleEndian.

(** ** Pure helpers *)
Definition get_status_from_errno (err_num : Z) : ResponseStatus :=
  if err_num =? EACCES then AccessDenied
  else if err_num =? ENOENT then FileNotFound
  else if err_num =? EEXIST then FileExists
  else if err_num =? ENOTDIR then NotADirectory
  else if err_num =? EISDIR then NotAFile
  else if err_num =? ENOTEMPTY then DirectoryNotEmpty
  else GenericFailure.

(** [FileStat result(st_mode, st_size, st_atime, st_mtime)]: each field is
    converted to the width of the structure's. *)
Definition stat_of_posix (s : posix_stat) : FileStat :=
  mkFileStat (to_u16 (pst_mode s)) (to_u64 (pst_size s)) (to_u64 (pst_atime s)) (to_u64 (pst_mtime s)).

Definition get_timspec_from_timestamp (timestamp : Z) : timespec :=
  if timestamp =? -1 then mkTimespec None UTIME_OMIT
  else mkTimespec (Some timestamp) 0.

(** The access mode of [handle_open_handle]; [None] is the refused case. *)
Definition access_flags (read_access write_access : bool) : option Z :=
  match read_access, write_access with
  | false, false => None
  | true, false => Some O_RDONLY
  | false, true => Some O_WRONLY
  | true, true => Some O_RDWR
  end.

Definition mode_flags (mode : OpenMode) : Z :=
  match mode with
  | CreateIfNotExist => O_CREAT
  | Truncate => O_TRUNC
  | CreateOrTruncate => Z.lor O_CREAT O_TRUNC
  | CreateAlways => Z.lor O_CREAT O_EXCL
  | OpenOnly | OtherMode _ => 0
  end.

Definition is_dot (name : bytes) : bool :=
  bool_decide (name = bs ".") || bool_decide (name = bs "..").

(** ** The handler object *)
Record handler (N OS : Type) : Type := mkHandler {
  hd_socket : N;
  hd_reader : DataReader.t;
  hd_writer : DataWriter.t;
  hd_rw_buffer : bytes;
  hd_os : OS;
}.
Arguments mkHandler {N OS} _ _ _ _ _.
Arguments hd_socket {N OS} _.
Arguments hd_reader {N OS} _.
Arguments hd_writer {N OS} _.
Arguments hd_rw_buffer {N OS} _.
Arguments hd_os {N OS} _.

Definition reader_lens {N OS} : lens (handler N OS) (N * DataReader.t) :=
  Lens (λ h, (hd_socket h, hd_reader h))
       (λ p h, mkHandler (fst p) (snd p) (hd_writer h) (hd_rw_buffer h) (hd_os h)).
Definition writer_lens {N OS} : lens (handler N OS) (N * DataWriter.t) :=
  Lens (λ h, (hd_socket h, hd_writer h))
       (λ p h, mkHandler (fst p) (hd_reader h) (snd p) (hd_rw_buffer h) (hd_os h)).

#[global] Instance reader_lens_laws {N OS} : LensLaws (@reader_lens N OS).
Proof. by split; [intros [] []|intros []|intros [] [] []]. Qed.
#[global] Instance writer_lens_laws {N OS} : LensLaws (@writer_lens N OS).
Proof. by split; [intros [] []|intros []|intros [] [] []]. Qed.

Section Handlers.
Context {N OS : Type} `{Socket N} `{Posix OS}.
#[local] Instance handler_readable : Readable N := client_handler_read.
#[local] Instance handler_writable : Writable N := client_handler_write.
Import DataReader DataWriter.

Definition from_reader {A} (m : M (N * DataReader.t) A) : M (handler N OS) A := zoom reader_lens m.
Definition to_writer {A} (m : M (N * DataWriter.t) A) : M (handler N OS) A := zoom writer_lens m.

Definition call {A} (f : OS → OS * A) : M (handler N OS) A :=
  λ h, let '(o, a) := f (hd_os h) in
       (mkHandler (hd_socket h) (hd_reader h) (hd_writer h) (hd_rw_buffer h) o, Ok a).
Definition call_ (f : OS → OS) : M (handler N OS) unit := call (λ o, (f o, tt)).

Definition set_rw_buffer (b : bytes) : M (handler N OS) unit :=
  modify (λ h, mkHandler (hd_socket h) (hd_reader h) (hd_writer h) b (hd_os h)).

Definition write_status (status : ResponseStatus) : M (handler N OS) unit :=
  to_writer (write_byte android (status_code status)).

(** The tail shared by the handlers of calls that only succeed or fail. *)
Definition write_outcome (r : Z + unit) : M (handler N OS) unit :=
  match r with
  | inl err => write_status (get_status_from_errno err)
  | inr _ => write_status Success
  end.

(** The members as the constructor initialises them, before its handshake. *)
Definition new_handler (socket : N) (os : OS) : handler N OS :=
  mkHandler socket (DataReader.create BUFFER_SIZE) (DataWriter.create BUFFER_SIZE) [] os.

(** The constructor's handshake: echo four bytes. *)
Definition handshake : M (handler N OS) unit :=
  let* handshake_bytes := from_reader (read_u32 android) in
  do* to_writer (write_u32 android handshake_bytes) in
  to_writer flush.

(** [None] leaves [*out_stat] as it was. *)
Definition stat_file (path : bytes) : M (handler N OS) (ResponseStatus * option FileStat) :=
  let* r := call (sys_stat (c_str path)) in
  match r with
  | inl err => ret (get_status_from_errno err, None)
  | inr s => ret (Success, Some (stat_of_posix s))
  end.

Definition handle_stat_file : M (handler N OS) unit :=
  let* file_path := from_reader (read_utf8_string android) in
  let* ' (status, stat) := stat_file file_path in
  do* write_status status in
  if bool_decide (status = Success)
  then to_writer (write_FileStat android (default FileStat_zero stat))
  else ret tt.

Definition ensure_rw_buffer_size (size : Z) : M (handler N OS) unit :=
  let* b := gets hd_rw_buffer in
  if zlen b <? size then set_rw_buffer (b ++ replicate (Z.to_nat (size - zlen b)) x00) else ret tt.

(** ** Directories *)
Fixpoint list_entries (fuel : nat) (directory_path : bytes) (dir : DIR) (current_entry : option bytes)
    : M (handler N OS) unit :=
  match current_entry with
  | None => ret tt
  | Some d_name =>
      match fuel with
      | O => throw OutOfFuel
      | S fuel =>
          let full_entry_path := get_full_path directory_path d_name in
          let* ' (status, stat) := stat_file full_entry_path in
          do* (if bool_decide (status = Success) then
                 do* write_status Success in
                 do* to_writer (write_utf8_string android d_name) in
                 to_writer (write_FileStat android (default FileStat_zero stat))
               else write_status status) in
          let* next := call (sys_readdir dir) in
          list_entries fuel directory_path dir next
      end
  end.

Definition handle_list_dir_stats : M (handler N OS) unit :=
  let* directory_path := from_reader (read_utf8_string android) in
  let* r := call (sys_opendir (c_str directory_path)) in
  match r with
  | inl err => write_status (get_status_from_errno err)
  | inr dir =>
      do* write_status Success in
      let* fuel := gets (λ h, dir_remaining dir (hd_os h)) in
      let* current_entry := call (sys_readdir dir) in
      do* list_entries fuel directory_path dir current_entry in
      do* write_status NoMoreEntries in
      call_ (sys_closedir dir)
  end.

Definition handle_move_entry : M (handler N OS) unit :=
  let* args := from_reader (read_MoveEntryArgs android) in
  let* existing := call (sys_stat (c_str (me_to_path args))) in
  let rename :=
    let* r := call (sys_rename (c_str (me_from_path args)) (c_str (me_to_path args))) in
    write_outcome r in
  match existing with
  | inl err =>
      if negb (err =? ENOENT) then write_status (get_status_from_errno err) else rename
  | inr _ => if negb (me_overwrite args) then write_status FileExists else rename
  end.

Definition handle_remove_file : M (handler N OS) unit :=
  let* file_path := from_reader (read_utf8_string android) in
  let* r := call (sys_unlink (c_str file_path)) in
  write_outcome r.

Definition handle_remove_directory : M (handler N OS) unit :=
  let* file_path := from_reader (read_utf8_string android) in
  let* r := call (sys_rmdir (c_str file_path)) in
  write_outcome r.

Definition handle_create_directory : M (handler N OS) unit :=
  let* dir_path := from_reader (read_utf8_string android) in
  let* r := call (sys_mkdir (c_str dir_path) DEFAULT_DIRECTORY_MODE) in
  write_outcome r.

(** ** File handles *)
Definition handle_open_handle : M (handler N OS) unit :=
  let* args := from_reader (read_OpenHandleArgs android) in
  match access_flags (oh_read_access args) (oh_write_access args) with
  | None => write_status GenericFailure
  | Some creation_flags =>
      let creation_flags := Z.lor creation_flags (mode_flags (oh_mode args)) in
      let* r := call (sys_open (c_str (oh_path args)) creation_flags DEFAULT_FILE_MODE) in
      match r with
      | inl err => write_status (get_status_from_errno err)
      | inr fd =>
          do* write_status Success in
          to_writer (write_u32 android (to_u32 fd))
      end
  end.

(** [while (total_read < data_len)]: [total_read] is an [int] compared as
    [unsigned], and indexes the buffer.  The result is the final count, or the
    error of the failing call. *)
Fixpoint read_file_loop (fuel : nat) (handle data_len total_read : Z) : M (handler N OS) (Z + Z) :=
  match fuel with
  | O => throw OutOfFuel
  | S fuel =>
      if to_u32 total_read <? data_len then
        if total_read <? 0 then throw UndefinedBehaviour
        else
          let* r := call (sys_read (to_i32 handle) (data_len - total_read)) in
          match r with
          | inl err => ret (inl err)
          | inr d =>
              let* b := gets hd_rw_buffer in
              do* set_rw_buffer (ztake total_read b ++ d ++ zdrop (total_read + zlen d) b) in
              let total_read := to_i32 (total_read + zlen d) in
              if zlen d =? 0 then ret (inr total_read)
              else read_file_loop fuel handle data_len total_read
          end
      else ret (inr total_read)
  end.

Definition handle_read_file : M (handler N OS) unit :=
  let* args := from_reader (read_ReadHandleArgs android) in
  let* sought := call (sys_lseek (to_i32 (rh_handle args)) (to_i64 (rh_offset args))) in
  match sought with
  | inl err => write_status (get_status_from_errno err)
  | inr _ =>
      do* ensure_rw_buffer_size (rh_data_len args) in
      let* r := read_file_loop (2 + Z.to_nat (rh_data_len args)) (rh_handle args) (rh_data_len args) 0 in
      match r with
      | inl err => write_status (get_status_from_errno err)
      | inr total_read =>
          do* write_status Success in
          do* to_writer (write_u32 android (to_u32 total_read)) in
          let* b := gets hd_rw_buffer in
          to_writer (write_exact b total_read)
      end
  end.

Fixpoint write_file_loop (fuel : nat) (handle data_len total_written : Z)
    : M (handler N OS) (Z + unit) :=
  match fuel with
  | O => throw OutOfFuel
  | S fuel =>
      if to_u32 total_written <? data_len then
        if total_written <? 0 then throw UndefinedBehaviour
        else
          let* b := gets hd_rw_buffer in
          let* r := call (sys_write (to_i32 handle)
                            (ztake (data_len - total_written) (zdrop total_written b))) in
          match r with
          | inl err => ret (inl err)
          | inr write_result =>
              write_file_loop fuel handle data_len (to_i32 (total_written + write_result))
          end
      else ret (inr tt)
  end.

Definition handle_write_file : M (handler N OS) unit :=
  let* args := from_reader (read_WriteHandleInitArgs android) in
  let* sought := call (sys_lseek (to_i32 (wh_handle args)) (to_i64 (wh_offset args))) in
  match sought with
  | inl err => write_status (get_status_from_errno err)
  | inr _ =>
      do* ensure_rw_buffer_size (wh_data_len args) in
      let* d := from_reader (read_exact (to_i32 (wh_data_len args))) in
      let* b := gets hd_rw_buffer in
      do* set_rw_buffer (d ++ zdrop (zlen d) b) in
      let* r := write_file_loop (2 + Z.to_nat (wh_data_len args)) (wh_handle args) (wh_data_len args) 0 in
      write_outcome r
  end.

Definition handle_truncate_file : M (handler N OS) unit :=
  let* args := from_reader (read_TruncateHandleArgs android) in
  let* r := call (sys_ftruncate (to_i32 (th_handle args)) (to_i64 (th_new_length args))) in
  write_outcome r.

Definition handle_close_handle : M (handler N OS) unit :=
  let* handle := from_reader (read_u32 android) in
  do* call_ (sys_close (to_i32 handle)) in
  write_status Success.

(** ** Attributes and volume *)
Definition handle_set_file_time : M (handler N OS) unit :=
  let* args := from_reader (read_SetFileTimeArgs android) in
  let* r := call (sys_utimensat (c_str (sf_path args))
                    (get_timspec_from_timestamp (sf_access_time args))
                    (get_timspec_from_timestamp (sf_write_time args))) in
  write_outcome r.

(** [DiskStats stats(block_size * f_bfree, block_size * f_favail, block_size * f_blocks)] *)
Definition disk_stats_of (v : posix_statvfs) : DiskStats :=
  let block_size := f_bsize v in
  mkDiskStats (to_u64 (block_size * f_bfree v)) (to_u64 (block_size * f_favail v))
              (to_u64 (block_size * f_blocks v)).

Definition handle_get_disk_stats : M (handler N OS) unit :=
  let* r := call (sys_statvfs (c_str FREE_SPACE_FS_PATH)) in
  match r with
  | inl err => write_status (get_status_from_errno err)
  | inr v =>
      do* write_status Success in
      to_writer (write_DiskStats android (disk_stats_of v))
  end.

(** ** Checks before removal *)
Definition can_remove_directory_entry (path : bytes) : M (handler N OS) ResponseStatus :=
  match get_parent_path path with
  | None => ret AccessDenied
  | Some parent_dir_path =>
      let* r := call (sys_access (c_str parent_dir_path) (Z.lor (Z.lor R_OK W_OK) X_OK)) in
      match r with
      | inl err => ret (get_status_from_errno err)
      | inr _ => ret Success
      end
  end.

Definition handle_check_remove_file : M (handler N OS) unit :=
  let* file_path := from_reader (read_utf8_string android) in
  let* status := can_remove_directory_entry file_path in
  write_status status.

Fixpoint has_entry_loop (fuel : nat) (dir : DIR) (entry : option bytes) : M (handler N OS) bool :=
  match entry with
  | None => ret false
  | Some d_name =>
      match fuel with
      | O => throw OutOfFuel
      | S fuel =>
          if negb (is_dot d_name) then ret true
          else
            let* next := call (sys_readdir dir) in
            has_entry_loop fuel dir next
      end
  end.

Definition handle_check_remove_directory : M (handler N OS) unit :=
  let* dir_path := from_reader (read_utf8_string android) in
  let* can_rem_entry := can_remove_directory_entry dir_path in
  if negb (bool_decide (can_rem_entry = Success)) then write_status can_rem_entry
  else
    let* r := call (sys_opendir (c_str dir_path)) in
    match r with
    | inl err => write_status (get_status_from_errno err)
    | inr dir =>
        let* fuel := gets (λ h, dir_remaining dir (hd_os h)) in
        let* entry := call (sys_readdir dir) in
        let* has_entry := has_entry_loop fuel dir entry in
        do* call_ (sys_closedir dir) in
        write_status (if has_entry then DirectoryNotEmpty else Success)
    end.

(** ** The message loop *)
Definition dispatch (req_type : RequestType) : M (handler N OS) unit :=
  match req_type with
  | StatFile => handle_stat_file
  | ListDirectory => handle_list_dir_stats
  | MoveEntry => handle_move_entry
  | RemoveFile => handle_remove_file
  | RemoveDirectory => handle_remove_directory
  | CreateDirectory => handle_create_directory
  | OpenHandle => handle_open_handle
  | ReadHandle => handle_read_file
  | WriteHandle => handle_write_file
  | CloseHandle => handle_close_handle
  | TruncateHandle => handle_truncate_file
  | SetFileTime => handle_set_file_time
  | GetDiskStats => handle_get_disk_stats
  | CheckRemoveFile => handle_check_remove_file
  | CheckRemoveDirectory => handle_check_remove_directory
  | OtherRequest _ => throw (RuntimeError "Unknown request type received!")
  end.

(** One turn of [while (true)]; [false] when the client has disconnected. *)
Definition handle_message : M (handler N OS) bool :=
  let* req_type :=
    try_catch (let* b := from_reader (read_byte android) in ret (Some (request_of_code b)))
              (λ e, match e with EOFException => ret None | e => throw e end) in
  match req_type with
  | None => ret false
  | Some req_type =>
      do* dispatch req_type in
      do* to_writer flush in
      ret true
  end.

Fixpoint handle_messages (fuel : nat) : M (handler N OS) unit :=
  match fuel with
  | O => throw OutOfFuel
  | S fuel =>
      let* continue := handle_message in
      if continue then handle_messages fuel else ret tt
  end.
End Handlers.
