(* ===== verification/Protocol.v ===== *)
(** * The protocol, message by message

    Requests and responses as values with their wire format, and the abstract
    daemon: what each request does to the operating system and what it answers,
    with no sockets, buffers or integer conversions.  ClientHandler.cpp is shown
    to implement it (file Daemon). *)

From S2P Require Import Prelude Endian Wire Requests Responses PathUtils Posix ClientHandler.

(** ** Requests *)
Inductive request : Type :=
  | QStat (path : bytes)
  | QList (path : bytes)
  | QCreateDir (path : bytes)
  | QCheckRemoveFile (path : bytes)
  | QCheckRemoveDir (path : bytes)
  | QRemoveFile (path : bytes)
  | QRemoveDir (path : bytes)
  | QMove (args : MoveEntryArgs)
  | QOpen (args : OpenHandleArgs)
  | QClose (handle : Z)
  | QRead (args : ReadHandleArgs)
  | QWrite (handle offset : Z) (data : bytes)
  | QTruncate (args : TruncateHandleArgs)
  | QSetTime (args : SetFileTimeArgs)
  | QDisk.

Definition request_type (q : request) : RequestType :=
  match q with
  | QStat _ => StatFile | QList _ => ListDirectory | QCreateDir _ => CreateDirectory
  | QCheckRemoveFile _ => CheckRemoveFile | QCheckRemoveDir _ => CheckRemoveDirectory
  | QRemoveFile _ => RemoveFile | QRemoveDir _ => RemoveDirectory | QMove _ => MoveEntry
  | QOpen _ => OpenHandle | QClose _ => CloseHandle | QRead _ => ReadHandle
  | QWrite _ _ _ => WriteHandle | QTruncate _ => TruncateHandle | QSetTime _ => SetFileTime
  | QDisk => GetDiskStats
  end.

Definition write_args (handle offset : Z) (data : bytes) : WriteHandleInitArgs :=
  mkWriteHandleInitArgs handle offset (zlen data).

Definition request_body (q : request) : bytes :=
  match q with
  | QStat p | QList p | QCreateDir p | QCheckRemoveFile p | QCheckRemoveDir p
  | QRemoveFile p | QRemoveDir p => e_string p
  | QMove a => encode a
  | QOpen a => encode a
  | QClose f => e_u32 f
  | QRead a => encode a
  | QWrite f o d => encode (write_args f o d) ++ d
  | QTruncate a => encode a
  | QSetTime a => encode a
  | QDisk => []
  end.

Definition encode_request (q : request) : bytes :=
  e_u8 (request_code (request_type q)) ++ request_body q.

(** The requests a client can send whole: strings that fit their prefix, integers
    that fit their fields, transfers that fit an [int]. *)
Definition valid_request (q : request) : Prop :=
  match q with
  | QStat p | QList p | QCreateDir p | QCheckRemoveFile p | QCheckRemoveDir p
  | QRemoveFile p | QRemoveDir p => short p
  | QMove a => valid a
  | QOpen a => valid a
  | QClose f => is_u32 f
  | QRead a => valid a ∧ rh_data_len a < 2 ^ 31
  | QWrite f o d => valid (write_args f o d) ∧ zlen d < 2 ^ 31
  | QTruncate a => valid a
  | QSetTime a => valid a
  | QDisk => True
  end.

(** ** Responses *)
Definition entry : Type := ResponseStatus + (bytes * FileStat).

Inductive response : Type :=
  | RStatus (status : ResponseStatus)
  | RStat (stat : FileStat)
  | ROpened (fd : Z)
  | RData (data : bytes)
  | RDisk (stats : DiskStats)
  | REntries (entries : list entry).

Definition encode_entry (e : entry) : bytes :=
  match e with
  | inl status => encode status
  | inr (name, stat) => encode Success ++ e_string name ++ encode stat
  end.

Definition encode_entries (es : list entry) : bytes :=
  concat (map encode_entry es) ++ encode NoMoreEntries.

Definition encode_response (r : response) : bytes :=
  match r with
  | RStatus status => encode status
  | RStat stat => encode Success ++ encode stat
  | ROpened fd => encode Success ++ e_u32 fd
  | RData data => encode Success ++ e_u32 (zlen data) ++ data
  | RDisk stats => encode Success ++ encode stats
  | REntries es => encode Success ++ encode_entries es
  end.

(** ** The abstract daemon *)
Section Serve.
Context {OS : Type} `{Posix OS}.

Definition outcome (r : Z + unit) : response :=
  match r with
  | inl err => RStatus (get_status_from_errno err)
  | inr _ => RStatus Success
  end.

Definition refused {A} (r : Z + A) (k : A → response) : response :=
  match r with inl err => RStatus (get_status_from_errno err) | inr a => k a end.

Definition entry_of (name : bytes) (r : Z + posix_stat) : entry :=
  match r with
  | inl err => inl (get_status_from_errno err)
  | inr s => inr (name, stat_of_posix s)
  end.

(** The rest of a directory stream, each entry with its stat. *)
Fixpoint serve_entries (fuel : nat) (path : bytes) (dir : DIR) (next : option bytes) (o : OS)
    : OS * list entry :=
  match next with
  | None => (o, [])
  | Some name =>
      match fuel with
      | O => (o, [])
      | S fuel =>
          let '(o, s) := sys_stat (c_str (get_full_path path name)) o in
          let '(o, next) := sys_readdir dir o in
          let '(o, es) := serve_entries fuel path dir next o in
          (o, entry_of name s :: es)
      end
  end.

(** Whether a directory stream has an entry besides [.] and [..]. *)
Fixpoint serve_has_entry (fuel : nat) (dir : DIR) (next : option bytes) (o : OS) : OS * bool :=
  match next with
  | None => (o, false)
  | Some name =>
      match fuel with
      | O => (o, false)
      | S fuel =>
          if negb (is_dot name) then (o, true)
          else let '(o, next) := sys_readdir dir o in serve_has_entry fuel dir next o
      end
  end.

(** Read [n] bytes, or up to the end of the file. *)
Fixpoint read_all (fuel : nat) (fd n : Z) (o : OS) : OS * (Z + bytes) :=
  match fuel with
  | O => (o, inr [])
  | S fuel =>
      if n <=? 0 then (o, inr [])
      else
        let '(o, r) := sys_read fd n o in
        match r with
        | inl err => (o, inl err)
        | inr [] => (o, inr [])
        | inr d =>
            let '(o, r) := read_all fuel fd (n - zlen d) o in
            (o, match r with inl err => inl err | inr d' => inr (d ++ d') end)
        end
  end.

(** Write all of [d]. *)
Fixpoint write_all (fuel : nat) (fd : Z) (d : bytes) (o : OS) : OS * (Z + unit) :=
  match fuel, d with
  | _, [] => (o, inr tt)
  | O, _ => (o, inr tt)
  | S fuel, _ =>
      let '(o, r) := sys_write fd d o in
      match r with
      | inl err => (o, inl err)
      | inr k => write_all fuel fd (zdrop k d) o
      end
  end.

Definition serve_can_remove (path : bytes) (o : OS) : OS * ResponseStatus :=
  match get_parent_path path with
  | None => (o, AccessDenied)
  | Some parent =>
      let '(o, r) := sys_access (c_str parent) 7 o in
      (o, match r with inl err => get_status_from_errno err | inr _ => Success end)
  end.

Definition serve (q : request) (o : OS) : OS * response :=
  match q with
  | QStat p =>
      let '(o, r) := sys_stat (c_str p) o in (o, refused r (λ s, RStat (stat_of_posix s)))
  | QList p =>
      let '(o, r) := sys_opendir (c_str p) o in
      match r with
      | inl err => (o, RStatus (get_status_from_errno err))
      | inr dir =>
          let fuel := dir_remaining dir o in
          let '(o, next) := sys_readdir dir o in
          let '(o, es) := serve_entries fuel p dir next o in
          (sys_closedir dir o, REntries es)
      end
  | QCreateDir p =>
      let '(o, r) := sys_mkdir (c_str p) DEFAULT_DIRECTORY_MODE o in (o, outcome r)
  | QCheckRemoveFile p => let '(o, status) := serve_can_remove p o in (o, RStatus status)
  | QCheckRemoveDir p =>
      let '(o, status) := serve_can_remove p o in
      if bool_decide (status = Success) then
        let '(o, r) := sys_opendir (c_str p) o in
        match r with
        | inl err => (o, RStatus (get_status_from_errno err))
        | inr dir =>
            let fuel := dir_remaining dir o in
            let '(o, next) := sys_readdir dir o in
            let '(o, b) := serve_has_entry fuel dir next o in
            (sys_closedir dir o, RStatus (if b : bool then DirectoryNotEmpty else Success))
        end
      else (o, RStatus status)
  | QRemoveFile p => let '(o, r) := sys_unlink (c_str p) o in (o, outcome r)
  | QRemoveDir p => let '(o, r) := sys_rmdir (c_str p) o in (o, outcome r)
  | QMove a =>
      let '(o, existing) := sys_stat (c_str (me_to_path a)) o in
      let rename :=
        let '(o, r) := sys_rename (c_str (me_from_path a)) (c_str (me_to_path a)) o in
        (o, outcome r) in
      match existing with
      | inl err => if err =? ENOENT then rename else (o, RStatus (get_status_from_errno err))
      | inr _ => if me_overwrite a then rename else (o, RStatus FileExists)
      end
  | QOpen a =>
      match access_flags (oh_read_access a) (oh_write_access a) with
      | None => (o, RStatus GenericFailure)
      | Some flags =>
          let '(o, r) := sys_open (c_str (oh_path a)) (Z.lor flags (mode_flags (oh_mode a)))
                           DEFAULT_FILE_MODE o in
          (o, refused r (λ fd, ROpened (to_u32 fd)))
      end
  | QClose f => (sys_close (to_i32 f) o, RStatus Success)
  | QRead a =>
      let '(o, r) := sys_lseek (to_i32 (rh_handle a)) (to_i64 (rh_offset a)) o in
      match r with
      | inl err => (o, RStatus (get_status_from_errno err))
      | inr _ =>
          let '(o, r) := read_all (1 + Z.to_nat (rh_data_len a)) (to_i32 (rh_handle a))
                           (rh_data_len a) o in
          (o, refused r RData)
      end
  | QWrite f off d =>
      let '(o, r) := sys_lseek (to_i32 f) (to_i64 off) o in
      match r with
      | inl err => (o, RStatus (get_status_from_errno err))
      | inr _ => let '(o, r) := write_all (length d) (to_i32 f) d o in (o, outcome r)
      end
  | QTruncate a =>
      let '(o, r) := sys_ftruncate (to_i32 (th_handle a)) (to_i64 (th_new_length a)) o in
      (o, outcome r)
  | QSetTime a =>
      let '(o, r) := sys_utimensat (c_str (sf_path a))
                       (get_timspec_from_timestamp (sf_access_time a))
                       (get_timspec_from_timestamp (sf_write_time a)) o in
      (o, outcome r)
  | QDisk =>
      let '(o, r) := sys_statvfs (c_str FREE_SPACE_FS_PATH) o in
      (o, refused r (λ v, RDisk (disk_stats_of v)))
  end.

(** A write whose seek fails is answered before its data is taken off the
    stream: the connection is out of step from then on. *)
Definition in_step (q : request) (o : OS) : bool :=
  match q with
  | QWrite f off d =>
      match snd (sys_lseek (to_i32 f) (to_i64 off) o) with
      | inl _ => bool_decide (d = [])
      | inr _ => true
      end
  | _ => true
  end.

Fixpoint serve_all (qs : list request) (o : OS) : OS * list response :=
  match qs with
  | [] => (o, [])
  | q :: qs =>
      let '(o, r) := serve q o in
      let '(o, rs) := serve_all qs o in (o, r :: rs)
  end.

Fixpoint all_in_step (qs : list request) (o : OS) : bool :=
  match qs with
  | [] => true
  | q :: qs => in_step q o && all_in_step qs (fst (serve q o))
  end.
End Serve.

(** ** Statuses *)
Lemma errno_status (err : Z) :
  listed_status (get_status_from_errno err) ∧ get_status_from_errno err ≠ Success ∧
  get_status_from_errno err ≠ NoMoreEntries.
Proof. unfold get_status_from_errno. repeat destruct (_ =? _); done. Qed.

(** ** Well-formed responses

    The responses that answer a request: what the client's decoder is ready for.
    Only requests answered by a bare status may see [RStatus Success]. *)
Definition valid_entry (e : entry) : Prop :=
  match e with
  | inl s => listed_status s ∧ s ≠ Success ∧ s ≠ NoMoreEntries
  | inr (name, stat) => zlen name ≤ 255 ∧ valid stat
  end.

Definition refusal (s : ResponseStatus) : Prop := listed_status s ∧ s ≠ Success.

Definition fits (q : request) (r : response) : Prop :=
  match q with
  | QStat _ => match r with RStat s => valid s | RStatus s => refusal s | _ => False end
  | QList _ => match r with REntries es => Forall valid_entry es | RStatus s => refusal s | _ => False end
  | QOpen _ => match r with ROpened fd => is_u32 fd | RStatus s => refusal s | _ => False end
  | QRead a =>
      match r with RData d => zlen d ≤ rh_data_len a | RStatus s => refusal s | _ => False end
  | QDisk => match r with RDisk d => valid d | RStatus s => refusal s | _ => False end
  | _ => match r with RStatus s => listed_status s | _ => False end
  end.

Section Fits.
Context {OS : Type} `{PosixLaws OS}.

Lemma errno_refusal (err : Z) : refusal (get_status_from_errno err).
Proof. split; apply errno_status. Qed.

Lemma outcome_status (r : Z + unit) : ∃ s, outcome r = RStatus s ∧ listed_status s.
Proof. destruct r; eexists; split; try done. apply errno_status. Qed.

Lemma stat_of_posix_fits s : valid (stat_of_posix s).
Proof. split_and!; by apply wrap_range. Qed.
Lemma disk_stats_fits v : valid (disk_stats_of v).
Proof. split_and!; by apply wrap_range. Qed.

Lemma entry_of_valid name r : zlen name ≤ 255 → valid_entry (entry_of name r).
Proof.
  intros Hn. destruct r; simpl; [apply errno_status|]. split; [done|].
  apply stat_of_posix_fits.
Qed.

Lemma serve_entries_valid fuel p dir next (o : OS) :
  match next with Some n => zlen n ≤ 255 | None => True end →
  Forall valid_entry (snd (serve_entries fuel p dir next o)).
Proof.
  revert next o. induction fuel as [|fuel IH]; intros [name|] o Hn; simpl; try by constructor.
  destruct (sys_stat _ o) as [o1 s]. pose proof (sys_readdir_name dir o1) as Hn'.
  destruct (sys_readdir dir o1) as [o2 next]. specialize (IH next o2 Hn').
  destruct (serve_entries fuel p dir next o2) as [o3 es].
  constructor; [by apply entry_of_valid|done].
Qed.

Lemma read_all_bound fuel fd n (o : OS) :
  0 ≤ n → match snd (read_all fuel fd n o) with inr d => zlen d ≤ n | inl _ => True end.
Proof.
  revert n o. induction fuel as [|fuel IH]; intros n o Hn; simpl; [done|].
  destruct (Z.leb_spec n 0); [done|]. pose proof (sys_read_bound fd n o) as Hb.
  destruct (sys_read fd n o) as [o1 [err|[|c d]]]; simpl in *; [done..|].
  specialize (IH (n - zlen (c :: d)) o1 ltac:(lia)).
  destruct (read_all fuel fd _ o1) as [o2 [err|d']]; simpl in *; [done|].
  rewrite app_comm_cons, zlen_app. lia.
Qed.

Lemma serve_can_remove_listed p (o : OS) : listed_status (snd (serve_can_remove p o)).
Proof.
  unfold serve_can_remove. destruct (get_parent_path p); [|done].
  destruct (sys_access _ _ o) as [o' [err|]]; simpl; [apply errno_status|done].
Qed.

Lemma outcome_fits (res : OS * (Z + unit)) :
  match snd (let '(o, r) := res in (o, outcome r)) with
  | RStatus s => listed_status s | _ => False end.
Proof. destruct res as [o [err|]]; simpl; [apply errno_status|done]. Qed.

Lemma serve_fits_size q (o : OS) :
  match q with QRead a => 0 ≤ rh_data_len a | _ => True end → fits q (snd (serve q o)).
Proof.
  intros Hq. destruct q; cbn [serve fits].
  - destruct (sys_stat _ o) as [o' [err|s]]; simpl; [apply errno_refusal|apply stat_of_posix_fits].
  - destruct (sys_opendir _ o) as [o1 [err|dir]]; simpl; [apply errno_refusal|].
    pose proof (sys_readdir_name dir o1) as Hn. destruct (sys_readdir dir o1) as [o2 next].
    pose proof (serve_entries_valid (dir_remaining dir o1) path dir next o2 Hn) as He.
    by destruct (serve_entries _ path dir next o2).
  - apply outcome_fits.
  - pose proof (serve_can_remove_listed path o). by destruct (serve_can_remove path o).
  - pose proof (serve_can_remove_listed path o). destruct (serve_can_remove path o) as [o0 st].
    case_bool_decide; [|done]. destruct (sys_opendir _ o0) as [o1 [err|dir]]; simpl; [apply errno_status|].
    destruct (sys_readdir dir o1) as [o2 next].
    by destruct (serve_has_entry _ dir next o2) as [o3 []].
  - apply outcome_fits.
  - apply outcome_fits.
  - destruct (sys_stat _ o) as [o1 [err|s]]; simpl.
    + destruct (err =? ENOENT); [apply outcome_fits|apply errno_status].
    + destruct (me_overwrite args); [apply outcome_fits|done].
  - destruct (access_flags _ _); [|done].
    destruct (sys_open _ _ _ o) as [o1 [err|fd]]; simpl; [apply errno_refusal|by apply wrap_range].
  - done.
  - destruct (sys_lseek _ _ o) as [o1 [err|]]; [apply errno_refusal|].
    pose proof (read_all_bound (1 + (Z.to_nat (rh_data_len args))) (to_i32 (rh_handle args)) (rh_data_len args)
      o1 Hq) as Hb.
    destruct (read_all _ _ _ o1) as [o2 [err|d]]; [apply errno_refusal|exact Hb].
  - destruct (sys_lseek _ _ o) as [o1 [err|]]; simpl; [apply errno_status|apply outcome_fits].
  - apply outcome_fits.
  - apply outcome_fits.
  - destruct (sys_statvfs _ o) as [o1 [err|v]]; simpl; [apply errno_refusal|apply disk_stats_fits].
Qed.

Lemma serve_fits q (o : OS) : valid_request q → fits q (snd (serve q o)).
Proof. intros Hq. apply serve_fits_size. destruct q; try done. apply Hq. Qed.
End Fits.
