(* ===== verification/FileContents.v ===== *)
(** * What transfers do to files

    The abstract daemon's reads and writes against the content of a regular file:
    the loops over short transfers amount to one read or one write of the whole
    range. *)

From S2P Require Import Prelude Effects Requests Responses Posix ClientHandler Protocol.

(** ** [overwrite] *)
Definition padded (pos : Z) (content : bytes) : bytes :=
  ztake pos content ++ replicate (Z.to_nat (pos - zlen content)) x00.

Lemma zlen_padded pos content : 0 ≤ pos → zlen (padded pos content) = pos.
Proof.
  intros Hp. unfold padded. rewrite zlen_app, zlen_ztake. unfold zlen at 2. rewrite length_replicate.
  pose proof (zlen_nonneg content). lia.
Qed.

Lemma overwrite_eq pos d content :
  overwrite pos d content = padded pos content ++ d ++ zdrop (pos + zlen d) content.
Proof. unfold overwrite, padded. by rewrite <- app_assoc. Qed.

Lemma padded_app n (a b : bytes) : zlen a = n → padded n (a ++ b) = a.
Proof.
  intros Ha. unfold padded. rewrite ztake_app_exact, zlen_app by done. pose proof (zlen_nonneg b).
  rewrite Z2Nat.nonpos by lia. apply app_nil_r.
Qed.

Lemma overwrite_twice pos d d' content :
  0 ≤ pos → overwrite (pos + zlen d) d' (overwrite pos d content) = overwrite pos (d ++ d') content.
Proof.
  intros Hp. pose proof (zlen_nonneg d). pose proof (zlen_nonneg d').
  pose proof (zlen_padded pos content Hp) as Hl.
  rewrite (overwrite_eq pos d), (overwrite_eq pos (d ++ d')), overwrite_eq.
  assert (Hpre : zlen (padded pos content ++ d) = pos + zlen d) by (rewrite zlen_app; lia).
  rewrite (app_assoc (padded pos content)), padded_app by done.
  rewrite <- (zdrop_zdrop (zlen d') (pos + zlen d)) by lia.
  rewrite zdrop_app_exact, zdrop_zdrop by (done || lia).
  by rewrite zlen_app, Z.add_assoc, <- !app_assoc.
Qed.

Lemma read_overwritten pos d content :
  0 ≤ pos → ztake (zlen d) (zdrop pos (overwrite pos d content)) = d.
Proof.
  intros Hp. rewrite overwrite_eq, zdrop_app_exact by by apply zlen_padded.
  by apply ztake_app_exact.
Qed.

(** Bytes outside the range written are untouched. *)
Lemma overwrite_outside pos d content :
  0 ≤ pos ≤ zlen content →
  ztake pos (overwrite pos d content) = ztake pos content ∧
  zdrop (pos + zlen d) (overwrite pos d content) = zdrop (pos + zlen d) content.
Proof.
  intros Hp. pose proof (zlen_padded pos content ltac:(lia)) as Hl. rewrite overwrite_eq. split.
  - rewrite ztake_app_exact by done. unfold padded. rewrite (Z2Nat.nonpos (pos - _)) by lia.
    simpl. by rewrite app_nil_r.
  - pose proof (zlen_nonneg d). rewrite app_assoc. apply zdrop_app_exact. rewrite zlen_app. lia.
Qed.

Section Files.
Context {OS : Type} `{PosixLaws OS} `{!PosixFiles OS}.
Implicit Types o : OS.

Lemma ztake_ztake_app (d content : bytes) m :
  0 ≤ m → d = ztake (zlen d) content → 
  d ++ ztake m (zdrop (zlen d) content) = ztake (zlen d + m) content.
Proof.
  intros Hm E. rewrite E at 1. unfold ztake, zdrop.
  rewrite <- (take_drop (Z.to_nat (zlen d)) (take (Z.to_nat (zlen d + m)) content)).
  pose proof (zlen_nonneg d). rewrite take_take, take_drop_commute.
  f_equal; f_equal; [lia|f_equal; lia].
Qed.

Lemma read_all_file fuel fd n o content pos :
  fd_file fd o = Some (content, pos) → 0 ≤ pos → 0 ≤ n → n < Z.of_nat fuel →
  match read_all fuel fd n o with
  | (o', inr d) => d = ztake n (zdrop pos content) ∧ fd_file fd o' = Some (content, pos + zlen d)
  | (_, inl _) => True
  end.
Proof.
  revert n o pos. induction fuel as [|fuel IH]; intros n o pos Hf Hp Hn Hfuel; [lia|]. simpl.
  destruct (Z.leb_spec n 0).
  { rewrite zlen_nil, Z.add_0_r. by rewrite ztake_nonpos by lia. }
  pose proof (sys_read_file fd n o content pos Hf Hp ltac:(lia)) as Hr.
  pose proof (sys_read_bound fd n o) as Hb.
  destruct (sys_read fd n o) as [o1 [err|d]]; [done|]. destruct Hr as (Hd & Hnil & Hf1).
  destruct d as [|c d]; [|set (cd := c :: d) in *].
  { rewrite zdrop_all by by apply Hnil. unfold ztake. rewrite take_nil. split; [done|].
    by rewrite zlen_nil in *. }
  assert (1 ≤ zlen cd) by (subst cd; zlia). simpl in Hb.
  specialize (IH (n - zlen cd) o1 (pos + zlen cd) Hf1 ltac:(lia) ltac:(lia) ltac:(lia)).
  destruct (read_all fuel fd (n - zlen cd) o1) as [o2 [err|d']]; [done|].
  destruct IH as [-> Hf2]. rewrite zlen_app. split; [|by rewrite Z.add_assoc].
  rewrite <- (zdrop_zdrop _ pos) by lia. rewrite ztake_ztake_app by (done || lia). f_equal. lia.
Qed.

Lemma write_all_file fuel fd d o content pos :
  fd_file fd o = Some (content, pos) → 0 ≤ pos → d ≠ [] → (length d ≤ fuel)%nat →
  match write_all fuel fd d o with
  | (o', inr _) => fd_file fd o' = Some (overwrite pos d content, pos + zlen d)
  | (_, inl _) => True
  end.
Proof.
  revert d o content pos. induction fuel as [|fuel IH]; intros d o content pos Hf Hp Hd Hl;
    [by destruct d; [|simpl in Hl; lia]|].
  destruct d as [|c d]; [done|]. cbn [write_all]. set (cd := c :: d) in *.
  pose proof (sys_write_file fd cd o content pos Hf Hp Hd) as Hw.
  pose proof (sys_write_progress fd cd o Hd) as Hk.
  destruct (sys_write fd cd o) as [o1 [err|k]]; [done|]. simpl in Hk.
  destruct (decide (zdrop k cd = [])) as [E|E].
  - rewrite E. assert (k = zlen cd) as -> by (apply (f_equal zlen) in E; zlen_norm; lia).
    rewrite ztake_all in Hw by lia. by destruct fuel.
  - specialize (IH (zdrop k cd) o1 _ _ Hw ltac:(lia) E).
    assert (Hlen : (length (zdrop k cd) ≤ fuel)%nat).
    { unfold zdrop. rewrite length_drop. lia. }
    specialize (IH Hlen). destruct (write_all fuel fd (zdrop k cd) o1) as [o2 [err|u]]; [done|].
    assert (Ek : k = zlen (ztake k cd)) by (zlen_norm; lia).
    rewrite IH. rewrite Ek at 1. rewrite overwrite_twice, ztake_zdrop by done.
    do 2 f_equal. zlen_norm. lia.
Qed.

(** ** Read and write requests *)
Lemma serve_read_file a o content pos :
  fd_file (to_i32 (rh_handle a)) o = Some (content, pos) →
  0 ≤ rh_offset a < 2 ^ 63 → 0 ≤ rh_data_len a →
  match serve (QRead a) o with
  | (o', RData d) => d = ztake (rh_data_len a) (zdrop (rh_offset a) content) ∧
      ∃ pos', fd_file (to_i32 (rh_handle a)) o' = Some (content, pos')
  | (_, r) => ∃ err, r = RStatus (get_status_from_errno err)
  end.
Proof.
  intros Hf Ho Hn. cbn [serve]. rewrite (to_signed_nonneg 64) by lia.
  destruct (sys_lseek_file _ (rh_offset a) o content pos Hf ltac:(lia)) as (o1 & -> & Hf1).
  pose proof (read_all_file (1 + Z.to_nat (rh_data_len a)) _ (rh_data_len a) o1 _ _ Hf1
    ltac:(lia) Hn ltac:(lia)) as Hr.
  destruct (read_all _ _ _ o1) as [o2 [err|d]]; [by eexists|]. destruct Hr as [-> Hf2].
  split; [done|eauto].
Qed.

Lemma serve_write_file f off d o content pos :
  fd_file (to_i32 f) o = Some (content, pos) → 0 ≤ off < 2 ^ 63 → d ≠ [] →
  match serve (QWrite f off d) o with
  | (o', RStatus Success) => fd_file (to_i32 f) o' = Some (overwrite off d content, off + zlen d)
  | (_, r) => ∃ err, r = RStatus (get_status_from_errno err)
  end.
Proof.
  intros Hf Ho Hd. cbn [serve]. rewrite (to_signed_nonneg 64) by lia.
  destruct (sys_lseek_file _ off o content pos Hf ltac:(lia)) as (o1 & -> & Hf1).
  pose proof (write_all_file (length d) _ d o1 _ _ Hf1 ltac:(lia) Hd ltac:(lia)) as Hw.
  destruct (write_all _ _ d o1) as [o2 [err|u]]; [|exact Hw]. simpl.
  destruct (errno_status err) as (_ & Hne & _). destruct (get_status_from_errno err) eqn:E; try done;
    exists err; by rewrite E.
Qed.
End Files.
