(* ===== verification/Daemon.v ===== *)
(** * The daemon implements the protocol

    Every handler of ClientHandler.cpp, run on the bytes of a valid request,
    consumes exactly those bytes, performs the system calls of the abstract
    daemon and writes its response; the message loop serves a whole session. *)

From S2P Require Import Prelude Effects Endian Wire Serialization Socket Requests Responses.
From S2P Require Import PathUtils Posix MemFs ClientHandler Protocol.

Section Daemon.
Context {N OS : Type} `{SocketLaws N} `{PosixLaws OS}.
#[local] Existing Instance handler_readable.
#[local] Existing Instance handler_writable.
#[local] Instance daemon_duplex : Duplex N := client_handler_duplex.

(** The handler [h] has [inp] left to read, has written [out], and holds the
    transfer buffer [rw] and the system state [o]. *)
Definition handler_at (h : handler N OS) (inp out rw : bytes) (o : OS) : Prop :=
  DataReader.wf (hd_reader h) ∧ DataWriter.wf (hd_writer h) ∧
  DataReader.rest (hd_socket h, hd_reader h) = inp ∧
  DataWriter.written (hd_socket h, hd_writer h) = out ∧
  hd_rw_buffer h = rw ∧ hd_os h = o.

Implicit Types (h : handler N OS) (o : OS) (inp out rw : bytes).

(** ** Rules *)
Lemma wp_from_reader {A} (m : M (N * DataReader.t) A) p a tl Φ (E : exn → handler N OS → Prop) h inp out rw o :
  DataReader.reads m p → handler_at h inp out rw o → p inp = Some (a, tl) →
  (∀ h', handler_at h' tl out rw o → Φ a h') →
  (∀ e h', io_error e = true → E e h') →
  wp (from_reader m) Φ E h.
Proof.
  intros Hm (Hr & Hw & Hi & Ho & Hb & Hos) Hp HΦ HE. apply wp_zoom. simpl.
  eapply wp_mono; [by apply Hm|..].
  - intros a' [s r] (Hp' & ? & ? & Hout). simpl in *. rewrite Hi, Hp in Hp'.
    injection Hp' as <- ->. apply HΦ. split_and!; try done. simpl.
    unfold DataWriter.written in *. simpl in *. by rewrite Hout.
  - intros e s [_ [?|(_ & Hn & _)]]; [by apply HE|]. simpl in Hn. congruence.
Qed.

Lemma wp_to_writer {A} (m : M (N * DataWriter.t) A) d Φ h inp out rw o :
  DataWriter.writes m d → handler_at h inp out rw o →
  (∀ a h', handler_at h' inp (out ++ d) rw o → Φ a h') →
  wp (to_writer m) Φ only_io h.
Proof.
  intros Hm (Hr & Hw & Hi & Ho & Hb & Hos) HΦ. apply wp_zoom. simpl.
  eapply wp_mono; [by apply Hm| |by intros ?? []].
  intros a [s w] (Hd & ? & ? & Hin). simpl in *. apply HΦ. split_and!; try done.
  - simpl. unfold DataReader.rest in *. simpl in *. by rewrite Hin.
  - simpl. by rewrite Hd, Ho.
Qed.

Lemma wp_call {A} (f : OS → OS * A) Φ (E : exn → handler N OS → Prop) h inp out rw o :
  handler_at h inp out rw o →
  (∀ h', handler_at h' inp out rw (fst (f o)) → Φ (snd (f o)) h') →
  wp (call f) Φ E h.
Proof.
  intros (Hr & Hw & Hi & Ho & Hb & Hos) HΦ. unfold wp, call. subst o.
  destruct (f (hd_os h)) as [o' a]. by apply HΦ.
Qed.

Lemma wp_call_ (f : OS → OS) Φ (E : exn → handler N OS → Prop) h inp out rw o :
  handler_at h inp out rw o → (∀ h', handler_at h' inp out rw (f o) → Φ tt h') →
  wp (call_ f) Φ E h.
Proof. intros Hh HΦ. unfold call_. by eapply wp_call. Qed.

Lemma wp_set_rw_buffer b Φ (E : exn → handler N OS → Prop) h inp out rw o :
  handler_at h inp out rw o → (∀ h', handler_at h' inp out b o → Φ tt h') →
  wp (set_rw_buffer b) Φ E h.
Proof. intros (?&?&?&?&?&?) HΦ. unfold set_rw_buffer. wp_step. by apply HΦ. Qed.

Lemma writes_status s : DataWriter.writes (DataWriter.write_byte android (status_code s)) (encode s).
Proof. apply DataWriter.writes_byte. Qed.

Lemma wp_write_status s Φ h inp out rw o :
  handler_at h inp out rw o →
  (∀ h', handler_at h' inp (out ++ encode s) rw o → Φ tt h') →
  wp (write_status s) Φ only_io h.
Proof. intros Hh HΦ. eapply wp_to_writer; [apply writes_status|done|]. by intros []. Qed.

(** The postcondition of every handler: the request is consumed, the response
    is written, the system has moved as [serve] says. *)
Definition served (inp out : bytes) (res : OS * response) (_ : unit) h : Prop :=
  ∃ rw, handler_at h inp (out ++ encode_response (snd res)) rw (fst res).

Lemma wp_write_outcome (r : Z + unit) h inp out rw o :
  handler_at h inp out rw o →
  wp (write_outcome r) (served inp out (o, outcome r)) only_io h.
Proof. intros Hh. destruct r; eapply wp_write_status; eauto; intros; by exists rw. Qed.

Lemma wp_status_served s h inp out rw o :
  handler_at h inp out rw o →
  wp (write_status s) (served inp out (o, RStatus s)) only_io h.
Proof. intros Hh. eapply wp_write_status; eauto. intros; by exists rw. Qed.

(** Drops the state before the step. *)
Ltac forget := match goal with Hx : handler_at ?x _ _ _ _ |- _ => clear dependent x end.

(** Reading the arguments of a request. *)
Ltac read_args lem :=
  wp_step; eapply wp_from_reader;
  [ apply lem | eassumption | first [ by apply p_string_encode | by apply p_u32_encode
                                    | by apply parse_encode ] | | by intros ];
  forget; intros h Hh.
(** A system call. *)
Ltac do_call := wp_step; eapply wp_call; [eassumption|]; forget; intros h Hh.
(** Writing one item. *)
Ltac do_write lem := eapply wp_to_writer; [apply lem|eassumption|]; forget; intros ? h Hh.
Ltac do_status := eapply wp_write_status; [eassumption|]; forget; intros h Hh.
Ltac finish := eexists; cbn [fst snd encode_response]; rewrite ?app_assoc in *; eassumption.

(** ** Paths in, status out *)
Lemma handle_stat_file_spec p h tl out rw o :
  short p → handler_at h (e_string p ++ tl) out rw o →
  wp handle_stat_file (served tl out (serve (QStat p) o)) only_io h.
Proof.
  intros Hp Hh. unfold handle_stat_file. read_args @DataReader.reads_utf8_string. wp_step.
  unfold stat_file. do_call. cbn [serve].
  destruct (sys_stat (c_str p) o) as [o' [err|s]]; cbn [fst snd refused] in *.
  - wp_step. cbv beta iota. wp_step. do_status.
    rewrite bool_decide_false by apply errno_status. wp_step. finish.
  - wp_step. cbv beta iota. wp_step. do_status.
    rewrite bool_decide_true by done.
    do_write (writes_FileStat android _ (stat_of_posix_fits s)). finish.
Qed.

Lemma handle_path_call_spec (f : bytes → OS → OS * (Z + unit)) p h tl out rw o :
  short p → handler_at h (e_string p ++ tl) out rw o →
  wp (let* x := from_reader (DataReader.read_utf8_string android) in
      let* r := call (f x) in write_outcome r)
     (served tl out (let '(o, r) := f p o in (o, outcome r))) only_io h.
Proof.
  intros Hp Hh. read_args @DataReader.reads_utf8_string. do_call.
  destruct (f p o) as [o' r]. simpl in *. by eapply wp_write_outcome.
Qed.

Lemma handle_move_entry_spec a h tl out rw o :
  valid a → handler_at h (encode a ++ tl) out rw o →
  wp handle_move_entry (served tl out (serve (QMove a) o)) only_io h.
Proof.
  intros Ha Hh. unfold handle_move_entry. read_args @reads_MoveEntryArgs. do_call. cbn [serve].
  destruct (sys_stat (c_str (me_to_path a)) o) as [o' existing]. simpl in Hh |- *.
  assert (Hren : wp (let* r := call (sys_rename (c_str (me_from_path a)) (c_str (me_to_path a))) in
                     write_outcome r)
            (served tl out (let '(o, r) := sys_rename (c_str (me_from_path a)) (c_str (me_to_path a)) o'
                            in (o, outcome r))) only_io h).
  { do_call. destruct (sys_rename _ _ o') as [o'' r]. by eapply wp_write_outcome. }
  destruct existing as [err|s].
  - destruct (err =? ENOENT); simpl; [exact Hren|by eapply wp_status_served].
  - destruct (me_overwrite a); simpl; [exact Hren|by eapply wp_status_served].
Qed.

Lemma handle_open_handle_spec a h tl out rw o :
  valid a → handler_at h (encode a ++ tl) out rw o →
  wp handle_open_handle (served tl out (serve (QOpen a) o)) only_io h.
Proof.
  intros Ha Hh. unfold handle_open_handle. read_args @reads_OpenHandleArgs. cbn [serve].
  destruct (access_flags _ _) as [flags|]; [|by eapply wp_status_served].
  do_call. destruct (sys_open _ _ _ o) as [o' [err|fd]]; simpl in Hh |- *.
  - by eapply wp_status_served.
  - wp_step. do_status. do_write @DataWriter.writes_u32. finish.
Qed.

Lemma handle_truncate_file_spec a h tl out rw o :
  valid a → handler_at h (encode a ++ tl) out rw o →
  wp handle_truncate_file (served tl out (serve (QTruncate a) o)) only_io h.
Proof.
  intros Ha Hh. unfold handle_truncate_file. read_args @reads_TruncateHandleArgs. do_call. cbn [serve].
  destruct (sys_ftruncate _ _ o) as [o' r]. simpl in *. by eapply wp_write_outcome.
Qed.

Lemma handle_set_file_time_spec a h tl out rw o :
  valid a → handler_at h (encode a ++ tl) out rw o →
  wp handle_set_file_time (served tl out (serve (QSetTime a) o)) only_io h.
Proof.
  intros Ha Hh. unfold handle_set_file_time. read_args @reads_SetFileTimeArgs. do_call. cbn [serve].
  destruct (sys_utimensat _ _ _ o) as [o' r]. simpl in *. by eapply wp_write_outcome.
Qed.

Lemma handle_close_handle_spec f h tl out rw o :
  is_u32 f → handler_at h (e_u32 f ++ tl) out rw o →
  wp handle_close_handle (served tl out (serve (QClose f) o)) only_io h.
Proof.
  intros Hf Hh. unfold handle_close_handle. read_args @DataReader.reads_u32.
  wp_step. eapply wp_call_; [eassumption|]. clear dependent h. intros h Hh.
  by eapply wp_status_served.
Qed.

Lemma handle_get_disk_stats_spec h tl out rw o :
  handler_at h tl out rw o →
  wp handle_get_disk_stats (served tl out (serve QDisk o)) only_io h.
Proof.
  intros Hh. unfold handle_get_disk_stats. do_call. cbn [serve].
  destruct (sys_statvfs _ o) as [o' [err|v]]; simpl in Hh |- *.
  - by eapply wp_status_served.
  - wp_step. do_status. do_write (writes_DiskStats android _ (disk_stats_fits v)). finish.
Qed.

(** ** Directory streams *)
Definition entry_ok (fuel : nat) (dir : DIR) (next : option bytes) o : Prop :=
  match next with
  | Some name => (dir_remaining dir o < fuel)%nat ∧ zlen name ≤ 255
  | None => True
  end.

Lemma readdir_ok fuel dir o :
  (dir_remaining dir o ≤ fuel)%nat →
  entry_ok fuel dir (snd (sys_readdir dir o)) (fst (sys_readdir dir o)).
Proof.
  intros Hf. pose proof (sys_readdir_ends dir o) as He. pose proof (sys_readdir_name dir o) as Hn.
  destruct (sys_readdir dir o) as [o' [name|]]; simpl in *; [|done]. split; [lia|done].
Qed.

Lemma list_entries_spec fuel p dir next h inp out rw o :
  entry_ok fuel dir next o → handler_at h inp out rw o →
  let '(o', es) := serve_entries fuel p dir next o in
  wp (list_entries fuel p dir next)
     (λ _ h', handler_at h' inp (out ++ concat (map encode_entry es)) rw o') only_io h.
Proof.
  revert next h out o. induction fuel as [|fuel IH]; intros [name|] h out o Hok Hh;
    [destruct Hok; lia|by apply wp_ret; rewrite app_nil_r| |by apply wp_ret; rewrite app_nil_r].
  destruct Hok as [Hf Hlen]. cbn [serve_entries list_entries].
  pose proof (sys_stat_dir dir (c_str (get_full_path p name)) o) as Hst.
  destruct (sys_stat (c_str (get_full_path p name)) o) as [o1 s] eqn:Es. simpl in Hst.
  pose proof (readdir_ok fuel dir o1 ltac:(lia)) as Hok.
  destruct (sys_readdir dir o1) as [o2 next] eqn:Er. simpl in Hok.
  specialize (IH next). destruct (serve_entries fuel p dir next o2) as [o3 es] eqn:Ee.
  wp_step. unfold stat_file. do_call. rewrite Es in Hh |- *. cbn [fst snd] in *.
  assert (Hrest : ∀ h, handler_at h inp (out ++ encode_entry (entry_of name s)) rw o1 →
    wp (let* next := call (sys_readdir dir) in list_entries fuel p dir next)
       (λ _ h', handler_at h' inp (out ++ concat (map encode_entry (entry_of name s :: es))) rw o3)
       only_io h).
  { clear h Hh. intros h Hh. do_call. rewrite Er in Hh |- *. cbn [fst snd] in *.
    specialize (IH h _ o2 Hok Hh). rewrite Ee in IH. simpl. by rewrite app_assoc. }
  destruct s as [err|s]; wp_step; cbv beta iota; wp_step.
  - rewrite bool_decide_false by apply errno_status. do_status. by apply Hrest.
  - rewrite bool_decide_true by done. wp_step. do_status. wp_step.
    do_write (DataWriter.writes_utf8_string android name ltac:(unfold short; lia)).
    do_write (writes_FileStat android _ (stat_of_posix_fits s)).
    apply Hrest. simpl. by rewrite <- !app_assoc in Hh.
Qed.

Lemma handle_list_dir_stats_spec p h tl out rw o :
  short p → handler_at h (e_string p ++ tl) out rw o →
  wp handle_list_dir_stats (served tl out (serve (QList p) o)) only_io h.
Proof.
  intros Hp Hh. unfold handle_list_dir_stats. read_args @DataReader.reads_utf8_string.
  do_call. cbn [serve].
  destruct (sys_opendir (c_str p) o) as [o1 [err|dir]]; cbn [fst snd] in *;
    [by eapply wp_status_served|].
  wp_step. do_status. do 2 wp_step. pose proof Hh as (_&_&_&_&_&->).
  pose proof (readdir_ok (dir_remaining dir o1) dir o1 ltac:(lia)) as Hok.
  do_call. destruct (sys_readdir dir o1) as [o2 next]. cbn [fst snd] in *.
  pose proof (list_entries_spec _ p dir next h _ _ _ _ Hok Hh) as Hl.
  destruct (serve_entries _ p dir next o2) as [o3 es].
  wp_step. eapply wp_mono; [exact Hl| |done]. forget. intros [] h Hh.
  wp_step. do_status. eapply wp_call_; [eassumption|]. forget. intros h Hh.
  exists rw. cbn [fst snd encode_response]. unfold encode_entries. by rewrite !app_assoc.
Qed.

Lemma has_entry_loop_spec fuel dir next h inp out rw o :
  entry_ok fuel dir next o → handler_at h inp out rw o →
  let '(o', b) := serve_has_entry fuel dir next o in
  wp (has_entry_loop fuel dir next) (λ a h', a = b ∧ handler_at h' inp out rw o') only_io h.
Proof.
  revert next h o. induction fuel as [|fuel IH]; intros [name|] h o Hok Hh;
    [destruct Hok; lia|done| |done].
  destruct Hok as [Hf Hlen]. cbn [serve_has_entry has_entry_loop].
  destruct (negb (is_dot name)); [done|].
  pose proof (readdir_ok fuel dir o ltac:(lia)) as Hok.
  specialize (IH (snd (sys_readdir dir o))).
  destruct (sys_readdir dir o) as [o2 next] eqn:Er. cbn [fst snd] in *.
  pose proof (λ h Hh, IH h o2 Hok Hh) as IH'. clear IH.
  destruct (serve_has_entry fuel dir next o2) as [o3 b].
  do_call. rewrite Er in Hh |- *. by apply IH'.
Qed.

Lemma can_remove_spec p Φ h inp out rw o :
  handler_at h inp out rw o →
  (∀ h', handler_at h' inp out rw (fst (serve_can_remove p o)) → Φ (snd (serve_can_remove p o)) h') →
  wp (can_remove_directory_entry p) Φ only_io h.
Proof.
  intros Hh HΦ. unfold can_remove_directory_entry, serve_can_remove in *.
  destruct (get_parent_path p) as [parent|]; [|by apply HΦ].
  change (Z.lor (Z.lor R_OK W_OK) X_OK) with 7.
  do_call. destruct (sys_access (c_str parent) 7 o) as [o' [err|[]]]; by apply HΦ.
Qed.

Lemma handle_check_remove_file_spec p h tl out rw o :
  short p → handler_at h (e_string p ++ tl) out rw o →
  wp handle_check_remove_file (served tl out (serve (QCheckRemoveFile p) o)) only_io h.
Proof.
  intros Hp Hh. unfold handle_check_remove_file. read_args @DataReader.reads_utf8_string.
  wp_step. eapply can_remove_spec; [eassumption|]. forget. intros h Hh. cbn [serve].
  destruct (serve_can_remove p o) as [o' st]. by eapply wp_status_served.
Qed.

Lemma handle_check_remove_directory_spec p h tl out rw o :
  short p → handler_at h (e_string p ++ tl) out rw o →
  wp handle_check_remove_directory (served tl out (serve (QCheckRemoveDir p) o)) only_io h.
Proof.
  intros Hp Hh. unfold handle_check_remove_directory. read_args @DataReader.reads_utf8_string.
  wp_step. eapply can_remove_spec; [eassumption|]. forget. intros h Hh. cbn [serve].
  destruct (serve_can_remove p o) as [o0 st]. cbn [fst snd] in *.
  destruct (bool_decide (st = Success)); cbn [negb]; [|by eapply wp_status_served].
  do_call. destruct (sys_opendir (c_str p) o0) as [o1 [err|dir]]; cbn [fst snd] in *;
    [by eapply wp_status_served|].
  do 2 wp_step. pose proof Hh as (_&_&_&_&_&->).
  pose proof (readdir_ok (dir_remaining dir o1) dir o1 ltac:(lia)) as Hok.
  do_call. destruct (sys_readdir dir o1) as [o2 next]. cbn [fst snd] in *.
  pose proof (has_entry_loop_spec _ dir next h _ _ _ _ Hok Hh) as Hl.
  destruct (serve_has_entry _ dir next o2) as [o3 b].
  wp_step. eapply wp_mono; [exact Hl| |done]. forget. intros a h [-> Hh].
  wp_step. eapply wp_call_; [eassumption|]. forget. intros h Hh. by eapply wp_status_served.
Qed.

(** ** Transfers *)
Lemma ensure_rw_buffer_size_spec n Φ (E : exn → handler N OS → Prop) h inp out rw o :
  handler_at h inp out rw o →
  (∀ h' rw', handler_at h' inp out rw' o → n ≤ zlen rw' → Φ tt h') →
  wp (ensure_rw_buffer_size n) Φ E h.
Proof.
  intros Hh HΦ. unfold ensure_rw_buffer_size. do 2 wp_step. pose proof Hh as (_&_&_&_&Hb&_).
  rewrite Hb. apply wp_if; intros Hc.
  - eapply wp_set_rw_buffer; [done|]. intros h' Hh'. eapply HΦ; [done|].
    rewrite zlen_app. unfold zlen at 2. rewrite length_replicate. pose proof (zlen_nonneg rw). lia.
  - wp_step. eapply HΦ; [done|]. lia.
Qed.

(** What [read_file_loop] owes, against [read_all] of the remaining count. *)
Definition read_done inp out rw t (res : OS * (Z + bytes)) (r : Z + Z) h : Prop :=
  ∃ rw', handler_at h inp out rw' (fst res) ∧
    match snd res with
    | inl err => r = inl err
    | inr d => r = inr (t + zlen d) ∧ ztake (t + zlen d) rw' = ztake t rw ++ d ∧
               t + zlen d ≤ zlen rw'
    end.

Lemma splice (b d : bytes) t :
  0 ≤ t → t + zlen d ≤ zlen b →
  let b' := ztake t b ++ d ++ zdrop (t + zlen d) b in
  ztake (t + zlen d) b' = ztake t b ++ d ∧ zlen b' = zlen b.
Proof.
  intros Ht Hb. pose proof (zlen_nonneg d). split; [|zlen_norm; lia].
  rewrite app_assoc. apply ztake_app_exact. zlen_norm. lia.
Qed.

Lemma read_file_loop_spec fuel fuel' handle n t h inp out rw o :
  0 ≤ t ≤ n → n < 2 ^ 31 → n ≤ zlen rw →
  n - t < Z.of_nat fuel → n - t < Z.of_nat fuel' →
  handler_at h inp out rw o →
  wp (read_file_loop fuel handle n t)
     (read_done inp out rw t (read_all fuel' (to_i32 handle) (n - t) o)) only_io h.
Proof.
  intros Ht Hn. revert fuel' t h rw o Ht.
  induction fuel as [|fuel IH]; intros [|fuel'] t h rw o Ht Hrw Hf Hf' Hh; [lia..|].
  cbn [read_file_loop read_all]. rewrite (wrap_id 32 t) by (unfold is_unsigned; lia).
  destruct (Z.leb_spec (n - t) 0); apply wp_if; intros Hc; try lia.
  { wp_step. exists rw. split; [done|]. cbn [snd]. rewrite zlen_nil, Z.add_0_r, app_nil_r. split_and!; [done..|lia]. }
  apply wp_if; intros Hneg; [lia|]. do_call.
  pose proof (sys_read_bound (to_i32 handle) (n - t) o) as Hb.
  destruct (sys_read (to_i32 handle) (n - t) o) as [o1 [err|d]]; cbn [fst snd] in *;
    [by wp_step; exists rw|].
  do 2 wp_step. pose proof Hh as (_&_&_&_&-> & _). pose proof (zlen_nonneg d).
  wp_step. eapply wp_set_rw_buffer; [done|]. forget. intros h Hh. simpl.
  destruct (splice rw d t ltac:(lia) ltac:(lia)) as [Hsp Hlen].
  rewrite to_signed_nonneg by lia.
  destruct (Z.eqb_spec (zlen d) 0) as [Hz|Hz].
  - apply zlen_zero in Hz as ->. wp_step. eexists. split; [done|].
    split_and!; [done|exact Hsp|lia].
  - destruct d as [|c d]; [done|]. set (cd := c :: d) in *.
    specialize (IH fuel' (t + zlen cd) h (ztake t rw ++ cd ++ zdrop (t + zlen cd) rw) o1
      ltac:(lia) ltac:(lia) ltac:(lia) ltac:(lia) Hh).
    replace (n - (t + zlen cd)) with (n - t - zlen cd) in IH by lia.
    destruct (read_all fuel' (to_i32 handle) (n - t - zlen cd) o1) as [o2 [err|d']].
    + eapply wp_mono; [exact IH| |done]. intros r h' (rw' & Hh' & ->). by exists rw'.
    + eapply wp_mono; [exact IH| |done]. intros r h' (rw' & Hh' & -> & Ht' & Hl').
      exists rw'. split; [done|]. cbn [snd] in *. rewrite zlen_app, Z.add_assoc.
      split_and!; [done|by rewrite Ht', Hsp, app_assoc|lia].
Qed.

Lemma handle_read_file_spec a h tl out rw o :
  valid a → rh_data_len a < 2 ^ 31 → handler_at h (encode a ++ tl) out rw o →
  wp handle_read_file (served tl out (serve (QRead a) o)) only_io h.
Proof.
  intros Ha Hn Hh. unfold handle_read_file. read_args @reads_ReadHandleArgs. do_call. cbn [serve].
  destruct (sys_lseek _ _ o) as [o1 [err|pos]]; cbn [fst snd] in *; [by eapply wp_status_served|].
  wp_step. eapply ensure_rw_buffer_size_spec; [eassumption|]. forget. intros h rw' Hh Hrw.
  destruct Ha as (_ & [Hpos _] & _). wp_step.
  eapply wp_mono; [apply (read_file_loop_spec _ (1 + Z.to_nat (rh_data_len a)));
    [..|exact Hh]; lia| |done].
  rewrite Z.sub_0_r.
  destruct (read_all _ _ (rh_data_len a) o1) as [o2 [err|d]]; forget;
    intros r h (rw'' & Hh & Hr); cbn [fst snd] in *.
  - rewrite Hr. by eapply wp_status_served.
  - destruct Hr as (-> & Ht & Hl). wp_step. do_status. wp_step.
    do_write @DataWriter.writes_u32. do 2 wp_step. pose proof Hh as (_&_&_&_&-> & _).
    rewrite Z.add_0_l in *. rewrite (ztake_nonpos 0) in Ht by lia.
    eapply wp_to_writer; [by apply DataWriter.writes_exact|done|]. intros [] h' Hh'.
    exists rw''. cbn [fst snd refused encode_response]. simpl in Ht. rewrite Ht in Hh'.
    rewrite <- !app_assoc in Hh'.
    assert (e_u32 (to_u32 (zlen d)) = e_u32 (zlen d)) as <- by apply (be_split_mod 4). exact Hh'.
Qed.

Lemma write_file_loop_spec fuel fuel' handle n t h inp out rw o :
  0 ≤ t ≤ n → n < 2 ^ 31 → n ≤ zlen rw →
  n - t < Z.of_nat fuel → n - t ≤ Z.of_nat fuel' →
  handler_at h inp out rw o →
  let '(o', r) := write_all fuel' (to_i32 handle) (zdrop t (ztake n rw)) o in
  wp (write_file_loop fuel handle n t)
     (λ a h', a = r ∧ handler_at h' inp out rw o') only_io h.
Proof.
  intros Ht Hn Hrw. revert fuel' t h o Ht.
  induction fuel as [|fuel IH]; intros fuel' t h o Ht Hf Hf' Hh; [lia|].
  cbn [write_file_loop]. rewrite (wrap_id 32 t) by (unfold is_unsigned; lia).
  assert (Hlen : zlen (zdrop t (ztake n rw)) = n - t) by (zlen_norm; lia).
  destruct (zdrop t (ztake n rw)) as [|c d] eqn:Ed.
  { rewrite zlen_nil in Hlen. destruct fuel'; simpl; rewrite (proj2 (Z.ltb_ge t n)) by lia; by wp_step. }
  rewrite zlen_cons in Hlen. pose proof (zlen_nonneg d).
  destruct fuel' as [|fuel']; [lia|]. cbn [write_all].
  pose proof (sys_write_progress (to_i32 handle) (c :: d) o ltac:(done)) as Hp.
  assert (Hbuf : ztake (n - t) (zdrop t rw) = c :: d).
  { rewrite <- Ed. unfold ztake, zdrop. rewrite take_drop_commute. do 2 f_equal. lia. }
  specialize (IH fuel').
  destruct (sys_write (to_i32 handle) (c :: d) o) as [o1 [err|k]] eqn:Ew; cbn [fst snd] in *.
  - rewrite (proj2 (Z.ltb_lt t n)), (proj2 (Z.ltb_ge t 0)) by lia. do 2 wp_step.
    pose proof Hh as (_&_&_&_&-> & _). rewrite Hbuf. do_call. by rewrite Ew in Hh |- *.
  - assert (Hd : zdrop k (c :: d) = zdrop (t + k) (ztake n rw)).
    { rewrite <- Ed, zdrop_zdrop by lia. done. }
    rewrite zlen_cons in Hp. rewrite Hd.
    pose proof (λ h Hh, IH (t + k) h o1 ltac:(lia) ltac:(lia) ltac:(lia) Hh) as IH'. clear IH.
    destruct (write_all fuel' _ _ o1) as [o2 r].
    rewrite (proj2 (Z.ltb_lt t n)), (proj2 (Z.ltb_ge t 0)) by lia. do 2 wp_step.
    pose proof Hh as (_&_&_&_&-> & _). rewrite Hbuf. do_call. rewrite Ew in Hh |- *. cbn [fst snd] in *.
    rewrite to_signed_nonneg by lia. by apply IH'.
Qed.

Lemma handle_write_file_spec f off d h tl out rw o :
  valid (write_args f off d) → zlen d < 2 ^ 31 → in_step (QWrite f off d) o = true →
  handler_at h (encode (write_args f off d) ++ d ++ tl) out rw o →
  wp handle_write_file (served tl out (serve (QWrite f off d) o)) only_io h.
Proof.
  intros Ha Hn Hs Hh. pose proof (zlen_nonneg d). unfold handle_write_file.
  read_args @reads_WriteHandleInitArgs. cbn [write_args wh_handle wh_offset wh_data_len].
  do_call. cbn [serve in_step] in *.
  destruct (sys_lseek _ _ o) as [o1 [err|pos]]; cbn [fst snd] in *.
  { apply bool_decide_eq_true in Hs as ->. by eapply wp_status_served. }
  wp_step. eapply ensure_rw_buffer_size_spec; [eassumption|]. forget. intros h rw' Hh Hrw.
  rewrite to_signed_nonneg by lia. wp_step.
  eapply wp_from_reader; [apply DataReader.reads_exact|done|by apply ptake_app| |by intros].
  forget. intros h Hh. do 2 wp_step. pose proof Hh as (_&_&_&_&-> & _).
  wp_step. eapply wp_set_rw_buffer; [done|]. forget. intros h Hh.
  pose proof (write_file_loop_spec (2 + Z.to_nat (zlen d)) (length d) f (zlen d) 0 h tl out
    (d ++ zdrop (zlen d) rw') o1 ltac:(lia) Hn ltac:(zlen_norm; lia) ltac:(lia)
    ltac:(unfold zlen; lia) Hh) as Hw.
  rewrite zdrop_nonpos, ztake_app_exact in Hw by (done || lia).
  destruct (write_all (length d) (to_i32 f) d o1) as [o2 r].
  wp_step. eapply wp_mono; [exact Hw| |done]. forget. intros a h [-> Hh].
  by eapply wp_write_outcome.
Qed.

(** ** The message loop *)
Lemma dispatch_spec q h tl out rw o :
  valid_request q → in_step q o = true → handler_at h (request_body q ++ tl) out rw o →
  wp (dispatch (request_type q)) (served tl out (serve q o)) only_io h.
Proof.
  intros Hq Hs Hh. destruct q; cbn [dispatch request_type]; simpl in Hq.
  - by eapply handle_stat_file_spec.
  - by eapply handle_list_dir_stats_spec.
  - by eapply (handle_path_call_spec (λ p, sys_mkdir (c_str p) DEFAULT_DIRECTORY_MODE)).
  - by eapply handle_check_remove_file_spec.
  - by eapply handle_check_remove_directory_spec.
  - by eapply (handle_path_call_spec (λ p, sys_unlink (c_str p))).
  - by eapply (handle_path_call_spec (λ p, sys_rmdir (c_str p))).
  - by eapply handle_move_entry_spec.
  - by eapply handle_open_handle_spec.
  - by eapply handle_close_handle_spec.
  - destruct Hq. by eapply handle_read_file_spec.
  - destruct Hq. cbn [request_body] in Hh. rewrite <- app_assoc in Hh.
    by eapply handle_write_file_spec.
  - by eapply handle_truncate_file_spec.
  - by eapply handle_set_file_time_spec.
  - by eapply handle_get_disk_stats_spec.
Qed.

(** Nothing is waiting in the writer. *)
Definition flushed h : Prop := outgoing (hd_socket h) = DataWriter.written (hd_socket h, hd_writer h).

Lemma wp_flush_response Φ h inp out rw o :
  handler_at h inp out rw o →
  (∀ h', handler_at h' inp out rw o → flushed h' → Φ tt h') →
  wp (to_writer DataWriter.flush) Φ only_io h.
Proof.
  intros (Hr & Hw & Hi & Ho & Hb & Hos) HΦ. apply wp_zoom. simpl.
  eapply wp_mono; [by apply DataWriter.flush_spec| |by intros ?? []].
  intros [] [s w] ((Hd & ? & ? & Hin) & Hout & _). simpl in *. rewrite app_nil_r in Hd.
  apply HΦ; [|unfold flushed; simpl; by rewrite Hout, Hd].
  split_and!; try done; simpl; [|by rewrite Hd].
  unfold DataReader.rest in *. simpl in *. by rewrite Hin.
Qed.

Lemma request_listed q : listed_request (request_type q).
Proof. by destruct q. Qed.

Lemma handle_message_spec q h tl out rw o :
  valid_request q → in_step q o = true → handler_at h (encode_request q ++ tl) out rw o →
  wp handle_message
     (λ b h', b = true ∧ flushed h' ∧
        ∃ rw', handler_at h' tl (out ++ encode_response (snd (serve q o))) rw' (fst (serve q o)))
     only_io h.
Proof.
  intros Hq Hs Hh. unfold handle_message. do 2 wp_step. wp_step.
  unfold encode_request in Hh. rewrite <- app_assoc in Hh.
  eapply wp_from_reader; [apply DataReader.reads_byte|exact Hh| | |].
  - apply p_u8_encode, request_code_u8, request_listed.
  - forget. intros h Hh. wp_step. rewrite request_of_code_code by apply request_listed.
    wp_step. eapply wp_mono; [by eapply dispatch_spec| |done]. forget.
    intros [] h (rw' & Hh). wp_step. eapply wp_flush_response; [done|]. forget. intros h Hh Hfl.
    wp_step. eauto.
  - intros e h' He. by destruct e.
Qed.

Lemma handle_message_eof h out rw o :
  handler_at h [] out rw o → flushed h →
  wp handle_message (λ b h', b = false ∧ outgoing (hd_socket h') = out ∧ hd_os h' = o) only_io h.
Proof.
  intros (Hr & Hw & Hi & Ho & Hb & Hos) Hfl. unfold handle_message. do 2 wp_step. wp_step.
  apply wp_zoom. simpl. eapply wp_mono; [by apply DataReader.reads_byte|..].
  - intros a s (Hp & _). rewrite Hi in Hp. done.
  - intros e s [_ [He|(-> & _ & Hout)]]; [by destruct e|].
    cbn [is_catchable]. do 2 wp_step. split_and!; [done| |done]. simpl in *. by rewrite Hout, <- Ho.
Qed.

Definition encode_requests (qs : list request) : bytes := concat (map encode_request qs).
Definition encode_responses (rs : list response) : bytes := concat (map encode_response rs).

Lemma handle_messages_spec qs fuel h out rw o :
  Forall valid_request qs → all_in_step qs o = true → (length qs < fuel)%nat →
  handler_at h (encode_requests qs) out rw o → flushed h →
  wp (handle_messages fuel)
     (λ _ h', outgoing (hd_socket h') = out ++ encode_responses (snd (serve_all qs o)) ∧
        hd_os h' = fst (serve_all qs o)) only_io h.
Proof.
  revert fuel h out rw o. induction qs as [|q qs IH]; intros [|fuel] h out rw o Hv Hs Hf Hh Hfl;
    try (simpl in Hf; lia).
  - cbn [handle_messages]. wp_step. eapply wp_mono; [by eapply handle_message_eof| |done].
    intros b h' (-> & ? & ?). wp_step. simpl. by rewrite app_nil_r.
  - apply Forall_cons in Hv as [Hq Hv]. simpl in Hs. apply andb_true_iff in Hs as [Hsq Hs].
    cbn [handle_messages]. wp_step.
    eapply wp_mono; [eapply (handle_message_spec q _ (encode_requests qs)); done| |done].
    forget. intros b h (-> & Hfl & rw' & Hh). cbn [serve_all].
    destruct (serve q o) as [o1 r]. cbn [fst snd] in *.
    eapply wp_mono; [eapply (IH fuel); [done|done|simpl in Hf; lia|done|done]| |done].
    intros [] h'. destruct (serve_all qs o1) as [o2 rs]. cbn [fst snd].
    unfold encode_responses. simpl. by rewrite app_assoc.
Qed.

(** ** From the constructor on *)
Lemma new_handler_at (s : N) o :
  handler_at (new_handler s o) (sock_incoming s) (sock_outgoing s) [] o ∧ flushed (new_handler s o).
Proof.
  destruct (DataReader.reader_create_wf BUFFER_SIZE eq_refl) as [Hr Hu].
  destruct (DataWriter.writer_create_wf BUFFER_SIZE eq_refl) as [Hw Hp].
  unfold handler_at, flushed, DataReader.rest, DataWriter.written, new_handler.
  cbn [hd_reader hd_writer hd_socket hd_rw_buffer hd_os fst snd].
  rewrite Hu, Hp, app_nil_r. by split_and!.
Qed.

Lemma daemon_handshake_spec hs h tl out rw o :
  is_u32 hs → handler_at h (e_u32 hs ++ tl) out rw o →
  wp handshake (λ _ h', handler_at h' tl (out ++ e_u32 hs) rw o ∧ flushed h') only_io h.
Proof.
  intros Hhs Hh. unfold handshake. read_args @DataReader.reads_u32. wp_step.
  do_write @DataWriter.writes_u32. eapply wp_flush_response; [done|]. by intros.
Qed.

Lemma session_spec hs qs fuel (s : N) o :
  is_u32 hs → Forall valid_request qs → all_in_step qs o = true → (length qs < fuel)%nat →
  sock_incoming s = e_u32 hs ++ encode_requests qs →
  wp (do* handshake in handle_messages fuel)
     (λ _ h', sock_outgoing (hd_socket h') =
          sock_outgoing s ++ e_u32 hs ++ encode_responses (snd (serve_all qs o)) ∧
        hd_os h' = fst (serve_all qs o)) only_io (new_handler s o).
Proof.
  intros Hhs Hv Hs Hf Hin. destruct (new_handler_at s o) as [Hh _]. rewrite Hin in Hh.
  wp_step. eapply wp_mono; [by eapply daemon_handshake_spec| |done]. intros [] h [Hh' Hfl].
  eapply wp_mono; [by eapply handle_messages_spec| |done]. intros [] h' [Ho Hos].
  split; [|done]. etransitivity; [exact Ho|]. by rewrite <- app_assoc.
Qed.
End Daemon.

(** ** Claims *)
Section Claims.
Context {N OS : Type} `{SocketLaws N} `{PosixLaws OS}.
#[local] Existing Instance handler_readable.
#[local] Existing Instance handler_writable.
#[local] Existing Instance daemon_duplex.
Implicit Types (o : OS) (h : handler N OS).

(** C1. The daemon implements the protocol: for every sequence of valid requests
    in step with the stream, a connection from the constructor's handshake to
    the client's disconnection sends back the handshake bytes and then exactly
    the encoded responses of the abstract daemon, in order, and leaves the
    operating system in the state that daemon reaches, with no byte lost, added
    or reordered, no undefined behaviour, and every loop finishing. *)
Theorem daemon_session_refines hs qs fuel (s : N) o :
  is_u32 hs → Forall valid_request qs → all_in_step qs o = true → (length qs < fuel)%nat →
  sock_incoming s = e_u32 hs ++ encode_requests qs →
  wp (do* handshake in handle_messages fuel)
     (λ _ h', sock_outgoing (hd_socket h') =
          sock_outgoing s ++ e_u32 hs ++ encode_responses (snd (serve_all qs o)) ∧
        hd_os h' = fst (serve_all qs o)) only_io (new_handler s o).
Proof. apply session_spec. Qed.

(** C36. A write whose seek fails desynchronises the connection: the daemon
    answers with the error but leaves the request's data on the stream, where
    the message loop will read it as the next requests. *)
Theorem failed_seek_leaves_payload f off d err o o' h tl out rw :
  valid (write_args f off d) →
  sys_lseek (to_i32 f) (to_i64 off) o = (o', inl err) →
  handler_at h (encode_request (QWrite f off d) ++ tl) out rw o →
  wp handle_message
     (λ b h', b = true ∧ handler_at h' (d ++ tl) (out ++ encode (get_status_from_errno err)) rw o')
     only_io h.
Proof.
  intros Ha Hseek Hh. unfold encode_request in Hh. cbn [request_type request_body] in Hh.
  rewrite <- !app_assoc in Hh. unfold handle_message. do 3 wp_step.
  eapply wp_from_reader; [apply DataReader.reads_byte|exact Hh|by apply p_u8_encode| |].
  2: { intros e h' He. by destruct e. }
  clear dependent h. intros h Hh. wp_step. rewrite request_of_code_code by done.
  cbn [dispatch]. wp_step. unfold handle_write_file. wp_step.
  eapply wp_from_reader; [apply reads_WriteHandleInitArgs|exact Hh|by apply parse_encode| |done].
  clear dependent h. intros h Hh. wp_step. eapply wp_call; [exact Hh|].
  cbn [write_args wh_handle wh_offset]. rewrite Hseek. cbn [fst snd].
  clear dependent h. intros h Hh. eapply wp_write_status; [exact Hh|].
  clear dependent h. intros h Hh. wp_step. eapply wp_flush_response; [exact Hh|]. intros h' Hh' _. by wp_step.
Qed.

(** A byte that names no request makes the daemon drop the connection: it
    throws after reading that byte alone, having sent nothing and made no system
    call. *)
Theorem unknown_request_disconnects code h tl out rw o :
  15 ≤ code < 256 → handler_at h (e_u8 code ++ tl) out rw o →
  wp handle_message (λ _ _, False)
     (λ e h', io_error e = true ∨
        e = RuntimeError "Unknown request type received!" ∧ handler_at h' tl out rw o) h.
Proof.
  intros Hc Hh. unfold handle_message. do 3 wp_step.
  eapply wp_from_reader; [apply DataReader.reads_byte|exact Hh|apply p_u8_encode; unfold is_unsigned; lia| |].
  2: { intros e h' He. destruct e; try done; cbn [is_catchable]; wp_step; by left. }
  intros h' Hh'. wp_step. assert (E : request_of_code code = OtherRequest code).
  { unfold request_of_code. destruct code as [|p|p]; [lia| |lia].
    do 4 (try destruct p as [p|p|]; try done; try lia). }
  rewrite E. cbn [dispatch]. do 2 wp_step. by right.
Qed.
End Claims.

Module DaemonWitnesses.
Definition demo_requests : list request :=
  [ QOpen (mkOpenHandleArgs (bs "/sdcard/a") CreateAlways true true);
    QWrite 0 2 (bs "hello world");
    QRead (mkReadHandleArgs 0 100 5);
    QStat (bs "/sdcard/nothing");
    QList (bs "/sdcard");
    QRemoveFile (bs "/sdcard/b");
    QDisk ].
Definition demo_socket : pipe := Pipe (e_u32 7 ++ encode_requests demo_requests) [] 4.

Lemma daemon_session_refines_witness :
  pipe_out (hd_socket (fst ((do* handshake in handle_messages 8) (new_handler demo_socket demo_fs)))) =
    e_u32 7 ++ encode_responses (snd (serve_all demo_requests demo_fs)) ∧
  wp (do* handshake in handle_messages 8)
     (λ _ h', sock_outgoing (hd_socket h') =
          sock_outgoing demo_socket ++ e_u32 7 ++ encode_responses (snd (serve_all demo_requests demo_fs)) ∧
        hd_os h' = fst (serve_all demo_requests demo_fs)) only_io (new_handler demo_socket demo_fs).
Proof.
  split; [vm_compute; reflexivity|].
  apply (daemon_session_refines 7 demo_requests 8 demo_socket demo_fs).
  - unfold is_unsigned; lia.
  - repeat constructor; unfold short; vm_compute; congruence.
  - vm_compute. reflexivity.
  - simpl. lia.
  - reflexivity.
Defined.

Definition bad_write : handler pipe memfs :=
  new_handler (Pipe (encode_request (QWrite 9 0 (bs "data")) ++ []) [] 4) demo_fs.

Lemma failed_seek_leaves_payload_witness :
  wp handle_message
     (λ b h', b = true ∧ handler_at h' (bs "data" ++ []) ([] ++ encode (get_status_from_errno EBADF)) [] demo_fs)
     only_io bad_write.
Proof.
  apply (failed_seek_leaves_payload 9 0 (bs "data") EBADF demo_fs demo_fs bad_write [] [] []).
  - split_and!; unfold is_unsigned; vm_compute; intuition congruence.
  - vm_compute. reflexivity.
  - exact (proj1 (new_handler_at (Pipe (encode_request (QWrite 9 0 (bs "data")) ++ []) [] 4) demo_fs)).
Defined.

Definition bad_request : handler pipe memfs := new_handler (Pipe (e_u8 99 ++ bs "x") [] 4) demo_fs.

Lemma unknown_request_disconnects_witness :
  wp handle_message (λ _ _, False)
     (λ e h', io_error e = true ∨
        e = RuntimeError "Unknown request type received!" ∧ handler_at h' (bs "x") [] [] demo_fs)
     bad_request.
Proof.
  apply (unknown_request_disconnects 99 bad_request (bs "x") [] [] demo_fs); [lia|].
  exact (proj1 (new_handler_at (Pipe (e_u8 99 ++ bs "x") [] 4) demo_fs)).
Defined.
End DaemonWitnesses.
