(* ===== verification/Server.v ===== *)
(** * The daemon's entry point: nandroid_daemon/src/main.cpp

    The listening socket, the one connection that is accepted and served, and what
    is printed on the way. *)

From S2P Require Import Prelude Effects Endian Wire Serialization Socket Requests Responses.
From S2P Require Import Messages PathUtils Posix MemFs ClientHandler Protocol Daemon.

(** The calls on the listening socket.  [client_stream] is what can be received
    and sent on an accepted socket. *)
Class Listener (K N : Type) : Type := {
  ls_socket : K → K * Z;
  ls_bind : Z → Z → K → K * Z;
  ls_listen : Z → Z → K → K * Z;
  ls_accept : Z → K → K * Z;
  ls_close : Z → K → K * unit;
  ls_errno : K → Z;
  client_stream : Z → K → N;
}.

(** The process: the network, the rest of the system, the global [server_sock], the
    lines printed to standard output and error, and, once a client was served, what
    became of its stream. *)
Record server (K N OS : Type) : Type := mkServer {
  sv_net : K;
  sv_os : OS;
  server_sock : Z;
  sv_out : list bytes;
  sv_err : list bytes;
  sv_client : option N;
}.
Arguments mkServer {K N OS} _ _ _ _ _ _.
Arguments sv_net {K N OS} _.
Arguments sv_os {K N OS} _.
Arguments server_sock {K N OS} _.
Arguments sv_out {K N OS} _.
Arguments sv_err {K N OS} _.
Arguments sv_client {K N OS} _.

Definition new_server {K N OS} (k : K) (o : OS) : server K N OS := mkServer k o (-1) [] [] None.

(** [e.what()] through [const std::exception&].  [UnixException::what] is not const
    and so does not override the library's, which gives the name of the class. *)
Definition what (e : exn) : bytes :=
  match e with
  | RuntimeError msg => bs msg
  | EOFException => bs "EOF reached while reading from stream"
  | _ => bs "std::exception"
  end.

Section Server.
Context {K N OS : Type} `{Listener K N} `{!Socket N} `{Posix OS} (fuel : nat).

Definition net_call (f : K → K * Z) : M (server K N OS) Z :=
  λ s, let '(k, r) := f (sv_net s) in
       (mkServer k (sv_os s) (server_sock s) (sv_out s) (sv_err s) (sv_client s), Ok r).
Definition print_out (line : bytes) : M (server K N OS) unit :=
  modify (λ s, mkServer (sv_net s) (sv_os s) (server_sock s) (sv_out s ++ [line]) (sv_err s) (sv_client s)).
Definition print_err (line : bytes) : M (server K N OS) unit :=
  modify (λ s, mkServer (sv_net s) (sv_os s) (server_sock s) (sv_out s) (sv_err s ++ [line]) (sv_client s)).
Definition close_socket (fd : Z) : M (server K N OS) unit :=
  let* _ := net_call (λ k, let '(k', _) := ls_close fd k in (k', 0)) in ret tt.

(** [throw_unless] of UnixException.cpp on the listening side. *)
Definition check_call (return_val : Z) : M (server K N OS) Z :=
  let* err := gets (λ s, ls_errno (sv_net s)) in
  if return_val =? -1 then throw (UnixException err) else ret return_val.

(** The object runs on the accepted socket and the system; its destructor closes
    the socket, but only if the constructor returned. *)
Definition run_handler (client_sock : Z) : M (server K N OS) unit :=
  λ s,
    let finish h := mkServer (sv_net s) (hd_os h) (server_sock s) (sv_out s) (sv_err s) (Some (hd_socket h)) in
    match handshake (new_handler (client_stream client_sock (sv_net s)) (sv_os s)) with
    | (h, Throw e) => (finish h, Throw e)
    | (h, Ok _) =>
        let '(h', r) := handle_messages fuel h in
        match close_socket client_sock (finish h') with (s', _) => (s', r) end
    end.

Definition handle_client (client_sock : Z) : M (server K N OS) unit :=
  try_catch
    (do* run_handler client_sock in
     print_out (bs "Goodbye, handled connection so shutting down"))
    (λ e, print_err (bs "Disconnected from client due to an error: " ++ what e)).

(** The arguments of [bind] and [listen]'s checks are comparisons. *)
Definition bool_to_int (b : bool) : Z := if b then 1 else 0.

Definition start_server : M (server K N OS) unit :=
  let* r := net_call ls_socket in
  let* sock := check_call r in
  do* modify (λ s, mkServer (sv_net s) (sv_os s) sock (sv_out s) (sv_err s) (sv_client s)) in
  try_catch
    (let* b := net_call (ls_bind sock AGENT_PORT) in
     let* _ := check_call (bool_to_int (b =? -1)) in
     let* l := net_call (ls_listen sock 1) in
     let* _ := check_call (bool_to_int (l =? -1)) in
     do* print_out (bs "Binded successfully to port, awaiting connection") in
     do* print_out AGENT_READY_MSG in
     let* a := net_call (ls_accept sock) in
     let* client_sock := check_call a in
     handle_client client_sock)
    (λ e,
       let* sock := gets server_sock in
       do* close_socket sock in
       throw e).

Definition main : M (server K N OS) unit :=
  try_catch start_server (λ e, print_err (bs "Failed to execute daemon: " ++ what e)).
End Server.

(** ** Properties *)
Section Properties.
Context {K N OS : Type} `{Listener K N} `{SocketLaws N} `{PosixLaws OS}.
Implicit Types (s : server K N OS) (k : K) (o : OS).

Lemma wp_net_call f Φ E s :
  (∀ k r, f (sv_net s) = (k, r) →
     Φ r (mkServer k (sv_os s) (server_sock s) (sv_out s) (sv_err s) (sv_client s))) →
  wp (net_call f) Φ E s.
Proof. intros HΦ. unfold wp, net_call. destruct (f (sv_net s)) as [k r] eqn:E'. by apply HΦ. Qed.

Lemma wp_check_call r Φ E s :
  (r ≠ -1 → Φ r s) → (r = -1 → E (UnixException (ls_errno (sv_net s))) s) → wp (check_call r) Φ E s.
Proof.
  intros HΦ HE. unfold check_call. do 2 wp_step.
  destruct (Z.eqb_spec r (-1)); wp_step; auto.
Qed.

(** A comparison is never -1. *)
Lemma wp_check_comparison b Φ (E : exn → server K N OS → Prop) s :
  Φ (bool_to_int b) s → wp (check_call (bool_to_int b)) Φ E s.
Proof. intros HΦ. by apply wp_check_call; [intros _|destruct b]. Qed.

(** A client that sends valid requests is served as the abstract daemon would, or
    the transport fails. *)
Definition session_done (fd : Z) (k : K) o hs qs s' : Prop :=
  ∃ c, sv_client s' = Some c ∧
    sock_outgoing c = sock_outgoing (client_stream fd k) ++ e_u32 hs ++ encode_responses (snd (serve_all qs o)) ∧
    sv_os s' = fst (serve_all qs o).

(** Serving the client ended with an exception of the socket; only an object whose
    constructor has returned closes its socket. *)
Definition session_failed (fuel : nat) (fd : Z) (k : K) o s' : Prop :=
  let h0 := new_handler (client_stream fd k) o in
  ∃ h e, (do* handshake in handle_messages fuel) h0 = (h, Throw e) ∧ io_error e = true ∧
    sv_client s' = Some (hd_socket h) ∧ sv_os s' = hd_os h ∧
    sv_net s' = match snd (handshake h0) with Ok _ => fst (ls_close fd k) | Throw _ => k end.

Lemma run_handler_spec fd hs qs fuel s :
  is_u32 hs → Forall valid_request qs → all_in_step qs (sv_os s) = true → (length qs < fuel)%nat →
  sock_incoming (client_stream fd (sv_net s)) = e_u32 hs ++ encode_requests qs →
  wp (run_handler fuel fd)
    (λ _ s', session_done fd (sv_net s) (sv_os s) hs qs s' ∧ sv_out s' = sv_out s ∧ sv_err s' = sv_err s ∧
       sv_net s' = fst (ls_close fd (sv_net s)))
    (λ e s', io_error e = true ∧ session_failed fuel fd (sv_net s) (sv_os s) s' ∧
       sv_out s' = sv_out s ∧ sv_err s' = sv_err s) s.
Proof.
  intros Hhs Hv Hs Hf Hin.
  pose proof (session_spec hs qs fuel (client_stream fd (sv_net s)) (sv_os s) Hhs Hv Hs Hf Hin) as Hd.
  unfold session_done, session_failed. cbv zeta. unfold wp, run_handler, bind in *.
  destruct (handshake _) as [h [[]|e]]; [|split; [exact Hd|]; split; [by exists h, e; split_and!|done]].
  destruct (handle_messages fuel h) as [h' r]. unfold close_socket, bind, net_call. cbn [sv_net].
  destruct (ls_close fd (sv_net s)) as [k' []]. destruct r as [[]|e].
  - destruct Hd as [Ho Hos]. split; [|done]. by exists (hd_socket h').
  - split; [exact Hd|]. split; [|done]. by exists h', e; split_and!.
Qed.

Lemma handle_client_spec fd hs qs fuel s :
  is_u32 hs → Forall valid_request qs → all_in_step qs (sv_os s) = true → (length qs < fuel)%nat →
  sock_incoming (client_stream fd (sv_net s)) = e_u32 hs ++ encode_requests qs →
  wp (handle_client fuel fd)
    (λ _ s',
       session_done fd (sv_net s) (sv_os s) hs qs s' ∧ sv_err s' = sv_err s ∧
         sv_out s' = sv_out s ++ [bs "Goodbye, handled connection so shutting down"] ∧
         sv_net s' = fst (ls_close fd (sv_net s)) ∨
       session_failed fuel fd (sv_net s) (sv_os s) s' ∧ sv_out s' = sv_out s ∧
         sv_err s' = sv_err s ++ [bs "Disconnected from client due to an error: std::exception"])
    (λ _ _, False) s.
Proof.
  intros Hhs Hv Hs Hf Hin. unfold handle_client. apply wp_try_catch_all. wp_step.
  eapply wp_mono; [by eapply run_handler_spec|..].
  - intros [] s' (Hd & Ho & He & Hn). unfold print_out. wp_step. left. simpl. by rewrite Ho.
  - intros e s' (Hio & Hd & Ho & He). split; [by apply io_catchable|]. unfold print_err. wp_step. right. simpl.
    rewrite Ho, He. by destruct e.
Qed.

(** What the daemon prints before it waits for the client. *)
Definition announced : list bytes :=
  [bs "Binded successfully to port, awaiting connection"; AGENT_READY_MSG].

(** Up to the moment a client is accepted or not, whatever [bind] and [listen]
    return. *)
Lemma start_up (k k1 k2 k3 k4 : K) o sock fd rb rl fuel Φ E :
  ls_socket k = (k1, sock) → sock ≠ -1 →
  ls_bind sock AGENT_PORT k1 = (k2, rb) → ls_listen sock 1 k2 = (k3, rl) → ls_accept sock k3 = (k4, fd) →
  (fd = -1 →
   wp (let* sock := gets server_sock in do* close_socket sock in throw (UnixException (ls_errno k4))) Φ E
     (mkServer k4 o sock announced [] None)) →
  (fd ≠ -1 →
   wp (handle_client fuel fd) Φ
     (λ e s', if is_catchable e then wp (let* sock := gets server_sock in do* close_socket sock in throw e) Φ E s' else E e s')
     (mkServer k4 o sock announced [] None)) →
  wp (start_server fuel) Φ E (new_server k o).
Proof.
  intros Hso Hsock Hb Hl Ha Hno Hyes. unfold start_server. wp_step.
  apply wp_net_call. cbn [sv_net new_server]. rewrite Hso. intros ? ? [= <- <-]. wp_step.
  apply wp_check_call; [intros _|done]. do 4 wp_step.
  apply wp_net_call. cbn [sv_net]. rewrite Hb. intros ? ? [= <- <-]. wp_step. apply wp_check_comparison. wp_step.
  apply wp_net_call. cbn [sv_net]. rewrite Hl. intros ? ? [= <- <-]. wp_step. apply wp_check_comparison.
  unfold print_out at 1 2. do 5 wp_step. apply wp_net_call. cbn [sv_net]. rewrite Ha. intros ? ? [= <- <-]. wp_step.
  by apply wp_check_call.
Qed.
End Properties.

(** ** Claims *)
Section Claims.
Context {K N OS : Type} `{Listener K N} `{SocketLaws N} `{PosixLaws OS}.

(** C8. The daemon process serves one client and ends: when a socket can be had and
    a client connects that sends valid requests, with no write among them whose seek
    fails, the process has announced that it is ready by then, serves the requests of
    that client exactly as the abstract daemon does, closes the connection, says
    goodbye and ends; or a call of the client's socket fails, serving it ends with that
    exception, and that is reported.  The process never ends in another way, by an
    exception or without meaning, and always ends. *)
Theorem daemon_serves_one_client (k k1 k2 k3 k4 : K) (o : OS) sock fd rb rl hs qs fuel :
  ls_socket k = (k1, sock) → sock ≠ -1 →
  ls_bind sock AGENT_PORT k1 = (k2, rb) → ls_listen sock 1 k2 = (k3, rl) →
  ls_accept sock k3 = (k4, fd) → fd ≠ -1 →
  is_u32 hs → Forall valid_request qs → all_in_step qs o = true → (length qs < fuel)%nat →
  sock_incoming (client_stream fd k4) = e_u32 hs ++ encode_requests qs →
  wp (main fuel)
    (λ _ s',
       session_done fd k4 o hs qs s' ∧ sv_err s' = [] ∧
         sv_out s' = announced ++ [bs "Goodbye, handled connection so shutting down"] ∧
         sv_net s' = fst (ls_close fd k4) ∨
       session_failed fuel fd k4 o s' ∧ sv_out s' = announced ∧
         sv_err s' = [bs "Disconnected from client due to an error: std::exception"])
    (λ _ _, False) (new_server k o).
Proof.
  intros Hso Hsock Hb Hl Ha Hfd Hhs Hv Hs Hf Hin. unfold main. wp_step. eapply start_up; [done..|by intros ?|intros _].
  eapply wp_mono; [by eapply handle_client_spec| |done]. done.
Qed.

(** C37. The daemon announces that it is ready whether or not it could listen: the
    results of [bind] and [listen] are compared before they are checked, and a
    comparison never is the error value.  With the port taken, the client is told to
    connect and only then does [accept] fail; the process closes the socket, reports
    an error without saying which, and ends. *)
Theorem failed_bind_announced_ready (k k1 k2 k3 k4 : K) (o : OS) sock fuel :
  ls_socket k = (k1, sock) → sock ≠ -1 →
  ls_bind sock AGENT_PORT k1 = (k2, -1) → ls_listen sock 1 k2 = (k3, -1) → ls_accept sock k3 = (k4, -1) →
  main fuel (new_server (N := N) k o) =
    (mkServer (fst (ls_close sock k4)) o sock announced [bs "Failed to execute daemon: std::exception"] None, Ok tt).
Proof.
  intros Hso Hsock Hb Hl Ha. apply wp_ok. unfold main. wp_step. eapply start_up; [done..|intros _|done].
  unfold print_err, close_socket. do 4 wp_step. apply wp_net_call. cbn [sv_net server_sock].
  destruct (ls_close sock k4) as [k5 []]. intros ? ? [= <- <-]. do 2 wp_step. cbn [is_catchable]. by wp_step.
Qed.
End Claims.

(** ** A concrete network: the port is free or taken *)
Record demo_net : Type := mkDemoNet { dn_free : bool; dn_stream : pipe; dn_closed : list Z }.

#[global] Instance demo_listener : Listener demo_net pipe := {|
  ls_socket k := (k, 3);
  ls_bind _ _ k := (k, if dn_free k then 0 else -1);
  ls_listen _ _ k := (k, if dn_free k then 0 else -1);
  ls_accept _ k := (k, if dn_free k then 4 else -1);
  ls_close fd k := (mkDemoNet (dn_free k) (dn_stream k) (dn_closed k ++ [fd]), tt);
  ls_errno _ := 98;
  client_stream _ k := dn_stream k;
|}.

Module ServerWitnesses.
Import DaemonWitnesses.
Definition net : demo_net := mkDemoNet true demo_socket [].
Definition taken : demo_net := mkDemoNet false demo_socket [].

Lemma daemon_serves_one_client_witness :
  sv_out (fst (main 8 (new_server net demo_fs))) =
    announced ++ [bs "Goodbye, handled connection so shutting down"] ∧
  wp (main 8)
    (λ _ s',
       session_done 4 net demo_fs 7 demo_requests s' ∧ sv_err s' = [] ∧
         sv_out s' = announced ++ [bs "Goodbye, handled connection so shutting down"] ∧
         sv_net s' = fst (ls_close 4 net) ∨
       session_failed 8 4 net demo_fs s' ∧ sv_out s' = announced ∧
         sv_err s' = [bs "Disconnected from client due to an error: std::exception"])
    (λ _ _, False) (new_server net demo_fs).
Proof.
  split; [vm_compute; reflexivity|].
  apply (daemon_serves_one_client net net net net net demo_fs 3 4 0 0 7 demo_requests 8);
    [reflexivity|done|reflexivity|reflexivity|reflexivity|done|unfold is_unsigned; lia| | |simpl; lia|reflexivity].
  - repeat constructor; unfold short; vm_compute; congruence.
  - vm_compute. reflexivity.
Defined.

Lemma failed_bind_announced_ready_witness :
  main 8 (new_server (N := pipe) taken demo_fs) =
    (mkServer (fst (ls_close 3 taken)) demo_fs 3 announced
       [bs "Failed to execute daemon: std::exception"] None, Ok tt).
Proof.
  apply (failed_bind_announced_ready taken taken taken taken taken demo_fs 3 8);
    [reflexivity|done|reflexivity|reflexivity|reflexivity].
Defined.
End ServerWitnesses.
