(* ===== verification/WinPath.v ===== *)
(** * Paths next to the executable: nandroidfs/win_path_util.cpp *)

From S2P Require Import Prelude Effects Conversion.

Definition MAX_PATH : Z := 260.

(** The calls of the Windows API.  [GetModuleFileName] is given the length of the
    buffer and leaves the path of the executable in it, cut to fit ([None]: it
    returned zero); [PathCombine] is what it leaves in its buffer. *)
Class ExePath (W : Type) : Type := {
  GetModuleFileName : Z → W → option wstring;
  PathRemoveFileSpec : wstring → wstring;
  PathCombine : wstring → wstring → wstring;
}.

Section WinPath.
Context {W : Type} `{ExePath W}.

Definition get_exe_path (w : W) : option wstring := GetModuleFileName MAX_PATH w.

Definition get_abs_path_from_rel_to_exe (relative_path : wstring) (w : W) : option wstring :=
  match get_exe_path w with
  | None => None
  | Some exe_path => Some (PathCombine (PathRemoveFileSpec exe_path) relative_path)
  end.
End WinPath.
