(* ===== verification/Adb.v ===== *)
(** * Running adb: nandroidfs/Adb.cpp

    Starting a process with its output going to a pipe, reading the pipe until the
    process is done, and the functions that run adb that way.  Process creation,
    pipes and handles are the Windows API's: an interface with laws. *)

From stdpp Require Import pretty.
From S2P Require Import Prelude Effects Serialization Conversion WinPath.

(** ** Processes, pipes and handles *)

(** What a [ReadFile] on a pipe does.  [ReadBlocks] is a call that waits for ever,
    because the pipe is empty and its write end is still open in this process. *)
Inductive read_result : Type :=
  | ReadData (data : bytes)
  | ReadFailed
  | ReadBlocks.

(** [CreatePipe] gives the read and the write end; [CreateProcess] is given the
    handle for standard output and error and gives the process and its thread.
    The observations: the handles this process holds, the write end of a pipe, the
    writes that will still come out of it until the child exits, the exit status
    of a process, and what a command line would write and exit with. *)
Class Processes (W : Type) : Type := {
  CreatePipe : W → W * option (Z * Z);
  SetHandleInformation : Z → W → W * bool;
  CreateProcess : wstring → option Z → Z → W → W * option (Z * Z);
  ReadFile : Z → Z → W → W * read_result;
  WaitForSingleObject : Z → W → W * unit;
  GetExitCodeProcess : Z → W → W * option Z;
  CloseHandle : Z → W → W * unit;
  open_handles : W → gset Z;
  write_end : Z → W → Z;
  pending : Z → W → list bytes;
  exit_status : Z → W → Z;
  program : wstring → W → list bytes * Z;
}.

(** What a reader gets to see of a sequence of writes that takes a read of no
    bytes for the end: everything up to the first empty write. *)
Fixpoint visible (writes : list bytes) : bytes :=
  match writes with
  | [] | [] :: _ => []
  | data :: writes => data ++ visible writes
  end.

(** The pipes and processes that exist are left alone. *)
Definition same_processes {W} `{Processes W} (w w' : W) : Prop :=
  (∀ r, write_end r w' = write_end r w) ∧ (∀ r, pending r w' = pending r w) ∧
  (∀ p, exit_status p w' = exit_status p w) ∧ ∀ c, program c w' = program c w.

Class ProcessLaws (W : Type) `{Processes W} : Prop := {
  create_pipe_law : ∀ w,
    match CreatePipe w with
    | (w', Some (r, wr)) =>
        r ≠ wr ∧ r ∉ open_handles w ∧ wr ∉ open_handles w ∧
        open_handles w' = {[ r; wr ]} ∪ open_handles w ∧ write_end r w' = wr ∧
        ∀ c, program c w' = program c w
    | (w', None) => open_handles w' = open_handles w
    end;
  set_handle_information_law : ∀ h w,
    let w' := fst (SetHandleInformation h w) in
    open_handles w' = open_handles w ∧ same_processes w w';
  create_process_law : ∀ c out flags w,
    match CreateProcess c out flags w with
    | (w', Some (p, t)) =>
        p ≠ t ∧ p ∉ open_handles w ∧ t ∉ open_handles w ∧
        open_handles w' = {[ p; t ]} ∪ open_handles w ∧
        (∀ r, write_end r w' = write_end r w) ∧ exit_status p w' = snd (program c w) ∧
        ∀ r, out = Some (write_end r w) → pending r w' = fst (program c w)
    | (w', None) => open_handles w' = open_handles w
    end;
  read_file_law : ∀ r n w, 0 < n →
    let '(w', res) := ReadFile r n w in
    open_handles w' = open_handles w ∧ (∀ r', write_end r' w' = write_end r' w) ∧
    (∀ p, exit_status p w' = exit_status p w) ∧
    match res with
    | ReadData [] => visible (pending r w) = []
    | ReadData d => zlen d ≤ n ∧ visible (pending r w) = d ++ visible (pending r w')
    | ReadFailed => pending r w = []
    | ReadBlocks => pending r w = [] ∧ write_end r w ∈ open_handles w
    end;
  wait_law : ∀ h w, let w' := fst (WaitForSingleObject h w) in
    open_handles w' = open_handles w ∧ same_processes w w';
  exit_code_law : ∀ p w, let '(w', code) := GetExitCodeProcess p w in
    open_handles w' = open_handles w ∧ ∀ c, code = Some c → c = exit_status p w ∧ 0 ≤ c < 2 ^ 32;
  close_handle_law : ∀ h w, let w' := fst (CloseHandle h w) in
    open_handles w' = open_handles w ∖ {[ h ]} ∧ same_processes w w';
}.

(** The program's share of the host: the rest of the system, and the global
    [adb_invoke_path] ([None] is [nullptr]). *)
Record host (W : Type) : Type := mkHost { hs_os : W; adb_invoke_path : option wstring }.
Arguments mkHost {W} _ _.
Arguments hs_os {W} _.
Arguments adb_invoke_path {W} _.

Definition os_lens {W} : lens (host W) W := Lens hs_os (λ w h, mkHost w (adb_invoke_path h)).
Definition snd_lens {A B} : lens (A * B) B := Lens snd (λ b p, (fst p, b)).

Definition os_call {W A} (f : W → W * A) : M W A := λ w, let '(w', a) := f w in (w', Ok a).

(** ** The operations *)
Definition STDOUT_READ_BUF_SIZE : Z := 4096.
Definition CREATE_NEW_PROCESS_GROUP : Z := 0x200.

Section Adb.
Context {W : Type} `{Processes W}.

(** The read end and the write end. *)
Definition create_stdouterr_pipes : M W (Z * Z) :=
  let* ends := os_call CreatePipe in
  match ends with
  | None => throw (RuntimeError "Failed to CreatePipe for reading stdout")
  | Some (child_stdout_read, child_stdout_write) =>
      let* ok := os_call (SetHandleInformation child_stdout_read) in
      if negb ok then throw (RuntimeError "Failed to SetHandleInformation on pipe")
      else ret (child_stdout_read, child_stdout_write)
  end.

(** A copy of the string up to its terminating zero. *)
Fixpoint non_constify_string (orig : wstring) : wstring :=
  match orig with
  | [] => []
  | c :: orig => if c =? 0 then [] else c :: non_constify_string orig
  end.

Definition create_process_pipe_output (child_stdout_write : Z) (command_line : wstring) (flags : Z)
    : M W (Z * Z) :=
  let* success := os_call (CreateProcess (non_constify_string command_line) (Some child_stdout_write) flags) in
  match success with
  | None => throw (RuntimeError "Failure in CreateProcess")
  | Some process_info => ret process_info
  end.

(** [consume_output] runs on a state of its own. *)
Section Capture.
Context {S : Type} (consume_output : bytes → M S unit).

Fixpoint read_output (fuel : nat) (child_stdout_read : Z) : M (W * S) unit :=
  match fuel with
  | O => throw OutOfFuel
  | Datatypes.S fuel =>
      let* res := zoom fst_lens (os_call (ReadFile child_stdout_read STDOUT_READ_BUF_SIZE)) in
      match res with
      | ReadFailed | ReadData [] => ret tt
      | ReadBlocks => throw OutOfFuel
      | ReadData buffer =>
          do* zoom snd_lens (consume_output buffer) in
          read_output fuel child_stdout_read
      end
  end.

(** Returns the exit code. *)
Definition invoke_process_capture_output (command_line : wstring) (flags : Z) : M (W * S) Z :=
  let* ' (child_stdout_read, child_stdout_write) := zoom fst_lens create_stdouterr_pipes in
  let* ' (hProcess, hThread) :=
    zoom fst_lens (create_process_pipe_output child_stdout_write command_line flags) in
  do* zoom fst_lens (os_call (CloseHandle child_stdout_write)) in
  let* budget := gets (λ s, length (visible (pending child_stdout_read (fst s)))) in
  do* read_output (Datatypes.S budget) child_stdout_read in
  do* zoom fst_lens (os_call (WaitForSingleObject hProcess)) in
  do* zoom fst_lens (os_call (CloseHandle child_stdout_read)) in
  do* zoom fst_lens (os_call (CloseHandle hThread)) in
  let* exit_code := zoom fst_lens (os_call (GetExitCodeProcess hProcess)) in
  match exit_code with
  | None => throw (RuntimeError "Failed to get exit code")
  | Some exit_code =>
      do* zoom fst_lens (os_call (CloseHandle hProcess)) in
      ret (to_i32 exit_code)
  end.
End Capture.

(** The output and the exit code. *)
Definition invoke_process_capture_output_string (command_line : wstring) : M W (bytes * Z) :=
  λ w,
    match invoke_process_capture_output (λ buffer, modify (λ output, output ++ buffer)) command_line 0 (w, []) with
    | ((w', output), Ok exit_code) => (w', Ok (output, exit_code))
    | ((w', _), Throw e) => (w', Throw e)
    end.

Definition nonzero_exit_message (exit_code : Z) (output : bytes) : string :=
  "Got nonzero exit code from ADB: " +:+ pretty exit_code +:+ ", stdout/stderr: "
    +:+ String.string_of_list_byte output.

Definition invoke_throw_on_nonzero (command_line : wstring) : M W bytes :=
  let* ' (output, exit_code) := invoke_process_capture_output_string command_line in
  if exit_code =? 0 then ret output
  else throw (RuntimeError (nonzero_exit_message exit_code output)).

(** Started only to see whether it starts: it is not waited for.  Without success
    [process_info] holds null handles, and closing them does nothing. *)
Definition adb_install_exists (invoke_path : wstring) : M W bool :=
  let* process_info := os_call (CreateProcess (non_constify_string invoke_path) None 0) in
  match process_info with
  | None => ret false
  | Some (hProcess, hThread) =>
      do* os_call (CloseHandle hThread) in
      do* os_call (CloseHandle hProcess) in
      ret true
  end.
End Adb.

Definition quote : Z := 34.
Definition space : wstring := [32].

(** [std::format(L"{} {}", ...)] and [std::format(L"{} -s {} {}", ...)]. *)
Definition command_line (adb args : wstring) : wstring := adb ++ space ++ args.
Definition command_line_for (adb serial args : wstring) : wstring :=
  adb ++ ws (bs " -s ") ++ serial ++ space ++ args.

Section FindAdb.
Context {W : Type} `{Processes W} `{!ExePath W}.

(** [adb_invoke_path.store(path)]. *)
Definition remember_adb (path : wstring) : M (host W) wstring :=
  λ h, (mkHost (hs_os h) (Some path), Ok path).

Definition find_adb_path : M (host W) wstring :=
  let* current := gets adb_invoke_path in
  match current with
  | Some current => ret current
  | None =>
      let* on_path := zoom os_lens (adb_install_exists (ws (bs "adb"))) in
      if on_path : bool then remember_adb (ws (bs "adb"))
      else
        let* included_adb_path :=
          gets (λ h, get_abs_path_from_rel_to_exe (ws (bs "platform-tools\adb.exe")) (hs_os h)) in
        match included_adb_path with
        | None => throw (RuntimeError "No ADB installation found!")
        | Some included_adb_path =>
            let quoted_adb_path := [quote] ++ included_adb_path ++ [quote] in
            let* exists_there := zoom os_lens (adb_install_exists quoted_adb_path) in
            if exists_there : bool then remember_adb quoted_adb_path
            else throw (RuntimeError "No ADB installation found!")
        end
  end.

Definition invoke_adb (args : wstring) : M (host W) bytes :=
  let* adb := find_adb_path in
  zoom os_lens (invoke_throw_on_nonzero (command_line adb args)).

Definition invoke_adb_with_serial (serial args : wstring) : M (host W) bytes :=
  let* adb := find_adb_path in
  zoom os_lens (invoke_throw_on_nonzero (command_line_for adb serial args)).

Definition invoke_adb_capture_output {S} (serial args : wstring) (consume_output : bytes → M S unit)
    : M (host W * S) Z :=
  let* adb := zoom fst_lens find_adb_path in
  λ '(h, s),
    match invoke_process_capture_output consume_output (command_line_for adb serial args)
            CREATE_NEW_PROCESS_GROUP (hs_os h, s) with
    | ((w', s'), r) => ((mkHost w' (adb_invoke_path h), s'), r)
    end.
End FindAdb.

(** ** What an invocation does *)

(** The calls to a consumer, in order. *)
Fixpoint consume_all {S} (consume_output : bytes → M S unit) (chunks : list bytes) : M S unit :=
  match chunks with
  | [] => ret tt
  | chunk :: chunks => do* consume_output chunk in consume_all consume_output chunks
  end.

(** How starting a process and waiting for it can fail, with the handles held
    before and afterwards: every failure but that of [CreatePipe] loses handles. *)
Inductive invocation_failure (X : gset Z) : exn → gset Z → Prop :=
  | NoPipe : invocation_failure X (RuntimeError "Failed to CreatePipe for reading stdout") X
  | PipeInherited r w : r ≠ w → r ∉ X → w ∉ X →
      invocation_failure X (RuntimeError "Failed to SetHandleInformation on pipe") ({[ r; w ]} ∪ X)
  | NoProcess r w : r ≠ w → r ∉ X → w ∉ X →
      invocation_failure X (RuntimeError "Failure in CreateProcess") ({[ r; w ]} ∪ X)
  | NoExitCode p : p ∉ X →
      invocation_failure X (RuntimeError "Failed to get exit code") ({[ p ]} ∪ X).

Lemma invocation_failure_catchable X e Y : invocation_failure X e Y → catchable e.
Proof. by intros []. Qed.

Lemma wp_os_call {W A} (f : W → W * A) Φ E w :
  Φ (snd (f w)) (fst (f w)) → wp (os_call f) Φ E w.
Proof. unfold wp, os_call. by destruct (f w). Qed.

(** One call of the operating system, inside a computation on it and more. *)
Ltac os_step := wp_step; apply wp_zoom, wp_os_call; cbn [view fst_lens fst update snd].

Section Invoke.
Context {W : Type} `{ProcessLaws W}.

Lemma create_stdouterr_pipes_spec (w : W) :
  wp create_stdouterr_pipes
    (λ ends w', let '(r, wr) := ends in
       r ≠ wr ∧ r ∉ open_handles w ∧ wr ∉ open_handles w ∧
       open_handles w' = {[ r; wr ]} ∪ open_handles w ∧ write_end r w' = wr ∧ ∀ c, program c w' = program c w)
    (λ e w', invocation_failure (open_handles w) e (open_handles w')) w.
Proof.
  unfold create_stdouterr_pipes. wp_step. apply wp_os_call. pose proof (create_pipe_law w) as L.
  destruct (CreatePipe w) as [w1 [[r wr]|]]; simpl in *.
  2: { wp_step. rewrite L. constructor. }
  destruct L as (Hne & Hr & Hwr & Ho & He & Hp). wp_step. apply wp_os_call.
  destruct (set_handle_information_law r w1) as (Ho' & He' & _ & _ & Hp').
  destruct (SetHandleInformation r w1) as [w2 ok]; simpl in *.
  destruct ok; simpl; wp_step; [|rewrite Ho', Ho; by constructor].
  split_and!; try done; [congruence|congruence|]. intros c. by rewrite Hp', Hp.
Qed.

Section Capture.
Context {S : Type} (consume_output : bytes → M S unit).
Context (consumes : ∀ d s, wp (consume_output d) (λ _ _, True) (λ _ _, False) s).

(** The loop hands over everything the pipe has to give and ends. *)
Lemma read_output_spec fuel r (w : W) s :
  (length (visible (pending r w)) < fuel)%nat → write_end r w ∉ open_handles w →
  wp (read_output consume_output fuel r)
    (λ _ st, let '(w', s') := st in
       (∃ chunks, concat chunks = visible (pending r w) ∧ consume_all consume_output chunks s = (s', Ok tt)) ∧
       open_handles w' = open_handles w ∧ ∀ p, exit_status p w' = exit_status p w)
    (λ _ _, False) (w, s).
Proof.
  revert w s. induction fuel as [|fuel IH]; intros w s Hf Hwr; [lia|]. simpl. wp_step. apply wp_zoom, wp_os_call.
  pose proof (read_file_law r STDOUT_READ_BUF_SIZE w eq_refl) as L. cbn [view fst_lens fst update snd].
  destruct (ReadFile r STDOUT_READ_BUF_SIZE w) as [w1 res]. cbn [fst snd].
  destruct L as (Ho & He & Hx & L). destruct res as [[|c d]| |].
  - wp_step. split_and!; [|done..]. exists []. by rewrite L.
  - destruct L as [_ L]. wp_step. apply wp_zoom. cbn [view snd_lens fst update snd].
    specialize (consumes (c :: d) s). unfold wp at 1. unfold wp in consumes.
    destruct (consume_output (c :: d) s) as [s1 [[]|e]] eqn:E; [|done].
    eapply wp_mono; [apply IH| |done].
    + rewrite L, length_app in Hf. simpl in Hf. lia.
    + by rewrite He, Ho.
    + intros _ [w2 s2] ((chunks & Hc & Hr) & -> & Hx2). split_and!; [|done|congruence].
      exists ((c :: d) :: chunks). rewrite L, <- Hc. split; [done|]. simpl. unfold bind. by rewrite E.
  - wp_step. split_and!; [|done..]. exists []. by rewrite L.
  - by destruct L as [_ ?].
Qed.

Lemma invoke_process_capture_output_spec command flags (w : W) s :
  wp (invoke_process_capture_output consume_output command flags)
    (λ code st, let '(w', s') := st in let '(writes, status) := program (non_constify_string command) w in
       (∃ chunks, concat chunks = visible writes ∧ consume_all consume_output chunks s = (s', Ok tt)) ∧
       code = to_i32 status ∧ 0 ≤ status < 2 ^ 32 ∧ open_handles w' = open_handles w)
    (λ e st, invocation_failure (open_handles w) e (open_handles (fst st)) ∧
       ∃ chunks, consume_all consume_output chunks s = (snd st, Ok tt)) (w, s).
Proof.
  unfold invoke_process_capture_output. wp_step. apply wp_zoom. cbn [view fst_lens fst update snd].
  eapply wp_mono; [apply create_stdouterr_pipes_spec| |by intros e w1 He; split; [|exists []]].
  intros [r wr] w1 (Hne & Hr & Hwr & Ho & He & Hp). cbn [fst_lens update fst snd]. wp_step. apply wp_zoom. cbn [view fst_lens fst update snd]. unfold create_process_pipe_output.
  wp_step. apply wp_os_call. pose proof (create_process_law (non_constify_string command) (Some wr) flags w1) as L.
  destruct (CreateProcess _ _ _ _) as [w2 [[p t]|]]; cbn [fst snd].
  2: { wp_step. cbn [fst]. rewrite L, Ho. by split; [constructor|exists []]. }
  destruct L as (Hpt & Hpn & Htn & Ho2 & He2 & Hx2 & Hpend). wp_step. cbn [fst snd].
  specialize (Hpend r). rewrite He in Hpend. specialize (Hpend eq_refl). rewrite Hp in Hpend, Hx2.
  destruct (program (non_constify_string command) w) as [writes status]. cbn [fst snd] in *.
  (* the write end is closed and the pipe read *)
  os_step. destruct (close_handle_law wr w2) as (Ho3 & He3 & Hpend3 & Hx3 & _).
  destruct (CloseHandle wr w2) as [w3 []]. cbn [fst] in *. do 2 wp_step. cbn [fst]. wp_step.
  eapply wp_mono; [apply read_output_spec; [apply Nat.lt_succ_diag_r|]| |done].
  { rewrite He3, He2, He, Ho3. set_solver. }
  intros _ [w4 s4] ((chunks & Hc & Hrun) & Ho4 & Hx4). rewrite Hpend3, Hpend in Hc.
  (* the process is waited for and the handles closed *)
  os_step. destruct (wait_law p w4) as (Ho5 & _ & _ & Hx5 & _).
  destruct (WaitForSingleObject p w4) as [w5 []]. cbn [fst] in *.
  os_step. destruct (close_handle_law r w5) as (Ho6 & _ & _ & Hx6 & _). destruct (CloseHandle r w5) as [w6 []]. cbn [fst] in *.
  os_step. destruct (close_handle_law t w6) as (Ho7 & _ & _ & Hx7 & _). destruct (CloseHandle t w6) as [w7 []]. cbn [fst] in *.
  os_step. pose proof (exit_code_law p w7) as L.
  destruct (GetExitCodeProcess p w7) as [w8 code]. cbn [fst snd] in *. destruct L as [Ho8 L].
  assert (Hleft : open_handles w8 = {[ p ]} ∪ open_handles w).
  { rewrite Ho8, Ho7, Ho6, Ho5, Ho4, Ho3, Ho2, Ho. apply set_eq. clear -Hpt Hr Hwr Hpn Htn Ho. rewrite Ho in *. set_solver. }
  rewrite Ho in Hpn. destruct code as [code|]; [|wp_step; cbn [fst snd]; rewrite Hleft; split; [constructor; set_solver|by exists chunks]].
  destruct (L code eq_refl) as [Hcode Hb]. os_step.
  destruct (close_handle_law p w8) as (Ho9 & _). destruct (CloseHandle p w8) as [w9 []]. cbn [fst] in *. wp_step.
  assert (code = status) as -> by congruence. split_and!; [by exists chunks|done|lia|lia|].
  rewrite Ho9, Hleft. apply set_eq. clear -Hpn. set_solver.
Qed.
End Capture.

(** A consumer that collects the output has collected the whole of it. *)
Lemma consume_append chunks (output : bytes) :
  consume_all (λ buffer, modify (λ output, output ++ buffer)) chunks output = (output ++ concat chunks, Ok tt).
Proof.
  revert output. induction chunks as [|chunk chunks IH]; intros output; simpl; [by rewrite app_nil_r|].
  unfold bind, modify. by rewrite IH, <- app_assoc.
Qed.

Lemma to_i32_zero z : 0 ≤ z < 2 ^ 32 → to_i32 z = 0 → z = 0.
Proof. intros Hz. unfold to_signed. rewrite Z.mod_small by lia. case_match; lia. Qed.

Lemma invoke_throw_on_nonzero_spec command (w : W) :
  wp (invoke_throw_on_nonzero command)
    (λ output w', let '(writes, status) := program (non_constify_string command) w in
       output = visible writes ∧ status = 0 ∧ open_handles w' = open_handles w)
    (λ e w', let '(writes, status) := program (non_constify_string command) w in
       e = RuntimeError (nonzero_exit_message (to_i32 status) (visible writes)) ∧ status ≠ 0 ∧
         open_handles w' = open_handles w ∨
       invocation_failure (open_handles w) e (open_handles w')) w.
Proof.
  unfold invoke_throw_on_nonzero. wp_step. unfold invoke_process_capture_output_string, wp at 1.
  assert (Hi := invoke_process_capture_output_spec (λ buffer, modify (λ output, output ++ buffer))
    (λ _ _, I) command 0 w []).
  unfold wp in Hi. destruct (invoke_process_capture_output _ _ _ _) as [[w1 output] [code|e]].
  - destruct (program _ w) as [writes status]. destruct Hi as ((chunks & Hc & Hr) & -> & Hb & Ho).
    rewrite consume_append in Hr. injection Hr as <-. simpl. rewrite Hc.
    destruct (Z.eqb_spec (to_i32 status) 0) as [Hz|Hz]; wp_step.
    + split_and!; [done|by apply to_i32_zero|done].
    + left. split_and!; [done| |done]. by intros ->.
  - destruct (program _ w) as [writes status]. right. by destruct Hi.
Qed.

Lemma adb_install_exists_spec path (w : W) :
  wp (adb_install_exists path) (λ _ w', open_handles w' = open_handles w) (λ _ _, False) w.
Proof.
  unfold adb_install_exists. wp_step. apply wp_os_call.
  pose proof (create_process_law (non_constify_string path) None 0 w) as L.
  destruct (CreateProcess _ _ _ _) as [w1 [[p t]|]]; cbn [fst snd]; [|by wp_step].
  destruct L as (Hpt & Hp & Ht & Ho & _). wp_step. apply wp_os_call.
  destruct (close_handle_law t w1) as [Ho2 _]. destruct (CloseHandle t w1) as [w2 []]. cbn [fst] in *.
  wp_step. apply wp_os_call.
  destruct (close_handle_law p w2) as [Ho3 _]. destruct (CloseHandle p w2) as [w3 []]. cbn [fst] in *.
  wp_step. rewrite Ho3, Ho2, Ho. apply set_eq. clear -Hp Ht. set_solver.
Qed.

Context `{!ExePath W}.

(** adb is found on the path or next to the executable, and remembered. *)
Lemma find_adb_path_spec (h : host W) :
  wp find_adb_path
    (λ path h', adb_invoke_path h' = Some path ∧ open_handles (hs_os h') = open_handles (hs_os h) ∧
       match adb_invoke_path h with
       | Some known => path = known ∧ h' = h
       | None => path = ws (bs "adb") ∨
           ∃ w dir, get_abs_path_from_rel_to_exe (ws (bs "platform-tools\adb.exe")) w = Some dir ∧
             path = [quote] ++ dir ++ [quote]
       end)
    (λ e h', e = RuntimeError "No ADB installation found!" ∧ adb_invoke_path h = None ∧
       adb_invoke_path h' = None ∧ open_handles (hs_os h') = open_handles (hs_os h)) h.
Proof.
  unfold find_adb_path. do 2 wp_step. destruct (adb_invoke_path h) as [known|] eqn:Ea; [by wp_step|].
  wp_step. apply wp_zoom. eapply wp_mono; [apply adb_install_exists_spec| |done].
  intros found w1 Ho. cbn [os_lens update view] in *. destruct found; [split_and!; [done|done|by left]|].
  do 2 wp_step. cbn [hs_os].
  destruct (get_abs_path_from_rel_to_exe _ w1) as [dir|] eqn:Ed; [|by wp_step].
  cbv zeta. wp_step. apply wp_zoom. eapply wp_mono; [apply adb_install_exists_spec| |done].
  intros found w2 Ho2. cbn [os_lens update view hs_os] in *.
  destruct found; [|wp_step; cbn [hs_os adb_invoke_path]; rewrite ?Ea, ?Ho2, ?Ho; by split_and!].
  unfold remember_adb, wp. cbn [hs_os]. split_and!; [done|simpl; congruence|]. right. eauto.
Qed.

Lemma run_adb_catchable (line : wstring → wstring) (h : host W) :
  wp (let* adb := find_adb_path in zoom os_lens (invoke_throw_on_nonzero (line adb)))
    (λ _ _, True) (λ e _, catchable e) h.
Proof.
  wp_step. eapply wp_mono; [apply find_adb_path_spec| |by intros e h' (-> & _)].
  intros path h1 _. apply wp_zoom. eapply wp_mono; [apply invoke_throw_on_nonzero_spec|done|].
  intros e w'. destruct (program _ _) as [writes status].
  by intros [(-> & _)|Hf]; [|eapply invocation_failure_catchable].
Qed.

Lemma invoke_adb_catchable args (h : host W) :
  wp (invoke_adb args) (λ _ _, True) (λ e _, catchable e) h.
Proof. apply (run_adb_catchable (λ adb, command_line adb args)). Qed.

Lemma invoke_adb_with_serial_catchable serial args (h : host W) :
  wp (invoke_adb_with_serial serial args) (λ _ _, True) (λ e _, catchable e) h.
Proof. apply (run_adb_catchable (λ adb, command_line_for adb serial args)). Qed.

(** adb with a consumer that does not throw: the consumer gets the output, or adb
    could not be found or run, and has got what there was. *)
Lemma invoke_adb_capture_output_spec {S} serial args (consume_output : bytes → M S unit) (h : host W) s :
  (∀ d s, wp (consume_output d) (λ _ _, True) (λ _ _, False) s) →
  wp (invoke_adb_capture_output serial args consume_output)
    (λ _ st, ∃ path (w : W) chunks,
       concat chunks = visible (fst (program (non_constify_string (command_line_for path serial args)) w)) ∧
       consume_all consume_output chunks s = (snd st, Ok tt))
    (λ e st, catchable e ∧
       ∃ chunks, consume_all consume_output chunks s = (snd st, Ok tt)) (h, s).
Proof.
  intros Hc. unfold invoke_adb_capture_output. wp_step. apply wp_zoom. cbn [view fst_lens fst].
  eapply wp_mono; [apply find_adb_path_spec| |].
  2: { intros e h1 (-> & _). by split; [|exists []]. }
  intros path h1 _. unfold wp at 1. cbn [update fst_lens snd fst].
  pose proof (invoke_process_capture_output_spec consume_output Hc (command_line_for path serial args)
    CREATE_NEW_PROCESS_GROUP (hs_os h1) s) as Hi.
  unfold wp in Hi. destruct (invoke_process_capture_output _ _ _ _) as [[w2 s2] [code|e]].
  - destruct (program _ _) as [writes status] eqn:Ep. destruct Hi as ((chunks & Ech & Hr) & _).
    exists path, (hs_os h1), chunks. by rewrite Ep.
  - destruct Hi as [Hf Hr]. split; [by eapply invocation_failure_catchable|done].
Qed.
End Invoke.

(** ** Claims *)
Section Claims.
Context {W : Type} `{ProcessLaws W} `{!ExePath W}.

(** C21. Running a command gives its whole output: [invoke_throw_on_nonzero] returns
    exactly what the process wrote to standard output and error, however the pipe
    cuts it into pieces (a write of no bytes is taken for the end), when the process
    exits with zero, and throws a message with the exit code and the output when it
    does not; either way it returns, with every handle it opened closed again.
    Otherwise one of the calls that set the process up failed, with its message,
    and each of these failures but the first leaves handles open. *)
Theorem invoke_reports_output command (w : W) :
  wp (invoke_throw_on_nonzero command)
    (λ output w', let '(writes, status) := program (non_constify_string command) w in
       output = visible writes ∧ status = 0 ∧ open_handles w' = open_handles w)
    (λ e w', let '(writes, status) := program (non_constify_string command) w in
       e = RuntimeError (nonzero_exit_message (to_i32 status) (visible writes)) ∧ status ≠ 0 ∧
         open_handles w' = open_handles w ∨
       invocation_failure (open_handles w) e (open_handles w')) w.
Proof. apply invoke_throw_on_nonzero_spec. Qed.

(** adb is looked for once: on the path, then next to the executable (in
    quotes); the first that can be started is used and remembered, so that from then
    on it is returned at once, with no process started.  When neither can be started
    the search fails and will be made again; no handle is left open. *)
Theorem adb_found_once (h : host W) :
  wp find_adb_path
    (λ path h', find_adb_path h' = (h', Ok path) ∧ open_handles (hs_os h') = open_handles (hs_os h) ∧
       match adb_invoke_path h with
       | Some known => path = known ∧ h' = h
       | None => path = ws (bs "adb") ∨
           ∃ w dir, get_abs_path_from_rel_to_exe (ws (bs "platform-tools\adb.exe")) w = Some dir ∧
             path = [quote] ++ dir ++ [quote]
       end)
    (λ e h', e = RuntimeError "No ADB installation found!" ∧ adb_invoke_path h = None ∧
       adb_invoke_path h' = None ∧ open_handles (hs_os h') = open_handles (hs_os h)) h.
Proof.
  eapply wp_mono; [apply find_adb_path_spec| |done]. intros path h' (Ha & Ho & Hp).
  split_and!; [|done|done]. unfold find_adb_path, bind, gets. by rewrite Ha.
Qed.
End Claims.

(** ** A concrete system

    Handles are numbers and programs a function; the letters in use, the sockets
    and what can be connected to are for the instances of the files after this. *)
Record mini_os : Type := MiniOs {
  os_open : list Z;
  os_pending : gmap Z (list bytes);
  os_exits : gmap Z Z;
  os_program : wstring → option (list bytes * Z);
  os_ran : list wstring;
  os_letters : list Z;
  os_sockets : list Z;
  os_peers : gmap Z Z;
  os_uses : Z;
  os_reach : list Z;
}.

Definition next_handle (l : list Z) : Z := 1 + foldr Z.max 0 l.

Lemma next_handle_above l x : x ∈ l → x < next_handle l.
Proof.
  unfold next_handle. induction l as [|y l IH]; [by intros []%not_elem_of_nil|].
  intros [->|Hx]%elem_of_cons; simpl; [lia|]. specialize (IH Hx). lia.
Qed.

Definition program_of (w : mini_os) (c : wstring) : list bytes * Z := default ([], 0) (os_program w c).

Definition set_open (l : list Z) (w : mini_os) : mini_os :=
  MiniOs l (os_pending w) (os_exits w) (os_program w) (os_ran w) (os_letters w)
    (os_sockets w) (os_peers w) (os_uses w) (os_reach w).
Definition set_pending (r : Z) (writes : list bytes) (w : mini_os) : mini_os :=
  MiniOs (os_open w) (<[r := writes]> (os_pending w)) (os_exits w) (os_program w) (os_ran w) (os_letters w)
    (os_sockets w) (os_peers w) (os_uses w) (os_reach w).

(** The write end of a pipe is the handle after its read end. *)
#[global] Instance mini_processes : Processes mini_os := {|
  CreatePipe w := let r := next_handle (os_open w) in (set_open (r :: (r + 1) :: os_open w) w, Some (r, r + 1));
  SetHandleInformation _ w := (w, true);
  CreateProcess c out _ w :=
    match os_program w c with
    | Some (writes, status) =>
        let p := next_handle (os_open w) in
        (MiniOs (p :: (p + 1) :: os_open w)
           (match out with Some wr => <[wr - 1 := writes]> (os_pending w) | None => os_pending w end)
           (<[p := status mod 2 ^ 32]> (os_exits w)) (os_program w) (os_ran w ++ [c]) (os_letters w)
           (os_sockets w) (os_peers w) (os_uses w) (os_reach w), Some (p, p + 1))
    | None => (w, None)
    end;
  ReadFile r n w :=
    match default [] (os_pending w !! r) with
    | [] => (w, if bool_decide (r + 1 ∈ os_open w) then ReadBlocks else ReadFailed)
    | [] :: writes => (set_pending r writes w, ReadData [])
    | d :: writes =>
        (set_pending r (match zdrop n d with [] => writes | rest => rest :: writes end) w, ReadData (ztake n d))
    end;
  WaitForSingleObject _ w := (w, tt);
  GetExitCodeProcess p w := (w, Some (default 0 (os_exits w !! p) mod 2 ^ 32));
  CloseHandle h w := (set_open (base.filter (λ x, x ≠ h) (os_open w)) w, tt);
  open_handles w := list_to_set (os_open w);
  write_end r _ := r + 1;
  pending r w := default [] (os_pending w !! r);
  exit_status p w := default 0 (os_exits w !! p) mod 2 ^ 32;
  program c w := let '(writes, status) := program_of w c in (writes, status mod 2 ^ 32);
|}.

#[global] Instance mini_exe : ExePath mini_os := {|
  GetModuleFileName _ _ := Some (ws (bs "C:\nandroidfs\nandroidfs.exe"));
  PathRemoveFileSpec p := take 13 p;
  PathCombine d f := d ++ ws (bs "\") ++ f;
|}.

Lemma visible_cut n (c : byte) d writes :
  0 < n →
  visible ((c :: d) :: writes) =
    ztake n (c :: d) ++ visible (match zdrop n (c :: d) with [] => writes | rest => rest :: writes end).
Proof.
  intros Hn. cbn [visible]. rewrite <- (ztake_zdrop n (c :: d)) at 1. rewrite <- app_assoc. f_equal.
  by destruct (zdrop n (c :: d)).
Qed.

#[global] Instance mini_process_laws : ProcessLaws mini_os.
Proof.
  assert (Hfresh : ∀ (w : mini_os) k, 0 ≤ k → next_handle (os_open w) + k ∉ open_handles w).
  { intros w k Hk Hin%elem_of_list_to_set%next_handle_above. lia. }
  split.
  - intros w. simpl. pose proof (Hfresh w 0 ltac:(lia)) as H0. rewrite Z.add_0_r in H0.
    split_and!; [lia|exact H0|apply (Hfresh w 1); lia|set_solver|done..].
  - done.
  - intros c out flags w. simpl. unfold program_of. destruct (os_program w c) as [[writes status]|]; [|done].
    simpl. pose proof (Hfresh w 0 ltac:(lia)) as H0. rewrite Z.add_0_r in H0.
    split_and!; [lia|exact H0|apply (Hfresh w 1); lia|set_solver|done| |].
    + rewrite lookup_insert_eq. unfold default. apply Z.mod_mod. done.
    + intros r ->. by rewrite (Z.add_simpl_r r 1), lookup_insert_eq.
  - intros r n w Hn. simpl. destruct (default [] (os_pending w !! r)) as [|[|c d] writes] eqn:E; simpl; [|done|].
    + case_bool_decide; split_and!; try done. by apply elem_of_list_to_set.
    + rewrite lookup_insert_eq. unfold default. split_and!; [done..|].
      pose proof (visible_cut n c d writes Hn) as Hv.
      assert (Hz : zlen (ztake n (c :: d)) ≤ n) by (rewrite zlen_ztake; lia).
      destruct (ztake n (c :: d)) as [|c' t] eqn:Et; [|by split].
      exfalso. revert Et. unfold ztake. by destruct (Z.to_nat n) eqn:?; [lia|].
  - done.
  - intros p w. simpl. split; [done|]. intros c [= <-]. split; [done|]. by apply Z.mod_pos_bound.
  - intros h w. simpl. split; [|done]. apply set_eq. intros x.
    rewrite elem_of_list_to_set, elem_of_difference, elem_of_list_to_set, list_elem_of_filter. set_solver.
Qed.

Module AdbWitnesses.
(** adb is next to the executable, and lists a device in two writes, the second
    longer than the buffer. *)
Definition adb_exe : wstring := [quote] ++ ws (bs "C:\nandroidfs\platform-tools\adb.exe") ++ [quote].
Definition long_output : list bytes := [bs "List of devices attached"; replicate (Z.to_nat 5000) x2e].
Definition programs (c : wstring) : option (list bytes * Z) :=
  if bool_decide (c = command_line adb_exe (ws (bs "devices"))) then Some (long_output, 0)
  else if bool_decide (c = command_line_for adb_exe (ws (bs "1WMHH")) (ws (bs "push"))) then Some ([bs "error"], 1)
  else if bool_decide (c = adb_exe) then Some ([], 1)
  else None.
Definition os0 : mini_os := MiniOs [5] ∅ ∅ programs [] [] [] ∅ 0 [].

Example devices_listed :
  let '(h, r) := invoke_adb (ws (bs "devices")) (mkHost os0 None) in
  r = Ok (concat long_output) ∧ os_open (hs_os h) = [5] ∧
  os_ran (hs_os h) = [adb_exe; command_line adb_exe (ws (bs "devices"))].
Proof. vm_compute. done. Qed.

Example push_fails :
  snd (invoke_adb_with_serial (ws (bs "1WMHH")) (ws (bs "push")) (mkHost os0 None)) =
    Throw (RuntimeError "Got nonzero exit code from ADB: 1, stdout/stderr: error").
Proof. vm_compute. done. Qed.

Lemma invoke_reports_output_witness :
  program (non_constify_string (command_line adb_exe (ws (bs "devices")))) os0 = (long_output, 0) ∧
  wp (invoke_throw_on_nonzero (command_line adb_exe (ws (bs "devices"))))
    (λ output w', let '(writes, status) := program (non_constify_string (command_line adb_exe (ws (bs "devices")))) os0 in
       output = visible writes ∧ status = 0 ∧ open_handles w' = open_handles os0)
    (λ e w', let '(writes, status) := program (non_constify_string (command_line adb_exe (ws (bs "devices")))) os0 in
       e = RuntimeError (nonzero_exit_message (to_i32 status) (visible writes)) ∧ status ≠ 0 ∧
         open_handles w' = open_handles os0 ∨
       invocation_failure (open_handles os0) e (open_handles w')) os0.
Proof.
  split; [vm_compute; reflexivity|].
  apply (invoke_reports_output (command_line adb_exe (ws (bs "devices"))) os0).
Defined.

Lemma adb_found_once_witness :
  wp find_adb_path
    (λ path h', find_adb_path h' = (h', Ok path) ∧ open_handles (hs_os h') = open_handles (hs_os (mkHost os0 None)) ∧
       match adb_invoke_path (mkHost os0 None) with
       | Some known => path = known ∧ h' = mkHost os0 None
       | None => path = ws (bs "adb") ∨
           ∃ (w : mini_os) dir, get_abs_path_from_rel_to_exe (ws (bs "platform-tools\adb.exe")) w = Some dir ∧
             path = [quote] ++ dir ++ [quote]
       end)
    (λ e h', e = RuntimeError "No ADB installation found!" ∧ adb_invoke_path (mkHost os0 None) = None ∧
       adb_invoke_path h' = None ∧ open_handles (hs_os h') = open_handles (hs_os (mkHost os0 None)))
    (mkHost os0 None).
Proof. apply (adb_found_once (mkHost os0 None)). Defined.
End AdbWitnesses.
