(* ===== verification/Connection.v ===== *)
(** * The client's connection: nandroidfs/Connection.hpp and Connection.cpp

    One request at a time over the socket (each runs under [request_mutex]), with
    the stat cache and the directory-listing cache in front.  Connect.v has the
    constructor and the destructor, Traffic.v the byte counters of debug builds. *)

From S2P Require Import Prelude Effects Endian Wire Serialization Socket Requests Responses.
From S2P Require Import PathUtils Conversion TimedCache.

Definition STAT_CACHE_PERIOD : Z := 200.
Definition STAT_SCAN_PERIOD : Z := 5000.
Definition CONNECTION_BUFFER_SIZE : Z := 8192.
Definition HANDSHAKE_DATA : Z := 0xFAFE5ABE.
Definition DESKTOP_INI : bytes := bs "desktop.ini".

(** ** The connection object *)

(** [cn_consumed] records the calls made to the [consume_stat] callback, in
    order; [cn_ticks] counts the readings of the steady clock. *)
Record connection (N : Type) : Type := mkConnection {
  cn_socket : N;
  cn_reader : DataReader.t;
  cn_writer : DataWriter.t;
  cn_stat_cache : TimedCache FileStat;
  cn_dir_list_cache : TimedCache (list bytes);
  cn_consumed : list (FileStat * wstring);
  cn_ticks : nat;
}.
Arguments mkConnection {N} _ _ _ _ _ _ _.
Arguments cn_socket {N} _.
Arguments cn_reader {N} _.
Arguments cn_writer {N} _.
Arguments cn_stat_cache {N} _.
Arguments cn_dir_list_cache {N} _.
Arguments cn_consumed {N} _.
Arguments cn_ticks {N} _.

Definition conn_reader_lens {N} : lens (connection N) (N * DataReader.t) :=
  Lens (λ c, (cn_socket c, cn_reader c))
       (λ p c, mkConnection (fst p) (snd p) (cn_writer c) (cn_stat_cache c) (cn_dir_list_cache c)
                 (cn_consumed c) (cn_ticks c)).
Definition conn_writer_lens {N} : lens (connection N) (N * DataWriter.t) :=
  Lens (λ c, (cn_socket c, cn_writer c))
       (λ p c, mkConnection (fst p) (cn_reader c) (snd p) (cn_stat_cache c) (cn_dir_list_cache c)
                 (cn_consumed c) (cn_ticks c)).

Definition set_stat_cache {N} (s : TimedCache FileStat) (c : connection N) : connection N :=
  mkConnection (cn_socket c) (cn_reader c) (cn_writer c) s (cn_dir_list_cache c)
    (cn_consumed c) (cn_ticks c).
Definition set_dir_list_cache {N} (d : TimedCache (list bytes)) (c : connection N) : connection N :=
  mkConnection (cn_socket c) (cn_reader c) (cn_writer c) (cn_stat_cache c) d
    (cn_consumed c) (cn_ticks c).
Definition set_consumed {N} (l : list (FileStat * wstring)) (c : connection N) : connection N :=
  mkConnection (cn_socket c) (cn_reader c) (cn_writer c) (cn_stat_cache c) (cn_dir_list_cache c)
    l (cn_ticks c).
Definition set_ticks {N} (n : nat) (c : connection N) : connection N :=
  mkConnection (cn_socket c) (cn_reader c) (cn_writer c) (cn_stat_cache c) (cn_dir_list_cache c)
    (cn_consumed c) n.

Section Requests.
Context {N : Type} `{Socket N} `{WideStrings} (steady_now : nat → Z).
#[local] Instance conn_readable : Readable N := connection_read.
#[local] Instance conn_writable : Writable N := connection_write.
Import DataReader DataWriter.

Definition receive {A} (m : M (N * DataReader.t) A) : M (connection N) A := zoom conn_reader_lens m.
Definition transmit {A} (m : M (N * DataWriter.t) A) : M (connection N) A := zoom conn_writer_lens m.

Definition lift {A} (r : result A) : M (connection N) A := λ c, (c, r).

(** [std::chrono::steady_clock::now()] *)
Definition now : M (connection N) Z :=
  λ c, (set_ticks (S (cn_ticks c)) c, Ok (steady_now (cn_ticks c))).

(** ** The caches, as members *)
Definition stat_cache_get (path : bytes) : M (connection N) (option FileStat) :=
  let* t := now in
  λ c, let '(s, r) := get_cached t path (cn_stat_cache c) in (set_stat_cache s c, Ok r).
Definition stat_cache_put (path : bytes) (stat : FileStat) : M (connection N) unit :=
  let* t := now in
  let* t' := now in
  modify (λ c, set_stat_cache (cache t t' path stat (cn_stat_cache c)) c).
Definition stat_cache_invalidate (path : bytes) : M (connection N) unit :=
  modify (λ c, set_stat_cache (invalidate path (cn_stat_cache c)) c).

Definition dir_cache_get (path : bytes) : M (connection N) (option (list bytes)) :=
  let* t := now in
  λ c, let '(d, r) := get_cached t path (cn_dir_list_cache c) in (set_dir_list_cache d c, Ok r).
Definition dir_cache_put (path : bytes) (entries : list bytes) : M (connection N) unit :=
  let* t := now in
  let* t' := now in
  modify (λ c, set_dir_list_cache (cache t t' path entries (cn_dir_list_cache c)) c).
Definition dir_cache_invalidate (path : bytes) : M (connection N) unit :=
  modify (λ c, set_dir_list_cache (invalidate path (cn_dir_list_cache c)) c).

Definition invalidate_parent_dir (path : bytes) : M (connection N) unit :=
  match get_parent_path path with
  | Some parent => dir_cache_invalidate parent
  | None => ret tt
  end.

Definition consume_stat (stat : FileStat) (file_name : wstring) : M (connection N) unit :=
  modify (λ c, set_consumed (cn_consumed c ++ [(stat, file_name)]) c).

(** ** Pieces every request is made of *)
Definition write_request_type (t : RequestType) : M (connection N) unit :=
  transmit (write_byte Win32 (request_code t)).
Definition read_status : M (connection N) ResponseStatus :=
  let* b := receive (read_byte Win32) in ret (status_of_code b).

(** The members as the constructor initialises them over a connected socket, the
    clock having been read twice for the two caches. *)
Definition new_connection (conn_sock : N) : connection N :=
  mkConnection conn_sock (DataReader.create CONNECTION_BUFFER_SIZE)
    (DataWriter.create CONNECTION_BUFFER_SIZE)
    (TimedCache.create STAT_SCAN_PERIOD STAT_CACHE_PERIOD (steady_now 0))
    (TimedCache.create STAT_SCAN_PERIOD STAT_CACHE_PERIOD (steady_now 1)) [] 2.

Definition handshake : M (connection N) unit :=
  do* transmit (write_u32 Win32 HANDSHAKE_DATA) in
  do* transmit flush in
  let* received_data := receive (read_u32 Win32) in
  if received_data =? HANDSHAKE_DATA then ret tt
  else throw (RuntimeError "Failed handshake! Did not receive same bytes that were sent").

(** [out_file_stat] is [None] where the source leaves it unassigned. *)
Definition req_stat_file (path : wstring) : M (connection N) (ResponseStatus * option FileStat) :=
  let* unix_path := lift (win32_path_to_unix path) in
  let* cached_stat := stat_cache_get unix_path in
  match cached_stat with
  | Some s => ret (Success, Some s)
  | None =>
      let* cached_stat := stat_cache_get unix_path in
      match cached_stat with
      | Some s => ret (Success, Some s)
      | None =>
          if ends_with unix_path DESKTOP_INI then ret (FileNotFound, None)
          else
            do* write_request_type StatFile in
            do* transmit (write_utf8_string Win32 unix_path) in
            do* transmit flush in
            let* status := read_status in
            if negb (bool_decide (status = Success)) then ret (status, None)
            else
              let* out_file_stat := receive (read_FileStat Win32) in
              do* stat_cache_put unix_path out_file_stat in
              ret (Success, Some out_file_stat)
      end
  end.

(** The cached listing: entries whose stat is no longer cached are skipped. *)
Fixpoint replay_cached_dir (unix_dir_path : bytes) (cached_dir : list bytes) : M (connection N) unit :=
  match cached_dir with
  | [] => ret tt
  | name :: cached_dir =>
      let full_path := get_full_path unix_dir_path name in
      let* cached := stat_cache_get full_path in
      do* match cached with
          | Some s => let* w := lift (unix_path_to_win32 name) in consume_stat s w
          | None => ret tt
          end in
      replay_cached_dir unix_dir_path cached_dir
  end.

Definition try_use_cached_dir_listing (unix_dir_path : bytes) : M (connection N) bool :=
  let* opt_cached_dir := dir_cache_get unix_dir_path in
  match opt_cached_dir with
  | None => ret false
  | Some cached_dir =>
      do* replay_cached_dir unix_dir_path cached_dir in
      ret true
  end.

(** The response loop, until [NoMoreEntries]; returns the entry names.  Each
    turn takes at least a byte off the stream. *)
Fixpoint read_entries (fuel : nat) (unix_dir_path : bytes) (entries : list bytes)
    : M (connection N) (list bytes) :=
  match fuel with
  | O => throw OutOfFuel
  | S fuel =>
      let* entry_status := read_status in
      if bool_decide (entry_status = NoMoreEntries) then ret entries
      else if bool_decide (entry_status = Success) then
        let* file_name := receive (read_utf8_string Win32) in
        let* entry_stat := receive (read_FileStat Win32) in
        let full_entry_path := get_full_path unix_dir_path file_name in
        do* stat_cache_put full_entry_path entry_stat in
        let* w := lift (unix_path_to_win32 file_name) in
        do* consume_stat entry_stat w in
        read_entries fuel unix_dir_path (entries ++ [file_name])
      else read_entries fuel unix_dir_path entries
  end.

Definition req_list_file_stats (fuel : nat) (path : wstring) : M (connection N) ResponseStatus :=
  let* unix_dir_path := lift (win32_path_to_unix path) in
  let* used := try_use_cached_dir_listing unix_dir_path in
  if used : bool then ret Success
  else
    do* write_request_type ListDirectory in
    let* p := lift (win32_path_to_unix path) in
    do* transmit (write_utf8_string Win32 p) in
    do* transmit flush in
    let* status := read_status in
    if negb (bool_decide (status = Success)) then ret status
    else
      let* entries := read_entries fuel unix_dir_path [] in
      do* dir_cache_put unix_dir_path entries in
      ret Success.

Definition req_move_entry (from_path to_path : wstring) (replace_if_exists : bool)
    : M (connection N) ResponseStatus :=
  let* unix_from_path := lift (win32_path_to_unix from_path) in
  let* unix_to_path := lift (win32_path_to_unix to_path) in
  do* stat_cache_invalidate unix_from_path in
  do* invalidate_parent_dir unix_from_path in
  do* stat_cache_invalidate unix_to_path in
  do* invalidate_parent_dir unix_to_path in
  do* write_request_type MoveEntry in
  do* transmit (write_MoveEntryArgs Win32 (mkMoveEntryArgs unix_from_path unix_to_path replace_if_exists)) in
  do* transmit flush in
  read_status.

(** [req_remove_file], [req_remove_directory] and [req_create_directory] differ
    in the request type alone. *)
Definition req_changing_entry (t : RequestType) (path : wstring) : M (connection N) ResponseStatus :=
  let* unix_path := lift (win32_path_to_unix path) in
  do* stat_cache_invalidate unix_path in
  do* invalidate_parent_dir unix_path in
  do* write_request_type t in
  do* transmit (write_utf8_string Win32 unix_path) in
  do* transmit flush in
  read_status.
Definition req_remove_file := req_changing_entry RemoveFile.
Definition req_remove_directory := req_changing_entry RemoveDirectory.
Definition req_create_directory := req_changing_entry CreateDirectory.

Definition req_can_remove (t : RequestType) (path : wstring) : M (connection N) ResponseStatus :=
  do* write_request_type t in
  let* unix_path := lift (win32_path_to_unix path) in
  do* transmit (write_utf8_string Win32 unix_path) in
  do* transmit flush in
  read_status.
Definition req_can_remove_file := req_can_remove CheckRemoveFile.
Definition req_can_remove_directory := req_can_remove CheckRemoveDirectory.

(** The modes after which the parent's listing is dropped. *)
Definition may_create (mode : OpenMode) : bool :=
  match mode with
  | CreateAlways | CreateIfNotExist | CreateOrTruncate => true
  | _ => false
  end.

Definition req_open_file (path : wstring) (mode : OpenMode) (read_access write_access : bool)
    : M (connection N) (ResponseStatus * option Z) :=
  let* unix_path := lift (win32_path_to_unix path) in
  if ends_with unix_path DESKTOP_INI then ret (GenericFailure, None)
  else
    do* write_request_type OpenHandle in
    do* transmit (write_OpenHandleArgs Win32 (mkOpenHandleArgs unix_path mode read_access write_access)) in
    do* transmit flush in
    let* status := read_status in
    let* out_file_handle :=
      (if bool_decide (status = Success)
       then let* fd := receive (read_u32 Win32) in ret (Some fd) else ret None) in
    do* (if may_create mode then invalidate_parent_dir unix_path else ret tt) in
    ret (status, out_file_handle).

Definition req_close_file (file_handle : Z) : M (connection N) ResponseStatus :=
  do* write_request_type CloseHandle in
  do* transmit (write_u32 Win32 file_handle) in
  do* transmit flush in
  read_status.

(** [data_len] is a [uint32_t] that becomes [write_exact]'s [int]. *)
Definition req_write_to_file (file_handle file_offset : Z) (data : bytes) (data_len : Z)
    : M (connection N) ResponseStatus :=
  do* write_request_type WriteHandle in
  do* transmit (write_WriteHandleInitArgs Win32 (mkWriteHandleInitArgs file_handle file_offset data_len)) in
  do* transmit (write_exact data (to_i32 data_len)) in
  do* transmit flush in
  read_status.

(** The count is an [int]; the bytes go to the caller's buffer, which has room
    for [buffer_len]: a count beyond it is used unchecked. *)
Definition req_read_from_file (file_handle file_offset buffer_len : Z)
    : M (connection N) (ResponseStatus * option (Z * bytes)) :=
  do* write_request_type ReadHandle in
  do* transmit (write_ReadHandleArgs Win32 (mkReadHandleArgs file_handle buffer_len file_offset)) in
  do* transmit flush in
  let* status := read_status in
  if bool_decide (status = Success) then
    let* n := receive (read_u32 Win32) in
    let bytes_read := to_i32 n in
    do* (if buffer_len <? bytes_read then throw BufferOverrun else ret tt) in
    let* buffer := receive (read_exact bytes_read) in
    ret (status, Some (bytes_read, buffer))
  else ret (status, None).

Definition req_set_file_len (file_handle file_len : Z) : M (connection N) ResponseStatus :=
  do* write_request_type TruncateHandle in
  do* transmit (write_TruncateHandleArgs Win32 (mkTruncateHandleArgs file_handle file_len)) in
  do* transmit flush in
  read_status.

(** The parameters are [uint64_t]; the structure's fields are [int64_t]. *)
Definition req_set_file_time (path : wstring) (access_time write_time : Z)
    : M (connection N) ResponseStatus :=
  let* unix_path := lift (win32_path_to_unix path) in
  do* stat_cache_invalidate unix_path in
  do* write_request_type SetFileTime in
  do* transmit (write_SetFileTimeArgs Win32
                  (mkSetFileTimeArgs unix_path (to_i64 access_time) (to_i64 write_time))) in
  do* transmit flush in
  read_status.

Definition req_get_disk_stats : M (connection N) (ResponseStatus * option DiskStats) :=
  do* write_request_type GetDiskStats in
  do* transmit flush in
  let* status := read_status in
  if bool_decide (status = Success) then
    let* stats := receive (read_DiskStats Win32) in ret (status, Some stats)
  else ret (status, None).
End Requests.
