(* ===== verification/Client.v ===== *)
(** * The client implements the protocol

    Each [req_*] function of Connection.cpp, given the bytes of the daemon's
    response, puts exactly the encoded request on the wire, takes exactly the
    response off it, returns what the response says and keeps the caches in
    order. *)

From S2P Require Import Prelude Effects Endian Wire Serialization Socket Requests Responses.
From S2P Require Import PathUtils Conversion TimedCache Posix ClientHandler Protocol Connection.

Section Client.
Context {N : Type} `{SocketLaws N} `{WideStrings} (steady_now : nat → Z).
#[local] Existing Instance conn_readable.
#[local] Existing Instance conn_writable.
#[local] Instance client_duplex : Duplex N := connection_duplex.

(** Everything in a connection but the socket and its buffers. *)
Record local_state : Type := mkLocal {
  lc_stats : TimedCache FileStat;
  lc_dirs : TimedCache (list bytes);
  lc_consumed : list (FileStat * wstring);
  lc_ticks : nat;
}.
Definition local_of (c : connection N) : local_state :=
  mkLocal (cn_stat_cache c) (cn_dir_list_cache c) (cn_consumed c) (cn_ticks c).

(** The connection has [inp] to read, has written [out], and holds [k]. *)
Definition conn_at (c : connection N) (inp out : bytes) (k : local_state) : Prop :=
  DataReader.wf (cn_reader c) ∧ DataWriter.wf (cn_writer c) ∧
  DataReader.rest (cn_socket c, cn_reader c) = inp ∧
  DataWriter.written (cn_socket c, cn_writer c) = out ∧ local_of c = k.

Definition conn_flushed (c : connection N) : Prop :=
  outgoing (cn_socket c) = DataWriter.written (cn_socket c, cn_writer c).

Implicit Types (c : connection N) (k : local_state) (inp out tl : bytes).

(** ** Rules *)
Lemma wp_receive {A} (m : M (N * DataReader.t) A) p a tl Φ (E : exn → connection N → Prop) c inp out k :
  DataReader.reads m p → conn_at c inp out k → p inp = Some (a, tl) →
  (∀ c', conn_at c' tl out k → (conn_flushed c → conn_flushed c') → Φ a c') →
  (∀ e c', io_error e = true → E e c') →
  wp (receive m) Φ E c.
Proof.
  intros Hm (Hr & Hw & Hi & Ho & Hk) Hp HΦ HE. apply wp_zoom. simpl.
  eapply wp_mono; [by apply Hm|..].
  - intros a' [s r] (Hp' & ? & ? & Hout). simpl in *. rewrite Hi, Hp in Hp'.
    injection Hp' as <- ->. apply HΦ; [split_and!; try done; simpl|];
    unfold conn_flushed, DataWriter.written in *; simpl in *; congruence.
  - intros e s [_ [?|(_ & Hn & _)]]; [by apply HE|]. simpl in Hn. congruence.
Qed.

Lemma wp_transmit {A} (m : M (N * DataWriter.t) A) d Φ c inp out k :
  DataWriter.writes m d → conn_at c inp out k →
  (∀ a c', conn_at c' inp (out ++ d) k → Φ a c') →
  wp (transmit m) Φ only_io c.
Proof.
  intros Hm (Hr & Hw & Hi & Ho & Hk) HΦ. apply wp_zoom. simpl.
  eapply wp_mono; [by apply Hm| |by intros ?? []].
  intros a [s w] (Hd & ? & ? & Hin). simpl in *. apply HΦ. split_and!; try done.
  - simpl. unfold DataReader.rest in *. simpl in *. by rewrite Hin.
  - simpl. by rewrite Hd, Ho.
Qed.

Lemma wp_flush_request Φ c inp out k :
  conn_at c inp out k →
  (∀ c', conn_at c' inp out k → conn_flushed c' → Φ tt c') →
  wp (transmit DataWriter.flush) Φ only_io c.
Proof.
  intros (Hr & Hw & Hi & Ho & Hk) HΦ. apply wp_zoom. simpl.
  eapply wp_mono; [by apply DataWriter.flush_spec| |by intros ?? []].
  intros [] [s w] ((Hd & ? & ? & Hin) & Hout & _). simpl in *. rewrite app_nil_r in Hd.
  apply HΦ; [|unfold conn_flushed; simpl; by rewrite Hout, Hd].
  split_and!; try done; simpl; [|by rewrite Hd].
  unfold DataReader.rest in *. simpl in *. by rewrite Hin.
Qed.

Lemma wp_read_status s tl Φ c out k :
  listed_status s → conn_at c (encode s ++ tl) out k →
  (∀ c', conn_at c' tl out k → (conn_flushed c → conn_flushed c') → Φ s c') →
  wp read_status Φ only_io c.
Proof.
  intros Hs Hc HΦ. unfold read_status. wp_step.
  eapply wp_receive; [apply DataReader.reads_byte|done| | |done].
  - apply p_u8_encode. by apply status_code_u8.
  - intros c' Hc' Hfl. wp_step. rewrite status_of_code_code by done. by apply HΦ.
Qed.

Lemma wp_lift {A} (r : result A) (a : A) Φ E c : r = Ok a → Φ a c → wp (lift r) Φ E c.
Proof. intros ->. done. Qed.

(** ** Steps on the local state

    [local_step m f]: [m] touches nothing but the local state, on which it
    acts as [f], and does not throw. *)
Definition local_step {A} (m : M (connection N) A) (f : local_state → local_state * A) : Prop :=
  ∀ c, let '(c', r) := m c in
    cn_socket c' = cn_socket c ∧ cn_reader c' = cn_reader c ∧ cn_writer c' = cn_writer c ∧
    local_of c' = fst (f (local_of c)) ∧ r = Ok (snd (f (local_of c))).

Lemma wp_local_step {A} (m : M (connection N) A) f Φ E c inp out k :
  local_step m f → conn_at c inp out k →
  (∀ c', conn_at c' inp out (fst (f k)) → (conn_flushed c → conn_flushed c') → Φ (snd (f k)) c') →
  wp m Φ E c.
Proof.
  intros Hm (Hr & Hw & Hi & Ho & Hk) HΦ. specialize (Hm c). unfold wp.
  destruct (m c) as [c' r]. destruct Hm as (E1 & E2 & E3 & E4 & ->). rewrite Hk in *.
  apply HΦ; unfold conn_at, conn_flushed; rewrite E1, ?E2, E3; [by split_and!|done].
Qed.

Lemma local_ret {A} (a : A) : local_step (ret a) (λ k, (k, a)).
Proof. done. Qed.

Lemma local_bind {A B} (m : M (connection N) A) (n : A → M (connection N) B) f g :
  local_step m f → (∀ a, local_step (n a) (g a)) →
  local_step (bind m n) (λ k, g (snd (f k)) (fst (f k))).
Proof.
  intros Hm Hn c. unfold bind. specialize (Hm c). destruct (m c) as [c' r].
  destruct Hm as (E1 & E2 & E3 & E4 & ->). specialize (Hn (snd (f (local_of c))) c').
  destruct (n _ c') as [c'' r']. destruct Hn as (F1 & F2 & F3 & F4 & ->).
  rewrite <- E4. split_and!; congruence.
Qed.

Definition drop_stat (p : bytes) k : local_state :=
  mkLocal (invalidate p (lc_stats k)) (lc_dirs k) (lc_consumed k) (lc_ticks k).
Definition drop_parent (p : bytes) k : local_state :=
  match get_parent_path p with
  | Some parent => mkLocal (lc_stats k) (invalidate parent (lc_dirs k)) (lc_consumed k) (lc_ticks k)
  | None => k
  end.
Definition stat_lookup (p : bytes) k : local_state * option FileStat :=
  let '(s, r) := get_cached (steady_now (lc_ticks k)) p (lc_stats k) in
  (mkLocal s (lc_dirs k) (lc_consumed k) (S (lc_ticks k)), r).
Definition dir_lookup (p : bytes) k : local_state * option (list bytes) :=
  let '(d, r) := get_cached (steady_now (lc_ticks k)) p (lc_dirs k) in
  (mkLocal (lc_stats k) d (lc_consumed k) (S (lc_ticks k)), r).
Definition stat_store (p : bytes) (s : FileStat) k : local_state :=
  mkLocal (cache (steady_now (lc_ticks k)) (steady_now (S (lc_ticks k))) p s (lc_stats k))
    (lc_dirs k) (lc_consumed k) (S (S (lc_ticks k))).
Definition dir_store (p : bytes) (names : list bytes) k : local_state :=
  mkLocal (lc_stats k)
    (cache (steady_now (lc_ticks k)) (steady_now (S (lc_ticks k))) p names (lc_dirs k))
    (lc_consumed k) (S (S (lc_ticks k))).
Definition consumed (s : FileStat) (w : wstring) k : local_state :=
  mkLocal (lc_stats k) (lc_dirs k) (lc_consumed k ++ [(s, w)]) (lc_ticks k).

Lemma local_drop_stat p : local_step (stat_cache_invalidate p) (λ k, (drop_stat p k, tt)).
Proof. done. Qed.
Lemma local_drop_parent p : local_step (invalidate_parent_dir p) (λ k, (drop_parent p k, tt)).
Proof. intros c. unfold invalidate_parent_dir, drop_parent. by destruct (get_parent_path p). Qed.
Lemma local_stat_lookup p : local_step (stat_cache_get steady_now p) (stat_lookup p).
Proof.
  intros c. unfold stat_cache_get, now, bind, stat_lookup. simpl.
  by destruct (get_cached _ p (cn_stat_cache c)).
Qed.
Lemma local_dir_lookup p : local_step (dir_cache_get steady_now p) (dir_lookup p).
Proof.
  intros c. unfold dir_cache_get, now, bind, dir_lookup. simpl.
  by destruct (get_cached _ p (cn_dir_list_cache c)).
Qed.
Lemma local_stat_store p s :
  local_step (stat_cache_put steady_now p s) (λ k, (stat_store p s k, tt)).
Proof. done. Qed.
Lemma local_dir_store p l :
  local_step (dir_cache_put steady_now p l) (λ k, (dir_store p l k, tt)).
Proof. done. Qed.
Lemma local_consumed s w : local_step (consume_stat s w) (λ k, (consumed s w k, tt)).
Proof. done. Qed.

(** ** Exchanges

    [q] went out, the whole response came in. *)
Definition exchanged (q : request) tl out k' c : Prop :=
  conn_at c tl (out ++ encode_request q) k' ∧ conn_flushed c.

Ltac next := match goal with Hx : conn_at ?x _ _ _ |- _ => clear dependent x end; intros.
Ltac do_transmit lem :=
  wp_step; eapply wp_transmit; [apply lem|eassumption|];
  match goal with Hx : conn_at ?x _ _ _ |- _ => clear dependent x end; intros ? c Hc.
Ltac do_local lem :=
  wp_step; eapply wp_local_step; [apply lem|eassumption|]; cbn [fst snd];
  let y := fresh in let Hy := fresh in intros y Hy _;
  match goal with Hx : conn_at ?x _ _ _ |- _ =>
    lazymatch x with y => fail | _ => clear dependent x end end;
  rename y into c, Hy into Hc.
Ltac do_flush :=
  wp_step; eapply wp_flush_request; [eassumption|];
  match goal with Hx : conn_at ?x _ _ _ |- _ => clear dependent x end; intros c Hc Hfl.
Ltac do_lift := wp_step; eapply wp_lift; [eassumption|]; cbv beta.
Ltac sent_ok := unfold encode_request; cbn [request_body request_type] in *; rewrite ?app_assoc in *; eassumption.

Lemma writes_request_type t :
  DataWriter.writes (DataWriter.write_byte Win32 (request_code t)) (e_u8 (request_code t)).
Proof. apply DataWriter.writes_byte. Qed.

(** The end of a request answered by a status alone. *)
Lemma finish_status q s tl out k c :
  listed_status s →
  conn_at c (encode s ++ tl) (out ++ encode_request q) k → conn_flushed c →
  wp read_status (λ r c', r = s ∧ exchanged q tl out k c') only_io c.
Proof.
  intros Hs Hc Hfl. eapply wp_read_status; [done..|]. intros c' Hc' Hfl'.
  split; [done|]. by split; [|apply Hfl'].
Qed.

Lemma req_changing_entry_spec t w p q s tl out k c :
  win32_path_to_unix w = Ok p → short p →
  encode_request q = e_u8 (request_code t) ++ e_string p → listed_status s →
  conn_at c (encode s ++ tl) out k →
  wp (req_changing_entry t w)
     (λ r c', r = s ∧ exchanged q tl out (drop_parent p (drop_stat p k)) c') only_io c.
Proof.
  intros Hw Hp Hq Hs Hc. unfold req_changing_entry. do_lift.
  do_local local_drop_stat. do_local local_drop_parent.
  do_transmit writes_request_type. do_transmit (DataWriter.writes_utf8_string Win32 p Hp).
  do_flush. apply finish_status; [done| |done]. rewrite Hq, app_assoc. exact Hc.
Qed.

Lemma req_can_remove_spec t w p q s tl out k c :
  win32_path_to_unix w = Ok p → short p →
  encode_request q = e_u8 (request_code t) ++ e_string p → listed_status s →
  conn_at c (encode s ++ tl) out k →
  wp (req_can_remove t w) (λ r c', r = s ∧ exchanged q tl out k c') only_io c.
Proof.
  intros Hw Hp Hq Hs Hc. unfold req_can_remove. do_transmit writes_request_type. do_lift.
  do_transmit (DataWriter.writes_utf8_string Win32 p Hp).
  do_flush. apply finish_status; [done| |done]. rewrite Hq, app_assoc. exact Hc.
Qed.

Lemma req_move_entry_spec wf wt f t b s tl out k c :
  win32_path_to_unix wf = Ok f → win32_path_to_unix wt = Ok t → short f → short t →
  listed_status s → conn_at c (encode s ++ tl) out k →
  wp (req_move_entry wf wt b)
     (λ r c', r = s ∧ exchanged (QMove (mkMoveEntryArgs f t b)) tl out
        (drop_parent t (drop_stat t (drop_parent f (drop_stat f k)))) c') only_io c.
Proof.
  intros Hwf Hwt Hf Ht Hs Hc. unfold req_move_entry. do 2 do_lift.
  do_local local_drop_stat. do_local local_drop_parent. do_local local_drop_stat. do_local local_drop_parent.
  do_transmit writes_request_type.
  do_transmit (writes_MoveEntryArgs Win32 (mkMoveEntryArgs f t b) (conj Hf Ht)).
  do_flush. apply finish_status; [done|sent_ok|done].
Qed.

Lemma req_close_file_spec fd s tl out k c :
  listed_status s → conn_at c (encode s ++ tl) out k →
  wp (req_close_file fd) (λ r c', r = s ∧ exchanged (QClose fd) tl out k c') only_io c.
Proof.
  intros Hs Hc. unfold req_close_file. do_transmit writes_request_type.
  do_transmit @DataWriter.writes_u32. do_flush. apply finish_status; [done|sent_ok|done].
Qed.

Lemma req_set_file_len_spec fd n s tl out k c :
  is_u32 fd → is_u64 n → listed_status s → conn_at c (encode s ++ tl) out k →
  wp (req_set_file_len fd n)
     (λ r c', r = s ∧ exchanged (QTruncate (mkTruncateHandleArgs fd n)) tl out k c') only_io c.
Proof.
  intros Hfd Hn Hs Hc. unfold req_set_file_len. do_transmit writes_request_type.
  do_transmit (writes_TruncateHandleArgs Win32 (mkTruncateHandleArgs fd n) (conj Hfd Hn)).
  do_flush. apply finish_status; [done|sent_ok|done].
Qed.

Lemma req_set_file_time_spec w p a m s tl out k c :
  win32_path_to_unix w = Ok p → short p → listed_status s →
  conn_at c (encode s ++ tl) out k →
  wp (req_set_file_time w a m)
     (λ r c', r = s ∧ exchanged (QSetTime (mkSetFileTimeArgs p (to_i64 a) (to_i64 m))) tl out
        (drop_stat p k) c') only_io c.
Proof.
  intros Hw Hp Hs Hc. unfold req_set_file_time. do_lift. do_local local_drop_stat.
  do_transmit writes_request_type.
  do_transmit (writes_SetFileTimeArgs Win32 (mkSetFileTimeArgs p (to_i64 a) (to_i64 m))
                 (conj Hp (conj (to_signed_range 64 a eq_refl) (to_signed_range 64 m eq_refl)))).
  do_flush. apply finish_status; [done|sent_ok|done].
Qed.

(** ** Requests whose response carries data

    Between the flush and the end of the response nothing waits to be sent. *)
Definition settled c inp out k : Prop := conn_at c inp out k ∧ conn_flushed c.

Lemma settled_status s tl Φ c out k :
  listed_status s → settled c (encode s ++ tl) out k →
  (∀ c', settled c' tl out k → Φ s c') → wp read_status Φ only_io c.
Proof.
  intros Hs [Hc Hf] HΦ. eapply wp_read_status; [done..|]. intros c' Hc' Hf'.
  apply HΦ. by split; [|apply Hf'].
Qed.

Lemma settled_receive {A} (m : M (N * DataReader.t) A) p a tl Φ c inp out k :
  DataReader.reads m p → settled c inp out k → p inp = Some (a, tl) →
  (∀ c', settled c' tl out k → Φ a c') → wp (receive m) Φ only_io c.
Proof.
  intros Hm [Hc Hf] Hp HΦ. eapply wp_receive; [done..| |done]. intros c' Hc' Hf'.
  apply HΦ. by split; [|apply Hf'].
Qed.

Ltac drop_state := match goal with
  | Hx : conn_at ?x _ _ _ |- _ => clear dependent x
  | Hx : settled ?x _ _ _ |- _ => clear dependent x end.
Ltac do_flush' :=
  do_flush; match goal with Hx : conn_at ?x ?i ?o ?l, Hf : conn_flushed ?x |- _ =>
    let Hs := fresh in assert (Hs : settled x i o l) by (split; assumption);
    clear Hx Hf; rename Hs into Hc end.
Ltac do_status :=
  wp_step; eapply settled_status; [|eassumption|]; [done|]; drop_state; intros c Hc.
Ltac do_receive lem dec :=
  wp_step; eapply settled_receive; [apply lem|eassumption|by apply dec|]; drop_state; intros c Hc.

(** What a response hands the caller: the status, and the decoded value. *)
Definition answer_status (r : response) : ResponseStatus :=
  match r with RStatus s => s | _ => Success end.

Ltac by_response r :=
  let Hs := fresh "Hs" in let Hne := fresh "Hne" in
  destruct r as [?s|?st|?fd|?d|?ds|?es]; cbn [fits answer_status] in *;
  match goal with Hr : False |- _ => destruct Hr | Hr : refusal _ |- _ => destruct Hr as [Hs Hne] | _ => idtac end;
  cbn [encode_response] in *; rewrite <- ?app_assoc in *.

Lemma req_get_disk_stats_spec r tl out k c :
  fits QDisk r → conn_at c (encode_response r ++ tl) out k →
  wp req_get_disk_stats
     (λ a c', a = (answer_status r, match r with RDisk d => Some d | _ => None end) ∧
        exchanged QDisk tl out k c') only_io c.
Proof.
  intros Hr Hc. unfold req_get_disk_stats. do_transmit writes_request_type. do_flush'.
  assert (Eq : encode_request QDisk = e_u8 (request_code GetDiskStats)) by apply app_nil_r.
  rewrite <- Eq in Hc. by_response r.
  - do_status. by rewrite bool_decide_false.
  - do_status. rewrite bool_decide_true by done. do_receive @reads_DiskStats @parse_encode.
    by wp_step.
Qed.

(** Reading from and writing to the socket leave the local state as it is, also
    when they fail. *)
Definition kept {A} (m : M (connection N) A) : Prop := ∀ c, local_of (fst (m c)) = local_of c.

Lemma kept_receive {A} (m : M (N * DataReader.t) A) : kept (receive m).
Proof. intros c. unfold receive, zoom. by destruct (m _) as [[s r] x]. Qed.
Lemma kept_transmit {A} (m : M (N * DataWriter.t) A) : kept (transmit m).
Proof. intros c. unfold transmit, zoom. by destruct (m _) as [[s r] x]. Qed.
Lemma kept_status : kept read_status.
Proof.
  intros c. unfold read_status, bind. pose proof (kept_receive (DataReader.read_byte Win32) c) as Hk.
  by destruct (receive _ c) as [c' [b|e]].
Qed.

Lemma wp_kept {A} (m : M (connection N) A) Φ (E : exn → connection N → Prop) k c :
  kept m → local_of c = k → (∀ e c', io_error e = true → local_of c' = k → E e c') →
  wp m Φ only_io c → wp m Φ E c.
Proof.
  intros Hm <- HE. specialize (Hm c). unfold wp. destruct (m c) as [c' [a|e]]; [done|].
  intros He. by apply HE.
Qed.

Lemma settled_local_step {A} (m : M (connection N) A) f Φ E c inp out k :
  local_step m f → settled c inp out k →
  (∀ c', settled c' inp out (fst (f k)) → Φ (snd (f k)) c') → wp m Φ E c.
Proof.
  intros Hm [Hc Hf] HΦ. eapply wp_local_step; [done..|]. intros c' Hc' Hf'.
  apply HΦ. by split; [|apply Hf'].
Qed.

Ltac do_settled lem :=
  wp_step; eapply settled_local_step; [apply lem|eassumption|]; cbn [fst snd];
  drop_state; intros c Hc.

(** The open modes the client uses are the listed ones. *)
Lemma req_open_file_spec w p mode ra wa r tl out k c :
  win32_path_to_unix w = Ok p → short p → ends_with p DESKTOP_INI = false → listed_mode mode →
  fits (QOpen (mkOpenHandleArgs p mode ra wa)) r → conn_at c (encode_response r ++ tl) out k →
  wp (req_open_file w mode ra wa)
     (λ a c', a = (answer_status r, match r with ROpened fd => Some fd | _ => None end) ∧
        exchanged (QOpen (mkOpenHandleArgs p mode ra wa)) tl out
          (if may_create mode then drop_parent p k else k) c') only_io c.
Proof.
  intros Hw Hp Hd Hm Hr Hc. unfold req_open_file. do_lift. rewrite Hd.
  do_transmit writes_request_type.
  do_transmit (writes_OpenHandleArgs Win32 (mkOpenHandleArgs p mode ra wa) (conj Hp Hm)).
  do_flush'. rewrite <- app_assoc in Hc. by_response r.
  - do_status. rewrite bool_decide_false by done. do 3 wp_step.
    destruct (may_create mode); [|by do 2 wp_step].
    eapply settled_local_step; [apply local_drop_parent|done|]. intros c' Hc'. by wp_step.
  - do_status. rewrite bool_decide_true by done. wp_step.
    do_receive @DataReader.reads_u32 p_u32_encode. do 2 wp_step.
    destruct (may_create mode); [|by do 2 wp_step].
    eapply settled_local_step; [apply local_drop_parent|done|]. intros c' Hc'. by wp_step.
Qed.

Lemma req_read_from_file_spec fd off n r tl out k c :
  is_u32 fd → is_u64 off → 0 ≤ n < 2 ^ 31 →
  fits (QRead (mkReadHandleArgs fd n off)) r → conn_at c (encode_response r ++ tl) out k →
  wp (req_read_from_file fd off n)
     (λ a c', a = (answer_status r, match r with RData d => Some (zlen d, d) | _ => None end) ∧
        exchanged (QRead (mkReadHandleArgs fd n off)) tl out k c') only_io c.
Proof.
  intros Hfd Hoff Hn Hr Hc. unfold req_read_from_file. do_transmit writes_request_type.
  do_transmit (writes_ReadHandleArgs Win32 (mkReadHandleArgs fd n off)
                 ltac:(split_and!; [done|unfold is_unsigned; simpl; lia|done])).
  do_flush'. rewrite <- app_assoc in Hc. by_response r.
  - do_status. by rewrite bool_decide_false.
  - pose proof (zlen_nonneg d) as Hpos. cbn [rh_data_len] in Hr.
    do_status. rewrite bool_decide_true by done.
    assert (is_u32 (zlen d)) by (unfold is_unsigned; lia).
    do_receive @DataReader.reads_u32 p_u32_encode. rewrite to_signed_nonneg by lia.
    rewrite (proj2 (Z.ltb_ge _ _)) by lia. wp_step. wp_step.
    do_receive @DataReader.reads_exact ptake_app. by wp_step.
Qed.

Lemma req_write_to_file_spec fd off d s tl out k c :
  is_u32 fd → is_u64 off → zlen d < 2 ^ 31 → listed_status s →
  conn_at c (encode s ++ tl) out k →
  wp (req_write_to_file fd off d (zlen d))
     (λ r c', r = s ∧ exchanged (QWrite fd off d) tl out k c') only_io c.
Proof.
  intros Hfd Hoff Hn Hs Hc. pose proof (zlen_nonneg d). unfold req_write_to_file.
  do_transmit writes_request_type.
  do_transmit (writes_WriteHandleInitArgs Win32 (write_args fd off d)
                 ltac:(split_and!; [done|done|unfold is_unsigned; simpl; lia])).
  rewrite to_signed_nonneg by lia.
  do_transmit (@DataWriter.writes_exact_all N _ _ _ d (zlen d) eq_refl). do_flush.
  apply finish_status; [done|sent_ok|done].
Qed.

(** ** Stat, through the cache *)
Lemma req_stat_file_hit w p st k1 inp out k c :
  win32_path_to_unix w = Ok p → stat_lookup p k = (k1, Some st) → conn_at c inp out k →
  wp (req_stat_file steady_now w)
     (λ a c', a = (Success, Some st) ∧ conn_at c' inp out k1 ∧ (conn_flushed c → conn_flushed c')) only_io c.
Proof.
  intros Hw Hl Hc. unfold req_stat_file. do_lift. wp_step.
  eapply wp_local_step; [apply local_stat_lookup|exact Hc|]. rewrite Hl. cbn [fst snd]. intros c' Hc' Hf. by wp_step.
Qed.

Lemma req_stat_file_miss w p r k1 k2 tl out k c :
  win32_path_to_unix w = Ok p → short p → ends_with p DESKTOP_INI = false →
  stat_lookup p k = (k1, None) → stat_lookup p k1 = (k2, None) →
  fits (QStat p) r → conn_at c (encode_response r ++ tl) out k →
  wp (req_stat_file steady_now w)
     (λ a c', a = (answer_status r, match r with RStat s => Some s | _ => None end) ∧
        exchanged (QStat p) tl out (match r with RStat s => stat_store p s k2 | _ => k2 end) c')
     only_io c.
Proof.
  intros Hw Hp Hd Hl1 Hl2 Hr Hc. unfold req_stat_file. do_lift. do_local local_stat_lookup.
  rewrite Hl1 in *. cbn [fst snd] in *. do_local local_stat_lookup. rewrite Hl2 in *. cbn [fst snd] in *.
  rewrite Hd. do_transmit writes_request_type.
  do_transmit (DataWriter.writes_utf8_string Win32 p Hp). do_flush'.
  rewrite <- app_assoc in Hc. by_response r.
  - do_status. by rewrite bool_decide_false.
  - do_status. rewrite bool_decide_true by done. cbn [negb]. do_receive @reads_FileStat @parse_encode.
    do_settled local_stat_store. by wp_step.
Qed.

Lemma req_stat_file_desktop_ini w p k1 k2 inp out k c :
  win32_path_to_unix w = Ok p → ends_with p DESKTOP_INI = true →
  stat_lookup p k = (k1, None) → stat_lookup p k1 = (k2, None) → conn_at c inp out k →
  wp (req_stat_file steady_now w)
     (λ a c', a = (FileNotFound, None) ∧ conn_at c' inp out k2 ∧ (conn_flushed c → conn_flushed c')) only_io c.
Proof.
  intros Hw Hd Hl1 Hl2 Hc. unfold req_stat_file. do_lift. wp_step.
  eapply wp_local_step; [apply local_stat_lookup|exact Hc|]. rewrite Hl1. intros c1 Hc1 Hf1. cbn [fst snd] in *. wp_step.
  eapply wp_local_step; [apply local_stat_lookup|exact Hc1|]. rewrite Hl2. intros c2 Hc2 Hf2. cbn [fst snd] in *.
  rewrite Hd. wp_step. auto.
Qed.

(** ** Directory listings *)
Section Listing.
(** The Windows form of the entry names that occur. *)
Context (wide : bytes → wstring) (dir : bytes).

Definition decodes (e : entry) : Prop :=
  match e with inl _ => True | inr (name, _) => unix_path_to_win32 name = Ok (wide name) end.

Definition entry_names (es : list entry) : list bytes :=
  omap (λ e, match e with inl _ => None | inr (name, _) => Some name end) es.
Definition entry_stats (es : list entry) : list (FileStat * wstring) :=
  omap (λ e, match e with inl _ => None | inr (name, st) => Some (st, wide name) end) es.

Definition store_entry k (e : entry) : local_state :=
  match e with
  | inl _ => k
  | inr (name, st) => consumed st (wide name) (stat_store (get_full_path dir name) st k)
  end.

(** The listing was cut short by the transport: the entries that came in whole were
    passed on, in order. *)
Definition cut_short (es : list entry) k (e : exn) c : Prop :=
  io_error e = true ∧ ∃ n, cn_consumed c = lc_consumed k ++ take n (entry_stats es).

Lemma cut_at_once es k e c' : io_error e = true → local_of c' = k → cut_short es k e c'.
Proof. intros He <-. split; [done|]. exists 0%nat. by rewrite take_0, app_nil_r. Qed.

Lemma cut_later e es k e' c' :
  cut_short es (store_entry k e) e' c' → cut_short (e :: es) k e' c'.
Proof.
  intros [He [n Hn]]. split; [done|]. destruct e as [s|[name st]]; [by exists n|]. exists (S n).
  simpl in *. rewrite Hn. by rewrite <- app_assoc.
Qed.

Lemma read_entries_spec es fuel names tl out k c :
  Forall valid_entry es → Forall decodes es → (length es < fuel)%nat →
  settled c (encode_entries es ++ tl) out k →
  wp (read_entries steady_now fuel dir names)
     (λ a c', a = names ++ entry_names es ∧ settled c' tl out (foldl store_entry k es)) (cut_short es k) c.
Proof.
  revert fuel names k c. induction es as [|e es IH]; intros [|fuel] names k c Hv Hd Hf Hc;
    try (simpl in Hf; lia); cbn [read_entries].
  - change (encode_entries [] ++ tl) with (encode NoMoreEntries ++ tl) in Hc.
    wp_step. apply (wp_kept _ _ _ k); [apply kept_status|apply Hc|apply cut_at_once|].
    eapply settled_status; [|exact Hc|]; [done|]. intros c' Hc'.
    rewrite bool_decide_true by done. wp_step. by rewrite app_nil_r.
  - apply Forall_cons in Hv as [Hve Hv], Hd as [Hde Hd].
    unfold encode_entries in Hc. cbn [map concat] in Hc. rewrite <- !app_assoc in Hc.
    wp_step. apply (wp_kept _ _ _ k); [apply kept_status|apply Hc|apply cut_at_once|].
    destruct e as [s|[name st]]; cbn [encode_entry] in Hc.
    + destruct Hve as (Hs & Hns & Hnm). eapply settled_status; [|exact Hc|]; [done|]. intros c1 Hc1.
      rewrite !bool_decide_false by done.
      eapply wp_mono; [apply (IH fuel names k); [done..|simpl in Hf; lia|]|done|by intros ? ? ?%(cut_later (inl s))].
      unfold encode_entries. by rewrite <- app_assoc.
    + destruct Hve as [Hn Hst]. assert (short name) by (unfold short; lia). rewrite <- !app_assoc in Hc.
      eapply settled_status; [|exact Hc|]; [done|]. intros c1 Hc1.
      rewrite bool_decide_false, bool_decide_true by done.
      wp_step. apply (wp_kept _ _ _ k); [apply kept_receive|apply Hc1|apply cut_at_once|].
      eapply settled_receive; [apply @DataReader.reads_utf8_string|exact Hc1|by apply p_string_encode|].
      intros c2 Hc2. wp_step. apply (wp_kept _ _ _ k); [apply kept_receive|apply Hc2|apply cut_at_once|].
      eapply settled_receive; [apply @reads_FileStat|exact Hc2|by apply @parse_encode|].
      clear dependent c c1 c2. intros c Hc. do_settled local_stat_store.
      wp_step. eapply wp_lift; [exact Hde|]. do_settled local_consumed.
      eapply wp_mono; [apply (IH fuel); [done..|simpl in Hf; lia|]| |by intros ? ? ?%(cut_later (inr (name, st)))].
      * unfold encode_entries. by rewrite <- app_assoc.
      * intros a c' [-> Hc']. simpl. by rewrite <- app_assoc.
Qed.

Lemma store_entries_consumed es k :
  lc_consumed (foldl store_entry k es) = lc_consumed k ++ entry_stats es.
Proof.
  revert k. induction es as [|[s|[name st]] es IH]; intros k; simpl; [by rewrite app_nil_r|done|].
  rewrite IH. simpl. by rewrite <- app_assoc.
Qed.

(** The entries a response to a listing carries. *)
Definition entries_of (r : response) : list entry := match r with REntries es => es | _ => [] end.

Lemma lookup_consumed k k1 r : dir_lookup dir k = (k1, r) → lc_consumed k1 = lc_consumed k.
Proof. unfold dir_lookup. destruct (get_cached _ _ _). by intros [= <- _]. Qed.

Lemma cut_before es k k1 r e c' :
  dir_lookup dir k = (k1, r) → cut_short es k1 e c' → cut_short es k e c'.
Proof. intros Hl [He Hn]. split; [done|]. by rewrite <- (lookup_consumed k k1 r). Qed.

Lemma listing_exchange w r fuel k1 tl out k c :
  win32_path_to_unix w = Ok dir → short dir → dir_lookup dir k = (k1, None) →
  match r with REntries es => Forall decodes es ∧ (length es < fuel)%nat | _ => True end →
  fits (QList dir) r → conn_at c (encode_response r ++ tl) out k →
  wp (req_list_file_stats steady_now fuel w)
     (λ a c', a = answer_status r ∧
        exchanged (QList dir) tl out
          (match r with
           | REntries es => dir_store dir (entry_names es) (foldl store_entry k1 es)
           | _ => k1
           end) c') (cut_short (entries_of r) k) c.
Proof.
  intros Hw Hp Hl Hes Hr Hc. unfold req_list_file_stats. do_lift.
  wp_step. unfold try_use_cached_dir_listing. do_local local_dir_lookup.
  rewrite Hl in *. cbn [fst snd] in *. wp_step.
  assert (Hcut : ∀ e c', io_error e = true → local_of c' = k1 → cut_short (entries_of r) k e c').
  { intros e c' He Hk. eapply cut_before; [exact Hl|]. by apply cut_at_once. }
  wp_step. apply (wp_kept _ _ _ k1); [apply kept_transmit|apply Hc|done|].
  eapply wp_transmit; [apply writes_request_type|exact Hc|]. clear dependent c. intros _ c Hc.
  do_lift. wp_step. apply (wp_kept _ _ _ k1); [apply kept_transmit|apply Hc|done|].
  eapply wp_transmit; [apply (DataWriter.writes_utf8_string Win32 dir Hp)|exact Hc|]. clear dependent c. intros _ c Hc.
  wp_step. apply (wp_kept _ _ _ k1); [apply kept_transmit|apply Hc|done|].
  eapply wp_flush_request; [exact Hc|]. clear dependent c. intros c Hc Hfl.
  assert (Hc' : settled c (encode_response r ++ tl) (out ++ encode_request (QList dir)) k1).
  { split; [|done]. unfold encode_request. cbn [request_body request_type]. by rewrite app_assoc. }
  clear Hc Hfl. wp_step. apply (wp_kept _ _ _ k1); [apply kept_status|apply Hc'|done|].
  rename Hc' into Hc. by_response r.
  - eapply settled_status; [|exact Hc|]; [done|]. intros c' Hc'. by rewrite bool_decide_false.
  - destruct Hes as [Hes Hf]. eapply settled_status; [|exact Hc|]; [done|]. intros c' Hc'.
    rewrite bool_decide_true by done. cbn [negb].
    wp_step. eapply wp_mono; [by apply (read_entries_spec es)| |by intros; eapply cut_before].
    clear dependent c c'. intros l c [-> Hc]. do_settled local_dir_store. by wp_step.
Qed.

Lemma req_list_file_stats_miss w r fuel k1 tl out k c :
  win32_path_to_unix w = Ok dir → short dir → dir_lookup dir k = (k1, None) →
  match r with REntries es => Forall decodes es ∧ (length es < fuel)%nat | _ => True end →
  fits (QList dir) r → conn_at c (encode_response r ++ tl) out k →
  wp (req_list_file_stats steady_now fuel w)
     (λ a c', a = answer_status r ∧
        exchanged (QList dir) tl out
          (match r with
           | REntries es => dir_store dir (entry_names es) (foldl store_entry k1 es)
           | _ => k1
           end) c') only_io c.
Proof.
  intros. eapply wp_mono; [by apply (listing_exchange w r fuel k1 tl out k)|done|by intros ? ? [? _]].
Qed.

(** The replay of a cached listing: the entries whose stat is still cached. *)
Definition replay_entry k (name : bytes) : local_state :=
  match stat_lookup (get_full_path dir name) k with
  | (k, Some st) => consumed st (wide name) k
  | (k, None) => k
  end.

Lemma replay_cached_dir_spec names inp out k c :
  Forall (λ name, unix_path_to_win32 name = Ok (wide name)) names → conn_at c inp out k →
  wp (replay_cached_dir steady_now dir names)
     (λ _ c', conn_at c' inp out (foldl replay_entry k names) ∧ (conn_flushed c → conn_flushed c')) only_io c.
Proof.
  revert k c. induction names as [|name names IH]; intros k c Hd Hc; [done|].
  apply Forall_cons in Hd as [Hn Hd]. cbn [replay_cached_dir foldl]. wp_step.
  eapply wp_local_step; [apply local_stat_lookup|exact Hc|]. intros c1 Hc1 Hf1.
  assert (E : replay_entry k name = match stat_lookup (get_full_path dir name) k with
    (k, Some st) => consumed st (wide name) k | (k, None) => k end) by done.
  destruct (stat_lookup _ k) as [k1 [st|]]; cbn [fst snd] in *; rewrite E; wp_step.
  - wp_step. eapply wp_lift; [exact Hn|].
    eapply wp_local_step; [apply local_consumed|exact Hc1|]. intros c2 Hc2 Hf2.
    eapply wp_mono; [by apply IH| |done]. intros [] c3 [Hc3 Hf3]. auto.
  - wp_step. eapply wp_mono; [by apply IH| |done]. intros [] c3 [Hc3 Hf3]. auto.
Qed.

(** A name whose stat is not cached is not reported by the replay. *)
Lemma stat_lookup_data p k : cached_data (lc_stats (fst (stat_lookup p k))) = cached_data (lc_stats k).
Proof.
  unfold stat_lookup, get_cached. destruct (cached_data (lc_stats k) !! p); [destruct (_ <=? _)|]; done.
Qed.

Lemma replay_skips name names k :
  cached_data (lc_stats k) !! get_full_path dir name = None →
  ∃ shown others, lc_consumed (foldl replay_entry k names) = lc_consumed k ++ shown ∧
    map snd shown = map wide others ∧ others `sublist_of` base.filter (λ n, n ≠ name) names.
Proof.
  revert k. induction names as [|n names IH]; intros k Hk; cbn [foldl].
  { exists [], []. by rewrite app_nil_r. }
  unfold replay_entry at 2. pose proof (stat_lookup_data (get_full_path dir n) k) as Hd.
  assert (Hlk : lc_consumed (fst (stat_lookup (get_full_path dir n) k)) = lc_consumed k).
  { unfold stat_lookup. by destruct (get_cached _ _ _). }
  destruct (stat_lookup (get_full_path dir n) k) as [k1 [st|]] eqn:El; cbn [fst] in *.
  - destruct (IH (consumed st (wide n) k1)) as (shown & others & E & Em & Hs); [by rewrite <- Hd in Hk|].
    exists ((st, wide n) :: shown), (n :: others). rewrite E. simpl. rewrite Hlk, <- app_assoc, Em.
    split_and!; [done..|]. rewrite filter_cons_True; [by constructor|]. intros ->.
    unfold stat_lookup, get_cached in El. rewrite Hk in El. done.
  - destruct (IH k1) as (shown & others & E & Em & Hs); [by rewrite Hd|]. exists shown, others.
    rewrite E, Hlk. split_and!; [done..|]. rewrite filter_cons. destruct (decide _); [by constructor|done].
Qed.

Lemma req_list_file_stats_hit w names fuel k1 inp out k c :
  win32_path_to_unix w = Ok dir → dir_lookup dir k = (k1, Some names) →
  Forall (λ name, unix_path_to_win32 name = Ok (wide name)) names → conn_at c inp out k →
  wp (req_list_file_stats steady_now fuel w)
     (λ a c', a = Success ∧ conn_at c' inp out (foldl replay_entry k1 names) ∧ (conn_flushed c → conn_flushed c'))
     only_io c.
Proof.
  intros Hw Hl Hd Hc. unfold req_list_file_stats. do_lift. wp_step.
  unfold try_use_cached_dir_listing. wp_step. eapply wp_local_step; [apply local_dir_lookup|exact Hc|].
  rewrite Hl. cbn [fst snd] in *. intros c1 Hc1 Hf1. wp_step.
  eapply wp_mono; [by eapply replay_cached_dir_spec| |done]. intros [] c2 [Hc2 Hf2]. do 2 wp_step. auto.
Qed.
End Listing.

(** ** The handshake *)
Lemma client_handshake_spec reply tl out k c :
  is_u32 reply → conn_at c (e_u32 reply ++ tl) out k →
  wp handshake
     (λ _ c', reply = HANDSHAKE_DATA ∧ conn_at c' tl (out ++ e_u32 HANDSHAKE_DATA) k ∧ conn_flushed c')
     (λ e _, io_error e = true ∨ reply ≠ HANDSHAKE_DATA) c.
Proof.
  intros Hr Hc. unfold handshake. wp_step.
  apply wp_weaken; [|by left]. eapply wp_transmit; [apply DataWriter.writes_u32|done|].
  clear dependent c. intros [] c Hc. wp_step.
  apply wp_weaken; [|by left]. eapply wp_flush_request; [done|]. clear dependent c. intros c Hc Hfl.
  wp_step. eapply wp_receive; [apply DataReader.reads_u32|done|by apply p_u32_encode| |by left].
  intros c' Hc' Hfl'. destruct (Z.eqb_spec reply HANDSHAKE_DATA); wp_step; auto.
Qed.

(** The handshake on any stream: it succeeds on the echo alone. *)
Definition handshake_failed : exn :=
  RuntimeError "Failed handshake! Did not receive same bytes that were sent".

Lemma client_handshake_any inp out k c :
  conn_at c inp out k →
  wp handshake (λ _ c', ∃ tl, p_u32 inp = Some (HANDSHAKE_DATA, tl))
     (λ e _, io_error e = true ∨ e = EOFException ∧ p_u32 inp = None ∨ e = handshake_failed) c.
Proof.
  intros Hc. unfold handshake. wp_step.
  apply wp_weaken; [|by left]. eapply wp_transmit; [apply DataWriter.writes_u32|done|].
  clear dependent c. intros [] c Hc. wp_step.
  apply wp_weaken; [|by left]. eapply wp_flush_request; [done|]. clear dependent c. intros c (Hr & _ & Hi & _) _.
  wp_step. apply wp_zoom. cbn [view conn_reader_lens]. eapply wp_mono; [by apply DataReader.reads_u32|..].
  - intros z [s r] (Hp & _). rewrite Hi in Hp.
    destruct (Z.eqb_spec z HANDSHAKE_DATA) as [->|]; wp_step; [by eexists|by right; right].
  - intros e st [_ [He|(-> & Hn & _)]]; [by left|]. right; left. by rewrite <- Hi.
Qed.

(** ** A new connection *)
Lemma empty_buffers_at (s : N) stats dirs l t :
  conn_at (mkConnection s (DataReader.create CONNECTION_BUFFER_SIZE)
             (DataWriter.create CONNECTION_BUFFER_SIZE) stats dirs l t)
    (sock_incoming s) (sock_outgoing s) (mkLocal stats dirs l t).
Proof.
  destruct (DataReader.reader_create_wf CONNECTION_BUFFER_SIZE eq_refl) as [Hr Hu].
  destruct (DataWriter.writer_create_wf CONNECTION_BUFFER_SIZE eq_refl) as [Hw Hp].
  unfold conn_at, DataReader.rest, DataWriter.written.
  cbn [cn_reader cn_writer cn_socket fst snd]. rewrite Hu, Hp, app_nil_r. by split_and!.
Qed.

Lemma new_connection_at (s : N) :
  conn_at (new_connection steady_now s) (sock_incoming s) (sock_outgoing s)
    (local_of (new_connection steady_now s)).
Proof. apply empty_buffers_at. Qed.

(** ** Paths too long for the wire

    A string of more than 65535 bytes is refused before any of it is written. *)
Lemma write_long_string d st (Φ : unit → N * DataWriter.t → Prop) (E : exn → N * DataWriter.t → Prop) :
  ¬ short d →
  E (RuntimeError "String too long to write to stream. Was path length properly limited?") st →
  wp (DataWriter.write_utf8_string Win32 d) Φ E st.
Proof.
  intros Hd HE. unfold DataWriter.write_utf8_string, short in *.
  rewrite (proj2 (Z.ltb_lt _ _)) by lia. by wp_step.
Qed.

Lemma long_path_spec w p inp out k c :
  win32_path_to_unix w = Ok p → ¬ short p → conn_at c inp out k →
  wp (req_can_remove CheckRemoveFile w) (λ _ _, False)
     (λ e c', io_error e = true ∨
        e = RuntimeError "String too long to write to stream. Was path length properly limited?" ∧
        conn_at c' inp (out ++ e_u8 (request_code CheckRemoveFile)) k) c.
Proof.
  intros Hw Hp Hc. unfold req_can_remove. wp_step. apply wp_weaken; [|by left].
  eapply wp_transmit; [apply writes_request_type|done|]. clear dependent c. intros [] c Hc.
  wp_step. eapply wp_lift; [exact Hw|]. wp_step. apply wp_zoom. apply write_long_string; [done|].
  right. split; [done|]. destruct c. exact Hc.
Qed.
End Client.

(** ** Claims *)
Section Claims.
Context {N : Type} `{SocketLaws N} `{WideStrings}.
#[local] Existing Instance conn_readable.
#[local] Existing Instance conn_writable.
#[local] Existing Instance client_duplex.

(** A path whose UTF-8 form exceeds 65535 bytes makes the request throw, but
    only after its type byte has been written: the byte stays in the writer's
    buffer and will go out in front of the next request. *)
Theorem long_path_leaves_type_byte w p inp out k (c : connection N) :
  win32_path_to_unix w = Ok p → ¬ short p → conn_at c inp out k →
  wp (req_can_remove_file w) (λ _ _, False)
     (λ e c', io_error e = true ∨
        e = RuntimeError "String too long to write to stream. Was path length properly limited?" ∧
        conn_at c' inp (out ++ e_u8 (request_code CheckRemoveFile)) k) c.
Proof. apply long_path_spec. Qed.

(** C38. Setting the times of a file hides it from the cached listing of its
    directory: the request drops the file's stat but keeps the listing, and the
    replay of a listing skips the entries without a stat, so a listing asked for
    while it is still cached succeeds and reports nothing but entries for the other
    names of the directory, whatever they are, in their order: the file is missing. *)
Theorem set_time_hides_entry steady_now w wdir dir name names a m s fuel k k1 tl out c (wide : bytes → wstring) :
  win32_path_to_unix w = Ok (get_full_path dir name) → win32_path_to_unix wdir = Ok dir →
  short (get_full_path dir name) → listed_status s →
  Forall (λ n, unix_path_to_win32 n = Ok (wide n)) names →
  dir_lookup steady_now dir (drop_stat (get_full_path dir name) k) = (k1, Some names) →
  conn_at c (encode s ++ tl) out k →
  wp (do* (let* _ := req_set_file_time (N := N) w a m in ret tt) in req_list_file_stats steady_now fuel wdir)
     (λ r c', r = Success ∧ ∃ shown others, cn_consumed c' = lc_consumed k ++ shown ∧
        map snd shown = map wide others ∧ others `sublist_of` base.filter (λ n, n ≠ name) names) only_io c.
Proof.
  intros Hw Hwd Hsh Hs Hwide Hl Hc. do 2 wp_step.
  eapply wp_mono; [by eapply req_set_file_time_spec| |done]. intros r c1 [-> [Hc1 _]]. wp_step.
  eapply wp_mono; [eapply (req_list_file_stats_hit steady_now wide); [done|exact Hl|exact Hwide|exact Hc1]| |done].
  intros r c2 (-> & Hc2 & _). split; [done|]. destruct Hc2 as (_ & _ & _ & _ & Hloc).
  apply (f_equal lc_consumed) in Hloc. change (lc_consumed (local_of c2)) with (cn_consumed c2) in Hloc. rewrite Hloc.
  unfold dir_lookup in Hl. destruct (get_cached _ dir _) as [d r]. injection Hl as <- _.
  apply (replay_skips steady_now wide dir name names (mkLocal _ d (lc_consumed k) _)).
  simpl. by rewrite invalidate_lookup, lookup_delete_eq.
Qed.

(** The client's handshake succeeds exactly when the peer echoes the 32-bit
    value it sent: on any other reply it throws, and after a success the stream
    is at the first byte after the reply. *)
Theorem handshake_checks_echo steady_now (s : N) reply tl :
  is_u32 reply → sock_incoming s = e_u32 reply ++ tl →
  wp handshake
     (λ _ c', reply = HANDSHAKE_DATA ∧
        conn_at c' tl (sock_outgoing s ++ e_u32 HANDSHAKE_DATA) (local_of (new_connection steady_now s)))
     (λ e _, io_error e = true ∨ reply ≠ HANDSHAKE_DATA) (new_connection steady_now s).
Proof.
  intros Hr Hin. pose proof (new_connection_at steady_now s) as Hc. rewrite Hin in Hc.
  eapply wp_mono; [by eapply client_handshake_spec| |done]. by intros [] c (-> & Hc' & _).
Qed.
End Claims.

Module ClientWitnesses.
Import SingleByteStrings.
#[local] Existing Instance conn_readable.
#[local] Existing Instance conn_writable.
#[local] Existing Instance client_duplex.

Definition tick (i : nat) : Z := Z.of_nat i.
Definition long_path (n : nat) : wstring := replicate n 97.

Lemma long_path_unix n : win32_path_to_unix (long_path n) = Ok (replicate n "a"%byte).
Proof.
  unfold win32_path_to_unix, long_path. simpl. rewrite fmap_replicate. change (z2b 97) with "a"%byte.
  rewrite zlen_app, zlen_cons, zlen_nil. pose proof (zlen_nonneg (replicate n "a"%byte)).
  rewrite (proj2 (Z.eqb_neq _ _)), ztake_app_exact by lia. f_equal.
  unfold replace_byte. rewrite fmap_replicate. simpl. unfold strip_trailing.
  destruct n; [done|]. by rewrite replicate_S_end, ends_with_char_snoc, andb_false_r.
Qed.
Definition idle : connection pipe := new_connection tick (Pipe [] [] 3).

Lemma long_path_leaves_type_byte_witness :
  wp (req_can_remove_file (long_path (Z.to_nat 65536))) (λ _ _, False)
     (λ e c', io_error e = true ∨
        e = RuntimeError "String too long to write to stream. Was path length properly limited?" ∧
        conn_at c' [] ([] ++ e_u8 (request_code CheckRemoveFile)) (local_of idle)) idle.
Proof.
  apply (long_path_leaves_type_byte (long_path (Z.to_nat 65536)) (replicate (Z.to_nat 65536) "a"%byte) [] [] (local_of idle) idle).
  - apply long_path_unix.
  - unfold short, zlen. rewrite length_replicate. lia.
  - exact (new_connection_at tick (Pipe [] [] 3)).
Defined.

Definition echoed : pipe := Pipe (e_u32 HANDSHAKE_DATA ++ bs "rest") [] 3.

Lemma handshake_checks_echo_witness :
  pipe_out (cn_socket (fst (handshake (new_connection tick echoed)))) = e_u32 HANDSHAKE_DATA ∧
  wp handshake
     (λ _ c', HANDSHAKE_DATA = HANDSHAKE_DATA ∧
        conn_at c' (bs "rest") (sock_outgoing echoed ++ e_u32 HANDSHAKE_DATA)
          (local_of (new_connection tick echoed)))
     (λ e _, io_error e = true ∨ HANDSHAKE_DATA ≠ HANDSHAKE_DATA) (new_connection tick echoed).
Proof.
  split; [vm_compute; reflexivity|].
  apply (handshake_checks_echo tick echoed HANDSHAKE_DATA (bs "rest")); [|reflexivity].
  unfold is_unsigned, HANDSHAKE_DATA. lia.
Defined.
(** The directory's listing and the stats of its two files, all just cached. *)
Definition listed_local : local_state :=
  mkLocal (cache 0 0 (bs "/sdcard/b") (mkFileStat 33200 3 0 0)
             (cache 0 0 (bs "/sdcard/a") (mkFileStat 33200 5 0 0) (create STAT_SCAN_PERIOD STAT_CACHE_PERIOD 0)))
    (cache 0 0 (bs "/sdcard") [bs "a"; bs "b"] (create STAT_SCAN_PERIOD STAT_CACHE_PERIOD 0)) [] 5.
Definition listed_conn : connection pipe :=
  mkConnection (Pipe (encode Success ++ []) [] 3) (DataReader.create CONNECTION_BUFFER_SIZE)
    (DataWriter.create CONNECTION_BUFFER_SIZE) (lc_stats listed_local) (lc_dirs listed_local) [] 5.
Definition hidden_local : local_state :=
  Eval vm_compute in fst (dir_lookup tick (bs "/sdcard") (drop_stat (bs "/sdcard/b") listed_local)).
Definition stamp_and_list : M (connection pipe) ResponseStatus :=
  do* (let* _ := req_set_file_time (N := pipe) (ws (bs "\sdcard\b")) 7 7 in ret tt) in
  req_list_file_stats tick 9 (ws (bs "\sdcard")).

(** Both files are listed before, one of them afterwards. *)
Lemma set_time_hides_entry_witness :
  map snd (cn_consumed (fst (req_list_file_stats tick 9 (ws (bs "\sdcard")) listed_conn))) = [ws (bs "a"); ws (bs "b")] ∧
  map snd (cn_consumed (fst (stamp_and_list listed_conn))) = [ws (bs "a")] ∧
  wp stamp_and_list
     (λ r c', r = Success ∧ ∃ shown others, cn_consumed c' = lc_consumed listed_local ++ shown ∧
        map snd shown = map ws others ∧ others `sublist_of` base.filter (λ n, n ≠ bs "b") [bs "a"; bs "b"]) only_io listed_conn.
Proof.
  split; [vm_compute; reflexivity|]. split; [vm_compute; reflexivity|].
  apply (set_time_hides_entry tick (ws (bs "\sdcard\b")) (ws (bs "\sdcard")) (bs "/sdcard") (bs "b") [bs "a"; bs "b"] 7 7
           Success 9 listed_local hidden_local [] [] listed_conn ws);
    [vm_compute; reflexivity|vm_compute; reflexivity|vm_compute; congruence|done|by repeat constructor
    |vm_compute; reflexivity|].
  exact (empty_buffers_at (Pipe (encode Success ++ []) [] 3) _ _ [] 5).
Defined.
End ClientWitnesses.
