(* ===== verification/Connect.v ===== *)
(** * Setting the connection up and taking it down: nandroidfs/Connection.cpp

    The constructor of [Connection] (the walk over the addresses of the daemon, the
    handshake) and its destructor, with the sockets and the uses of the socket
    library they take and give back. *)

From S2P Require Import Prelude Effects Endian Wire Serialization Socket Requests Responses.
From S2P Require Import PathUtils Conversion TimedCache Adb Connection Client.

Definition INVALID_SOCKET : Z := 2 ^ 64 - 1.

(** The socket library of Windows: an address is whatever [getaddrinfo] says, a
    socket a number, and [socket_stream] what can be received and sent on it.  The
    observations: the sockets that are open, how often the library was started and
    not yet released, which addresses accept connections and what a socket is
    connected to. *)
Class Winsock (W N : Type) : Type := {
  WSAStartup : W → W * Z;
  getaddrinfo : bytes → Z → W → W * (Z + list Z);
  win_socket : Z → W → W * Z;
  win_connect : Z → Z → W → W * Z;
  closesocket : Z → W → W * unit;
  WSACleanup : W → W * unit;
  WSAGetLastError : W → Z;
  socket_stream : Z → W → N;
  open_sockets : W → gset Z;
  wsa_uses : W → Z;
  reachable : Z → W → bool;
  peer : Z → W → option Z;
}.

Class WinsockLaws (W N : Type) `{Winsock W N} `{SocketLaws N} : Prop := {
  startup_law : ∀ w, let '(w', r) := WSAStartup w in
    open_sockets w' = open_sockets w ∧ (∀ b, reachable b w' = reachable b w) ∧
    wsa_uses w' = wsa_uses w + (if r =? 0 then 1 else 0);
  getaddrinfo_law : ∀ a p w, let w' := fst (getaddrinfo a p w) in
    open_sockets w' = open_sockets w ∧ (∀ b, reachable b w' = reachable b w) ∧ wsa_uses w' = wsa_uses w;
  socket_law : ∀ a w, let '(w', s) := win_socket a w in
    wsa_uses w' = wsa_uses w ∧ (∀ b, reachable b w' = reachable b w) ∧
    if s =? INVALID_SOCKET then open_sockets w' = open_sockets w
    else s ∉ open_sockets w ∧ open_sockets w' = {[ s ]} ∪ open_sockets w;
  connect_law : ∀ s a w, let '(w', r) := win_connect s a w in
    wsa_uses w' = wsa_uses w ∧ (∀ b, reachable b w' = reachable b w) ∧ open_sockets w' = open_sockets w ∧
    if reachable a w then r = 0 ∧ peer s w' = Some a else r = -1;
  closesocket_law : ∀ s w, let w' := fst (closesocket s w) in
    wsa_uses w' = wsa_uses w ∧ (∀ b, reachable b w' = reachable b w) ∧ open_sockets w' = open_sockets w ∖ {[ s ]};
  cleanup_law : ∀ w, let w' := fst (WSACleanup w) in
    open_sockets w' = open_sockets w ∧ wsa_uses w' = wsa_uses w - 1;
  (** nothing can be received on a socket that was closed *)
  closed_law : ∀ s w, s ∉ open_sockets w → sock_incoming (socket_stream s w) = [];
}.

Section Connect.
Context {W N : Type} `{Winsock W N} `{Socket N} (steady_now : nat → Z).

(** [throw_if_nonzero] of WinSockException.cpp. *)
Definition throw_if_nonzero (return_value : Z) : M W unit :=
  if negb (return_value =? 0) then throw (WinSockException return_value) else ret tt.

(** The walk over the list of addresses; [connect_socket] is the variable that
    outlives the loop. *)
Fixpoint try_addresses (connect_socket : Z) (addresses : list Z) : M W Z :=
  match addresses with
  | [] => ret connect_socket
  | ptr :: addresses =>
      let* connect_socket := os_call (win_socket ptr) in
      if connect_socket =? INVALID_SOCKET then
        let* err := gets WSAGetLastError in
        throw (WinSockException err)
      else
        let* result := os_call (win_connect connect_socket ptr) in
        if result =? -1 then
          do* os_call (closesocket connect_socket) in
          try_addresses connect_socket addresses
        else ret connect_socket
  end.

(** [this->handshake()], on the members over the connected socket. *)
Definition run_handshake (conn_sock : Z) : M W (Z * connection N) :=
  λ w, match handshake (new_connection steady_now (socket_stream conn_sock w)) with
       | (c, Ok _) => (w, Ok (conn_sock, c))
       | (_, Throw e) => (w, Throw e)
       end.

Definition unable_to_connect : exn :=
  RuntimeError "Unable to connect to daemon; none of the supplied addresses led to a successful connection".

(** The constructor: [conn_sock] and the other members. *)
Definition create_connection (address : bytes) (port : Z) : M W (Z * connection N) :=
  let* r := os_call WSAStartup in
  do* throw_if_nonzero r in
  try_catch
    (let* result := os_call (getaddrinfo address port) in
     match result with
     | inl err => throw (WinSockException err)
     | inr addresses =>
         let* connect_socket := try_addresses INVALID_SOCKET addresses in
         if connect_socket =? INVALID_SOCKET then throw unable_to_connect
         else run_handshake connect_socket
     end)
    (λ e, do* os_call WSACleanup in throw e).

(** The destructor. *)
Definition destroy_connection (conn_sock : Z) : M W unit :=
  do* os_call (closesocket conn_sock) in
  os_call WSACleanup.
End Connect.

(** ** The sockets taken and given back *)
Section Resources.
Context {W N : Type} `{WinsockLaws W N} (steady_now : nat → Z).

(** The first address that accepts connections. *)
Fixpoint first_reachable (addresses : list Z) (w : W) : option Z :=
  match addresses with
  | [] => None
  | a :: addresses => if reachable a w then Some a else first_reachable addresses w
  end.

Lemma first_reachable_ext addresses (w w' : W) :
  (∀ a, reachable a w' = reachable a w) → first_reachable addresses w' = first_reachable addresses w.
Proof. intros E. induction addresses as [|a addresses IH]; simpl; [done|]. by rewrite E, IH. Qed.

(** A socket for one of the addresses was refused. *)
Definition socket_refused (addresses : list Z) : Prop :=
  ∃ a (w : W), a ∈ addresses ∧ snd (win_socket a w) = INVALID_SOCKET.

Lemma try_addresses_spec s0 addresses (w : W) :
  wp (try_addresses s0 addresses)
    (λ s w', wsa_uses w' = wsa_uses w ∧
       match first_reachable addresses w with
       | Some a => s ≠ INVALID_SOCKET ∧ s ∉ open_sockets w ∧ open_sockets w' = {[ s ]} ∪ open_sockets w ∧
           peer s w' = Some a
       | None => open_sockets w' = open_sockets w ∧
           if decide (addresses = []) then s = s0 else s ≠ INVALID_SOCKET ∧ s ∉ open_sockets w'
       end)
    (λ e w', io_error e = true ∧ socket_refused addresses ∧ wsa_uses w' = wsa_uses w ∧ open_sockets w' = open_sockets w) w.
Proof.
  revert s0 w. induction addresses as [|a addresses IH]; intros s0 w; simpl; [by wp_step|].
  wp_step. apply wp_os_call. pose proof (socket_law a w) as L.
  destruct (win_socket a w) as [w1 s] eqn:Es. cbn [fst snd]. destruct L as (Hu1 & Hr1 & L).
  destruct (Z.eqb_spec s INVALID_SOCKET) as [->|Hs].
  { do 3 wp_step. split_and!; try done. exists a, w. rewrite Es. split; [by left|done]. }
  destruct L as [Hfresh Ho1].
  wp_step. apply wp_os_call. pose proof (connect_law s a w1) as L.
  destruct (win_connect s a w1) as [w2 r]. cbn [fst snd]. destruct L as (Hu2 & Hr2 & Ho2 & L).
  rewrite Hr1 in L. destruct (reachable a w) eqn:Ea.
  { destruct L as [-> Hp]. simpl. wp_step. split_and!; [congruence|done|done|congruence|done]. }
  rewrite L. simpl. wp_step. apply wp_os_call. destruct (closesocket_law s w2) as (Hu3 & Hr3 & Ho3).
  destruct (closesocket s w2) as [w3 []]. cbn [fst snd] in *.
  assert (Ho : open_sockets w3 = open_sockets w).
  { rewrite Ho3, Ho2, Ho1. apply set_eq. clear -Hfresh. set_solver. }
  assert (Hr : ∀ b, reachable b w3 = reachable b w) by (intros b; congruence).
  eapply wp_mono; [apply IH| |].
  - intros s' w'. rewrite (first_reachable_ext _ w w3) by done. intros [Hu' Hm]. split; [congruence|].
    destruct (first_reachable addresses w); [by rewrite Ho in Hm|]. destruct Hm as [Ho' Hm].
    split; [congruence|]. case_decide; [|done]. subst s'. split; [done|]. by rewrite Ho', Ho.
  - intros e w' (? & (b & wb & Hb & Eb) & ? & ?). split_and!; try congruence. exists b, wb. split; [by right|done].
Qed.

(** What [getaddrinfo] says in the constructor. *)
Definition resolved (address : bytes) (port : Z) (w : W) : Z + list Z :=
  snd (getaddrinfo address port (fst (WSAStartup w))).

(** One socket that was not open is open now. *)
Definition one_more (s : Z) (w w' : W) : Prop :=
  s ∉ open_sockets w ∧ open_sockets w' = {[ s ]} ∪ open_sockets w.

(** The constructor has returned: one socket more, connected to the first address
    that accepts connections, and one use of the library. *)
Definition established (address : bytes) (port : Z) (w : W) (r : Z * connection N) (w' : W) : Prop :=
  wsa_uses w' = wsa_uses w + 1 ∧ one_more (fst r) w w' ∧
  ∃ addresses a, resolved address port w = inr addresses ∧ first_reachable addresses w = Some a ∧
    peer (fst r) w' = Some a.

(** The handshake with [a] threw [e]; the socket connected to it is open still. *)
Definition handshake_leaks (a : Z) (w : W) (e : exn) (w' : W) : Prop :=
  ∃ s w3, one_more s w w' ∧ peer s w3 = Some a ∧
    snd (handshake (new_connection steady_now (socket_stream s w3))) = Throw e.

(** It has thrown: the library is released; the sockets are the same when no connection
    was made, and the one that was made is lost. *)
Definition not_established (address : bytes) (port : Z) (w : W) (e : exn) (w' : W) : Prop :=
  wsa_uses w' = wsa_uses w ∧ catchable e ∧ (e = unable_to_connect → resolved address port w = inr []) ∧
  match resolved address port w with
  | inr addresses =>
      match first_reachable addresses w with
      | Some a => handshake_leaks a w e w' ∨
          open_sockets w' = open_sockets w ∧ (snd (WSAStartup w) ≠ 0 ∨ socket_refused addresses)
      | None => open_sockets w' = open_sockets w
      end
  | inl _ => open_sockets w' = open_sockets w
  end.

Lemma run_handshake_spec s (w : W) :
  wp (run_handshake steady_now s)
    (λ r w', fst r = s ∧ w' = w ∧ s ∈ open_sockets w)
    (λ e w', w' = w ∧ catchable e ∧ e ≠ unable_to_connect ∧
       snd (handshake (new_connection steady_now (socket_stream s w))) = Throw e) w.
Proof.
  unfold run_handshake. pose proof (client_handshake_any _ _ _ _ (new_connection_at steady_now (socket_stream s w))) as Hh.
  unfold wp in *. destruct (handshake _) as [c [[]|e]].
  - split_and!; [done|done|]. destruct (decide (s ∈ open_sockets w)) as [?|Hs]; [done|].
    destruct Hh as [tl Hh]. by rewrite (closed_law s w Hs) in Hh.
  - split; [done|]. by destruct Hh as [?|[[-> _]| ->]]; [destruct e|..].
Qed.

(** Which sockets are open after a failure, before the library is released. *)
Definition sockets_left (address : bytes) (port : Z) (w : W) (e : exn) (w' : W) : Prop :=
  match resolved address port w with
  | inr addresses =>
      match first_reachable addresses w with
      | Some a => handshake_leaks a w e w' ∨ open_sockets w' = open_sockets w ∧ socket_refused addresses
      | None => open_sockets w' = open_sockets w
      end
  | inl _ => open_sockets w' = open_sockets w
  end.

(** The [catch] block: the library is released, nothing else changes. *)
Lemma cleanup_rethrow address port (w w2 : W) (e : exn) :
  wsa_uses w2 = wsa_uses w + 1 → sockets_left address port w e w2 → catchable e →
  (e = unable_to_connect → resolved address port w = inr []) →
  wp (do* os_call WSACleanup in throw e) (established address port w) (not_established address port w) w2.
Proof.
  intros Hu2 Hs Hc He. wp_step. apply wp_os_call. destruct (cleanup_law w2) as [Ho3 Hu3].
  destruct (WSACleanup w2) as [w3 []]. cbn [fst snd] in *. wp_step.
  split; [lia|]. split; [done|]. split; [done|]. unfold sockets_left, handshake_leaks, one_more in *. rewrite Ho3.
  destruct (resolved address port w); [done|]. destruct (first_reachable _ w); [|done]. destruct Hs as [?|[? ?]]; auto.
Qed.

(** Everything inside the [try] block. *)
Lemma connect_spec address port (w w1 : W) :
  fst (WSAStartup w) = w1 → open_sockets w1 = open_sockets w → (∀ b, reachable b w1 = reachable b w) →
  wp (let* result := os_call (getaddrinfo address port) in
      match result with
      | inl err => throw (WinSockException err)
      | inr addresses =>
          let* connect_socket := try_addresses INVALID_SOCKET addresses in
          if connect_socket =? INVALID_SOCKET then throw unable_to_connect
          else run_handshake steady_now connect_socket
      end)
    (λ r w', wsa_uses w' = wsa_uses w1 ∧ one_more (fst r) w w' ∧
       ∃ addresses a, resolved address port w = inr addresses ∧ first_reachable addresses w = Some a ∧
         peer (fst r) w' = Some a)
    (λ e w', wsa_uses w' = wsa_uses w1 ∧ sockets_left address port w e w' ∧ catchable e ∧
       (e = unable_to_connect → resolved address port w = inr [])) w1.
Proof.
  intros E1 Ho1 Hr1. unfold sockets_left, resolved. rewrite E1. wp_step. apply wp_os_call.
  destruct (getaddrinfo_law address port w1) as (Ho2 & Hr2 & Hu2).
  destruct (getaddrinfo address port w1) as [w2 [err|addresses]]; cbn [fst snd] in *.
  { wp_step. split_and!; [done|congruence|done|done]. }
  wp_step. eapply wp_mono; [apply try_addresses_spec| |].
  2: { intros e w3 (He & Href & Hu3 & Ho3). split_and!; [congruence| |by apply io_catchable|by intros ->].
       assert (open_sockets w3 = open_sockets w) by congruence. destruct (first_reachable addresses w); auto. }
  intros s w3 [Hu3 Hs]. rewrite (first_reachable_ext _ w w2) in Hs by (intros b; congruence).
  rewrite Ho2, Ho1 in Hs. destruct (Z.eqb_spec s INVALID_SOCKET) as [->|Hne].
  - wp_step. destruct (first_reachable addresses w); [by destruct Hs|]. destruct Hs as [Ho3 Hs].
    case_decide; [subst addresses|by destruct Hs]. split_and!; [congruence|done|done|done].
  - eapply wp_mono; [apply run_handshake_spec| |].
    + intros [s' c] w' (Es & -> & Hin). cbn [fst] in *. subst s'. destruct (first_reachable addresses w) as [a|] eqn:Ef.
      * destruct Hs as (_ & ? & ? & ?). split_and!; [congruence|done|]. by exists addresses, a.
      * destruct Hs as [Ho3 Hs]. case_decide; [done|]. by destruct Hs.
    + intros e w' (-> & Hc & He & Hh). split_and!; [congruence| |done|done].
      destruct (first_reachable addresses w) as [a|]; [left|by destruct Hs]. destruct Hs as (_ & ? & ? & ?).
      exists s, w3. by split_and!.
Qed.

Lemma create_connection_spec address port (w : W) :
  wp (create_connection steady_now address port) (established address port w) (not_established address port w) w.
Proof.
  unfold create_connection. wp_step. apply wp_os_call. pose proof (startup_law w) as L.
  destruct (WSAStartup w) as [w1 r] eqn:E1. cbn [fst snd] in *. destruct L as (Ho1 & Hr1 & Hu1).
  unfold throw_if_nonzero. wp_step. destruct (Z.eqb_spec r 0) as [->|Hr]; cbn [negb].
  2: { wp_step. unfold not_established. rewrite E1. cbn [snd]. split_and!; [rewrite Hu1; lia|done|done|].
       destruct (resolved address port w); [done|]. destruct (first_reachable _ w); auto. }
  wp_step. apply wp_try_catch_all.
  eapply wp_mono; [apply (connect_spec address port w w1); [by rewrite E1|done|done]| |].
  - intros c w' (Hu & Ho & Hp). split; [congruence|done].
  - intros e w' (Hu & Hs & Hc & He). split; [done|]. apply cleanup_rethrow; [congruence|done..].
Qed.

Lemma destroy_connection_spec s (w : W) :
  wp (destroy_connection s)
    (λ _ w', open_sockets w' = open_sockets w ∖ {[ s ]} ∧ wsa_uses w' = wsa_uses w - 1) (λ _ _, False) w.
Proof.
  unfold destroy_connection. wp_step. apply wp_os_call. destruct (closesocket_law s w) as (Hu & _ & Ho).
  destruct (closesocket s w) as [w1 []]. cbn [fst snd] in *. apply wp_os_call.
  destruct (cleanup_law w1) as [Ho2 Hu2]. destruct (WSACleanup w1) as [w2 []]. cbn [fst snd] in *.
  split; congruence.
Qed.
End Resources.

(** ** Claims *)
Section Claims.
Context {W N : Type} `{WinsockLaws W N} (steady_now : nat → Z).

(** C20. The constructor of [Connection] connects to the first address of the daemon
    that accepts, closing every socket it tried before: when it returns, exactly one
    socket more is open, connected there, and the socket library is in use once
    more; the destructor gives both back.  When it throws the library is released; if
    that is because the handshake with the address that accepted threw, the socket
    connected to it stays open, and in every other case the open sockets are the ones
    from before.  The message that no
    address could be connected to is given only when there was no address at all:
    when all of them refuse, the handshake is tried on a socket that was closed. *)
Theorem connection_set_up_and_taken_down address port (w : W) :
  wp (create_connection steady_now address port)
    (λ r w', established address port w r w' ∧
       wp (destroy_connection (fst r))
         (λ _ w'', open_sockets w'' = open_sockets w ∧ wsa_uses w'' = wsa_uses w) (λ _ _, False) w')
    (not_established steady_now address port w) w.
Proof.
  eapply wp_mono; [apply create_connection_spec| |done]. intros r w' He. split; [done|].
  destruct He as (Hu & [Hf Ho] & _). eapply wp_mono; [apply destroy_connection_spec| |done].
  intros [] w'' [-> ->]. rewrite Ho, Hu. split; [|lia]. apply set_eq. clear -Hf. set_solver.
Qed.
End Claims.

(** ** The concrete system's sockets *)
Definition set_sockets (l : list Z) (peers : gmap Z Z) (uses : Z) (w : mini_os) : mini_os :=
  MiniOs (os_open w) (os_pending w) (os_exits w) (os_program w) (os_ran w) (os_letters w) l peers uses (os_reach w).

#[global] Instance mini_winsock : Winsock mini_os pipe := {|
  WSAStartup w := (set_sockets (os_sockets w) (os_peers w) (os_uses w + 1) w, 0);
  getaddrinfo a p w := (w, inr [p + 1; p]);
  win_socket a w :=
    let s := next_handle (os_sockets w) in
    if s =? INVALID_SOCKET then (w, s) else (set_sockets (s :: os_sockets w) (os_peers w) (os_uses w) w, s);
  win_connect s a w :=
    if bool_decide (a ∈ os_reach w) then (set_sockets (os_sockets w) (<[s := a]> (os_peers w)) (os_uses w) w, 0)
    else (w, -1);
  closesocket s w := (set_sockets (base.filter (λ x, x ≠ s) (os_sockets w)) (os_peers w) (os_uses w) w, tt);
  WSACleanup w := (set_sockets (os_sockets w) (os_peers w) (os_uses w - 1) w, tt);
  WSAGetLastError _ := 10061;
  socket_stream s w := Pipe (if bool_decide (s ∈ os_sockets w) then e_u32 HANDSHAKE_DATA else []) [] 3;
  open_sockets w := list_to_set (os_sockets w);
  wsa_uses := os_uses;
  reachable a w := bool_decide (a ∈ os_reach w);
  peer s w := os_peers w !! s;
|}.

#[global] Instance mini_winsock_laws : WinsockLaws mini_os pipe.
Proof.
  split.
  - done.
  - done.
  - intros a w. cbn [win_socket mini_winsock]. cbv zeta.
    destruct (Z.eqb_spec (next_handle (os_sockets w)) INVALID_SOCKET) as [->|Hne]; simpl; [done|].
    rewrite (proj2 (Z.eqb_neq _ _)) by done. split_and!; [done|done| |set_solver].
    intros Hin%elem_of_list_to_set%next_handle_above. lia.
  - intros s a w. simpl. case_bool_decide; simpl; [|done]. split_and!; try done. apply lookup_insert_eq.
  - intros s w. simpl. split_and!; [done|done|]. apply set_eq. intros x.
    rewrite elem_of_list_to_set, elem_of_difference, elem_of_list_to_set, list_elem_of_filter. set_solver.
  - done.
  - intros s w Hs. simpl in *. rewrite bool_decide_false; [done|]. by rewrite elem_of_list_to_set in Hs.
Qed.

Module ConnectWitnesses.
(** Nothing listens on the first address. *)
Definition os1 : mini_os := MiniOs [] ∅ ∅ (λ _, None) [] [] [7] ∅ 0 [25989].
Definition clock (i : nat) : Z := 0.

Example connected_to_second :
  let '(w, r) := create_connection clock (bs "localhost") 25989 os1 in
  os_sockets w = [8; 7] ∧ os_peers w !! 8 = Some 25989 ∧ os_uses w = 1 ∧
  match r with Ok (s, _) => s = 8 | Throw _ => False end.
Proof. vm_compute. done. Qed.

Lemma connection_set_up_and_taken_down_witness :
  first_reachable [25990; 25989] os1 = Some 25989 ∧
  wp (create_connection clock (bs "localhost") 25989)
    (λ r w', established (bs "localhost") 25989 os1 r w' ∧
       wp (destroy_connection (fst r))
         (λ _ w'', open_sockets w'' = open_sockets os1 ∧ wsa_uses w'' = wsa_uses os1) (λ _ _, False) w')
    (not_established clock (bs "localhost") 25989 os1) os1.
Proof.
  split; [vm_compute; reflexivity|].
  apply (connection_set_up_and_taken_down clock (bs "localhost") 25989 os1).
Defined.
End ConnectWitnesses.
