(* ===== verification/ClientCache.v ===== *)
(** * The client's caches at work

    What the caches change about the requests of Connection.cpp: which answers
    come from memory, how old they can be, and that a mutating request leaves
    nothing stale behind for the paths it names. *)

From S2P Require Import Prelude Effects Wire Responses PathUtils Conversion TimedCache Protocol.
From S2P Require Import Connection Client.

Section Caching.
Context (steady_now : nat → Z) (clock : ∀ i j, (i ≤ j)%nat → steady_now i ≤ steady_now j).
Abbreviation stat_lookup := (stat_lookup steady_now).
Abbreviation dir_lookup := (dir_lookup steady_now).
Abbreviation stat_store := (stat_store steady_now).
Abbreviation dir_store := (dir_store steady_now).
Implicit Types k : local_state.

(** The caches as the constructor of [Connection] configures them. *)
Definition configured k : Prop :=
  cached_item_valid_for (lc_stats k) = STAT_CACHE_PERIOD ∧
  cached_item_valid_for (lc_dirs k) = STAT_CACHE_PERIOD.

(** ** The two caches against maps *)
Definition stats_at k (m : gmap bytes (CachedData FileStat)) : Prop :=
  ∃ t, t ≤ steady_now (lc_ticks k) ∧ represents t (lc_stats k) m.
Definition dirs_at k (m : gmap bytes (CachedData (list bytes))) : Prop :=
  ∃ t, t ≤ steady_now (lc_ticks k) ∧ represents t (lc_dirs k) m.

Lemma get_cached_valid_for {T} now p (c : TimedCache T) :
  cached_item_valid_for (fst (get_cached now p c)) = cached_item_valid_for c.
Proof. exact (valid_for_const c (OpGet now p)). Qed.
Lemma cache_valid_for {T} now now' p v (c : TimedCache T) :
  cached_item_valid_for (cache now now' p v c) = cached_item_valid_for c.
Proof. exact (valid_for_const c (OpCache now now' p v)). Qed.

Lemma stat_lookup_eq p k :
  stat_lookup p k = (mkLocal (fst (get_cached (steady_now (lc_ticks k)) p (lc_stats k))) (lc_dirs k)
                       (lc_consumed k) (S (lc_ticks k)),
                     snd (get_cached (steady_now (lc_ticks k)) p (lc_stats k))).
Proof. unfold Client.stat_lookup. by destruct (get_cached _ p _). Qed.
Lemma dir_lookup_eq p k :
  dir_lookup p k = (mkLocal (lc_stats k) (fst (get_cached (steady_now (lc_ticks k)) p (lc_dirs k)))
                      (lc_consumed k) (S (lc_ticks k)),
                    snd (get_cached (steady_now (lc_ticks k)) p (lc_dirs k))).
Proof. unfold Client.dir_lookup. by destruct (get_cached _ p _). Qed.

Lemma stat_lookup_at p k m :
  stats_at k m →
  stats_at (fst (stat_lookup p k)) m ∧
  snd (stat_lookup p k) =
    spec_get (cached_item_valid_for (lc_stats k)) (steady_now (lc_ticks k)) p m.
Proof.
  intros (t & Ht & Hr). rewrite stat_lookup_eq; simpl.
  destruct (get_cached_represents t _ p _ _ Hr Ht) as [-> Hr']. split; [|done].
  exists (steady_now (lc_ticks k)). split; [apply clock; simpl; lia|done].
Qed.

Lemma dir_lookup_at p k m :
  dirs_at k m →
  dirs_at (fst (dir_lookup p k)) m ∧
  snd (dir_lookup p k) =
    spec_get (cached_item_valid_for (lc_dirs k)) (steady_now (lc_ticks k)) p m.
Proof.
  intros (t & Ht & Hr). rewrite dir_lookup_eq; simpl.
  destruct (get_cached_represents t _ p _ _ Hr Ht) as [-> Hr']. split; [|done].
  exists (steady_now (lc_ticks k)). split; [apply clock; simpl; lia|done].
Qed.

Lemma stat_store_at p s k m :
  stats_at k m → stats_at (stat_store p s k) (<[p := mkCachedData s (steady_now (lc_ticks k))]> m).
Proof.
  intros (t & Ht & Hr). exists (steady_now (S (lc_ticks k))). split; [apply clock; simpl; lia|].
  apply (cache_represents t); [done|]. split; [done|apply clock; lia].
Qed.

Lemma dir_store_at p l k m :
  dirs_at k m → dirs_at (dir_store p l k) (<[p := mkCachedData l (steady_now (lc_ticks k))]> m).
Proof.
  intros (t & Ht & Hr). exists (steady_now (S (lc_ticks k))). split; [apply clock; simpl; lia|].
  apply (cache_represents t); [done|]. split; [done|apply clock; lia].
Qed.

Lemma stats_at_self k : stats_at k (cached_data (lc_stats k)).
Proof. exists (steady_now (lc_ticks k)). split; [lia|]. intros p. by left. Qed.
Lemma dirs_at_self k : dirs_at k (cached_data (lc_dirs k)).
Proof. exists (steady_now (lc_ticks k)). split; [lia|]. intros p. by left. Qed.

(** A reading in the period finds what was stored. *)
Lemma spec_get_fresh {T} (valid_for now t : Z) (p : bytes) (v : T) (m : gmap bytes (CachedData T)) :
  m !! p = Some (mkCachedData v t) → now - t ≤ ms valid_for → spec_get valid_for now p m = Some v.
Proof.
  intros E Ht. unfold spec_get. rewrite E. simpl. unfold expired. simpl.
  by rewrite (proj2 (Z.ltb_ge _ _)) by lia.
Qed.

(** ** Listings *)
Section Listing.
Context (wide : bytes → wstring) (dir : bytes).
Abbreviation store_entry := (store_entry steady_now wide dir).
Abbreviation replay_entry := (replay_entry steady_now wide dir).

Lemma get_full_path_inj name name' : get_full_path dir name = get_full_path dir name' → name = name'.
Proof. unfold get_full_path. destruct (ends_with_char dir slash); by intros ?%app_inv_head. Qed.

Lemma store_entry_ticks k e : (lc_ticks k ≤ lc_ticks (store_entry k e))%nat.
Proof. destruct e as [s|[name st]]; simpl; lia. Qed.

Lemma store_entries_ticks es k : (lc_ticks k ≤ lc_ticks (foldl store_entry k es))%nat.
Proof.
  revert k. induction es as [|e es IH]; intros k; simpl; [done|].
  etransitivity; [apply (store_entry_ticks k e)|apply IH].
Qed.

Lemma store_entries_config es k :
  lc_dirs (foldl store_entry k es) = lc_dirs k ∧
  cached_item_valid_for (lc_stats (foldl store_entry k es)) = cached_item_valid_for (lc_stats k).
Proof.
  revert k. induction es as [|[s|[name st]] es IH]; intros k; cbn [foldl]; [done|apply IH|].
  destruct (IH (store_entry k (inr (name, st)))) as [-> ->]. simpl. by rewrite cache_valid_for.
Qed.

Lemma store_entries_at es k m :
  stats_at k m → NoDup (entry_names es) →
  ∃ m', stats_at (foldl store_entry k es) m' ∧
    (∀ name st, inr (name, st) ∈ es →
       ∃ t, steady_now (lc_ticks k) ≤ t ∧ m' !! get_full_path dir name = Some (mkCachedData st t)) ∧
    (∀ name, name ∉ entry_names es → m' !! get_full_path dir name = m !! get_full_path dir name).
Proof.
  revert k m. induction es as [|[s|[name st]] es IH]; intros k m Hm Hnd; simpl.
  - exists m. split_and!; [done|by intros ?? ?%elem_of_nil|done].
  - destruct (IH k m Hm Hnd) as (m' & Hm' & Hin & Hout). exists m'.
    split_and!; [done| |done]. intros name st [?|?]%elem_of_cons; [done|by apply Hin].
  - simpl in Hnd. apply NoDup_cons in Hnd as [Hname Hnd].
    set (k1 := consumed st (wide name) (stat_store (get_full_path dir name) st k)).
    pose proof (stat_store_at (get_full_path dir name) st k m Hm) as Hm1.
    destruct (IH k1 _ Hm1 Hnd) as (m' & Hm' & Hin & Hout). exists m'. split_and!; [done|..].
    + intros n' st' [[= -> ->]|Hn]%elem_of_cons.
      * exists (steady_now (lc_ticks k)). split; [lia|]. by rewrite Hout, lookup_insert_eq.
      * destruct (Hin n' st' Hn) as (t & Ht & E). exists t. split; [|done].
        etransitivity; [|exact Ht]. apply clock. simpl. lia.
    + intros n' Hn'. simpl in Hn'. apply not_elem_of_cons in Hn' as [Hne Hn'].
      rewrite Hout by done. apply lookup_insert_ne. by intros ?%get_full_path_inj.
Qed.

Lemma replay_entry_ticks k name : lc_ticks (replay_entry k name) = S (lc_ticks k).
Proof.
  unfold Client.replay_entry. rewrite stat_lookup_eq.
  by destruct (snd (get_cached _ _ (lc_stats k))).
Qed.

Lemma replay_ticks names k : lc_ticks (foldl replay_entry k names) = (length names + lc_ticks k)%nat.
Proof.
  revert k. induction names as [|name names IH]; intros k; simpl; [done|].
  rewrite IH, replay_entry_ticks. lia.
Qed.

Lemma replay_entry_at k m name st t :
  stats_at k m → m !! get_full_path dir name = Some (mkCachedData st t) →
  steady_now (lc_ticks k) - t ≤ ms (cached_item_valid_for (lc_stats k)) →
  stats_at (replay_entry k name) m ∧
  lc_consumed (replay_entry k name) = lc_consumed k ++ [(st, wide name)] ∧
  cached_item_valid_for (lc_stats (replay_entry k name)) = cached_item_valid_for (lc_stats k).
Proof.
  intros Hm E Ht. destruct (stat_lookup_at (get_full_path dir name) k m Hm) as [Hm' Hl].
  rewrite (spec_get_fresh _ _ t _ st m E Ht) in Hl.
  unfold Client.replay_entry. rewrite stat_lookup_eq in *. simpl in *. rewrite Hl.
  split_and!; [exact Hm'|done|apply get_cached_valid_for].
Qed.

(** Replaying a listing whose stats are all fresh hands over every entry. *)
Lemma replay_fresh es k m t0 :
  stats_at k m →
  (∀ name st, inr (name, st) ∈ es →
     ∃ t, t0 ≤ t ∧ m !! get_full_path dir name = Some (mkCachedData st t)) →
  steady_now (length es + lc_ticks k) - t0 ≤ ms (cached_item_valid_for (lc_stats k)) →
  lc_consumed (foldl replay_entry k (entry_names es)) = lc_consumed k ++ entry_stats wide es.
Proof.
  revert k. induction es as [|[s|[name st]] es IH]; intros k Hm Hin Ht; simpl.
  - by rewrite app_nil_r.
  - apply IH; [done|set_solver|]. etransitivity; [|exact Ht].
    apply Z.sub_le_mono_r, clock. simpl. lia.
  - destruct (Hin name st) as (t & Htt & E); [set_solver|].
    destruct (replay_entry_at k m name st t Hm E) as (Hm' & Hc & Hv).
    { assert (steady_now (lc_ticks k) ≤ steady_now (S (length es + lc_ticks k)))
        by (apply clock; lia). simpl in Ht. lia. }
    rewrite IH; [|done|set_solver|].
    + rewrite Hc, <- app_assoc. done.
    + rewrite Hv, replay_entry_ticks. simpl in Ht. by rewrite Nat.add_succ_r.
Qed.
End Listing.

(** A miss stays a miss: the second look of [req_stat_file] finds nothing new. *)
Lemma stat_lookup_miss_again p k :
  snd (stat_lookup p k) = None → snd (stat_lookup p (fst (stat_lookup p k))) = None.
Proof.
  intros Hn. pose proof (stats_at_self k) as Hm.
  destruct (stat_lookup_at p k _ Hm) as [Hm' Hl]. rewrite Hl in Hn.
  destruct (stat_lookup_at p _ _ Hm') as [_ ->]. rewrite stat_lookup_eq; simpl.
  rewrite get_cached_valid_for. unfold spec_get in *.
  destruct (cached_data (lc_stats k) !! p) as [d|]; [|done]. simpl in *.
  destruct (expired _ (steady_now (lc_ticks k)) d) eqn:E; [|done].
  rewrite (expired_mono _ (steady_now (lc_ticks k)) _ d); [done|apply clock; lia|done].
Qed.

(** What was stored is found as long as it is fresh. *)
Lemma stat_store_lookup p s k :
  steady_now (S (S (lc_ticks k))) - steady_now (lc_ticks k) ≤ ms (cached_item_valid_for (lc_stats k)) →
  ∃ k', stat_lookup p (stat_store p s k) = (k', Some s).
Proof.
  intros Ht. pose proof (stat_store_at p s k _ (stats_at_self k)) as Hm.
  destruct (stat_lookup_at p _ _ Hm) as [_ Hl].
  rewrite (spec_get_fresh _ _ (steady_now (lc_ticks k)) _ s) in Hl;
    [|apply lookup_insert_eq|simpl; by rewrite cache_valid_for].
  destruct (stat_lookup p (stat_store p s k)) as [k' r]. simpl in Hl. subst. by exists k'.
Qed.

Lemma dir_store_lookup dir l k :
  steady_now (S (S (lc_ticks k))) - steady_now (lc_ticks k) ≤ ms (cached_item_valid_for (lc_dirs k)) →
  snd (dir_lookup dir (dir_store dir l k)) = Some l.
Proof.
  intros Ht. pose proof (dir_store_at dir l k _ (dirs_at_self k)) as Hm.
  destruct (dir_lookup_at dir _ _ Hm) as [_ ->].
  apply (spec_get_fresh _ _ (steady_now (lc_ticks k)));
    [apply lookup_insert_eq|simpl; by rewrite cache_valid_for].
Qed.

(** A listing fetched from the daemon and then replayed within the period hands
    over the same entries again. *)
Lemma listing_replayed wide dir es k :
  configured k → NoDup (entry_names es) →
  let k1 := dir_store dir (entry_names es) (foldl (store_entry steady_now wide dir) k es) in
  steady_now (S (length es + lc_ticks k1)) - steady_now (lc_ticks k) ≤ ms STAT_CACHE_PERIOD →
  ∃ k2, dir_lookup dir k1 = (k2, Some (entry_names es)) ∧
    lc_consumed (foldl (replay_entry steady_now wide dir) k2 (entry_names es)) =
      lc_consumed k1 ++ entry_stats wide es.
Proof.
  intros [Hcs Hcd] Hnd k1 Ht. set (k0 := foldl (store_entry steady_now wide dir) k es) in *.
  destruct (store_entries_config wide dir es k) as [Ed Ev]. fold k0 in Ed, Ev.
  pose proof (store_entries_ticks wide dir es k) as Htk. fold k0 in Htk.
  destruct (store_entries_at wide dir es k _ (stats_at_self k) Hnd) as (m & Hm & Hin & _). fold k0 in Hm.
  assert (E1 : lc_ticks k1 = S (S (lc_ticks k0))) by done.
  assert (Hd : snd (dir_lookup dir k1) = Some (entry_names es)).
  { apply dir_store_lookup. rewrite Ed, Hcd.
    assert (steady_now (lc_ticks k) ≤ steady_now (lc_ticks k0)) by (apply clock; lia).
    assert (steady_now (S (S (lc_ticks k0))) ≤ steady_now (S (length es + lc_ticks k1)))
      by (apply clock; lia). lia. }
  exists (fst (dir_lookup dir k1)). split; [rewrite <- Hd; by destruct (dir_lookup dir k1)|].
  assert (E2 : lc_stats (fst (dir_lookup dir k1)) = lc_stats k0 ∧
               lc_ticks (fst (dir_lookup dir k1)) = S (lc_ticks k1) ∧
               lc_consumed (fst (dir_lookup dir k1)) = lc_consumed k1) by by rewrite dir_lookup_eq.
  destruct E2 as (Es & Et & Ec). rewrite <- Ec.
  apply (replay_fresh wide dir es _ m (steady_now (lc_ticks k))); [|exact Hin|].
  - destruct Hm as (t & Ht' & Hr). exists t. rewrite Es, Et. split; [|done].
    etransitivity; [exact Ht'|]. apply clock. lia.
  - rewrite Es, Et, Ev, Hcs. by rewrite Nat.add_succ_r.
Qed.
End Caching.
