(* ===== verification/ClientSpec.v ===== *)
(** * What the client promises: programs of atomic steps

    The requests of Connection.cpp without sockets, buffers and the sweeping of the
    caches: each is a program whose steps are the operations of the two caches, the
    exchange of a request for its response, and the locking of [request_mutex].  Run
    from start to end they specify the client (file Session); their steps interleaved
    are its threads (file SharedConnection). *)

From S2P Require Import Prelude Wire Requests Responses PathUtils Conversion TimedCache Posix ClientHandler.
From S2P Require Import Protocol Connection Client.

(** ** Calls

    The public functions of [Connection], with paths in the form [P]: as Windows gives
    them, or converted. *)
Inductive client_call (P : Type) : Type :=
  | CStat (path : P)
  | CList (path : P)
  | CMove (from_path to_path : P) (replace_if_exists : bool)
  | CRemoveFile (path : P)
  | CCanRemoveFile (path : P)
  | CRemoveDir (path : P)
  | CCanRemoveDir (path : P)
  | CCreateDir (path : P)
  | COpen (path : P) (mode : OpenMode) (read_access write_access : bool)
  | CClose (file_handle : Z)
  | CWrite (file_handle file_offset : Z) (data : bytes)
  | CRead (file_handle file_offset buffer_len : Z)
  | CSetLen (file_handle file_len : Z)
  | CSetTime (path : P) (access_time write_time : Z)
  | CDisk.
Arguments CStat {P} _.
Arguments CList {P} _.
Arguments CMove {P} _ _ _.
Arguments CRemoveFile {P} _.
Arguments CCanRemoveFile {P} _.
Arguments CRemoveDir {P} _.
Arguments CCanRemoveDir {P} _.
Arguments CCreateDir {P} _.
Arguments COpen {P} _ _ _ _.
Arguments CClose {P} _.
Arguments CWrite {P} _ _ _.
Arguments CRead {P} _ _ _.
Arguments CSetLen {P} _ _.
Arguments CSetTime {P} _ _ _.
Arguments CDisk {P}.

(** What a call gives its caller: the status and the output parameters, and for a
    listing the calls of [consume_stat]. *)
Inductive answer : Type :=
  | AStatus (s : ResponseStatus)
  | AStat (s : ResponseStatus) (out_file_stat : option FileStat)
  | AList (s : ResponseStatus) (consumed : list (FileStat * wstring))
  | AOpen (s : ResponseStatus) (out_file_handle : option Z)
  | ARead (s : ResponseStatus) (read : option (Z * bytes))
  | ADisk (s : ResponseStatus) (out_disk_stats : option DiskStats).

(** ** Programs *)
Inductive prog : Type :=
  | Return (a : answer)
  | Lock (k : prog)
  | Unlock (k : prog)
  | GetStat (p : bytes) (k : option FileStat → prog)
  | PutStat (p : bytes) (s : FileStat) (k : prog)
  | DropStat (p : bytes) (k : prog)
  | GetDir (p : bytes) (k : option (list bytes) → prog)
  | PutDir (p : bytes) (names : list bytes) (k : prog)
  | DropDir (p : bytes) (k : prog)
  | Send (q : request) (k : response → prog).

(** [invalidate_parent_dir] *)
Definition drop_parent_then (p : bytes) (k : prog) : prog :=
  match get_parent_path p with Some d => DropDir d k | None => k end.

Definition stat_prog (p : bytes) : prog :=
  let found s := AStat Success (Some s) in
  GetStat p (λ cached, match cached with
    | Some s => Return (found s)
    | None => Lock (GetStat p (λ cached, match cached with
        | Some s => Unlock (Return (found s))
        | None =>
            if ends_with p DESKTOP_INI then Unlock (Return (AStat FileNotFound None))
            else Send (QStat p) (λ r, match r with
              | RStat s => PutStat p s (Unlock (Return (found s)))
              | _ => Unlock (Return (AStat (answer_status r) None))
              end)
        end))
    end).

Section Listings.
(** The Windows form of the entry names. *)
Context (wide : bytes → wstring) (dir : bytes).

Fixpoint replay_prog (names : list bytes) (consumed : list (FileStat * wstring)) : prog :=
  match names with
  | [] => Return (AList Success consumed)
  | name :: names =>
      GetStat (get_full_path dir name) (λ cached, match cached with
        | Some s => replay_prog names (consumed ++ [(s, wide name)])
        | None => replay_prog names consumed
        end)
  end.

Fixpoint store_prog (es : list entry) (names : list bytes) (consumed : list (FileStat * wstring)) : prog :=
  match es with
  | [] => PutDir dir names (Unlock (Return (AList Success consumed)))
  | inl _ :: es => store_prog es names consumed
  | inr (name, s) :: es =>
      PutStat (get_full_path dir name) s (store_prog es (names ++ [name]) (consumed ++ [(s, wide name)]))
  end.

Definition list_prog : prog :=
  GetDir dir (λ cached, match cached with
    | Some names => replay_prog names []
    | None => Lock (Send (QList dir) (λ r, match r with
        | REntries es => store_prog es [] []
        | _ => Unlock (Return (AList (answer_status r) []))
        end))
    end).
End Listings.

(** The end of a request answered by a status alone. *)
Definition send_status (q : request) : prog := Send q (λ r, Unlock (Return (AStatus (answer_status r)))).

Definition changing_prog (p : bytes) (q : request) : prog :=
  Lock (DropStat p (drop_parent_then p (send_status q))).

Definition open_prog (p : bytes) (mode : OpenMode) (read_access write_access : bool) : prog :=
  Lock (if ends_with p DESKTOP_INI then Unlock (Return (AOpen GenericFailure None))
        else Send (QOpen (mkOpenHandleArgs p mode read_access write_access)) (λ r,
          let done := Unlock (Return (AOpen (answer_status r) match r with ROpened fd => Some fd | _ => None end)) in
          if may_create mode then drop_parent_then p done else done)).

Definition prog_of (wide : bytes → wstring) (c : client_call bytes) : prog :=
  match c with
  | CStat p => stat_prog p
  | CList p => list_prog wide p
  | CMove f t b =>
      Lock (DropStat f (drop_parent_then f (DropStat t (drop_parent_then t
        (send_status (QMove (mkMoveEntryArgs f t b)))))))
  | CRemoveFile p => changing_prog p (QRemoveFile p)
  | CCanRemoveFile p => Lock (send_status (QCheckRemoveFile p))
  | CRemoveDir p => changing_prog p (QRemoveDir p)
  | CCanRemoveDir p => Lock (send_status (QCheckRemoveDir p))
  | CCreateDir p => changing_prog p (QCreateDir p)
  | COpen p m ra wa => open_prog p m ra wa
  | CClose fd => Lock (send_status (QClose fd))
  | CWrite fd off d => Lock (send_status (QWrite fd off d))
  | CRead fd off n =>
      Lock (Send (QRead (mkReadHandleArgs fd n off)) (λ r,
        Unlock (Return (ARead (answer_status r) match r with RData d => Some (zlen d, d) | _ => None end))))
  | CSetLen fd n => Lock (send_status (QTruncate (mkTruncateHandleArgs fd n)))
  | CSetTime p a m => Lock (DropStat p (send_status (QSetTime (mkSetFileTimeArgs p (to_i64 a) (to_i64 m)))))
  | CDisk =>
      Lock (Send QDisk (λ r,
        Unlock (Return (ADisk (answer_status r) match r with RDisk d => Some d | _ => None end))))
  end.

(** Every request a program can send. *)
Fixpoint all_sends (Q : request → Prop) (m : prog) : Prop :=
  match m with
  | Return _ => True
  | Lock k | Unlock k | PutStat _ _ k | DropStat _ k | PutDir _ _ k | DropDir _ k => all_sends Q k
  | GetStat _ k => ∀ r, all_sends Q (k r)
  | GetDir _ k => ∀ r, all_sends Q (k r)
  | Send q k => Q q ∧ ∀ r, all_sends Q (k r)
  end.

Lemma drop_parent_sends Q p k : all_sends Q k → all_sends Q (drop_parent_then p k).
Proof. unfold drop_parent_then. by destruct (get_parent_path p). Qed.
Lemma replay_sends Q wide dir names l : all_sends Q (replay_prog wide dir names l).
Proof. revert l. induction names as [|name names IH]; intros l; simpl; [done|]. by intros [st|]. Qed.
Lemma store_sends Q wide dir es names l : all_sends Q (store_prog wide dir es names l).
Proof. revert names l. induction es as [|[s|[name st]] es IH]; intros names l; simpl; done. Qed.

(** The requests of a call: at most one, made from its arguments. *)
Definition request_of_call (u : client_call bytes) : request :=
  match u with
  | CStat p => QStat p
  | CList p => QList p
  | CMove f t b => QMove (mkMoveEntryArgs f t b)
  | CRemoveFile p => QRemoveFile p
  | CCanRemoveFile p => QCheckRemoveFile p
  | CRemoveDir p => QRemoveDir p
  | CCanRemoveDir p => QCheckRemoveDir p
  | CCreateDir p => QCreateDir p
  | COpen p m ra wa => QOpen (mkOpenHandleArgs p m ra wa)
  | CClose fd => QClose fd
  | CWrite fd off d => QWrite fd off d
  | CRead fd off n => QRead (mkReadHandleArgs fd n off)
  | CSetLen fd n => QTruncate (mkTruncateHandleArgs fd n)
  | CSetTime p a m => QSetTime (mkSetFileTimeArgs p (to_i64 a) (to_i64 m))
  | CDisk => QDisk
  end.

Lemma prog_of_sends wide u : all_sends (λ q, q = request_of_call u) (prog_of wide u).
Proof.
  destruct u; unfold prog_of, stat_prog, list_prog, changing_prog, open_prog, send_status; simpl;
    repeat first [ done | apply drop_parent_sends | progress simpl
                 | match goal with
                   | |- ∀ r : option _, _ => intros [?|]
                   | |- ∀ r : response, _ => intros []
                   | |- _ ∧ _ => split
                   | |- context [if ?b then _ else _] => destruct b
                   end | apply replay_sends | apply store_sends ].
Qed.

(** ** The world the programs act on

    The caches as maps that are never swept, how often the clock was read, and the
    device. *)
Record world (OS : Type) : Type := mkWorld {
  w_stats : gmap bytes (CachedData FileStat);
  w_dirs : gmap bytes (CachedData (list bytes));
  w_ticks : nat;
  w_os : OS;
}.
Arguments mkWorld {OS} _ _ _ _.
Arguments w_stats {OS} _.
Arguments w_dirs {OS} _.
Arguments w_ticks {OS} _.
Arguments w_os {OS} _.

(** What a step did, with the reading of the clock. *)
Inductive event : Type :=
  | EGetStat (p : bytes) (r : option FileStat) (now : Z)
  | EPutStat (p : bytes) (s : FileStat) (now : Z)
  | EDropStat (p : bytes)
  | EGetDir (p : bytes) (r : option (list bytes)) (now : Z)
  | EPutDir (p : bytes) (names : list bytes) (now : Z)
  | EDropDir (p : bytes)
  | ESend (q : request) (r : response).

Section Run.
Context {OS : Type} `{Posix OS} (steady_now : nat → Z).
Implicit Types w : world OS.

(** The operations, each with the value it returns and the event it is. *)
Definition get_stat (p : bytes) w : world OS * option FileStat * event :=
  let now := steady_now (w_ticks w) in
  let r := spec_get STAT_CACHE_PERIOD now p (w_stats w) in
  (mkWorld (w_stats w) (w_dirs w) (S (w_ticks w)) (w_os w), r, EGetStat p r now).
Definition put_stat (p : bytes) (s : FileStat) w : world OS * event :=
  let now := steady_now (w_ticks w) in
  (mkWorld (<[p := mkCachedData s now]> (w_stats w)) (w_dirs w) (S (S (w_ticks w))) (w_os w), EPutStat p s now).
Definition drop_stat_entry (p : bytes) w : world OS * event :=
  (mkWorld (delete p (w_stats w)) (w_dirs w) (w_ticks w) (w_os w), EDropStat p).
Definition get_dir (p : bytes) w : world OS * option (list bytes) * event :=
  let now := steady_now (w_ticks w) in
  let r := spec_get STAT_CACHE_PERIOD now p (w_dirs w) in
  (mkWorld (w_stats w) (w_dirs w) (S (w_ticks w)) (w_os w), r, EGetDir p r now).
Definition put_dir (p : bytes) (names : list bytes) w : world OS * event :=
  let now := steady_now (w_ticks w) in
  (mkWorld (w_stats w) (<[p := mkCachedData names now]> (w_dirs w)) (S (S (w_ticks w))) (w_os w), EPutDir p names now).
Definition drop_dir_entry (p : bytes) w : world OS * event :=
  (mkWorld (w_stats w) (delete p (w_dirs w)) (w_ticks w) (w_os w), EDropDir p).
Definition exchange (q : request) w : world OS * response * event :=
  let '(o, r) := serve q (w_os w) in
  (mkWorld (w_stats w) (w_dirs w) (w_ticks w) o, r, ESend q r).

(** A call on its own, from start to end. *)
Fixpoint run_prog (m : prog) w : world OS * list event * answer :=
  let then_ e r := let '(w, es, a) := r in (w, e :: es, a) in
  match m with
  | Return a => (w, [], a)
  | Lock k | Unlock k => run_prog k w
  | GetStat p k => let '(w, r, e) := get_stat p w in then_ e (run_prog (k r) w)
  | PutStat p s k => let '(w, e) := put_stat p s w in then_ e (run_prog k w)
  | DropStat p k => let '(w, e) := drop_stat_entry p w in then_ e (run_prog k w)
  | GetDir p k => let '(w, r, e) := get_dir p w in then_ e (run_prog (k r) w)
  | PutDir p names k => let '(w, e) := put_dir p names w in then_ e (run_prog k w)
  | DropDir p k => let '(w, e) := drop_dir_entry p w in then_ e (run_prog k w)
  | Send q k => let '(w, r, e) := exchange q w in then_ e (run_prog (k r) w)
  end.

(** Calls one after the other. *)
Fixpoint run_progs (ms : list prog) w : world OS * list event * list answer :=
  match ms with
  | [] => (w, [], [])
  | m :: ms =>
      let '(w, es, a) := run_prog m w in
      let '(w, es', l) := run_progs ms w in
      (w, es ++ es', a :: l)
  end.

(** One step; the mutex is left to whoever runs the program. *)
Definition prog_step (m : prog) w : option (prog * world OS * event) :=
  match m with
  | Return _ | Lock _ | Unlock _ => None
  | GetStat p k => let '(w, r, e) := get_stat p w in Some (k r, w, e)
  | PutStat p s k => let '(w, e) := put_stat p s w in Some (k, w, e)
  | DropStat p k => let '(w, e) := drop_stat_entry p w in Some (k, w, e)
  | GetDir p k => let '(w, r, e) := get_dir p w in Some (k r, w, e)
  | PutDir p names k => let '(w, e) := put_dir p names w in Some (k, w, e)
  | DropDir p k => let '(w, e) := drop_dir_entry p w in Some (k, w, e)
  | Send q k => let '(w, r, e) := exchange q w in Some (k r, w, e)
  end.

Lemma run_prog_step m w m1 w1 e :
  prog_step m w = Some (m1, w1, e) →
  run_prog m w = let '(w', es, a) := run_prog m1 w1 in (w', e :: es, a).
Proof.
  destruct m; simpl; try done; try (by injection 1 as <- <- <-).
  destruct (exchange q w) as [[w' r] e']. by injection 1 as <- <- <-.
Qed.

(** The requests sent and the responses received. *)
Definition sent_of (e : event) : option (request * response) :=
  match e with ESend q r => Some (q, r) | _ => None end.
Definition requests_of (es : list event) : list request := (omap sent_of es).*1.
Definition responses_of (es : list event) : list response := (omap sent_of es).*2.

Lemma requests_app es es' : requests_of (es ++ es') = requests_of es ++ requests_of es'.
Proof. unfold requests_of. by rewrite omap_app, fmap_app. Qed.
Lemma responses_app es es' : responses_of (es ++ es') = responses_of es ++ responses_of es'.
Proof. unfold responses_of. by rewrite omap_app, fmap_app. Qed.

Lemma serve_all_app qs qs' (o : OS) :
  serve_all (qs ++ qs') o =
    (fst (serve_all qs' (fst (serve_all qs o))), snd (serve_all qs o) ++ snd (serve_all qs' (fst (serve_all qs o)))).
Proof.
  revert o. induction qs as [|q qs IH]; intros o; simpl; [by destruct (serve_all qs' o)|].
  destruct (serve q o) as [o1 r]. rewrite IH. by destruct (serve_all qs o1).
Qed.

(** Everything the device learns it learns from the requests. *)
Lemma run_prog_serves m w :
  let '(w', es, _) := run_prog m w in serve_all (requests_of es) (w_os w) = (w_os w', responses_of es).
Proof.
  revert w. induction m as [a|k IH|k IH|p k IH|p s k IH|p k IH|p k IH|p names k IH|p k IH|q k IH]; intros w; simpl; [done|apply IH|apply IH|..].
  - specialize (IH (spec_get STAT_CACHE_PERIOD (steady_now (w_ticks w)) p (w_stats w))
      (mkWorld (w_stats w) (w_dirs w) (S (w_ticks w)) (w_os w))). by destruct (run_prog _ _) as [[w' es] a].
  - specialize (IH (fst (put_stat p s w))). simpl in IH. by destruct (run_prog _ _) as [[w' es] a].
  - specialize (IH (fst (drop_stat_entry p w))). simpl in IH. by destruct (run_prog _ _) as [[w' es] a].
  - specialize (IH (spec_get STAT_CACHE_PERIOD (steady_now (w_ticks w)) p (w_dirs w))
      (mkWorld (w_stats w) (w_dirs w) (S (w_ticks w)) (w_os w))). by destruct (run_prog _ _) as [[w' es] a].
  - specialize (IH (fst (put_dir p names w))). simpl in IH. by destruct (run_prog _ _) as [[w' es] a].
  - specialize (IH (fst (drop_dir_entry p w))). simpl in IH. by destruct (run_prog _ _) as [[w' es] a].
  - unfold exchange. destruct (serve q (w_os w)) as [o r] eqn:E.
    specialize (IH r (mkWorld (w_stats w) (w_dirs w) (w_ticks w) o)). destruct (run_prog _ _) as [[w' es] a].
    change (requests_of (ESend q r :: es)) with (q :: requests_of es).
    change (responses_of (ESend q r :: es)) with (r :: responses_of es). simpl in *. by rewrite E, IH.
Qed.

Lemma run_prog_sends (Q : request → Prop) m w :
  all_sends Q m → let '(_, es, _) := run_prog m w in Forall Q (requests_of es).
Proof.
  revert w. induction m as [a|k IH|k IH|p k IH|p s k IH|p k IH|p k IH|p names k IH|p k IH|q k IH]; intros w Hm; simpl;
    [constructor|by apply IH|by apply IH|..].
  - specialize (IH _ (fst (fst (get_stat p w))) (Hm (snd (fst (get_stat p w))))). simpl in IH. by destruct (run_prog _ _) as [[w' es] a].
  - specialize (IH (fst (put_stat p s w)) Hm). simpl in IH. by destruct (run_prog _ _) as [[w' es] a].
  - specialize (IH (fst (drop_stat_entry p w)) Hm). simpl in IH. by destruct (run_prog _ _) as [[w' es] a].
  - specialize (IH _ (fst (fst (get_dir p w))) (Hm (snd (fst (get_dir p w))))). simpl in IH. by destruct (run_prog _ _) as [[w' es] a].
  - specialize (IH (fst (put_dir p names w)) Hm). simpl in IH. by destruct (run_prog _ _) as [[w' es] a].
  - specialize (IH (fst (drop_dir_entry p w)) Hm). simpl in IH. by destruct (run_prog _ _) as [[w' es] a].
  - destruct Hm as [Hq Hm]. destruct (exchange q w) as [[w1 r] e] eqn:E. specialize (IH r w1 (Hm r)).
    unfold exchange in E. destruct (serve q (w_os w)) as [o r1]. injection E as <- <- <-.
    destruct (run_prog _ _) as [[w' es] a].
    change (requests_of (ESend q r1 :: es)) with (q :: requests_of es). by constructor.
Qed.

Lemma run_progs_serves ms w :
  let '(w', es, _) := run_progs ms w in serve_all (requests_of es) (w_os w) = (w_os w', responses_of es).
Proof.
  revert w. induction ms as [|m ms IH]; intros w; simpl; [done|]. pose proof (run_prog_serves m w) as H1.
  destruct (run_prog m w) as [[w1 es] a]. specialize (IH w1). destruct (run_progs ms w1) as [[w2 es'] l].
  rewrite requests_app, responses_app, serve_all_app, H1. simpl. by rewrite IH.
Qed.
End Run.
