(* ===== verification/Discipline.v ===== *)
(** * The discipline of the client's programs

    What is checked of the programs of ClientSpec.v once and for all, before any thread
    runs them: everything but lookups happens under [request_mutex]; what is stored was
    told by the last exchange; a request that changes an entry is sent with its cached
    answers gone; and every answer rests on what the call itself has seen. *)

From S2P Require Import Prelude Wire Requests Responses PathUtils Conversion TimedCache Posix ClientHandler.
From S2P Require Import Protocol Connection Client ClientSpec.

(** ** What an exchange tells and what it changes *)

(** The response gives [s] as the stat of [p]. *)
Definition told (q : request) (r : response) (p : bytes) (s : FileStat) : Prop :=
  match q, r with
  | QStat p', RStat s' => p' = p ∧ s' = s
  | QList d, REntries es => ∃ name, inr (name, s) ∈ es ∧ get_full_path d name = p
  | _, _ => False
  end.

(** The response gives [names] as the entries of [d]. *)
Definition listed (q : request) (r : response) (d : bytes) (names : list bytes) : Prop :=
  match q, r with QList d', REntries es => d' = d ∧ entry_names es = names | _, _ => False end.

(** The paths whose entry a request moves, removes, creates or stamps.  A write, a
    truncation and an open name no path here, and neither does the move or removal of a
    directory name the paths below it. *)
Definition changed (q : request) : gset bytes :=
  match q with
  | QMove a => {[ me_from_path a; me_to_path a ]}
  | QRemoveFile p | QRemoveDir p | QCreateDir p => {[ p ]}
  | QSetTime a => {[ sf_path a ]}
  | _ => ∅
  end.

(** The directories whose listing the client drops for a request: the code's notion of
    the parent. *)
Definition parent_set (p : bytes) : gset bytes :=
  match get_parent_path p with Some d => {[ d ]} | None => ∅ end.
Definition dropped_dirs (q : request) : gset bytes :=
  match q with
  | QMove a => parent_set (me_from_path a) ∪ parent_set (me_to_path a)
  | QRemoveFile p | QRemoveDir p | QCreateDir p => parent_set p
  | QOpen a => if may_create (oh_mode a) then parent_set (oh_path a) else ∅
  | _ => ∅
  end.

(** ** Which directories a request alters *)

(** The request may add an entry to [d] or remove one from it. *)
Definition alters (d : bytes) (q : request) : Prop :=
  match q with
  | QMove a => lies_in d (me_from_path a) ∨ lies_in d (me_to_path a)
  | QRemoveFile p | QRemoveDir p | QCreateDir p => lies_in d p
  | QOpen a => oh_mode a ∈ [CreateAlways; CreateIfNotExist; CreateOrTruncate] ∧ lies_in d (oh_path a)
  | _ => False
  end.

Lemma entry_parent d p : plain_dir d → lies_in d p → parent_set p = {[ d ]}.
Proof. intros Hd Hp. unfold parent_set. by rewrite (lies_in_parent d p). Qed.

(** For a directory other than the root the client drops the listing of the right one. *)
Lemma alters_dropped d q : plain_dir d → alters d q → d ∈ dropped_dirs q.
Proof.
  intros Hd. destruct q; simpl; try done; try (intros He; rewrite (entry_parent d) by done; set_solver).
  - intros [He|He]; rewrite (entry_parent d _ Hd He); set_solver.
  - intros [Hm He]. rewrite (entry_parent d) by done.
    assert (may_create (oh_mode args) = true) as ->; [|set_solver].
    rewrite !elem_of_cons in Hm. destruct Hm as [-> | [-> | [-> | []%not_elem_of_nil]]]; done.
Qed.

(** ** The discipline of the programs

    What the holder of the mutex knows: the last exchange, the paths and directories that
    are not cached, and the directories whose listing it has yet to drop. *)
Record section : Type := mkSection {
  sc_last : option (request * response);
  sc_gone : gset bytes;
  sc_gone_dirs : gset bytes;
  sc_due : gset bytes;
}.
Definition fresh_section : section := mkSection None ∅ ∅ ∅.

(** What has to be known for a step to be taken, and what is known after it. *)
Definition allowed (s : section) (e : event) : Prop :=
  match e with
  | EPutStat p st _ => ∃ q r, sc_last s = Some (q, r) ∧ told q r p st
  | EPutDir d names _ => (∃ q r, sc_last s = Some (q, r) ∧ listed q r d names) ∧ d ∉ sc_due s
  | ESend q _ => changed q ⊆ sc_gone s
  | _ => True
  end.
Definition section_after (s : section) (e : event) : section :=
  match e with
  | EPutStat p _ _ => mkSection (sc_last s) (sc_gone s ∖ {[ p ]}) (sc_gone_dirs s) (sc_due s)
  | EDropStat p => mkSection (sc_last s) (sc_gone s ∪ {[ p ]}) (sc_gone_dirs s) (sc_due s)
  | EPutDir d _ _ => mkSection (sc_last s) (sc_gone s) (sc_gone_dirs s ∖ {[ d ]}) (sc_due s)
  | EDropDir d => mkSection (sc_last s) (sc_gone s) (sc_gone_dirs s ∪ {[ d ]}) (sc_due s ∖ {[ d ]})
  | ESend q r => mkSection (Some (q, r)) (sc_gone s) (sc_gone_dirs s) (sc_due s ∪ dropped_dirs q ∖ sc_gone_dirs s)
  | _ => s
  end.

Definition inside (h : option section) (e : event) (K : section → Prop) : Prop :=
  match h with Some s => allowed s e ∧ K (section_after s e) | None => False end.

(** Everything but lookups happens under the mutex; a call locks it at most once at a
    time, and unlocks it before it returns, with no listing left to drop. *)
Fixpoint disciplined (h : option section) (m : prog) : Prop :=
  match m with
  | Return _ => h = None
  | Lock k => h = None ∧ disciplined (Some fresh_section) k
  | Unlock k => match h with Some s => sc_due s = ∅ ∧ disciplined None k | None => False end
  | GetStat _ k => ∀ r, disciplined h (k r)
  | GetDir _ k => ∀ r, disciplined h (k r)
  | PutStat p st k => inside h (EPutStat p st 0) (λ s, disciplined (Some s) k)
  | DropStat p k => inside h (EDropStat p) (λ s, disciplined (Some s) k)
  | PutDir d names k => inside h (EPutDir d names 0) (λ s, disciplined (Some s) k)
  | DropDir d k => inside h (EDropDir d) (λ s, disciplined (Some s) k)
  | Send q k => ∀ r, inside h (ESend q r) (λ s, disciplined (Some s) (k r))
  end.

Lemma drop_parent_disciplined p k s :
  disciplined (Some (mkSection (sc_last s) (sc_gone s) (sc_gone_dirs s ∪ parent_set p) (sc_due s ∖ parent_set p))) k →
  disciplined (Some s) (drop_parent_then p k).
Proof.
  unfold drop_parent_then, parent_set. destruct (get_parent_path p) as [d|]; [done|].
  destruct s as [l g gd du]. simpl.
  replace (gd ∪ ∅) with gd by set_solver. by replace (du ∖ ∅) with du by set_solver.
Qed.

Lemma send_status_disciplined q s :
  changed q ⊆ sc_gone s → dropped_dirs q ⊆ sc_gone_dirs s → sc_due s = ∅ → disciplined (Some s) (send_status q).
Proof. intros Hc Ha Hd r. split; [done|]. split; [|done]. simpl. set_solver. Qed.

Lemma replay_disciplined wide dir names l : disciplined None (replay_prog wide dir names l).
Proof. revert l. induction names as [|name names IH]; intros l; simpl; [done|]. by intros [st|]. Qed.

Lemma store_disciplined wide dir all es names l s :
  sc_last s = Some (QList dir, REntries all) → sc_due s = ∅ →
  (∀ e, e ∈ es → e ∈ all) → names ++ entry_names es = entry_names all →
  disciplined (Some s) (store_prog wide dir es names l).
Proof.
  revert names l s. induction es as [|[x|[name st]] es IH]; intros names l s Hl Hd Hin Hn; simpl in *.
  - split; [|done]. split; [|set_solver]. exists (QList dir), (REntries all). rewrite app_nil_r in Hn. done.
  - apply IH; [done..| |done]. intros e He. apply Hin. by right.
  - split.
    + exists (QList dir), (REntries all). split; [done|]. exists name. split; [apply Hin; by left|done].
    + apply IH; [done..| |by rewrite <- app_assoc]. intros e He. apply Hin. by right.
Qed.

Lemma changing_disciplined p q :
  changed q ⊆ {[ p ]} → dropped_dirs q ⊆ parent_set p → disciplined None (changing_prog p q).
Proof.
  intros Hc Ha. split; [done|]. split; [done|]. apply drop_parent_disciplined, send_status_disciplined; simpl; set_solver.
Qed.

Lemma prog_of_disciplined wide u : disciplined None (prog_of wide u).
Proof.
  destruct u; unfold prog_of; try (apply changing_disciplined; simpl; set_solver);
    try (split; [done|]; apply send_status_disciplined; simpl; set_solver).
  - intros [st|]; [done|]. split; [done|]. intros [st|]; [done|]. destruct (ends_with path DESKTOP_INI); [done|].
    intros r. split; [done|]. destruct r; try done. split; [|done]. by eexists _, _.
  - intros [names|]; [apply replay_disciplined|]. split; [done|]. intros r. split; [simpl; set_solver|].
    assert (∅ ∪ dropped_dirs (QList path) ∖ ∅ = ∅) by (simpl; set_solver).
    destruct r; try (by split). by apply (store_disciplined _ _ entries).
  - split; [done|]. split; [done|]. apply drop_parent_disciplined. split; [done|].
    apply drop_parent_disciplined, send_status_disciplined; simpl; set_solver.
  - split; [done|]. destruct (ends_with path DESKTOP_INI); [done|]. intros r. split; [simpl; set_solver|]. simpl.
    destruct (may_create mode).
    + apply drop_parent_disciplined. split; [|done]. simpl. set_solver.
    + split; [|done]. simpl. set_solver.
  - split; [done|]. split; [done|]. apply send_status_disciplined; simpl; set_solver.
Qed.

(** Steps of disciplined programs. *)
Definition lookup_event (e : event) : Prop :=
  match e with EGetStat _ _ _ | EGetDir _ _ _ => True | _ => False end.

Section Steps.
Context {OS : Type} `{Posix OS} (steady_now : nat → Z).
Implicit Types w : world OS.

Lemma disciplined_step h m w m1 w1 e :
  prog_step steady_now m w = Some (m1, w1, e) → disciplined h m →
  match h with
  | Some s => allowed s e ∧ disciplined (Some (section_after s e)) m1
  | None => lookup_event e ∧ disciplined None m1
  end.
Proof.
  destruct m; simpl; try done; unfold inside, exchange;
    repeat match goal with |- context [serve ?q ?o] => destruct (serve q o) end;
    injection 1 as <- <- <-; destruct h; naive_solver.
Qed.
End Steps.

(** ** The evidence for an answer

    What the returned answer of a call claims: each stat was seen by the call, and a
    listing is part of one the call has seen. *)
Section Evidence.
Context (wide : bytes → wstring).
Implicit Types (J : bytes → FileStat → Prop) (D : bytes → list bytes → Prop).

Definition shown (e : FileStat * bytes) : FileStat * wstring := (fst e, wide (snd e)).
Definition supported J D (u : client_call bytes) (a : answer) : Prop :=
  match u, a with
  | CStat p, AStat Success st => ∃ s, st = Some s ∧ J p s
  | CList d, AList Success l =>
      ∃ names kept, D d names ∧ sublist (snd <$> kept) names ∧
        l = shown <$> kept ∧
        ∀ s name, (s, name) ∈ kept → J (get_full_path d name) s
  | _, _ => True
  end.

(** Responses of the daemon to the two requests whose answers are cached. *)
Definition sensible (q : request) (r : response) : Prop :=
  match q with QStat _ | QList _ => fits q r | _ => True end.

Fixpoint vouched (u : client_call bytes) J D (m : prog) : Prop :=
  match m with
  | Return a => supported J D u a
  | Lock k | Unlock k | PutStat _ _ k | DropStat _ k | PutDir _ _ k | DropDir _ k => vouched u J D k
  | GetStat p k => ∀ r, vouched u (λ p' s, J p' s ∨ p' = p ∧ r = Some s) D (k r)
  | GetDir d k => ∀ r, vouched u J (λ d' names, D d' names ∨ d' = d ∧ r = Some names) (k r)
  | Send q k => ∀ r, sensible q r →
      vouched u (λ p s, J p s ∨ told q r p s) (λ d names, D d names ∨ listed q r d names) (k r)
  end.

Lemma supported_mono J J' D D' u a :
  (∀ p s, J p s → J' p s) → (∀ d names, D d names → D' d names) → supported J D u a → supported J' D' u a.
Proof.
  intros HJ HD. destruct u; try done; destruct a; try done; destruct s; try done; simpl; [naive_solver|].
  intros (names & kept & Hd & Hsub & -> & Hk). exists names, kept. eauto 10.
Qed.

Lemma vouched_mono u m J J' D D' :
  (∀ p s, J p s → J' p s) → (∀ d names, D d names → D' d names) → vouched u J D m → vouched u J' D' m.
Proof.
  revert J J' D D'. induction m as [a|k IH|k IH|p k IH|p s k IH|p k IH|p k IH|p names k IH|p k IH|q k IH];
    intros J J' D D' HJ HD; simpl; eauto using supported_mono.
  - intros Hm r. eapply IH; [| |apply Hm]; naive_solver.
  - intros Hm r. eapply IH; [| |apply Hm]; naive_solver.
  - intros Hm r Hr. eapply IH; [| |by apply Hm]; naive_solver.
Qed.

Lemma vouched_other u J D m : (∀ J D a, supported J D u a) → vouched u J D m.
Proof.
  intros Hu. revert J D. induction m; intros J D; simpl; auto.
Qed.

Lemma replay_vouched d names kept0 all J D :
  D d all → (∀ s name, (s, name) ∈ kept0 → J (get_full_path d name) s) →
  (∃ before, sublist (snd <$> kept0) before ∧ all = before ++ names) →
  vouched (CList d) J D (replay_prog wide d names (shown <$> kept0)).
Proof.
  intros HD. revert J kept0 HD. induction names as [|name names IH]; intros J kept0 HD Hk (before & Hs & ->); simpl.
  - exists (before ++ []), kept0. rewrite app_nil_r. split_and!; try done. by rewrite app_nil_r in HD.
  - intros [st|].
    + specialize (IH (λ p' s, J p' s ∨ p' = get_full_path d name ∧ Some st = Some s) (kept0 ++ [(st, name)]) HD).
      change [(st, wide name)] with (shown <$> [(st, name)]). rewrite <- (fmap_app shown). apply IH.
      * intros s n [Hin|[= -> ->]%list_elem_of_singleton]%elem_of_app; auto.
      * exists (before ++ [name]). rewrite <- app_assoc. split; [|done]. rewrite fmap_app. by apply sublist_app.
    + eapply vouched_mono; [| |apply (IH J kept0 HD Hk)]; [by left|done|].
      exists (before ++ [name]). rewrite <- app_assoc. split; [|done]. by apply sublist_inserts_r.
Qed.

Lemma store_vouched d all es kept0 J D :
  D d (entry_names all) → (∀ s name, inr (name, s) ∈ all → J (get_full_path d name) s) →
  (∃ before, all = before ++ es ∧ snd <$> kept0 = entry_names before ∧ ∀ s name, (s, name) ∈ kept0 → inr (name, s) ∈ all) →
  vouched (CList d) J D (store_prog wide d es (snd <$> kept0) (shown <$> kept0)).
Proof.
  intros HD HJ. revert kept0. induction es as [|[x|[name st]] es IH]; intros kept0 (before & -> & Hn & Hk); cbn [store_prog vouched].
  - exists (entry_names (before ++ [])), kept0. rewrite app_nil_r in *. split_and!; try done; [by rewrite Hn|eauto].
  - apply IH. exists (before ++ [inl x]). rewrite <- app_assoc. split_and!; try done.
    rewrite Hn. unfold entry_names. by rewrite omap_app, app_nil_r.
  - change [(st, wide name)] with (shown <$> [(st, name)]). change [name] with (snd <$> [(st, name)]).
    rewrite <- !fmap_app. apply IH. exists (before ++ [inr (name, st)]). rewrite <- app_assoc. split_and!; [done|..].
    + rewrite fmap_app, Hn. unfold entry_names. by rewrite omap_app.
    + intros s n [Hin|[= -> ->]%list_elem_of_singleton]%elem_of_app; [eauto|]. apply elem_of_app. right. by left.
Qed.

Lemma prog_of_vouched u : vouched u (λ _ _, False) (λ _ _, False) (prog_of wide u).
Proof.
  destruct u; try (by apply vouched_other); simpl.
  - intros [st|]; simpl; [by eauto|]. intros [st|]; simpl; [by eauto 10|].
    destruct (ends_with path DESKTOP_INI); simpl; [done|]. intros r Hr. destruct r; simpl in *; try done; [|by eauto 10].
    by destruct Hr as [_ Hr], status.
  - intros [names|].
    + apply (replay_vouched path names [] names); [by right|by intros ?? ?%elem_of_nil|]. by exists [].
    + simpl. intros r Hr. destruct r; simpl in *; try done; [by destruct Hr as [_ Hr], status|].
      apply (store_vouched path entries entries []); [by right|by eauto 10|]. exists []. split_and!; try done. by intros ?? ?%elem_of_nil.
Qed.
End Evidence.
