(* ===== verification/EndToEnd.v ===== *)
(** * Client and daemon together

    What a caller of the client's [req_*] functions gets when the other end of
    the connection is the daemon.  The two ends are joined by the bytes: the
    daemon, given the request the client sends, answers with bytes on which the
    client returns what the operating system of the device said. *)

From S2P Require Import Prelude Effects Endian Wire Serialization Socket Requests Responses.
From S2P Require Import PathUtils Conversion TimedCache Posix ClientHandler Protocol FileContents.
From S2P Require Import Daemon Connection Client ClientCache MemFs.

Section EndToEnd.
(** The client's socket, the daemon's socket and the device's system. *)
Context {N N' OS : Type} `{SocketLaws N} `{SocketLaws N'} `{PosixLaws OS}.
Context `{WideStrings} (steady_now : nat → Z).
Implicit Types (o : OS) (c : connection N) (k : local_state).

(** Given the bytes of [q] with the system in state [o], one turn of the
    daemon's loop sends [resp] and leaves the system in [o']. *)
Definition daemon_answers (q : request) (o : OS) (resp : bytes) (o' : OS) : Prop :=
  ∀ (h : handler N' OS) tl out rw, handler_at h (encode_request q ++ tl) out rw o →
    wp handle_message
       (λ b h', b = true ∧ flushed h' ∧ ∃ rw', handler_at h' tl (out ++ resp) rw' o') only_io h.

Lemma daemon_answers_serve q o :
  valid_request q → in_step q o = true →
  daemon_answers q o (encode_response (snd (serve q o))) (fst (serve q o)).
Proof. intros Hq Hs h tl out rw Hh. by eapply handle_message_spec. Qed.

(** Requests answered by a status alone. *)
Definition status_only (q : request) : Prop :=
  match q with QStat _ | QList _ | QOpen _ | QRead _ | QDisk => False | _ => True end.

Lemma status_response q r :
  status_only q → fits q r → r = RStatus (answer_status r) ∧ listed_status (answer_status r).
Proof. destruct q; intros Hq Hr; try done; by destruct r. Qed.

(** The caller's view of a request: with the daemon on the other end, the
    client's function [m] sends [q], takes the whole response, and returns a
    value that, with the new system state and the client's caches, satisfies
    [Q]. *)
Definition requests {A} (q : request) (m : M (connection N) A) (k : local_state) (o : OS)
    (Q : A → local_state → OS → Prop) : Prop :=
  ∃ resp o', daemon_answers q o resp o' ∧
    ∀ c tl out, conn_at c (resp ++ tl) out k →
      wp m (λ a c', ∃ k', Q a k' o' ∧ exchanged q tl out k' c') only_io c.

Lemma requests_intro {A} q (m : M (connection N) A) k o Q (a : A) k' :
  valid_request q → in_step q o = true →
  (∀ c tl out, conn_at c (encode_response (snd (serve q o)) ++ tl) out k →
     wp m (λ b c', b = a ∧ exchanged q tl out k' c') only_io c) →
  Q a k' (fst (serve q o)) → requests q m k o Q.
Proof.
  intros Hq Hs Hm HQ. exists (encode_response (snd (serve q o))), (fst (serve q o)).
  split; [by apply daemon_answers_serve|]. intros c tl out Hc.
  eapply wp_mono; [by apply Hm| |done]. intros b c' [-> He]. eauto.
Qed.
End EndToEnd.

Section Transfers.
Context {N N' OS : Type} `{SocketLaws N} `{SocketLaws N'} `{PosixLaws OS} `{!PosixFiles OS}.
Implicit Types (o : OS) (k : local_state).

Lemma write_in_step fd off d o content pos :
  fd_file (to_i32 fd) o = Some (content, pos) → 0 ≤ off < 2 ^ 63 →
  in_step (QWrite fd off d) o = true.
Proof.
  intros Hf Ho. simpl. rewrite (to_signed_nonneg 64) by lia.
  by destruct (sys_lseek_file _ off o content pos Hf ltac:(lia)) as (o1 & -> & _).
Qed.

Lemma read_requests fd off n o content pos k :
  is_u32 fd → 0 ≤ off < 2 ^ 63 → 0 ≤ n < 2 ^ 31 →
  fd_file (to_i32 fd) o = Some (content, pos) →
  requests (N := N) (N' := N') (QRead (mkReadHandleArgs fd n off)) (req_read_from_file fd off n) k o
    (λ a k' o', k' = k ∧ (∃ pos', fst a = Success → fd_file (to_i32 fd) o' = Some (content, pos')) ∧
       (a = (Success, Some (zlen (ztake n (zdrop off content)), ztake n (zdrop off content))) ∨
        ∃ err, a = (get_status_from_errno err, None))).
Proof.
  intros Hfd Ho Hn Hf.
  set (q := QRead (mkReadHandleArgs fd n off)).
  assert (Hq : valid_request q).
  { split; [split_and!|]; simpl; unfold is_unsigned in *; lia. }
  pose proof (serve_fits q o Hq) as Hfit.
  pose proof (serve_read_file (mkReadHandleArgs fd n off) o content pos Hf Ho ltac:(simpl; lia)) as Hs.
  eapply requests_intro; [done|done| |].
  - intros c tl out Hc. apply req_read_from_file_spec; [done|unfold is_unsigned; lia|done..].
  - fold q in Hs. destruct (serve q o) as [o' r]. cbn [fst snd] in *.
    destruct r as [s| | |d| |]; try (by destruct Hs as [? ?]).
    + destruct Hs as [err [= ->]]. destruct (errno_status err) as (_ & Hne & _).
      split_and!; [done|by exists 0|right; by exists err].
    + destruct Hs as [-> [pos' Hf']]. split_and!; [done|by exists pos'|by left].
Qed.

Lemma write_requests fd off d o content pos k :
  is_u32 fd → 0 ≤ off < 2 ^ 63 → zlen d < 2 ^ 31 → d ≠ [] →
  fd_file (to_i32 fd) o = Some (content, pos) →
  requests (N := N) (N' := N') (QWrite fd off d) (req_write_to_file fd off d (zlen d)) k o
    (λ s k' o', k' = k ∧
       (s = Success ∧ fd_file (to_i32 fd) o' = Some (overwrite off d content, off + zlen d) ∨
        ∃ err, s = get_status_from_errno err)).
Proof.
  intros Hfd Ho Hn Hd Hf. pose proof (zlen_nonneg d).
  assert (Hq : valid_request (QWrite fd off d)).
  { split; [split_and!|]; simpl; unfold is_unsigned in *; lia. }
  pose proof (serve_fits (QWrite fd off d) o Hq) as Hfit.
  pose proof (serve_write_file fd off d o content pos Hf Ho Hd) as Hs.
  pose proof (write_in_step fd off d o content pos Hf Ho) as Hstep.
  destruct (status_response (QWrite fd off d) _ I Hfit) as [Hr Hl].
  eapply requests_intro; [done|done| |].
  - intros c tl out Hc. rewrite Hr in Hc.
    apply req_write_to_file_spec; [done|unfold is_unsigned; lia|done|exact Hl|exact Hc].
  - destruct (serve (QWrite fd off d) o) as [o' r]. cbn [fst snd] in *.
    destruct r as [s| | | | |]; try done. split; [done|].
    destruct s; (by left) || (destruct Hs as [err [= ?]]; right; by exists err).
Qed.
End Transfers.

(** ** Paths and directories *)
Section Paths.
Context {N N' OS : Type} `{SocketLaws N} `{SocketLaws N'} `{PosixLaws OS}.
Context `{WideStrings} (steady_now : nat → Z).
Implicit Types (o : OS) (k : local_state).

Lemma requests_mono {A} q (m : M (connection N) A) k o (Q R : A → local_state → OS → Prop) :
  (∀ a k' o', Q a k' o' → R a k' o') →
  requests (N' := N') q m k o Q → requests (N' := N') q m k o R.
Proof.
  intros HQR (resp & o' & Hd & Hm). exists resp, o'. split; [done|]. intros c tl out Hc.
  eapply wp_mono; [by apply Hm| |done]. intros a c' (k' & HQ & He). eauto.
Qed.

(** Requests answered by a status, whatever the function. *)
Lemma status_requests q (m : M (connection N) ResponseStatus) k k' o :
  valid_request q → in_step q o = true → status_only q →
  (∀ s c tl out, listed_status s → conn_at c (encode s ++ tl) out k →
     wp m (λ r c', r = s ∧ exchanged q tl out k' c') only_io c) →
  requests (N' := N') q m k o (λ r k1 o1, k1 = k' ∧ serve q o = (o1, RStatus r)).
Proof.
  intros Hq Hs Ho Hm. pose proof (serve_fits q o Hq) as Hfit.
  destruct (status_response q _ Ho Hfit) as [Hr Hl].
  eapply requests_intro; [done|done| |].
  - intros c tl out Hc. rewrite Hr in Hc. by apply Hm.
  - split; [done|]. rewrite <- Hr. by destruct (serve q o).
Qed.

Lemma changing_requests t q w p k o :
  win32_path_to_unix w = Ok p → short p → valid_request q → status_only q → in_step q o = true →
  encode_request q = e_u8 (request_code t) ++ e_string p →
  requests (N := N) (N' := N') q (req_changing_entry t w) k o
    (λ r k1 o1, k1 = drop_parent p (drop_stat p k) ∧ serve q o = (o1, RStatus r)).
Proof.
  intros Hw Hp Hq Hs Hst He. apply status_requests; [done..|].
  intros s c tl out Hl Hc. by apply req_changing_entry_spec.
Qed.

(** No answer about [p] is left in the caches: neither its stat nor a listing of the
    directory it lies in, unless that is the root. *)
Definition forgotten (p : bytes) k : Prop :=
  cached_data (lc_stats k) !! p = None ∧
  ∀ d, plain_dir d → lies_in d p → cached_data (lc_dirs k) !! d = None.

Lemma invalidate_keeps_none {T} d d' (c : TimedCache T) :
  cached_data c !! d = None → cached_data (invalidate d' c) !! d = None.
Proof.
  intros E. rewrite invalidate_lookup. destruct (decide (d' = d)) as [->|];
    [apply lookup_delete_eq|by rewrite lookup_delete_ne].
Qed.

Lemma drop_parent_dirs p k d :
  plain_dir d → lies_in d p → cached_data (lc_dirs (drop_parent p k)) !! d = None.
Proof.
  intros Hd Hp. unfold drop_parent. rewrite (lies_in_parent d p) by done. simpl.
  rewrite invalidate_lookup. apply lookup_delete_eq.
Qed.

Lemma drop_parent_stats p k : lc_stats (drop_parent p k) = lc_stats k.
Proof. unfold drop_parent. by destruct (get_parent_path p). Qed.

Lemma drop_parent_root p k : lies_in [] p → drop_parent p k = k.
Proof. intros Hp. unfold drop_parent. by rewrite lies_in_root. Qed.

Lemma drop_forgotten p k : forgotten p (drop_parent p (drop_stat p k)).
Proof.
  split; [|intros d; apply drop_parent_dirs]. rewrite drop_parent_stats. simpl.
  rewrite invalidate_lookup. apply lookup_delete_eq.
Qed.

Lemma drop_keeps_forgotten p p' k : forgotten p k → forgotten p (drop_parent p' (drop_stat p' k)).
Proof.
  intros [Hs Hd]. split.
  - rewrite drop_parent_stats. by apply invalidate_keeps_none.
  - intros d Hpl Hin. specialize (Hd d Hpl Hin). unfold drop_parent.
    destruct (get_parent_path p') as [d'|]; [|done]. by apply (invalidate_keeps_none d d').
Qed.
End Paths.

(** ** Stats and listings *)
Section Reading.
Context {N N' OS : Type} `{SocketLaws N} `{SocketLaws N'} `{PosixLaws OS}.
Context `{WideStrings} (steady_now : nat → Z)
  (clock : ∀ i j, (i ≤ j)%nat → steady_now i ≤ steady_now j).
Implicit Types (o : OS) (k : local_state).

(** The caches after a stat that missed. *)
Definition after_misses (p : bytes) k : local_state :=
  fst (stat_lookup steady_now p (fst (stat_lookup steady_now p k))).

Lemma after_misses_state p k :
  lc_ticks (after_misses p k) = (2 + lc_ticks k)%nat ∧
  cached_item_valid_for (lc_stats (after_misses p k)) = cached_item_valid_for (lc_stats k).
Proof. unfold after_misses. rewrite !stat_lookup_eq. simpl. by rewrite !get_cached_valid_for. Qed.

Lemma stat_requests w p k o :
  win32_path_to_unix w = Ok p → short p → ends_with p DESKTOP_INI = false →
  snd (stat_lookup steady_now p k) = None →
  requests (N := N) (N' := N') (QStat p) (req_stat_file steady_now w) k o
    (λ a k' o', o' = fst (sys_stat (c_str p) o) ∧
       match snd (sys_stat (c_str p) o) with
       | inl err => a = (get_status_from_errno err, None)
       | inr s => a = (Success, Some (stat_of_posix s)) ∧
                  k' = stat_store steady_now p (stat_of_posix s) (after_misses p k)
       end).
Proof.
  intros Hw Hp Hd Hmiss. pose proof (stat_lookup_miss_again steady_now clock p k Hmiss) as Hmiss'.
  unfold after_misses.
  destruct (stat_lookup steady_now p k) as [k1 r1] eqn:E1. simpl in Hmiss, Hmiss' |- *. subst r1.
  destruct (stat_lookup steady_now p k1) as [k2 r2] eqn:E2. simpl in Hmiss' |- *. subst r2.
  assert (Hq : valid_request (QStat p)) by done.
  pose proof (serve_fits (QStat p) o Hq) as Hfit.
  eapply requests_intro; [done|done| |].
  - intros c tl out Hc.
    eapply req_stat_file_miss; [exact Hw|exact Hp|exact Hd|exact E1|exact E2|exact Hfit|exact Hc].
  - cbn [serve] in *. by destruct (sys_stat (c_str p) o) as [o1 [err|s]].
Qed.

(** The caches after a listing that missed. *)
Definition after_listing (wide : bytes → wstring) (dir : bytes) k (r : response) : local_state :=
  let k1 := fst (dir_lookup steady_now dir k) in
  match r with
  | REntries es => dir_store steady_now dir (entry_names es) (foldl (store_entry steady_now wide dir) k1 es)
  | _ => k1
  end.

Lemma after_listing_consumed wide dir k r :
  lc_consumed (after_listing wide dir k r) =
    lc_consumed k ++ match r with REntries es => entry_stats wide es | _ => [] end.
Proof.
  unfold after_listing. rewrite dir_lookup_eq. destruct r; simpl; rewrite ?app_nil_r; try done.
  by rewrite store_entries_consumed.
Qed.

Lemma entry_names_decode (wide : bytes → wstring) es :
  Forall (decodes wide) es →
  Forall (λ name, unix_path_to_win32 name = Ok (wide name)) (entry_names es).
Proof.
  induction es as [|[s|[name st]] es IH]; intros Hde; [constructor|..];
    apply Forall_cons in Hde as [Hn Hde]; simpl; [by apply IH|]. constructor; [done|by apply IH].
Qed.

Lemma listing_requests (wide : bytes → wstring) w dir fuel k o :
  win32_path_to_unix w = Ok dir → short dir → snd (dir_lookup steady_now dir k) = None →
  match snd (serve (QList dir) o) with
  | REntries es => Forall (decodes wide) es ∧ (length es < fuel)%nat
  | _ => True
  end →
  requests (N := N) (N' := N') (QList dir) (req_list_file_stats steady_now fuel w) k o
    (λ a k' o', a = answer_status (snd (serve (QList dir) o)) ∧ o' = fst (serve (QList dir) o) ∧
       k' = after_listing wide dir k (snd (serve (QList dir) o))).
Proof.
  intros Hw Hp Hmiss Hes. unfold after_listing.
  destruct (dir_lookup steady_now dir k) as [k1 r1] eqn:E1. simpl in Hmiss |- *. subst r1.
  assert (Hq : valid_request (QList dir)) by done.
  pose proof (serve_fits (QList dir) o Hq) as Hfit.
  eapply requests_intro; [done|done| |].
  - intros c tl out Hc. by eapply req_list_file_stats_miss.
  - done.
Qed.
End Reading.

(** ** Claims *)
Section Claims.
Context {N N' OS : Type} `{SocketLaws N} `{SocketLaws N'} `{PosixLaws OS}.
Context `{WideStrings} (steady_now : nat → Z).
Implicit Types (o : OS) (k : local_state).

(** What is written through the client is what is read back: with the daemon
    on the other end and the descriptor open on a regular file, a write of [d]
    at an offset either fails with an error status or succeeds, and after a
    success a read of as many bytes at that offset returns [d] (or an error),
    however the two sockets and the file system split the transfers. *)
Theorem read_after_write `{!PosixFiles OS} fd off d o content pos k :
  is_u32 fd → 0 ≤ off < 2 ^ 63 → zlen d < 2 ^ 31 → d ≠ [] →
  fd_file (to_i32 fd) o = Some (content, pos) →
  requests (N := N) (N' := N') (QWrite fd off d) (req_write_to_file fd off d (zlen d)) k o
    (λ s k' o', (∃ err, s = get_status_from_errno err) ∨
       s = Success ∧
       requests (N := N) (N' := N') (QRead (mkReadHandleArgs fd (zlen d) off))
         (req_read_from_file fd off (zlen d)) k' o'
         (λ a _ _, a = (Success, Some (zlen d, d)) ∨ ∃ err, a = (get_status_from_errno err, None))).
Proof.
  intros Hfd Ho Hn Hd Hf. pose proof (zlen_nonneg d).
  eapply requests_mono; [|by eapply write_requests].
  intros s k' o' (-> & [[-> Hf']|Herr]); [right; split; [done|]|by left].
  eapply requests_mono; [|eapply (read_requests fd off (zlen d)); [done..|exact Hf']].
  intros a k'' o'' (_ & _ & Ha). by rewrite read_overwritten in Ha by lia.
Qed.

(** A read through the client returns the file's bytes at the offset: as many
    as were asked for, or what is left before the end of the file (nothing past
    it), and the file's content is unchanged. *)
Theorem read_returns_contents `{!PosixFiles OS} fd off n o content pos k :
  is_u32 fd → 0 ≤ off < 2 ^ 63 → 0 ≤ n < 2 ^ 31 →
  fd_file (to_i32 fd) o = Some (content, pos) →
  requests (N := N) (N' := N') (QRead (mkReadHandleArgs fd n off)) (req_read_from_file fd off n) k o
    (λ a k' o', k' = k ∧ (∃ pos', fst a = Success → fd_file (to_i32 fd) o' = Some (content, pos')) ∧
       (a = (Success, Some (zlen (ztake n (zdrop off content)), ztake n (zdrop off content))) ∨
        ∃ err, a = (get_status_from_errno err, None))).
Proof. apply read_requests. Qed.

(** C25. Creating or removing an entry through the client performs the system call
    on the device and reports its outcome.  Afterwards the caches hold neither the stat
    of the path nor, unless the path lies in the root, a listing of the directory it
    lies in.  The listings cached before an entry of the root is created or removed are
    all kept, that of the root included. *)
Theorem entry_changes_take_effect w p k o :
  win32_path_to_unix w = Ok p → short p →
  let after q r k' o' :=
    serve q o = (o', RStatus r) ∧ forgotten p k' ∧ (lies_in [] p → lc_dirs k' = lc_dirs k) in
  requests (N := N) (N' := N') (QRemoveFile p) (req_remove_file w) k o (after (QRemoveFile p)) ∧
  requests (N := N) (N' := N') (QRemoveDir p) (req_remove_directory w) k o (after (QRemoveDir p)) ∧
  requests (N := N) (N' := N') (QCreateDir p) (req_create_directory w) k o (after (QCreateDir p)).
Proof.
  intros Hw Hp after. split_and!;
    (eapply requests_mono; [|by eapply changing_requests]);
    intros r k' o' (-> & Hs); (split_and!; [done|apply drop_forgotten|]);
    intros Hroot; by rewrite drop_parent_root.
Qed.

(** Moving an entry through the client performs the daemon's move (refusing to
    replace an existing target unless asked to), reports its outcome, and drops
    from the caches the stats of both paths and the listings of the directories they
    lie in, the root's apart. *)
Theorem move_takes_effect wfrom wto from to overwrite k o :
  win32_path_to_unix wfrom = Ok from → win32_path_to_unix wto = Ok to → short from → short to →
  let q := QMove (mkMoveEntryArgs from to overwrite) in
  requests (N := N) (N' := N') q (req_move_entry wfrom wto overwrite) k o
    (λ r k' o', serve q o = (o', RStatus r) ∧ forgotten from k' ∧ forgotten to k').
Proof.
  intros Hwf Hwt Hf Ht q. eapply requests_mono;
    [|apply (status_requests q _ k (drop_parent to (drop_stat to (drop_parent from (drop_stat from k)))));
      [by split|done|exact I|]].
  - intros r k' o' (-> & Hs). split_and!; [done| |apply drop_forgotten].
    apply drop_keeps_forgotten, drop_forgotten.
  - intros s c tl out Hl Hc. by apply req_move_entry_spec.
Qed.

(** Opening a file through the client runs [open] on the device with the
    access mode and creation flags the request asks for and returns the
    descriptor; asking for neither read nor write access is refused without
    touching the device, and a mode that can create the file drops the cached listing
    of the directory it lies in, unless that is the root. *)
Theorem open_takes_effect w p mode ra wa k o :
  win32_path_to_unix w = Ok p → short p → ends_with p DESKTOP_INI = false → listed_mode mode →
  let q := QOpen (mkOpenHandleArgs p mode ra wa) in
  requests (N := N) (N' := N') q (req_open_file w mode ra wa) k o
    (λ a k' o',
       match access_flags ra wa with
       | None => o' = o ∧ a = (GenericFailure, None)
       | Some flags =>
           match sys_open (c_str p) (Z.lor flags (mode_flags mode)) DEFAULT_FILE_MODE o with
           | (o1, inl err) => o' = o1 ∧ a = (get_status_from_errno err, None)
           | (o1, inr fd) => o' = o1 ∧ a = (Success, Some (to_u32 fd))
           end
       end ∧
       (may_create mode = true → ∀ d, plain_dir d → lies_in d p → cached_data (lc_dirs k') !! d = None)).
Proof.
  intros Hw Hp Hd Hm q.
  assert (Hq : valid_request q) by by split.
  pose proof (serve_fits q o Hq) as Hfit.
  eapply requests_intro; [done|done| |].
  - intros c tl out Hc. by eapply req_open_file_spec.
  - split.
    + clear Hfit. cbn [serve q oh_read_access oh_write_access oh_path oh_mode].
      destruct (access_flags ra wa) as [flags|]; [|done].
      by destruct (sys_open _ _ _ o) as [o1 [err|fd]].
    + intros Hc d Hpl Hin. rewrite Hc. by apply drop_parent_dirs.
Qed.

(** A stat through the client tells what the device's [stat] said, and the
    answer is remembered: asked again within the cache period of 200 ms, the
    client answers the same without sending or receiving a byte. *)
Theorem stat_answered_then_cached w p k o :
  (∀ i j, (i ≤ j)%nat → steady_now i ≤ steady_now j) →
  win32_path_to_unix w = Ok p → short p → ends_with p DESKTOP_INI = false → configured k →
  snd (stat_lookup steady_now p k) = None →
  requests (N := N) (N' := N') (QStat p) (req_stat_file steady_now w) k o
    (λ a k' o',
       o' = fst (sys_stat (c_str p) o) ∧
       match snd (sys_stat (c_str p) o) with
       | inl err => a = (get_status_from_errno err, None)
       | inr s => a = (Success, Some (stat_of_posix s)) ∧
           (steady_now (4 + lc_ticks k) - steady_now (2 + lc_ticks k) ≤ ms 200 →
            ∀ (c : connection N) inp out, conn_at c inp out k' →
              wp (req_stat_file steady_now w)
                 (λ a' c', a' = a ∧ ∃ k'', conn_at c' inp out k'') only_io c)
       end).
Proof.
  intros clock Hw Hp Hd [Hcs _] Hmiss. eapply requests_mono; [|by eapply stat_requests].
  intros a k' o' [Ho Ha]. split; [exact Ho|]. destruct (snd (sys_stat (c_str p) o)) as [err|s]; [done|].
  destruct Ha as [-> ->]. split; [done|]. intros Ht c inp out Hc.
  destruct (after_misses_state steady_now p k) as [Ek Ev].
  destruct (stat_store_lookup steady_now clock p (stat_of_posix s) (after_misses steady_now p k)) as [k3 Hk3].
  { by rewrite Ev, Hcs, Ek. }
  eapply wp_mono; [by eapply req_stat_file_hit| |done]. intros a c' (-> & Hc' & _). eauto.
Qed.

(** The client answers [s] for the stat of [w], without sending or receiving a byte. *)
Definition still_answers (w : wstring) (s : FileStat) k : Prop :=
  ∀ (c : connection N) inp out, conn_at c inp out k →
    wp (req_stat_file steady_now w)
       (λ a c', a = (Success, Some s) ∧ ∃ k', conn_at c' inp out k') only_io c.

Lemma stat_hit_drop p p' k :
  p ≠ p' → snd (stat_lookup steady_now p (drop_parent p' (drop_stat p' k))) = snd (stat_lookup steady_now p k).
Proof.
  intros Hne. rewrite !stat_lookup_eq. unfold drop_parent, get_cached.
  destruct (get_parent_path p'); simpl; rewrite invalidate_lookup, lookup_delete_ne by done;
    destruct (_ !! p) as [cd|]; [|done| |done]; simpl;
    rewrite invalidate_valid_for; by destruct (_ <=? _).
Qed.

Lemma stat_hit_drop_parent p p' k :
  snd (stat_lookup steady_now p (drop_parent p' k)) = snd (stat_lookup steady_now p k).
Proof. rewrite !stat_lookup_eq. unfold drop_parent. by destruct (get_parent_path p'). Qed.

Lemma hit_still_answers w p s k :
  win32_path_to_unix w = Ok p → snd (stat_lookup steady_now p k) = Some s → still_answers w s k.
Proof.
  intros Hw Hs c inp out Hc. destruct (stat_lookup steady_now p k) as [k1 r] eqn:E. simpl in Hs. subst r.
  eapply wp_mono; [by eapply req_stat_file_hit| |done]. intros a c' (-> & Hc' & _). eauto.
Qed.

(** C27. A cached stat survives what makes it out of date: with the stat [s] of [p] cached,
    a write to any descriptor (one open on [p] included), a change of its length, an open
    of [p] itself in any mode, a truncating one included, and a move of any other two
    paths, directories above [p] included, take place on the device, and the client still
    answers [s] for [p] without asking it. *)
Theorem cached_stat_outlives_changes `{!PosixFiles OS} w p s k o :
  win32_path_to_unix w = Ok p → short p → ends_with p DESKTOP_INI = false →
  snd (stat_lookup steady_now p k) = Some s →
  (∀ fd off d content pos,
     is_u32 fd → 0 ≤ off < 2 ^ 63 → zlen d < 2 ^ 31 → d ≠ [] → fd_file (to_i32 fd) o = Some (content, pos) →
     requests (N := N) (N' := N') (QWrite fd off d) (req_write_to_file fd off d (zlen d)) k o
       (λ r k' o', still_answers w s k' ∧
          (r = Success ∧ fd_file (to_i32 fd) o' = Some (overwrite off d content, off + zlen d) ∨
           ∃ err, r = get_status_from_errno err))) ∧
  (∀ fd n, is_u32 fd → is_u64 n → let q := QTruncate (mkTruncateHandleArgs fd n) in
     requests (N := N) (N' := N') q (req_set_file_len fd n) k o
       (λ r k' o', still_answers w s k' ∧ serve q o = (o', RStatus r))) ∧
  (∀ mode ra wa, listed_mode mode → let q := QOpen (mkOpenHandleArgs p mode ra wa) in
     requests (N := N) (N' := N') q (req_open_file w mode ra wa) k o
       (λ a k' o', still_answers w s k' ∧ o' = fst (serve q o) ∧ fst a = answer_status (snd (serve q o)))) ∧
  (∀ wfrom wto from to ow,
     win32_path_to_unix wfrom = Ok from → win32_path_to_unix wto = Ok to → short from → short to →
     p ≠ from → p ≠ to → let q := QMove (mkMoveEntryArgs from to ow) in
     requests (N := N) (N' := N') q (req_move_entry wfrom wto ow) k o
       (λ r k' o', still_answers w s k' ∧ serve q o = (o', RStatus r))).
Proof.
  intros Hw Hp Hini Hs. pose proof (hit_still_answers w p s) as Hans. split_and!.
  - intros fd off d content pos Hfd Ho Hn Hd Hf. eapply requests_mono; [|by eapply write_requests].
    intros r k' o' [-> Hr]. auto.
  - intros fd n Hfd Hn q. eapply requests_mono; [|apply (status_requests q _ k k); [done|done|exact I|]].
    + intros r k' o' [-> Hr]. auto.
    + intros s' c tl out Hl Hc. by apply req_set_file_len_spec.
  - intros mode ra wa Hm q. pose proof (serve_fits q o (conj Hp Hm)) as Hfit.
    eapply requests_intro; [by split|done| |].
    + intros c tl out Hc. by eapply req_open_file_spec.
    + split_and!; [|done..]. apply Hans; [done|]. destruct (may_create mode); [|done].
      by rewrite stat_hit_drop_parent.
  - intros wfrom wto from to ow Hwf Hwt Hf Ht Hpf Hpt q.
    eapply requests_mono; [|apply (status_requests q _ k
      (drop_parent to (drop_stat to (drop_parent from (drop_stat from k))))); [by split|done|exact I|]].
    + intros r k' o' [-> Hr]. split; [|done]. apply Hans; [done|]. by rewrite !stat_hit_drop.
    + intros s' c tl out Hl Hc. by apply req_move_entry_spec.
Qed.

(** C9. A directory listing through the client hands the caller every entry the
    daemon could stat, once each, in the daemon's order and with its name
    converted, and reports the outcome of [opendir]; repeated within the cache
    period of 200 ms it hands over the same entries again without sending or
    receiving a byte. *)
Theorem listing_answered_then_cached (wide : bytes → wstring) w dir fuel k o :
  (∀ i j, (i ≤ j)%nat → steady_now i ≤ steady_now j) →
  win32_path_to_unix w = Ok dir → short dir → configured k →
  snd (dir_lookup steady_now dir k) = None →
  match snd (serve (QList dir) o) with
  | REntries es => Forall (decodes wide) es ∧ (length es < fuel)%nat
  | _ => True
  end →
  requests (N := N) (N' := N') (QList dir) (req_list_file_stats steady_now fuel w) k o
    (λ a k' o',
       a = answer_status (snd (serve (QList dir) o)) ∧ o' = fst (serve (QList dir) o) ∧
       match snd (serve (QList dir) o) with
       | REntries es =>
           lc_consumed k' = lc_consumed k ++ entry_stats wide es ∧
           (NoDup (entry_names es) →
            steady_now (S (length es + lc_ticks k')) - steady_now (S (lc_ticks k)) ≤ ms 200 →
            ∀ (c : connection N) inp out, conn_at c inp out k' →
              wp (req_list_file_stats steady_now fuel w)
                 (λ a' c', a' = Success ∧ ∃ k'', conn_at c' inp out k'' ∧
                    lc_consumed k'' = lc_consumed k' ++ entry_stats wide es) only_io c)
       | _ => lc_consumed k' = lc_consumed k
       end).
Proof.
  intros clock Hw Hp [Hcs Hcd] Hmiss Hes. eapply requests_mono; [|by eapply listing_requests].
  intros a k' o' (-> & -> & ->). split; [done|]. split; [done|].
  rewrite after_listing_consumed. unfold after_listing.
  assert (Ek : lc_ticks (fst (dir_lookup steady_now dir k)) = S (lc_ticks k) ∧
               configured (fst (dir_lookup steady_now dir k))).
  { rewrite dir_lookup_eq. unfold configured. simpl. by rewrite get_cached_valid_for. }
  destruct Ek as [Et Hcfg].
  destruct (snd (serve (QList dir) o)) as [s| | | | |es]; try by rewrite app_nil_r.
  destruct Hes as [Hde Hfu]. split; [done|]. intros Hnd Ht c inp out Hc.
  destruct (listing_replayed steady_now clock wide dir es _ Hcfg Hnd) as (k2 & Hl & Hrep).
  { by rewrite Et. }
  eapply wp_mono; [eapply (req_list_file_stats_hit steady_now wide);
    [done|exact Hl|by apply entry_names_decode|exact Hc]| |done]. intros a c' (-> & Hc' & _).
  split; [done|]. eexists. split; [exact Hc'|]. rewrite Hrep. simpl.
  rewrite store_entries_consumed, dir_lookup_eq. done.
Qed.

(** What Windows is told about a system call that failed with [err]: the daemon's
    status, sent as a byte and decoded by the client. *)
Definition visible_error (err : Z) : NTSTATUS :=
  ntstatus_from_respstatus (status_of_code (status_code (get_status_from_errno err))).

End Claims.

Module EndToEndWitnesses.
Import SingleByteStrings.

Definition clock (i : nat) : Z := 1000 * Z.of_nat i.
Lemma clock_steady i j : (i ≤ j)%nat → clock i ≤ clock j.
Proof. unfold clock. lia. Qed.

Definition local0 : local_state :=
  mkLocal (create STAT_SCAN_PERIOD STAT_CACHE_PERIOD 0) (create STAT_SCAN_PERIOD STAT_CACHE_PERIOD 0) [] 0.
Lemma local0_configured : configured local0.
Proof. done. Qed.

Ltac ground := first [ lia | done | unfold is_unsigned, short; vm_compute; intuition congruence
                     | vm_compute; reflexivity ].

Lemma read_after_write_witness :
  snd (serve (QWrite 3 1 (bs "new data")) demo_open_fs) = RStatus Success ∧
  requests (N := pipe) (N' := pipe) (QWrite 3 1 (bs "new data"))
    (req_write_to_file 3 1 (bs "new data") (zlen (bs "new data"))) local0 demo_open_fs
    (λ s k' o', (∃ err, s = get_status_from_errno err) ∨
       s = Success ∧
       requests (N := pipe) (N' := pipe) (QRead (mkReadHandleArgs 3 (zlen (bs "new data")) 1))
         (req_read_from_file 3 1 (zlen (bs "new data"))) k' o'
         (λ a _ _, a = (Success, Some (zlen (bs "new data"), bs "new data")) ∨
            ∃ err, a = (get_status_from_errno err, None))).
Proof.
  split; [vm_compute; reflexivity|].
  apply (read_after_write 3 1 (bs "new data") demo_open_fs (bs "old") 0 local0); ground.
Defined.

Lemma read_returns_contents_witness :
  snd (serve (QRead (mkReadHandleArgs 3 10 1)) demo_open_fs) = RData (bs "ld") ∧
  requests (N := pipe) (N' := pipe) (QRead (mkReadHandleArgs 3 10 1)) (req_read_from_file 3 1 10)
    local0 demo_open_fs
    (λ a k' o', k' = local0 ∧
       (∃ pos', fst a = Success → fd_file (to_i32 3) o' = Some (bs "old", pos')) ∧
       (a = (Success, Some (zlen (ztake 10 (zdrop 1 (bs "old"))), ztake 10 (zdrop 1 (bs "old")))) ∨
        ∃ err, a = (get_status_from_errno err, None))).
Proof.
  split; [vm_compute; reflexivity|].
  apply (read_returns_contents 3 1 10 demo_open_fs (bs "old") 0 local0); ground.
Defined.

(** Caches that hold the stat of a file and a listing it appears in. *)
Definition sdcard_cached : local_state :=
  dir_store clock (bs "/sdcard") [bs "b"] (stat_store clock (bs "/sdcard/b") (mkFileStat 33188 3 10 20) local0).

Example sdcard_is_cached :
  cached_data (lc_stats sdcard_cached) !! bs "/sdcard/b" ≠ None ∧
  cached_data (lc_dirs sdcard_cached) !! bs "/sdcard" ≠ None.
Proof. by vm_compute. Qed.

Lemma entry_changes_take_effect_witness :
  let after q r k' o' :=
    serve q demo_fs = (o', RStatus r) ∧ forgotten (bs "/sdcard/b") k' ∧
    (lies_in [] (bs "/sdcard/b") → lc_dirs k' = lc_dirs sdcard_cached) in
  requests (N := pipe) (N' := pipe) (QRemoveFile (bs "/sdcard/b")) (req_remove_file (ws (bs "\sdcard\b")))
    sdcard_cached demo_fs (after (QRemoveFile (bs "/sdcard/b"))) ∧
  requests (N := pipe) (N' := pipe) (QRemoveDir (bs "/sdcard/b")) (req_remove_directory (ws (bs "\sdcard\b")))
    sdcard_cached demo_fs (after (QRemoveDir (bs "/sdcard/b"))) ∧
  requests (N := pipe) (N' := pipe) (QCreateDir (bs "/sdcard/b")) (req_create_directory (ws (bs "\sdcard\b")))
    sdcard_cached demo_fs (after (QCreateDir (bs "/sdcard/b"))).
Proof. apply (entry_changes_take_effect (ws (bs "\sdcard\b")) (bs "/sdcard/b") sdcard_cached demo_fs); ground. Defined.

(** The stat of a file of three bytes is cached; a write makes it nine bytes long, an open
    empties it, its directory is moved away: the client still says three bytes. *)
Lemma cached_stat_outlives_changes_witness :
  let w := ws (bs "\sdcard\b") in let s := mkFileStat 33188 3 10 20 in
  requests (N := pipe) (N' := pipe) (QWrite 3 1 (bs "new data"))
    (req_write_to_file 3 1 (bs "new data") (zlen (bs "new data"))) sdcard_cached demo_open_fs
    (λ r k' o', still_answers (N := pipe) clock w s k' ∧
       (r = Success ∧ fd_file (to_i32 3) o' = Some (bs "onew data", 9) ∨ ∃ err, r = get_status_from_errno err)) ∧
  requests (N := pipe) (N' := pipe) (QTruncate (mkTruncateHandleArgs 3 0)) (req_set_file_len 3 0)
    sdcard_cached demo_open_fs
    (λ r k' o', still_answers (N := pipe) clock w s k' ∧
       serve (QTruncate (mkTruncateHandleArgs 3 0)) demo_open_fs = (o', RStatus r)) ∧
  (let q := QOpen (mkOpenHandleArgs (bs "/sdcard/b") CreateOrTruncate true true) in
   requests (N := pipe) (N' := pipe) q (req_open_file w CreateOrTruncate true true) sdcard_cached demo_open_fs
     (λ a k' o', still_answers (N := pipe) clock w s k' ∧ o' = fst (serve q demo_open_fs) ∧
        fst a = answer_status (snd (serve q demo_open_fs)))) ∧
  (let q := QMove (mkMoveEntryArgs (bs "/sdcard") (bs "/old") false) in
   requests (N := pipe) (N' := pipe) q (req_move_entry (ws (bs "\sdcard")) (ws (bs "\old")) false)
     sdcard_cached demo_open_fs
     (λ r k' o', still_answers (N := pipe) clock w s k' ∧ serve q demo_open_fs = (o', RStatus r))).
Proof.
  intros w s.
  destruct (cached_stat_outlives_changes (N := pipe) (N' := pipe) clock w (bs "/sdcard/b") s sdcard_cached demo_open_fs)
    as (H1 & H2 & H3 & H4); [ground..|]. split_and!.
  - apply (H1 3 1 (bs "new data") (bs "old") 0); ground.
  - apply H2; ground.
  - apply (H3 CreateOrTruncate true true). exact I.
  - apply (H4 (ws (bs "\sdcard")) (ws (bs "\old"))); ground.
Defined.

Lemma move_takes_effect_witness :
  let q := QMove (mkMoveEntryArgs (bs "/sdcard/b") (bs "/sdcard/c") false) in
  requests (N := pipe) (N' := pipe) q (req_move_entry (ws (bs "\sdcard\b")) (ws (bs "\sdcard\c")) false)
    local0 demo_fs
    (λ r k' o', serve q demo_fs = (o', RStatus r) ∧ forgotten (bs "/sdcard/b") k' ∧
       forgotten (bs "/sdcard/c") k').
Proof.
  apply (move_takes_effect (ws (bs "\sdcard\b")) (ws (bs "\sdcard\c")) (bs "/sdcard/b") (bs "/sdcard/c")
           false local0 demo_fs); ground.
Defined.

Lemma open_takes_effect_witness :
  let q := QOpen (mkOpenHandleArgs (bs "/sdcard/n") CreateIfNotExist true false) in
  requests (N := pipe) (N' := pipe) q
    (req_open_file (ws (bs "\sdcard\n")) CreateIfNotExist true false) local0 demo_fs
    (λ a k' o',
       match access_flags true false with
       | None => o' = demo_fs ∧ a = (GenericFailure, None)
       | Some flags =>
           match sys_open (c_str (bs "/sdcard/n")) (Z.lor flags (mode_flags CreateIfNotExist))
                   DEFAULT_FILE_MODE demo_fs with
           | (o1, inl err) => o' = o1 ∧ a = (get_status_from_errno err, None)
           | (o1, inr fd) => o' = o1 ∧ a = (Success, Some (to_u32 fd))
           end
       end ∧
       (may_create CreateIfNotExist = true → ∀ d, plain_dir d → lies_in d (bs "/sdcard/n") →
          cached_data (lc_dirs k') !! d = None)).
Proof.
  apply (open_takes_effect (ws (bs "\sdcard\n")) (bs "/sdcard/n") CreateIfNotExist true false
           local0 demo_fs); ground.
Defined.

Lemma stat_answered_then_cached_witness :
  requests (N := pipe) (N' := pipe) (QStat (bs "/sdcard/b")) (req_stat_file clock (ws (bs "\sdcard\b")))
    local0 demo_fs
    (λ a k' o',
       o' = fst (sys_stat (c_str (bs "/sdcard/b")) demo_fs) ∧
       match snd (sys_stat (c_str (bs "/sdcard/b")) demo_fs) with
       | inl err => a = (get_status_from_errno err, None)
       | inr s => a = (Success, Some (stat_of_posix s)) ∧
           (clock (4 + lc_ticks local0) - clock (2 + lc_ticks local0) ≤ ms 200 →
            ∀ (c : connection pipe) inp out, conn_at c inp out k' →
              wp (req_stat_file clock (ws (bs "\sdcard\b")))
                 (λ a' c', a' = a ∧ ∃ k'', conn_at c' inp out k'') only_io c)
       end).
Proof.
  apply (stat_answered_then_cached clock (ws (bs "\sdcard\b")) (bs "/sdcard/b") local0 demo_fs clock_steady);
    ground.
Defined.

Lemma listing_answered_then_cached_witness :
  requests (N := pipe) (N' := pipe) (QList (bs "/sdcard")) (req_list_file_stats clock 9 (ws (bs "\sdcard")))
    local0 demo_fs
    (λ a k' o',
       a = answer_status (snd (serve (QList (bs "/sdcard")) demo_fs)) ∧
       o' = fst (serve (QList (bs "/sdcard")) demo_fs) ∧
       match snd (serve (QList (bs "/sdcard")) demo_fs) with
       | REntries es =>
           lc_consumed k' = lc_consumed local0 ++ entry_stats ws es ∧
           (NoDup (entry_names es) →
            clock (S (length es + lc_ticks k')) - clock (S (lc_ticks local0)) ≤ ms 200 →
            ∀ (c : connection pipe) inp out, conn_at c inp out k' →
              wp (req_list_file_stats clock 9 (ws (bs "\sdcard")))
                 (λ a' c', a' = Success ∧ ∃ k'', conn_at c' inp out k'' ∧
                    lc_consumed k'' = lc_consumed k' ++ entry_stats ws es) only_io c)
       | _ => lc_consumed k' = lc_consumed local0
       end).
Proof.
  apply (listing_answered_then_cached clock ws (ws (bs "\sdcard")) (bs "/sdcard") 9 local0 demo_fs
           clock_steady); [vm_compute; reflexivity|ground|ground|ground|].
  vm_compute. split; [repeat constructor|lia].
Defined.

End EndToEndWitnesses.
