(* ===== verification/Session.v ===== *)
(** * Whole sessions through the client

    Any sequence of calls of the functions of Connection.cpp, with the caches, answers
    as the programs of ClientSpec.v do, and what it sends and receives is what the
    daemon, given the same requests, receives and sends. *)

From S2P Require Import Prelude Effects Endian Wire Serialization Socket Requests Responses.
From S2P Require Import PathUtils Conversion TimedCache Posix MemFs ClientHandler Protocol Daemon.
From S2P Require Import Connection Client ClientCache ClientSpec EndToEnd.

(** ** The calls as made *)
Section Perform.
Context {N : Type} `{Socket N} `{WideStrings} (steady_now : nat → Z) (fuel : nat).

(** The caller of [req_list_file_stats] sees the calls of its own [consume_stat]. *)
Definition perform (c : client_call wstring) : M (connection N) answer :=
  match c with
  | CStat w => let* ' (s, st) := req_stat_file steady_now w in ret (AStat s st)
  | CList w =>
      let* before := gets cn_consumed in
      let* s := req_list_file_stats steady_now fuel w in
      let* after := gets cn_consumed in
      ret (AList s (drop (length before) after))
  | CMove f t b => let* s := req_move_entry f t b in ret (AStatus s)
  | CRemoveFile w => let* s := req_remove_file w in ret (AStatus s)
  | CCanRemoveFile w => let* s := req_can_remove_file w in ret (AStatus s)
  | CRemoveDir w => let* s := req_remove_directory w in ret (AStatus s)
  | CCanRemoveDir w => let* s := req_can_remove_directory w in ret (AStatus s)
  | CCreateDir w => let* s := req_create_directory w in ret (AStatus s)
  | COpen w m ra wa => let* ' (s, fd) := req_open_file w m ra wa in ret (AOpen s fd)
  | CClose fd => let* s := req_close_file fd in ret (AStatus s)
  | CWrite fd off d => let* s := req_write_to_file fd off d (zlen d) in ret (AStatus s)
  | CRead fd off n => let* ' (s, d) := req_read_from_file fd off n in ret (ARead s d)
  | CSetLen fd n => let* s := req_set_file_len fd n in ret (AStatus s)
  | CSetTime w a m => let* s := req_set_file_time w a m in ret (AStatus s)
  | CDisk => let* ' (s, d) := req_get_disk_stats in ret (ADisk s d)
  end.

Fixpoint perform_all (cs : list (client_call wstring)) : M (connection N) (list answer) :=
  match cs with
  | [] => ret []
  | c :: cs => let* a := perform c in let* l := perform_all cs in ret (a :: l)
  end.

(** The call with its paths converted. *)
Definition unix_path (w : wstring) : option bytes :=
  match win32_path_to_unix w with Ok p => Some p | Throw _ => None end.
Definition unix_call (c : client_call wstring) : option (client_call bytes) :=
  match c with
  | CStat w => CStat <$> unix_path w
  | CList w => CList <$> unix_path w
  | CMove f t b => f ← unix_path f; t ← unix_path t; Some (CMove f t b)
  | CRemoveFile w => CRemoveFile <$> unix_path w
  | CCanRemoveFile w => CCanRemoveFile <$> unix_path w
  | CRemoveDir w => CRemoveDir <$> unix_path w
  | CCanRemoveDir w => CCanRemoveDir <$> unix_path w
  | CCreateDir w => CCreateDir <$> unix_path w
  | COpen w m ra wa => p ← unix_path w; Some (COpen p m ra wa)
  | CClose fd => Some (CClose fd)
  | CWrite fd off d => Some (CWrite fd off d)
  | CRead fd off n => Some (CRead fd off n)
  | CSetLen fd n => Some (CSetLen fd n)
  | CSetTime w a m => p ← unix_path w; Some (CSetTime p a m)
  | CDisk => Some CDisk
  end.
End Perform.

(** What the types of the parameters and the wire format ask of a call. *)
Definition valid_call (u : client_call bytes) : Prop :=
  match u with
  | CStat p | CList p | CRemoveFile p | CCanRemoveFile p | CRemoveDir p | CCanRemoveDir p | CCreateDir p
  | CSetTime p _ _ => short p
  | CMove f t _ => short f ∧ short t
  | COpen p m _ _ => short p ∧ listed_mode m
  | CClose fd => is_u32 fd
  | CWrite fd off d => is_u32 fd ∧ is_u64 off ∧ zlen d < 2 ^ 31
  | CRead fd off n => is_u32 fd ∧ is_u64 off ∧ 0 ≤ n < 2 ^ 31
  | CSetLen fd n => is_u32 fd ∧ is_u64 n
  | CDisk => True
  end.

Section Session.
Context {N OS : Type} `{SocketLaws N} `{PosixLaws OS} `{WideStrings}.
Context (steady_now : nat → Z) (clock : ∀ i j, (i ≤ j)%nat → steady_now i ≤ steady_now j).
Context (wide : bytes → wstring) (fuel : nat).
Implicit Types (w : world OS) (k : local_state).

Definition names_decode (names : list bytes) : Prop :=
  Forall (λ name, unix_path_to_win32 name = Ok (wide name)) names.

(** Listings whose names can be converted, with fewer entries than the fuel. *)
Definition response_ok (r : response) : Prop :=
  match r with REntries es => Forall (decodes wide) es ∧ (length es < fuel)%nat | _ => True end.

(** The caches of the connection stand for those of the world. *)
Definition related k w : Prop :=
  stats_at steady_now k (w_stats w) ∧ dirs_at steady_now k (w_dirs w) ∧ lc_ticks k = w_ticks w ∧ configured k ∧
  map_Forall (λ _ d, names_decode (data d)) (w_dirs w).

(** ** The caches, step by step *)
Lemma later_stats k k' m :
  lc_stats k' = lc_stats k → (lc_ticks k ≤ lc_ticks k')%nat → stats_at steady_now k m → stats_at steady_now k' m.
Proof.
  intros E Ht (t & Hl & Hr). exists t. rewrite E. split; [|done]. etransitivity; [exact Hl|by apply clock].
Qed.
Lemma later_dirs k k' m :
  lc_dirs k' = lc_dirs k → (lc_ticks k ≤ lc_ticks k')%nat → dirs_at steady_now k m → dirs_at steady_now k' m.
Proof.
  intros E Ht (t & Hl & Hr). exists t. rewrite E. split; [|done]. etransitivity; [exact Hl|by apply clock].
Qed.

Lemma related_get_stat p k w :
  related k w →
  snd (stat_lookup steady_now p k) = snd (fst (get_stat steady_now p w)) ∧
  related (fst (stat_lookup steady_now p k)) (fst (fst (get_stat steady_now p w))).
Proof.
  intros (Hs & Hd & Ht & [Hcs Hcd] & Hn). destruct (stat_lookup_at steady_now clock p k _ Hs) as [Hs' E].
  split; [by rewrite E, Hcs, Ht|]. rewrite stat_lookup_eq in *. unfold related, configured. simpl in *.
  rewrite get_cached_valid_for. split_and!; try done; [|lia]. by apply (later_dirs k); [|simpl; lia|].
Qed.

Lemma related_get_dir p k w :
  related k w →
  snd (dir_lookup steady_now p k) = snd (fst (get_dir steady_now p w)) ∧
  related (fst (dir_lookup steady_now p k)) (fst (fst (get_dir steady_now p w))).
Proof.
  intros (Hs & Hd & Ht & [Hcs Hcd] & Hn). destruct (dir_lookup_at steady_now clock p k _ Hd) as [Hd' E].
  split; [by rewrite E, Hcd, Ht|]. rewrite dir_lookup_eq in *. unfold related, configured. simpl in *.
  rewrite get_cached_valid_for. split_and!; try done; [|lia]. by apply (later_stats k); [|simpl; lia|].
Qed.

Lemma related_put_stat p s k w :
  related k w → related (stat_store steady_now p s k) (fst (put_stat steady_now p s w)).
Proof.
  intros (Hs & Hd & Ht & [Hcs Hcd] & Hn). unfold related, configured. simpl. rewrite cache_valid_for, <- Ht.
  split_and!; try done; [by apply stat_store_at|by apply (later_dirs k); [|simpl; lia|]].
Qed.

Lemma related_put_dir p names k w :
  names_decode names → related k w → related (dir_store steady_now p names k) (fst (put_dir steady_now p names w)).
Proof.
  intros Hnd (Hs & Hd & Ht & [Hcs Hcd] & Hn). unfold related, configured. simpl. rewrite cache_valid_for, <- Ht.
  split_and!; try done; [by apply (later_stats k); [|simpl; lia|]|by apply dir_store_at|].
  by apply map_Forall_insert_2.
Qed.

Lemma related_drop_stat p k w : related k w → related (drop_stat p k) (fst (drop_stat_entry p w)).
Proof.
  intros ((t & Hl & Hr) & Hd & Ht & [Hcs Hcd] & Hn). unfold related, configured. simpl. rewrite invalidate_valid_for.
  split_and!; try done. exists t. split; [done|]. by apply invalidate_represents.
Qed.

Lemma related_drop_dir d k w :
  related k w →
  related (mkLocal (lc_stats k) (invalidate d (lc_dirs k)) (lc_consumed k) (lc_ticks k)) (fst (drop_dir_entry d w)).
Proof.
  intros (Hs & (t & Hl & Hr) & Ht & [Hcs Hcd] & Hn). unfold related, configured. simpl. rewrite invalidate_valid_for.
  split_and!; try done; [|by apply map_Forall_delete]. exists t. split; [done|]. by apply invalidate_represents.
Qed.

Definition drop_parent_world (p : bytes) w : world OS :=
  match get_parent_path p with Some d => fst (drop_dir_entry d w) | None => w end.
Lemma related_drop_parent p k w : related k w → related (drop_parent p k) (drop_parent_world p w).
Proof. intros Hr. unfold drop_parent, drop_parent_world. destruct (get_parent_path p); [by apply related_drop_dir|done]. Qed.

(** ** Calls against programs

    [m], from a connection with the caches [k] and the responses to come, does what the
    program does from [w]. *)
Definition delivers (m : M (connection N) answer) k (u : prog) w : Prop :=
  let '(w', es, a) := run_prog steady_now u w in
  Forall response_ok (responses_of es) →
  ∀ c tl out, conn_at c (encode_responses (responses_of es) ++ tl) out k → conn_flushed c →
    wp m (λ a' c', a' = a ∧ ∃ k', related k' w' ∧
                   conn_at c' tl (out ++ encode_requests (requests_of es)) k' ∧ conn_flushed c') only_io c.

Lemma delivers_quiet m k u w u1 w1 e :
  prog_step steady_now u w = Some (u1, w1, e) → sent_of e = None →
  delivers m k u1 w1 → delivers m k u w.
Proof.
  intros Hs He Hd. unfold delivers in *.
  rewrite (run_prog_step steady_now u w _ _ _ Hs). destruct (run_prog steady_now u1 w1) as [[w' es] a].
  unfold requests_of, responses_of in *. simpl. by rewrite He.
Qed.

Lemma delivers_drop_parent m k p u w : delivers m k u (drop_parent_world p w) → delivers m k (drop_parent_then p u) w.
Proof. unfold drop_parent_world, drop_parent_then. destruct (get_parent_path p); [by eapply delivers_quiet|done]. Qed.

(** A request and what it leaves. *)
Definition asks (m : M (connection N) answer) k (q : request) (after : response → local_state * answer) : Prop :=
  ∀ r c tl out, fits q r → response_ok r → conn_at c (encode_response r ++ tl) out k →
    wp m (λ a c', a = snd (after r) ∧ exchanged q tl out (fst (after r)) c') only_io c.

(** The rest of a program that sends nothing more. *)
Definition finishes (u : prog) w (r : local_state * answer) : Prop :=
  let '(w', es, a) := run_prog steady_now u w in omap sent_of es = [] ∧ a = snd r ∧ related (fst r) w'.

Lemma finishes_step u w u1 w1 e r :
  prog_step steady_now u w = Some (u1, w1, e) → sent_of e = None → finishes u1 w1 r → finishes u w r.
Proof.
  intros Hs He Hf. unfold finishes in *. rewrite (run_prog_step steady_now u w _ _ _ Hs).
  destruct (run_prog steady_now u1 w1) as [[w' es] a]. simpl. by rewrite He.
Qed.
Lemma finishes_return a k w : related k w → finishes (Unlock (Return a)) w (k, a).
Proof. done. Qed.

Lemma delivers_send m k q u w after :
  valid_request q → asks m k q after →
  (∀ o r, serve q (w_os w) = (o, r) → response_ok r →
     finishes (u r) (mkWorld (w_stats w) (w_dirs w) (w_ticks w) o) (after r)) →
  delivers m k (Send q u) w.
Proof.
  intros Hq Hm Hu. unfold delivers. simpl. pose proof (serve_fits q (w_os w) Hq) as Hf.
  unfold exchange in *. destruct (serve q (w_os w)) as [o r]. specialize (Hu o r eq_refl). unfold finishes in Hu.
  destruct (run_prog steady_now (u r) _) as [[w' es] a]. simpl in Hf. intros Hok.
  change (responses_of (ESend q r :: es)) with (r :: responses_of es) in *. apply Forall_cons in Hok as [Hok _].
  destruct (Hu Hok) as (Hes & -> & Hr).
  assert (Ee : omap sent_of (ESend q r :: es) = [(q, r)]) by (by rewrite <- Hes).
  unfold responses_of, requests_of. rewrite Ee, Hes. simpl. intros c tl out Hc Hfl.
  unfold encode_responses, encode_requests in *. simpl in *. rewrite app_nil_r in *.
  eapply wp_mono; [by apply Hm| |done]. intros a c' (-> & Hc' & Hfl'). split; [done|]. eauto.
Qed.

(** Requests answered by a status alone. *)
Lemma delivers_status (m : M (connection N) ResponseStatus) k k' q w :
  valid_request q → status_only q → related k' w →
  (∀ s c tl out, listed_status s → conn_at c (encode s ++ tl) out k →
     wp m (λ r c', r = s ∧ exchanged q tl out k' c') only_io c) →
  delivers (let* s := m in ret (AStatus s)) k (send_status q) w.
Proof.
  intros Hq Hs Hr Hm. apply (delivers_send _ k q _ w (λ r, (k', AStatus (answer_status r)))); [done| |done].
  intros r c tl out Hf _ Hc. destruct (status_response q r Hs Hf) as [E Hl]. rewrite E in Hc.
  wp_step. eapply wp_mono; [by apply Hm| |done]. intros s c' [-> He]. by wp_step.
Qed.

Lemma delivers_lock m k u w : delivers m k u w → delivers m k (Lock u) w.
Proof. done. Qed.
Lemma delivers_drop_stat m k p u w : delivers m k u (fst (drop_stat_entry p w)) → delivers m k (DropStat p u) w.
Proof. by eapply delivers_quiet. Qed.

(** ** Each call *)
Lemma stat_delivers x p k w :
  win32_path_to_unix x = Ok p → short p → related k w →
  delivers (let* ' (s, st) := req_stat_file steady_now x in ret (AStat s st)) k (stat_prog p) w.
Proof.
  intros Hx Hp Hr. destruct (related_get_stat p k w Hr) as [E1 R1].
  unfold stat_prog. eapply delivers_quiet; [reflexivity|done|]. simpl in E1. rewrite <- E1.
  destruct (stat_lookup steady_now p k) as [k1 [s|]] eqn:L1; cbn [fst snd] in *.
  { unfold delivers. simpl. intros _ c tl out Hc Hf. rewrite app_nil_r. wp_step.
    eapply wp_mono; [by eapply req_stat_file_hit| |done]. intros a c' (-> & Hc' & Hf'). wp_step. eauto 10. }
  change (delivers (let* ' (s, st) := req_stat_file steady_now x in ret (AStat s st)) k
    (GetStat p (λ cached, match cached with
      | Some s => Unlock (Return (AStat Success (Some s)))
      | None => if ends_with p DESKTOP_INI then Unlock (Return (AStat FileNotFound None))
                else Send (QStat p) (λ r, match r with
                  | RStat s => PutStat p s (Unlock (Return (AStat Success (Some s))))
                  | _ => Unlock (Return (AStat (answer_status r) None)) end) end))
    (fst (fst (get_stat steady_now p w)))).
  pose proof (stat_lookup_miss_again steady_now clock p k) as Hm. rewrite L1 in Hm. specialize (Hm eq_refl). cbn [fst] in Hm.
  destruct (related_get_stat p k1 _ R1) as [E2 R2]. eapply delivers_quiet; [reflexivity|done|]. rewrite Hm in E2.
  simpl in E2. simpl. rewrite <- E2. destruct (stat_lookup steady_now p k1) as [k2 r2] eqn:L2. cbn [fst snd] in *. subst r2.
  destruct (ends_with p DESKTOP_INI) eqn:Ed.
  { unfold delivers. simpl. intros _ c tl out Hc Hf. rewrite app_nil_r. wp_step.
    eapply wp_mono; [eapply (req_stat_file_desktop_ini steady_now x p k1 k2); eassumption| |done]. intros a c' (-> & Hc' & Hf'). wp_step. eauto 10. }
  apply (delivers_send _ k (QStat p) _ _
    (λ r, match r with RStat s => (stat_store steady_now p s k2, AStat Success (Some s))
                     | _ => (k2, AStat (answer_status r) None) end)); [done| |].
  - intros r c tl out Hf _ Hc. wp_step. eapply wp_mono; [eapply (req_stat_file_miss steady_now x p r k1 k2); eassumption| |done].
    intros a c' [-> He]. wp_step. by destruct r.
  - intros o r _ _. destruct r as [|s| | | |]; try (by apply finishes_return).
    eapply finishes_step; [reflexivity|done|]. apply finishes_return. by apply (related_put_stat p s k2 (mkWorld _ _ _ o)).
Qed.

(** A cached listing, replayed. *)
Lemma replay_delivers dir names l k w :
  related k w →
  let '(w', es, a) := run_prog steady_now (replay_prog wide dir names l) w in
  omap sent_of es = [] ∧
  let k' := foldl (replay_entry steady_now wide dir) k names in
  related k' w' ∧ ∃ l', lc_consumed k' = lc_consumed k ++ l' ∧ a = AList Success (l ++ l').
Proof.
  revert l k w. induction names as [|name names IH]; intros l k w Hr.
  { simpl. split_and!; [done|done|]. exists []. by rewrite !app_nil_r. }
  destruct (related_get_stat (get_full_path dir name) k w Hr) as [E R]. cbn [replay_prog run_prog].
  assert (Ek : replay_entry steady_now wide dir k name = match stat_lookup steady_now (get_full_path dir name) k with
    (k, Some st) => consumed st (wide name) k | (k, None) => k end) by done.
  assert (Ec : lc_consumed (fst (stat_lookup steady_now (get_full_path dir name) k)) = lc_consumed k)
    by (by rewrite stat_lookup_eq).
  cbn [foldl]. rewrite Ek. destruct (get_stat steady_now (get_full_path dir name) w) as [[w1 r] e] eqn:Eg.
  cbn [fst snd] in E, R. assert (He : sent_of e = None) by (unfold get_stat in Eg; by simplify_eq).
  destruct (stat_lookup steady_now (get_full_path dir name) k) as [k1 r']. cbn [fst snd] in *. subst r'.
  destruct r as [st|].
  - specialize (IH (l ++ [(st, wide name)]) (consumed st (wide name) k1) w1 R).
    destruct (run_prog steady_now _ w1) as [[w2 es] a]. destruct IH as (Hes & Hr2 & l' & Hl' & ->).
    split_and!; [by simpl; rewrite He|done|]. exists ((st, wide name) :: l').
    rewrite Hl'. simpl. by rewrite Ec, <- !app_assoc.
  - specialize (IH l k1 w1 R). destruct (run_prog steady_now _ w1) as [[w2 es] a].
    destruct IH as (Hes & Hr2 & l' & Hl' & ->). split_and!; [by simpl; rewrite He|done|].
    exists l'. by rewrite Hl', Ec.
Qed.

(** A listing as it is stored. *)
Lemma store_finishes dir es names l k w :
  related k w → names_decode names → Forall (decodes wide) es →
  finishes (store_prog wide dir es names l) w
    (dir_store steady_now dir (names ++ entry_names es) (foldl (store_entry steady_now wide dir) k es),
     AList Success (l ++ entry_stats wide es)).
Proof.
  revert names l k w. induction es as [|[s|[name st]] es IH]; intros names l k w Hr Hn Hd; simpl.
  - eapply finishes_step; [reflexivity|done|]. rewrite !app_nil_r. apply finishes_return. by apply related_put_dir.
  - apply Forall_cons in Hd as [_ Hd]. by apply IH.
  - apply Forall_cons in Hd as [Hname Hd]. eapply finishes_step; [reflexivity|done|].
    specialize (IH (names ++ [name]) (l ++ [(st, wide name)])
      (consumed st (wide name) (stat_store steady_now (get_full_path dir name) st k))
      (fst (put_stat steady_now (get_full_path dir name) st w))).
    rewrite <- !app_assoc in IH. simpl in IH. apply IH; [by apply related_put_stat| |done].
    apply Forall_app. by repeat constructor.
Qed.

Lemma list_delivers x dir k w :
  win32_path_to_unix x = Ok dir → short dir → related k w →
  delivers (perform steady_now fuel (CList x)) k (list_prog wide dir) w.
Proof.
  intros Hx Hp Hr. destruct (related_get_dir dir k w Hr) as [E1 R1].
  unfold list_prog. eapply delivers_quiet; [reflexivity|done|]. simpl in E1. rewrite <- E1.
  assert (Ec : lc_consumed (fst (dir_lookup steady_now dir k)) = lc_consumed k) by (by rewrite dir_lookup_eq).
  destruct (dir_lookup steady_now dir k) as [k1 [names|]] eqn:L1; cbn [fst snd] in *.
  - assert (Hn : names_decode names).
    { destruct Hr as (_ & _ & _ & _ & Hn). unfold spec_get in E1. destruct (w_dirs w !! dir) as [d|] eqn:Ed; [|done].
      simpl in E1. destruct (expired _ _ d); [done|]. injection E1 as ->. exact (Hn _ _ Ed). }
    pose proof (replay_delivers dir names [] k1 _ R1) as Hrep. unfold delivers.
    destruct (run_prog steady_now _ _) as [[w' es] a]. destruct Hrep as (Hes & Hr' & l' & Hl' & ->).
    unfold responses_of, requests_of. rewrite Hes. simpl. intros _ c tl out Hc Hf. rewrite app_nil_r. unfold perform.
    do 3 wp_step. eapply wp_mono; [by eapply (req_list_file_stats_hit steady_now wide)| |done].
    intros a c' (-> & Hc' & Hf'). do 3 wp_step. split; [|by eauto 10].
    destruct Hc as (_ & _ & _ & _ & Hk), Hc' as (_ & _ & _ & _ & Hk').
    apply (f_equal lc_consumed) in Hk, Hk'. simpl in Hk, Hk'. rewrite Hk, Hk', Hl', Ec. by rewrite drop_app_length.
  - apply (delivers_send _ k (QList dir) _ _
      (λ r, match r with
            | REntries es => (dir_store steady_now dir (entry_names es) (foldl (store_entry steady_now wide dir) k1 es),
                              AList Success (entry_stats wide es))
            | _ => (k1, AList (answer_status r) []) end)); [done| |].
    + intros r c tl out Hf Hok Hc. unfold perform. do 3 wp_step.
      eapply wp_mono; [eapply (req_list_file_stats_miss steady_now wide dir x r fuel k1); try done; by destruct r| |done].
      intros a c' (-> & Hc' & Hf'). do 3 wp_step.
      destruct Hc as (_ & _ & _ & _ & Hk). pose proof Hc' as (_ & _ & _ & _ & Hk').
      apply (f_equal lc_consumed) in Hk, Hk'. simpl in Hk, Hk'. rewrite Hk, Hk'.
      destruct r as [s| | | | |es]; try (simpl; rewrite Ec, drop_all; by split).
      simpl. rewrite store_entries_consumed, Ec, drop_app_length. by split.
    + intros o r Hs Hok. destruct r as [| | | | |es]; try (by apply finishes_return).
      destruct Hok as [Hok _]. apply (store_finishes dir es [] [] k1 (mkWorld _ _ _ o)); [exact R1|constructor|done].
Qed.

Lemma changing_delivers t q x p k w :
  win32_path_to_unix x = Ok p → short p → valid_request q → status_only q → related k w →
  encode_request q = e_u8 (request_code t) ++ e_string p →
  delivers (let* s := req_changing_entry t x in ret (AStatus s)) k (changing_prog p q) w.
Proof.
  intros Hx Hp Hq Hs Hr He. apply delivers_lock, delivers_drop_stat, delivers_drop_parent.
  apply (delivers_status _ k (drop_parent p (drop_stat p k))); [done..| |].
  - by apply related_drop_parent, related_drop_stat.
  - intros s c tl out Hl Hc. by apply req_changing_entry_spec.
Qed.

Lemma move_delivers x y f t b k w :
  win32_path_to_unix x = Ok f → win32_path_to_unix y = Ok t → short f → short t → related k w →
  delivers (perform steady_now fuel (CMove x y b)) k (prog_of wide (CMove f t b)) w.
Proof.
  intros Hx Hy Hf Ht Hr.
  apply delivers_lock, delivers_drop_stat, delivers_drop_parent, delivers_drop_stat, delivers_drop_parent.
  apply (delivers_status _ k (drop_parent t (drop_stat t (drop_parent f (drop_stat f k))))); [done..| |].
  - by apply related_drop_parent, related_drop_stat, related_drop_parent, related_drop_stat.
  - intros s c tl out Hl Hc. by apply req_move_entry_spec.
Qed.

Lemma can_remove_delivers t q x p k w :
  win32_path_to_unix x = Ok p → short p → valid_request q → status_only q → related k w →
  encode_request q = e_u8 (request_code t) ++ e_string p →
  delivers (let* s := req_can_remove t x in ret (AStatus s)) k (Lock (send_status q)) w.
Proof.
  intros Hx Hp Hq Hs Hr He. apply delivers_lock, (delivers_status _ k k); [done..|].
  intros s c tl out Hl Hc. by eapply req_can_remove_spec.
Qed.

Lemma open_delivers x p m ra wa k w :
  win32_path_to_unix x = Ok p → short p → listed_mode m → related k w →
  delivers (perform steady_now fuel (COpen x m ra wa)) k (open_prog p m ra wa) w.
Proof.
  intros Hx Hp Hm Hr. apply delivers_lock. destruct (ends_with p DESKTOP_INI) eqn:Ed.
  { unfold delivers. simpl. intros _ c tl out Hc Hf. rewrite app_nil_r. wp_step.
    unfold req_open_file. wp_step. eapply wp_lift; [exact Hx|]. rewrite Ed. do 2 wp_step. eauto 10. }
  apply (delivers_send _ k _ _ _ (λ r, (if may_create m then drop_parent p k else k,
    AOpen (answer_status r) match r with ROpened fd => Some fd | _ => None end))); [done| |].
  - intros r c tl out Hf _ Hc. unfold perform. wp_step.
    eapply wp_mono; [by eapply req_open_file_spec| |done]. intros a c' [-> He]. by wp_step.
  - intros o r _ _. destruct (may_create m); [|by apply finishes_return]. unfold drop_parent_then, drop_parent.
    destruct (get_parent_path p) as [d|]; [|by apply finishes_return].
    eapply finishes_step; [reflexivity|done|]. apply finishes_return. by apply related_drop_dir.
Qed.

Lemma valid_call_request u : valid_call u → valid_request (request_of_call u).
Proof.
  destruct u; cbn [valid_call valid_request request_of_call]; try done.
  - intros (Hfd & Hoff & Hn). pose proof (zlen_nonneg data). split; [|done].
    split_and!; [done|done|unfold is_unsigned; simpl; lia].
  - intros (Hfd & Hoff & Hn). split; [|simpl; lia]. split_and!; [done|unfold is_unsigned; simpl; lia|done].
  - intros Hp. split_and!; [done|apply (to_signed_range 64 _ eq_refl)..].
Qed.

Lemma unix_path_ok x p : unix_path x = Some p → win32_path_to_unix x = Ok p.
Proof. unfold unix_path. destruct (win32_path_to_unix x); congruence. Qed.

Lemma perform_delivers c u k w :
  unix_call c = Some u → valid_call u → related k w → delivers (perform steady_now fuel c) k (prog_of wide u) w.
Proof.
  intros Hu Hv Hr. destruct c; simpl in Hu;
    repeat match goal with
    | Hx : (_ <$> _) = Some _ |- _ => apply fmap_Some in Hx as (? & ?%unix_path_ok & ->)
    | Hx : (_ ≫= _) = Some _ |- _ => apply bind_Some in Hx as (? & ?%unix_path_ok & Hx)
    | Hx : Some _ = Some _ |- _ => injection Hx as <-
    end; cbn [valid_call] in Hv.
  - by apply stat_delivers.
  - by apply list_delivers.
  - destruct Hv. by apply move_delivers.
  - by apply changing_delivers.
  - by eapply can_remove_delivers.
  - by apply changing_delivers.
  - by eapply can_remove_delivers.
  - by apply changing_delivers.
  - destruct Hv. by apply open_delivers.
  - apply delivers_lock, (delivers_status _ k k); [done..|]. intros. by apply req_close_file_spec.
  - pose proof (valid_call_request (CWrite file_handle file_offset data) Hv). destruct Hv as (Hfd & Hoff & Hn).
    apply delivers_lock, (delivers_status _ k k); [done..|]. intros. by apply req_write_to_file_spec.
  - pose proof (valid_call_request (CRead file_handle file_offset buffer_len) Hv). destruct Hv as (Hfd & Hoff & Hn).
    apply delivers_lock, (delivers_send _ k _ _ _ (λ r, (k,
      ARead (answer_status r) match r with RData d => Some (zlen d, d) | _ => None end))); [done| |done].
    intros r c tl out Hf _ Hc. unfold perform. wp_step.
    eapply wp_mono; [by eapply req_read_from_file_spec| |done]. intros a c' [-> He]. by wp_step.
  - destruct Hv. apply delivers_lock, (delivers_status _ k k); [done..|]. intros. by apply req_set_file_len_spec.
  - apply delivers_lock, delivers_drop_stat, (delivers_status _ k (drop_stat x k)); [|done|by apply related_drop_stat|].
    + by apply (valid_call_request (CSetTime x access_time write_time)).
    + intros. by apply req_set_file_time_spec.
  - apply delivers_lock, (delivers_send _ k _ _ _ (λ r, (k,
      ADisk (answer_status r) match r with RDisk d => Some d | _ => None end))); [done| |done].
    intros r c tl out Hf _ Hc. unfold perform. wp_step.
    eapply wp_mono; [by eapply req_get_disk_stats_spec| |done]. intros a c' [-> He]. by wp_step.
Qed.

(** ** Sequences of calls *)
Lemma encode_requests_app qs qs' : encode_requests (qs ++ qs') = encode_requests qs ++ encode_requests qs'.
Proof. unfold encode_requests. by rewrite map_app, concat_app. Qed.
Lemma encode_responses_app rs rs' : encode_responses (rs ++ rs') = encode_responses rs ++ encode_responses rs'.
Proof. unfold encode_responses. by rewrite map_app, concat_app. Qed.

Lemma perform_all_delivers cs us k w :
  mapM unix_call cs = Some us → Forall valid_call us → related k w →
  let '(w', es, l) := run_progs steady_now (prog_of wide <$> us) w in
  Forall response_ok (responses_of es) →
  ∀ c tl out, conn_at c (encode_responses (responses_of es) ++ tl) out k → conn_flushed c →
    wp (perform_all steady_now fuel cs) (λ l' c', l' = l ∧ ∃ k', related k' w' ∧
          conn_at c' tl (out ++ encode_requests (requests_of es)) k' ∧ conn_flushed c') only_io c.
Proof.
  revert us k w. induction cs as [|c cs IH]; intros us k w Hm Hv Hr.
  { injection Hm as <-. simpl. intros _ c tl out Hc Hf. rewrite app_nil_r. wp_step. eauto. }
  simpl in Hm. apply bind_Some in Hm as (u & Hu & Hm). apply bind_Some in Hm as (us' & Hus & [= <-]).
  apply Forall_cons in Hv as [Hv Hvs]. pose proof (perform_delivers c u k w Hu Hv Hr) as Hd. unfold delivers in Hd.
  rewrite fmap_cons. cbn [run_progs perform_all]. destruct (run_prog steady_now _ w) as [[w1 es] a].
  specialize (IH us'). revert IH. generalize (prog_of wide <$> us'). intros ms IH.
  assert (IH' : ∀ k1, related k1 w1 → _) by (intros k1 Hr1; exact (IH k1 w1 Hus Hvs Hr1)). clear IH.
  destruct (run_progs steady_now ms w1) as [[w2 es'] l].
  rewrite requests_app, responses_app, encode_requests_app, encode_responses_app. intros [Hok Hok']%Forall_app.
  intros x tl out Hc Hf. rewrite <- app_assoc in Hc. wp_step.
  eapply wp_mono; [by apply (Hd Hok)| |done]. intros a' c1 (-> & k1 & Hr1 & Hc1 & Hf1). wp_step.
  eapply wp_mono; [by apply (IH' k1 Hr1 Hok')| |done]. intros l' c2 (-> & k2 & Hr2 & Hc2 & Hf2). wp_step.
  split; [done|]. exists k2. by rewrite app_assoc.
Qed.

Lemma run_progs_valid us w :
  Forall valid_call us →
  let '(_, es, _) := run_progs steady_now (prog_of wide <$> us) w in Forall valid_request (requests_of es).
Proof.
  revert w. induction us as [|u us IH]; intros w Hv; [constructor|]. apply Forall_cons in Hv as [Hv Hvs]. rewrite fmap_cons. cbn [run_progs].
  pose proof (run_prog_sends steady_now _ _ w (prog_of_sends wide u)) as Hs. destruct (run_prog _ _ _) as [[w1 es] a].
  specialize (IH w1 Hvs). destruct (run_progs _ _ _) as [[w2 es'] l]. rewrite requests_app. apply Forall_app.
  split; [|done]. eapply Forall_impl; [exact Hs|]. intros q ->. by apply valid_call_request.
Qed.

Lemma new_connection_related (s : N) o :
  related (local_of (new_connection steady_now s)) (mkWorld ∅ ∅ 2 o).
Proof.
  unfold related. split_and!; try done.
  - exists (steady_now 0). split; [apply clock; simpl; lia|]. by left.
  - exists (steady_now 1). split; [apply clock; simpl; lia|]. by left.
Qed.

Lemma handshake_data_u32 : is_u32 HANDSHAKE_DATA.
Proof. unfold is_unsigned, HANDSHAKE_DATA. lia. Qed.

Lemma client_side cs us (s : N) o :
  mapM unix_call cs = Some us → Forall valid_call us →
  let '(_, es, answers) := run_progs steady_now (prog_of wide <$> us) (mkWorld ∅ ∅ 2 o) in
  Forall response_ok (responses_of es) →
  sock_incoming s = e_u32 HANDSHAKE_DATA ++ encode_responses (responses_of es) →
  wp (do* Connection.handshake in perform_all steady_now fuel cs)
     (λ l c', l = answers ∧
        sock_outgoing (cn_socket c') = sock_outgoing s ++ e_u32 HANDSHAKE_DATA ++ encode_requests (requests_of es))
     only_io (new_connection steady_now s).
Proof.
  intros Hm Hv. pose proof (perform_all_delivers cs us _ _ Hm Hv (new_connection_related s o)) as Hd.
  destruct (run_progs _ _ _) as [[w' es] l]. intros Hok Hin. pose proof (new_connection_at steady_now s) as Hc.
  rewrite Hin in Hc. wp_step. eapply wp_mono; [eapply (client_handshake_spec HANDSHAKE_DATA); [apply handshake_data_u32|exact Hc]| |].
  - intros [] c1 (_ & Hc1 & Hf1). rewrite <- (app_nil_r (encode_responses _)) in Hc1.
    eapply wp_mono; [by apply (Hd Hok)| |done]. intros l' c2 (-> & k' & _ & Hc2 & Hf2). split; [done|].
    destruct Hc2 as (_ & _ & _ & Hw & _). unfold conn_flushed in Hf2. rewrite Hw in Hf2. etransitivity; [exact Hf2|].
    by rewrite app_assoc.
  - by intros e c [He|He].
Qed.
End Session.

(** ** Claims *)
Section Claims.
Context {N N' OS : Type} `{SocketLaws N} `{SocketLaws N'} `{PosixLaws OS} `{WideStrings}.

(** C2. A whole session, through the caches and over the wire: a sequence of calls
    of the functions of the client, on a new connection, returns the answers their
    programs give when run one after the other on the device's own state, and sends
    exactly the requests those programs send; and the daemon, given exactly these
    bytes, carries out the requests on the device and sends exactly the bytes the
    client was assumed to receive.  The calls may be any whose paths convert to UTF-8 and
    have at most 65535 bytes, whose transfers have less than 2^31 bytes and whose
    other arguments are within their types, as long as no write of data is among the
    requests whose seek fails on the device (its data would be taken for requests) and
    the names of every listing convert to UTF-16.  Either side can also stop with an
    exception of its socket. *)
Theorem client_session_refines (steady_now : nat → Z) (wide : bytes → wstring) fuel fuel' cs us
    (s : N) (s' : N') (o : OS) :
  (∀ i j, (i ≤ j)%nat → steady_now i ≤ steady_now j) →
  mapM unix_call cs = Some us → Forall valid_call us →
  let '(w', es, answers) := run_progs steady_now (prog_of wide <$> us) (mkWorld ∅ ∅ 2 o) in
  let qs := requests_of es in
  let rs := responses_of es in
  Forall (response_ok wide fuel) rs → all_in_step qs o = true → (length qs < fuel')%nat →
  sock_incoming s = e_u32 HANDSHAKE_DATA ++ encode_responses rs →
  sock_incoming s' = e_u32 HANDSHAKE_DATA ++ encode_requests qs →
  wp (do* Connection.handshake in perform_all steady_now fuel cs)
     (λ l c', l = answers ∧
        sock_outgoing (cn_socket c') = sock_outgoing s ++ e_u32 HANDSHAKE_DATA ++ encode_requests qs)
     only_io (new_connection steady_now s) ∧
  wp (do* ClientHandler.handshake in handle_messages fuel')
     (λ _ h', sock_outgoing (hd_socket h') = sock_outgoing s' ++ e_u32 HANDSHAKE_DATA ++ encode_responses rs ∧
        hd_os h' = w_os w') only_io (new_handler s' o).
Proof.
  intros Hclock Hm Hv. pose proof (client_side (N := N) steady_now Hclock wide fuel cs us s o Hm Hv) as Hcl.
  pose proof (run_progs_valid steady_now wide us (mkWorld ∅ ∅ 2 o) Hv) as Hq.
  pose proof (run_progs_serves steady_now (prog_of wide <$> us) (mkWorld ∅ ∅ 2 o)) as Hsv.
  destruct (run_progs _ _ _) as [[w' es] l]. cbn zeta. intros Hok Hst Hf Hin Hin'. split; [by apply Hcl|].
  eapply wp_mono; [apply (session_spec HANDSHAKE_DATA (requests_of es) fuel' s' o); [apply handshake_data_u32|done..]| |done].
  intros [] h. simpl in Hsv. by rewrite Hsv.
Qed.
End Claims.

Module SessionWitnesses.
Import SingleByteStrings EndToEndWitnesses.

(** A session that misses and hits both caches, changes entries and moves data. *)
Definition calls : list (client_call wstring) :=
  [ CStat (ws (bs "\sdcard\b")); CStat (ws (bs "\sdcard\b")); CList (ws (bs "\sdcard")); CList (ws (bs "\sdcard"));
    COpen (ws (bs "\sdcard\new")) CreateAlways true true; CWrite 0 2 (bs "hello"); CRead 0 3 10; CSetLen 0 4;
    CClose 0; CList (ws (bs "\sdcard")); CMove (ws (bs "\sdcard\new")) (ws (bs "\sdcard\old")) false;
    CStat (ws (bs "\sdcard\new")); CStat (ws (bs "\sdcard\old")); CSetTime (ws (bs "\sdcard\b")) 5 6;
    CCanRemoveFile (ws (bs "\sdcard\b")); CRemoveFile (ws (bs "\sdcard\b")); CStat (ws (bs "\sdcard\b"));
    CCreateDir (ws (bs "\sdcard\d")); CCanRemoveDir (ws (bs "\sdcard\d")); CRemoveDir (ws (bs "\sdcard\d"));
    CStat (ws (bs "\sdcard\desktop.ini")); CDisk ].
Definition unix_calls : list (client_call bytes) := Eval vm_compute in default [] (mapM unix_call calls).
Definition session : world memfs * list event * list answer :=
  run_progs clock (prog_of ws <$> unix_calls) (mkWorld ∅ ∅ 2 demo_fs).
Definition session_requests : list request := Eval vm_compute in requests_of (snd (fst session)).
Definition session_responses : list response := Eval vm_compute in responses_of (snd (fst session)).
Definition client_end : pipe := Pipe (e_u32 HANDSHAKE_DATA ++ encode_responses session_responses) [] 4.
Definition daemon_end : pipe := Pipe (e_u32 HANDSHAKE_DATA ++ encode_requests session_requests) [] 4.

Lemma session_parts : session = (fst (fst session), snd (fst session), snd session).
Proof. by destruct session as [[w es] l]. Qed.

Lemma client_session_refines_witness :
  snd ((do* Connection.handshake in perform_all clock 9 calls) (new_connection clock client_end)) = Ok (snd session) ∧
  wp (do* Connection.handshake in perform_all clock 9 calls)
     (λ l c', l = snd session ∧
        sock_outgoing (cn_socket c') =
          sock_outgoing client_end ++ e_u32 HANDSHAKE_DATA ++ encode_requests (requests_of (snd (fst session))))
     only_io (new_connection clock client_end) ∧
  wp (do* ClientHandler.handshake in handle_messages 40)
     (λ _ h', sock_outgoing (hd_socket h') =
          sock_outgoing daemon_end ++ e_u32 HANDSHAKE_DATA ++ encode_responses (responses_of (snd (fst session))) ∧
        hd_os h' = w_os (fst (fst session))) only_io (new_handler daemon_end demo_fs).
Proof.
  split; [vm_compute; reflexivity|].
  pose proof (client_session_refines clock ws 9 40 calls unix_calls client_end daemon_end demo_fs clock_steady) as Ht.
  change (run_progs clock (prog_of ws <$> unix_calls) (mkWorld ∅ ∅ 2 demo_fs)) with session in Ht.
  rewrite session_parts in Ht. apply Ht; clear Ht.
  - vm_compute. reflexivity.
  - repeat constructor; unfold short, is_unsigned; vm_compute; intuition congruence.
  - replace (responses_of (snd (fst session))) with session_responses by (vm_compute; reflexivity).
    vm_compute. repeat constructor; lia.
  - vm_compute. reflexivity.
  - vm_compute. lia.
  - vm_compute. reflexivity.
  - vm_compute. reflexivity.
Defined.

(** What is written does not show in the size the client reports while the stat from
    before is cached. *)
Example write_leaves_old_size :
  let '(w, _, l) := run_progs clock (prog_of ws <$>
    [ CStat (bs "/sdcard/b"); COpen (bs "/sdcard/b") OpenOnly true true; CWrite 0 0 (bs "hello world");
      CStat (bs "/sdcard/b") ]) (mkWorld ∅ ∅ 2 demo_fs) in
  l !! 3%nat = Some (AStat Success (Some (mkFileStat 33200 3 0 0))) ∧
  snd (serve (QStat (bs "/sdcard/b")) (w_os w)) = RStat (mkFileStat 33200 11 0 0).
Proof. vm_compute. split; reflexivity. Qed.
End SessionWitnesses.
