(* ===== verification/SharedConnection.v ===== *)
(** * The connection shared by the threads of Dokan

    Dokan calls the operations from a pool of threads, all through one [Connection].
    Here any number of threads run the programs of ClientSpec.v with their steps
    interleaved: an operation of a cache (atomic by CacheThreads.v), the exchange of a
    request for its response, the locking and unlocking of [request_mutex].  Calls start
    at any time. *)

From S2P Require Import Prelude Wire Requests Responses PathUtils Conversion TimedCache Posix MemFs ClientHandler.
From S2P Require Import Protocol Connection Client ClientSpec Discipline EndToEnd.

(** ** Threads *)
Section Threads.
Context {OS : Type} `{Posix OS} (steady_now : nat → Z) (wide : bytes → wstring).

(** A call in progress: what it is, where in the log it started, what is left of it. *)
Record running : Type := mkRunning { rn_call : client_call bytes; rn_since : nat; rn_prog : prog }.

Inductive item : Type :=
  | Started (u : client_call bytes)
  | Did (e : event)
  | Returned (u : client_call bytes) (since : nat) (a : answer).

Record shared : Type := mkShared {
  sh_world : world OS;
  sh_holder : option nat;
  sh_running : gmap nat running;
  sh_log : list (nat * item);
}.

(** Thread [t] makes a call. *)
Definition start_call (t : nat) (u : client_call bytes) (σ : shared) : option shared :=
  match sh_running σ !! t with
  | Some _ => None
  | None => Some (mkShared (sh_world σ) (sh_holder σ)
      (<[t := mkRunning u (length (sh_log σ)) (prog_of wide u)]> (sh_running σ)) (sh_log σ ++ [(t, Started u)]))
  end.

(** Thread [t] takes its next step, if it is not waiting for the mutex. *)
Definition advance_thread (t : nat) (σ : shared) : option shared :=
  r ← sh_running σ !! t;
  let left m := <[t := mkRunning (rn_call r) (rn_since r) m]> (sh_running σ) in
  match rn_prog r with
  | Return a => Some (mkShared (sh_world σ) (sh_holder σ) (delete t (sh_running σ))
                        (sh_log σ ++ [(t, Returned (rn_call r) (rn_since r) a)]))
  | Lock k =>
      match sh_holder σ with
      | None => Some (mkShared (sh_world σ) (Some t) (left k) (sh_log σ))
      | Some _ => None
      end
  | Unlock k =>
      if bool_decide (sh_holder σ = Some t) then Some (mkShared (sh_world σ) None (left k) (sh_log σ)) else None
  | m => '(m, w, e) ← prog_step steady_now m (sh_world σ);
         Some (mkShared w (sh_holder σ) (left m) (sh_log σ ++ [(t, Did e)]))
  end.

Inductive shared_step : shared → shared → Prop :=
  | step_begin t u σ σ' : start_call t u σ = Some σ' → shared_step σ σ'
  | step_advance t σ σ' : advance_thread t σ = Some σ' → shared_step σ σ'.

(** A new connection. *)
Definition connected (o : OS) : shared := mkShared (mkWorld ∅ ∅ 2 o) None ∅ [].

Inductive shared_reachable (o : OS) : shared → Prop :=
  | shared_here : shared_reachable o (connected o)
  | shared_next σ σ' : shared_reachable o σ → shared_step σ σ' → shared_reachable o σ'.

(** Schedules: which thread is next, and whether it makes a call. *)
Fixpoint run_schedule (l : list (nat * option (client_call bytes))) (σ : shared) : option shared :=
  match l with
  | [] => Some σ
  | (t, Some u) :: l => start_call t u σ ≫= run_schedule l
  | (t, None) :: l => advance_thread t σ ≫= run_schedule l
  end.

Lemma run_schedule_reachable o l σ σ' :
  shared_reachable o σ → run_schedule l σ = Some σ' → shared_reachable o σ'.
Proof.
  revert σ. induction l as [|[t [u|]] l IH]; simpl; intros σ Hr Hl; [by injection Hl as <-|..];
    apply bind_Some in Hl as (σ1 & H1 & Hl); apply (IH σ1); try done;
    eapply shared_next; [done|by econstructor|done|by eapply step_advance].
Qed.
End Threads.
Arguments mkShared {OS} _ _ _ _.
Arguments sh_world {OS} _.
Arguments sh_holder {OS} _.
Arguments sh_running {OS} _.
Arguments sh_log {OS} _.

(** ** What the log says *)
Notation log := (list (nat * item)).
Implicit Types L : log.

(** The device told [s] as the stat of [p], a call stored it at time [t0], and no
    request that moves, removes, creates or stamps [p] has been exchanged since the
    device told it. *)
Definition backed L (p : bytes) (s : FileStat) (t0 : Z) : Prop :=
  ∃ j i t t' q r, (j < i)%nat ∧ L !! j = Some (t, Did (ESend q r)) ∧ told q r p s ∧
    L !! i = Some (t', Did (EPutStat p s t0)) ∧
    ∀ j' t2 q' r', (j < j')%nat → L !! j' = Some (t2, Did (ESend q' r')) → p ∉ changed q'.

(** The same of a listing, but that later requests for which the listing is dropped may
    be [late]. *)
Definition backed_dir (late : nat → nat → Prop) L (d : bytes) (names : list bytes) (t0 : Z) : Prop :=
  ∃ j i t t' q r, (j < i)%nat ∧ L !! j = Some (t, Did (ESend q r)) ∧ listed q r d names ∧
    L !! i = Some (t', Did (EPutDir d names t0)) ∧
    ∀ j' t2 q' r', (j < j')%nat → L !! j' = Some (t2, Did (ESend q' r')) → d ∈ dropped_dirs q' → late t2 j'.

(** The call with which [t] was busy at [j] has not returned. *)
Definition in_progress L (t j : nat) : Prop :=
  ∀ i u b a, (j < i)%nat → L !! i ≠ Some (t, Returned u b a).

(** Since [b], thread [t] was told [s] by the device or found it in the cache. *)
Definition seen L (t b : nat) (p : bytes) (s : FileStat) : Prop :=
  ∃ i, (b ≤ i)%nat ∧ ((∃ q r, L !! i = Some (t, Did (ESend q r)) ∧ told q r p s) ∨
                      (∃ now, L !! i = Some (t, Did (EGetStat p (Some s) now)))).
Definition seen_dir L (t b : nat) (d : bytes) (names : list bytes) : Prop :=
  ∃ i, (b ≤ i)%nat ∧ ((∃ q r, L !! i = Some (t, Did (ESend q r)) ∧ listed q r d names) ∨
                      (∃ now, L !! i = Some (t, Did (EGetDir d (Some names) now)))).

(** What the log so far has to say for an item to follow. *)
Definition item_ok (wide : bytes → wstring) L (t : nat) (x : item) : Prop :=
  match x with
  | Did (EGetStat p (Some s) now) => ∃ t0, now - t0 ≤ ms STAT_CACHE_PERIOD ∧ backed L p s t0
  | Did (EGetDir d (Some names) now) =>
      ∃ t0, now - t0 ≤ ms STAT_CACHE_PERIOD ∧ backed_dir (in_progress L) L d names t0
  | Returned u b a => L !! b = Some (t, Started u) ∧ supported wide (seen L t b) (seen_dir L t b) u a
  | _ => True
  end.
Definition log_ok (wide : bytes → wstring) L : Prop :=
  ∀ i t x, L !! i = Some (t, x) → item_ok wide (take i L) t x.

Lemma log_ok_snoc wide L t x : log_ok wide L → item_ok wide L t x → log_ok wide (L ++ [(t, x)]).
Proof.
  intros HL Hx i t' x' [[Hi E]|[-> [= <- <-]]]%lookup_snoc_Some.
  - rewrite take_app_le by lia. by apply HL.
  - by rewrite take_app_length.
Qed.

Lemma snoc_old {A} (l : list A) y i x : l !! i = Some x → (l ++ [y]) !! i = Some x.
Proof. apply lookup_app_l_Some. Qed.
#[local] Hint Resolve snoc_old : core.

Definition sends_unchanged (x : nat * item) (p : bytes) : Prop :=
  match x with (_, Did (ESend q _)) => p ∉ changed q | _ => True end.

Lemma backed_snoc L p s t0 x : backed L p s t0 → sends_unchanged x p → backed (L ++ [x]) p s t0.
Proof.
  intros (j & i & t & t' & q & r & Hij & Hj & Ht & Hi & Hno) Hx. exists j, i, t, t', q, r. split_and!; eauto.
  intros j' t2 q' r' Hlt [[_ E]|[_ ->]]%lookup_snoc_Some; [by eapply Hno|done].
Qed.

Lemma backed_dir_snoc (late late' : nat → nat → Prop) L d names t0 x :
  backed_dir late L d names t0 → (∀ t j, late t j → late' t j) →
  match x with (t, Did (ESend q _)) => d ∈ dropped_dirs q → late' t (length L) | _ => True end →
  backed_dir late' (L ++ [x]) d names t0.
Proof.
  intros (j & i & t & t' & q & r & Hij & Hj & Ht & Hi & Hno) Hl Hx. exists j, i, t, t', q, r. split_and!; eauto.
  intros j' t2 q' r' Hlt [[_ E]|[-> ->]]%lookup_snoc_Some Hd; [by eapply Hl, Hno|by apply Hx].
Qed.

Lemma backed_dir_mono (late late' : nat → nat → Prop) L d names t0 :
  (∀ t j, late t j → late' t j) → backed_dir late L d names t0 → backed_dir late' L d names t0.
Proof. intros Hl (j & i & t & t' & q & r & Hij & Hj & Ht & Hi & Hno). exists j, i, t, t', q, r. split_and!; eauto. Qed.

Definition returns (x : nat * item) (t : nat) : Prop :=
  match x with (t', Returned _ _ _) => t' = t | _ => False end.
Lemma in_progress_snoc L t j x : ¬ returns x t → in_progress L t j → in_progress (L ++ [x]) t j.
Proof. intros Hx HL i u b a Hi [[_ E]|[_ ->]]%lookup_snoc_Some; [by eapply HL|by apply Hx]. Qed.

Lemma in_progress_end L t x : in_progress (L ++ [x]) t (length L).
Proof. intros i u b a Hi [[Hlt _]|[-> _]]%lookup_snoc_Some; lia. Qed.

Lemma seen_snoc L t b p s x : seen L t b p s → seen (L ++ [x]) t b p s.
Proof. intros (i & Hb & [(q & r & E & Ht)|(now & E)]); exists i; split; eauto 10. Qed.
Lemma seen_dir_snoc L t b d names x : seen_dir L t b d names → seen_dir (L ++ [x]) t b d names.
Proof. intros (i & Hb & [(q & r & E & Ht)|(now & E)]); exists i; split; eauto 10. Qed.

(** ** The caches against the log *)
Section Caches.
Context {OS : Type}.
Implicit Types (w : world OS) (h : option (nat * section)).

(** What the holder of the mutex knows is so. *)
Definition last_ok L (last : option (request * response)) : Prop :=
  match last with
  | Some (q, r) => ∃ j t, L !! j = Some (t, Did (ESend q r)) ∧
      ∀ j' t' q' r', (j < j')%nat → L !! j' ≠ Some (t', Did (ESend q' r'))
  | None => True
  end.
Definition section_ok L w (s : section) : Prop :=
  last_ok L (sc_last s) ∧
  (∀ p, p ∈ sc_gone s → w_stats w !! p = None) ∧ (∀ d, d ∈ sc_gone_dirs s → w_dirs w !! d = None).

(** Late requests are those of the holder, with the listing still to drop. *)
Definition late h L (d : bytes) (t j : nat) : Prop :=
  in_progress L t j ∧ ∃ s, h = Some (t, s) ∧ d ∈ sc_due s.

Record caches_ok L w h : Prop := {
  stats_backed p s t0 : w_stats w !! p = Some (mkCachedData s t0) → backed L p s t0;
  dirs_backed d names t0 : w_dirs w !! d = Some (mkCachedData names t0) → backed_dir (late h L d) L d names t0;
  holder_knows t s : h = Some (t, s) → section_ok L w s;
}.

(** The effect of a step on the two maps. *)
Definition stats_after (e : event) (m : gmap bytes (CachedData FileStat)) : gmap bytes (CachedData FileStat) :=
  match e with EPutStat p s now => <[p := mkCachedData s now]> m | EDropStat p => delete p m | _ => m end.
Definition dirs_after (e : event) (m : gmap bytes (CachedData (list bytes))) : gmap bytes (CachedData (list bytes)) :=
  match e with EPutDir d names now => <[d := mkCachedData names now]> m | EDropDir d => delete d m | _ => m end.

Lemma spec_get_hit {T} (now : Z) (k : bytes) (m : gmap bytes (CachedData T)) (v : T) :
  spec_get STAT_CACHE_PERIOD now k m = Some v →
  ∃ t0, m !! k = Some (mkCachedData v t0) ∧ now - t0 ≤ ms STAT_CACHE_PERIOD.
Proof.
  unfold spec_get. destruct (m !! k) as [[v' t0]|]; [|done]. unfold expired. cbn [mbind option_bind fetched_at data].
  destruct (Z.ltb_spec (ms STAT_CACHE_PERIOD) (now - t0)); [done|]. intros [= ->]. eauto.
Qed.

(** Items other than exchanges and changes of the caches leave all of it so. *)
Definition quiet (x : item) : Prop :=
  match x with Started _ | Returned _ _ _ | Did (EGetStat _ _ _) | Did (EGetDir _ _ _) => True | _ => False end.

Lemma last_ok_snoc L last t x :
  match x with Did (ESend _ _) => False | _ => True end → last_ok L last → last_ok (L ++ [(t, x)]) last.
Proof.
  intros Hx. destruct last as [[q r]|]; [|done]. intros (j & t' & Hj & Hno). exists j, t'. split; [auto|].
  intros j' t2 q' r' Hlt [[_ E]|[_ [= <- ->]]]%lookup_snoc_Some; [by eapply Hno|done].
Qed.

Lemma section_ok_snoc L w w1 s t x :
  w_stats w1 = w_stats w → w_dirs w1 = w_dirs w →
  match x with Did (ESend _ _) => False | _ => True end → section_ok L w s → section_ok (L ++ [(t, x)]) w1 s.
Proof.
  intros Es Ed Hx (Hl & Hg & Hgd). unfold section_ok. rewrite Es, Ed. split_and!; [by apply last_ok_snoc|done..].
Qed.

Lemma late_snoc h L d t j t' x :
  (∀ s, h = Some (t', s) → ¬ returns (t', x) t') → late h L d t j → late h (L ++ [(t', x)]) d t j.
Proof.
  intros Hx [Hp (s & Hh & Hd)]. split; [|by exists s]. apply in_progress_snoc; [|done].
  intros Hr. destruct x; simpl in Hr; try done. subst t'. by eapply Hx.
Qed.

Lemma caches_ok_quiet L w w1 h t x :
  w_stats w1 = w_stats w → w_dirs w1 = w_dirs w → quiet x → (∀ s, h = Some (t, s) → ¬ returns (t, x) t) →
  caches_ok L w h → caches_ok (L ++ [(t, x)]) w1 h.
Proof.
  intros Es Ed Hq Hx [Hs Hd Hk]. split.
  - intros p s t0. rewrite Es. intros Hl. apply backed_snoc; [auto|]. by destruct x as [|[]|].
  - intros d names t0. rewrite Ed. intros Hl. eapply backed_dir_snoc; [auto| |by destruct x as [|[]|]].
    intros t' j. by apply late_snoc.
  - intros t' s Hh. eapply section_ok_snoc; [done..| |by eapply Hk]. by destruct x as [|[]|].
Qed.

Lemma last_backed L w s q r t p st now :
  section_ok L w s → sc_last s = Some (q, r) → told q r p st →
  backed (L ++ [(t, Did (EPutStat p st now))]) p st now.
Proof.
  intros (Hl & _) E Ht. rewrite E in Hl. destruct Hl as (j & t' & Hj & Hno).
  pose proof (lookup_lt_Some _ _ _ Hj) as Hlt. exists j, (length L), t', t, q, r. split_and!; [done|by apply snoc_old|done|..].
  - by rewrite lookup_app_r, Nat.sub_diag.
  - intros j' t2 q' r' Hjj [[_ E']|[_ [=]]]%lookup_snoc_Some. by destruct (Hno _ _ _ _ Hjj E').
Qed.

Lemma last_backed_dir L w s q r t d names now late :
  section_ok L w s → sc_last s = Some (q, r) → listed q r d names →
  backed_dir late (L ++ [(t, Did (EPutDir d names now))]) d names now.
Proof.
  intros (Hl & _) E Ht. rewrite E in Hl. destruct Hl as (j & t' & Hj & Hno).
  pose proof (lookup_lt_Some _ _ _ Hj) as Hlt. exists j, (length L), t', t, q, r. split_and!; [done|by apply snoc_old|done|..].
  - by rewrite lookup_app_r, Nat.sub_diag.
  - intros j' t2 q' r' Hjj [[_ E']|[_ [=]]]%lookup_snoc_Some. by destruct (Hno _ _ _ _ Hjj E').
Qed.

Lemma late_holder L d t s s' e t' j :
  (d ∈ sc_due s → d ∈ sc_due s') → late (Some (t, s)) L d t' j → late (Some (t, s')) (L ++ [(t, Did e)]) d t' j.
Proof.
  intros Hd [Hp (s0 & [= <- <-] & Hin)]. split; [by apply in_progress_snoc; [intros []|]|]. exists s'. auto.
Qed.

(** A step of the holder. *)
Lemma stats_backed_holder L w w1 t s e :
  w_stats w1 = stats_after e (w_stats w) → allowed s e → caches_ok L w (Some (t, s)) →
  ∀ p st t0, w_stats w1 !! p = Some (mkCachedData st t0) → backed (L ++ [(t, Did e)]) p st t0.
Proof.
  intros Es Ha [Hs Hd Hk] p st t0. specialize (Hk t s eq_refl). rewrite Es.
  destruct e as [p' r now|p' st' now|p'|d r now|d names now|d|q r]; simpl in *; intros Hl;
    try (apply backed_snoc; [by apply Hs|done]).
  - apply lookup_insert_Some in Hl as [[<- [= <- <-]]|[_ Hl]]; [|apply backed_snoc; [by apply Hs|done]].
    destruct Ha as (q & r & Hq & Ht). by eapply last_backed.
  - apply lookup_delete_Some in Hl as [_ Hl]. apply backed_snoc; [by apply Hs|done].
  - apply backed_snoc; [by apply Hs|]. intros Hin%Ha. destruct Hk as (_ & Hg & _). by rewrite (Hg _ Hin) in Hl.
Qed.

Lemma dirs_backed_holder L w w1 t s e :
  w_dirs w1 = dirs_after e (w_dirs w) → allowed s e → caches_ok L w (Some (t, s)) →
  ∀ d names t0, w_dirs w1 !! d = Some (mkCachedData names t0) →
    backed_dir (late (Some (t, section_after s e)) (L ++ [(t, Did e)]) d) (L ++ [(t, Did e)]) d names t0.
Proof.
  intros Ed Ha [Hs Hd Hk] d names t0. specialize (Hk t s eq_refl). rewrite Ed.
  destruct e as [p r now|p st now|p|d' r now|d' names' now|d'|q r]; simpl in *; intros Hl;
    try (eapply backed_dir_snoc; [by apply Hd| |done]; intros t' j; by apply late_holder).
  - apply lookup_insert_Some in Hl as [[<- [= <- <-]]|[_ Hl]];
      [|eapply backed_dir_snoc; [by apply Hd| |done]; intros t' j; by apply late_holder].
    destruct Ha as [(q & r & Hq & Ht) _]. by eapply last_backed_dir.
  - apply lookup_delete_Some in Hl as [Hne Hl]. eapply backed_dir_snoc; [by apply Hd| |done].
    intros t' j. apply late_holder. simpl. set_solver.
  - eapply backed_dir_snoc; [by apply Hd| |].
    + intros t' j. apply late_holder. simpl. set_solver.
    + intros Hin. split; [apply in_progress_end|]. eexists. split; [done|]. destruct Hk as (_ & _ & Hg).
      assert (d ∉ sc_gone_dirs s) by (intros Hg'%Hg; by rewrite Hg' in Hl). simpl. set_solver.
Qed.

Lemma section_ok_holder L w w1 t s e :
  w_stats w1 = stats_after e (w_stats w) → w_dirs w1 = dirs_after e (w_dirs w) →
  section_ok L w s → section_ok (L ++ [(t, Did e)]) w1 (section_after s e).
Proof.
  intros Es Ed (Hl & Hg & Hgd). unfold section_ok. rewrite Es, Ed.
  destruct e as [p r now|p st now|p|d r now|d names now|d|q r]; simpl in *;
    (split; [first [by apply last_ok_snoc|idtac]|]); try (by split).
  - split; [|done]. intros p' [Hp Hne%not_elem_of_singleton]%elem_of_difference. rewrite lookup_insert_ne by done. auto.
  - split; [|done]. intros p'. rewrite lookup_delete_None. set_solver.
  - split; [done|]. intros d' [Hp Hne%not_elem_of_singleton]%elem_of_difference. rewrite lookup_insert_ne by done. auto.
  - split; [done|]. intros d'. rewrite lookup_delete_None. set_solver.
  - exists (length L), t. split; [by rewrite lookup_app_r, Nat.sub_diag|].
    intros j' t' q' r' Hlt Hj%lookup_lt_Some. rewrite length_app in Hj. simpl in Hj. lia.
Qed.

Lemma caches_ok_holder L w w1 t s e :
  w_stats w1 = stats_after e (w_stats w) → w_dirs w1 = dirs_after e (w_dirs w) → allowed s e →
  caches_ok L w (Some (t, s)) → caches_ok (L ++ [(t, Did e)]) w1 (Some (t, section_after s e)).
Proof.
  intros Es Ed Ha Hc. split; [by eapply stats_backed_holder|by eapply dirs_backed_holder|].
  intros t' s' [= <- <-]. eapply section_ok_holder; [done..|]. by eapply holder_knows.
Qed.

(** The mutex changes hands. *)
Lemma caches_ok_lock L w t : caches_ok L w None → caches_ok L w (Some (t, fresh_section)).
Proof.
  intros [Hs Hd Hk]. split; [done|..].
  - intros d names t0 Hl. eapply backed_dir_mono; [|by apply Hd]. by intros t' j [_ (s & [=] & _)].
  - by intros t' s [= <- <-].
Qed.

Lemma caches_ok_unlock L w t s : sc_due s = ∅ → caches_ok L w (Some (t, s)) → caches_ok L w None.
Proof.
  intros E [Hs Hd Hk]. split; [done| |done].
  intros d names t0 Hl. eapply backed_dir_mono; [|by apply Hd]. intros t' j [_ (s' & [= <- <-] & Hin)]. set_solver.
Qed.
End Caches.

Section Effect.
Context {OS : Type} `{Posix OS} (steady_now : nat → Z).
Implicit Types w : world OS.

Lemma prog_step_effect m w m1 w1 e :
  prog_step steady_now m w = Some (m1, w1, e) →
  w_stats w1 = stats_after e (w_stats w) ∧ w_dirs w1 = dirs_after e (w_dirs w) ∧
  match e with
  | EGetStat p (Some s) now => ∃ t0, w_stats w !! p = Some (mkCachedData s t0) ∧ now - t0 ≤ ms STAT_CACHE_PERIOD
  | EGetDir d (Some names) now => ∃ t0, w_dirs w !! d = Some (mkCachedData names t0) ∧ now - t0 ≤ ms STAT_CACHE_PERIOD
  | _ => True
  end.
Proof.
  destruct m; simpl; try done; unfold exchange;
    repeat match goal with |- context [serve ?q ?o] => destruct (serve q o) end;
    injection 1 as <- <- <-; simpl; (split; [done|]; split; [done|]); try done;
    destruct (spec_get _ _ _ _) eqn:E; try done; by apply spec_get_hit.
Qed.
End Effect.

(** ** The invariant *)
Section Invariant.
Context {OS : Type} `{PosixLaws OS} (steady_now : nat → Z) (wide : bytes → wstring).
Implicit Types (σ : shared (OS := OS)) (h : option (nat * section)).

Definition held_by h (t : nat) : option section :=
  match h with Some (t', s) => if decide (t' = t) then Some s else None | None => None end.

Lemma held_by_self t s : held_by (Some (t, s)) t = Some s.
Proof. simpl. by rewrite decide_True. Qed.
Lemma held_by_ne t t' s : t ≠ t' → held_by (Some (t, s)) t' = None.
Proof. intros Hne. simpl. by rewrite decide_False. Qed.

Definition thread_ok L h (t : nat) (r : running) : Prop :=
  disciplined (held_by h t) (rn_prog r) ∧
  vouched wide (rn_call r) (seen L t (rn_since r)) (seen_dir L t (rn_since r)) (rn_prog r) ∧
  L !! rn_since r = Some (t, Started (rn_call r)).

Record shared_ok σ h : Prop := {
  ok_holder : sh_holder σ = fst <$> h;
  ok_held_running t s : h = Some (t, s) → is_Some (sh_running σ !! t);
  ok_threads t r : sh_running σ !! t = Some r → thread_ok (sh_log σ) h t r;
  ok_caches : caches_ok (sh_log σ) (sh_world σ) h;
  ok_log : log_ok wide (sh_log σ);
}.

Lemma vouched_snoc L t b x u m :
  vouched wide u (seen L t b) (seen_dir L t b) m → vouched wide u (seen (L ++ [x]) t b) (seen_dir (L ++ [x]) t b) m.
Proof. apply vouched_mono; intros; [by apply seen_snoc|by apply seen_dir_snoc]. Qed.

Lemma thread_ok_snoc L h h' t r x : held_by h' t = held_by h t → thread_ok L h t r → thread_ok (L ++ [x]) h' t r.
Proof. intros E (Hd & Hv & Hs). split_and!; [by rewrite E|by apply vouched_snoc|by apply snoc_old]. Qed.

Lemma sensible_serve q (o : OS) : sensible q (snd (serve q o)).
Proof. unfold sensible. destruct q; try done; by apply serve_fits_size. Qed.

Lemma vouched_step L t b u m (w : world OS) m1 w1 e :
  (b ≤ length L)%nat → prog_step steady_now m w = Some (m1, w1, e) →
  vouched wide u (seen L t b) (seen_dir L t b) m →
  vouched wide u (seen (L ++ [(t, Did e)]) t b) (seen_dir (L ++ [(t, Did e)]) t b) m1.
Proof.
  intros Hb Hs Hv.
  assert (Hn : (L ++ [(t, Did e)]) !! length L = Some (t, Did e)) by (by rewrite lookup_app_r, Nat.sub_diag).
  destruct m as [| | |p k|p st k|p k|d k|d names k|d k|q k]; simpl in *; try done; try (injection Hs as <- <- <-; by apply vouched_snoc).
  - injection Hs as <- <- <-. eapply vouched_mono; [| |apply Hv].
    + intros p' s [?|[-> E]]; [by apply seen_snoc|]. exists (length L). split; [done|]. right. eexists. by rewrite <- E.
    + intros. by apply seen_dir_snoc.
  - injection Hs as <- <- <-. eapply vouched_mono; [| |apply Hv].
    + intros. by apply seen_snoc.
    + intros d' names [?|[-> E]]; [by apply seen_dir_snoc|]. exists (length L). split; [done|]. right. eexists. by rewrite <- E.
  - pose proof (sensible_serve q (w_os w)) as Hr. unfold exchange in Hs. destruct (serve q (w_os w)) as [o r].
    injection Hs as <- <- <-. eapply vouched_mono; [| |by apply (Hv r)].
    + intros p s [?|Ht]; [by apply seen_snoc|]. exists (length L). split; [done|]. left. eauto.
    + intros d names [?|Ht]; [by apply seen_dir_snoc|]. exists (length L). split; [done|]. left. eauto.
Qed.

(** What a thread can do. *)
Definition moved σ (t : nat) (r : running) (m : prog) : gmap nat running :=
  <[t := mkRunning (rn_call r) (rn_since r) m]> (sh_running σ).

Inductive advances (t : nat) σ (r : running) : shared → Prop :=
  | adv_return a : rn_prog r = Return a →
      advances t σ r (mkShared (sh_world σ) (sh_holder σ) (delete t (sh_running σ))
        (sh_log σ ++ [(t, Returned (rn_call r) (rn_since r) a)]))
  | adv_lock k : rn_prog r = Lock k → sh_holder σ = None →
      advances t σ r (mkShared (sh_world σ) (Some t) (moved σ t r k) (sh_log σ))
  | adv_unlock k : rn_prog r = Unlock k → sh_holder σ = Some t →
      advances t σ r (mkShared (sh_world σ) None (moved σ t r k) (sh_log σ))
  | adv_step m w e : prog_step steady_now (rn_prog r) (sh_world σ) = Some (m, w, e) →
      advances t σ r (mkShared w (sh_holder σ) (moved σ t r m) (sh_log σ ++ [(t, Did e)])).

Lemma advance_iff t σ σ' :
  advance_thread steady_now t σ = Some σ' ↔ ∃ r, sh_running σ !! t = Some r ∧ advances t σ r σ'.
Proof.
  unfold advance_thread. split.
  - intros (r & Hr & E)%bind_Some. exists r. split; [done|].
    destruct (rn_prog r) eqn:Em; try (apply bind_Some in E as ([[m w] e] & Hs & [= <-]); apply adv_step; by rewrite Em).
    + injection E as <-. by apply adv_return.
    + destruct (sh_holder σ) eqn:Eh; [done|]. injection E as <-. by apply adv_lock.
    + case_bool_decide; [|done]. injection E as <-. by apply adv_unlock.
  - intros (r & Hr & Ha). rewrite Hr. cbn [mbind option_bind]. destruct Ha as [a Em|k Em Eh|k Em Eh|m w e Hs].
    + by rewrite Em.
    + by rewrite Em, Eh.
    + rewrite Em. by rewrite bool_decide_true.
    + destruct (rn_prog r) eqn:Em; try done; rewrite Hs; done.
Qed.

Lemma holder_section σ h t : shared_ok σ h → sh_holder σ = Some t → ∃ s, h = Some (t, s).
Proof. intros Hok E. rewrite (ok_holder _ _ Hok) in E. destruct h as [[t' s]|]; [|done]. injection E as ->. by exists s. Qed.
Lemma not_held σ h t : shared_ok σ h → sh_running σ !! t = None → held_by h t = None.
Proof.
  intros Hok Hr. destruct h as [[t' s]|]; [|done]. apply held_by_ne. intros ->.
  destruct (ok_held_running _ _ Hok t s eq_refl) as [r E]. by rewrite E in Hr.
Qed.

Lemma moved_running σ t r m t' : is_Some (sh_running σ !! t') → is_Some (moved σ t r m !! t').
Proof. unfold moved. rewrite lookup_insert_is_Some. destruct (decide (t = t')); auto. Qed.

(** The other threads keep what they have. *)
Lemma threads_moved σ h h' L' t r m :
  shared_ok σ h → (∀ t', t' ≠ t → held_by h' t' = held_by h t') →
  (L' = sh_log σ ∨ ∃ x, L' = sh_log σ ++ [x]) →
  thread_ok L' h' t (mkRunning (rn_call r) (rn_since r) m) →
  ∀ t' r', moved σ t r m !! t' = Some r' → thread_ok L' h' t' r'.
Proof.
  intros Hok Hh HL Ht t' r'. unfold moved. intros [[<- <-]|[Hne E]]%lookup_insert_Some; [done|].
  pose proof (ok_threads _ _ Hok t' r' E) as Hr. destruct HL as [->|[x ->]].
  - unfold thread_ok in *. by rewrite Hh.
  - apply (thread_ok_snoc _ h); [auto|done].
Qed.

Lemma shared_ok_begin t u σ σ' h : start_call wide t u σ = Some σ' → shared_ok σ h → shared_ok σ' h.
Proof.
  unfold start_call. destruct (sh_running σ !! t) eqn:Er; [done|]. intros [= <-] Hok. split; simpl.
  - apply Hok.
  - intros t' s Hh. apply lookup_insert_is_Some. destruct (decide (t = t')); [by left|right].
    split; [done|]. by eapply ok_held_running.
  - intros t' r [[<- <-]|[Hne E]]%lookup_insert_Some; [|by apply (thread_ok_snoc _ h), Hok]. split_and!; simpl.
    + rewrite (not_held σ) by done. apply prog_of_disciplined.
    + eapply vouched_mono; [| |apply prog_of_vouched]; done.
    + by rewrite lookup_app_r, Nat.sub_diag.
  - apply (caches_ok_quiet _ (sh_world σ)); [done..| |apply Hok]. by intros s _ [].
  - apply log_ok_snoc; [apply Hok|done].
Qed.

Lemma shared_ok_return t σ h r a :
  shared_ok σ h → sh_running σ !! t = Some r → rn_prog r = Return a →
  shared_ok (mkShared (sh_world σ) (sh_holder σ) (delete t (sh_running σ))
        (sh_log σ ++ [(t, Returned (rn_call r) (rn_since r) a)])) h.
Proof.
  intros Hok Hr Em. destruct (ok_threads _ _ Hok t r Hr) as (Hd & Hv & Hs). rewrite Em in Hd, Hv. simpl in Hd, Hv.
  assert (Hne : ∀ t' s, h = Some (t', s) → t' ≠ t) by (intros t' s -> ->; by rewrite held_by_self in Hd). split; simpl.
  - apply Hok.
  - intros t' s Hh. apply lookup_delete_is_Some. split; [by intros ->; eapply Hne|by eapply ok_held_running].
  - intros t' r' [_ E]%lookup_delete_Some. by apply (thread_ok_snoc _ h), Hok.
  - apply (caches_ok_quiet _ (sh_world σ)); [done..| |apply Hok]. intros s Hh. by destruct (Hne _ _ Hh).
  - apply log_ok_snoc; [apply Hok|done].
Qed.

Lemma shared_ok_lock t σ h r k :
  shared_ok σ h → sh_running σ !! t = Some r → rn_prog r = Lock k → sh_holder σ = None →
  shared_ok (mkShared (sh_world σ) (Some t) (moved σ t r k) (sh_log σ)) (Some (t, fresh_section)).
Proof.
  intros Hok Hr Em Eh. destruct (ok_threads _ _ Hok t r Hr) as (Hd & Hv & Hs). rewrite Em in Hd, Hv. simpl in Hd, Hv.
  rewrite (ok_holder _ _ Hok) in Eh. destruct h as [|]; [done|]. split; simpl; [done|..].
  - intros t' s [= <- <-]. by apply moved_running.
  - apply (threads_moved σ None); [done| |by left|].
    + intros t' Hne. by rewrite held_by_ne.
    + split_and!; simpl; [|done..]. rewrite decide_True by done. apply Hd.
  - apply caches_ok_lock, Hok.
  - apply Hok.
Qed.

Lemma shared_ok_unlock t σ h r k :
  shared_ok σ h → sh_running σ !! t = Some r → rn_prog r = Unlock k → sh_holder σ = Some t →
  shared_ok (mkShared (sh_world σ) None (moved σ t r k) (sh_log σ)) None.
Proof.
  intros Hok Hr Em Eh. destruct (ok_threads _ _ Hok t r Hr) as (Hd & Hv & Hs). rewrite Em in Hd, Hv.
  destruct (holder_section σ h t Hok Eh) as [s ->]. rewrite held_by_self in Hd. destruct Hd as [Hdue Hd]. simpl in Hv.
  split; simpl; [done|done|..].
  - apply (threads_moved σ (Some (t, s))); [done| |by left|done]. intros t' Hne. by rewrite held_by_ne.
  - pose proof (ok_caches _ _ Hok). by eapply caches_ok_unlock.
  - apply Hok.
Qed.

(** A hit is backed by the log. *)
Lemma hit_ok σ h t r m w e :
  shared_ok σ h → prog_step steady_now (rn_prog r) (sh_world σ) = Some (m, w, e) → item_ok wide (sh_log σ) t (Did e).
Proof.
  intros Hok Hs. destruct (prog_step_effect _ _ _ _ _ _ Hs) as (_ & _ & Hhit).
  pose proof (ok_caches _ _ Hok) as [Hcs Hcd _]. destruct e as [p [s|] now|?|?|d [names|] now|?|?|?]; simpl; try done.
  - destruct Hhit as (t0 & Hl & Ht). eauto.
  - destruct Hhit as (t0 & Hl & Ht). exists t0. split; [done|]. eapply backed_dir_mono; [|by apply Hcd].
    by intros t' j [Hp _].
Qed.

Lemma shared_ok_step t σ h r m w e :
  shared_ok σ h → sh_running σ !! t = Some r → prog_step steady_now (rn_prog r) (sh_world σ) = Some (m, w, e) →
  ∃ h', shared_ok (mkShared w (sh_holder σ) (moved σ t r m) (sh_log σ ++ [(t, Did e)])) h'.
Proof.
  intros Hok Hr Hst. destruct (ok_threads _ _ Hok t r Hr) as (Hd & Hv & Hs).
  pose proof (disciplined_step _ _ _ _ _ _ _ Hst Hd) as Hd'.
  destruct (prog_step_effect _ _ _ _ _ _ Hst) as (Es & Ed & _).
  pose proof (hit_ok σ h t r m w e Hok Hst) as Hit.
  assert (Hlog : log_ok wide (sh_log σ ++ [(t, Did e)])) by (apply log_ok_snoc; [apply Hok|done]).
  assert (Hv' : vouched wide (rn_call r) (seen (sh_log σ ++ [(t, Did e)]) t (rn_since r))
    (seen_dir (sh_log σ ++ [(t, Did e)]) t (rn_since r)) m).
  { eapply vouched_step; [|done..]. apply lookup_lt_Some in Hs. lia. }
  destruct (held_by h t) as [s|] eqn:Eh.
  - destruct h as [[t' s']|]; [|done]. simpl in Eh. destruct (decide (t' = t)) as [->|]; [|done]. injection Eh as ->.
    destruct Hd' as [Ha Hd']. exists (Some (t, section_after s e)). split; simpl; [by apply (ok_holder _ _ Hok)|..].
    + intros t' s' [= <- <-]. by apply moved_running.
    + eapply (threads_moved σ); [done| |by right; eexists|].
      * intros t' Hne. by rewrite !held_by_ne.
      * split_and!; simpl; [|done|by apply snoc_old]. by rewrite decide_True.
    + by apply (caches_ok_holder _ (sh_world σ)), Hok.
    + done.
  - destruct Hd' as [Hq Hd']. exists h. split; simpl; [apply Hok|..].
    + intros t' s' Hh. apply moved_running. by eapply ok_held_running.
    + eapply (threads_moved σ); [done..|by right; eexists|]. split_and!; simpl; [by rewrite Eh|done|by apply snoc_old].
    + apply (caches_ok_quiet _ (sh_world σ)); [by destruct e..| |apply Hok]. by intros s _ [].
    + done.
Qed.

Lemma shared_ok_reachable o σ : shared_reachable steady_now wide o σ → ∃ h, shared_ok σ h.
Proof.
  induction 1 as [|σ σ' Hr [h Hok] Hs].
  - exists None. by split.
  - destruct Hs as [t u σ σ' Hb|t σ σ' Ha]; [exists h; by eapply shared_ok_begin|].
    apply advance_iff in Ha as (r & Hrun & Ha). destruct Ha as [a Em|k Em Eh|k Em Eh|m w e Hst].
    + exists h. by apply shared_ok_return.
    + eexists. by eapply shared_ok_lock.
    + eexists. by eapply shared_ok_unlock.
    + by eapply shared_ok_step.
Qed.
End Invariant.

(** ** Every call returns *)
Section Progress.
Context {OS : Type} `{PosixLaws OS} (steady_now : nat → Z) (wide : bytes → wstring).
Implicit Types (σ : shared (OS := OS)) (ρ : gmap nat running).

(** What is left of a program after a step. *)
Inductive left_of : prog → prog → Prop :=
  | left_lock k : left_of k (Lock k)
  | left_unlock k : left_of k (Unlock k)
  | left_get_stat p k r : left_of (k r) (GetStat p k)
  | left_put_stat p s k : left_of k (PutStat p s k)
  | left_drop_stat p k : left_of k (DropStat p k)
  | left_get_dir d k r : left_of (k r) (GetDir d k)
  | left_put_dir d names k : left_of k (PutDir d names k)
  | left_drop_dir d k : left_of k (DropDir d k)
  | left_send q k r : left_of (k r) (Send q k).

Lemma left_of_wf m : Acc left_of m.
Proof. induction m; constructor; intros m' Hl; inversion Hl; subst; auto. Qed.

Lemma prog_step_left m (w : world OS) m1 w1 e : prog_step steady_now m w = Some (m1, w1, e) → left_of m1 m.
Proof.
  destruct m; simpl; try done; unfold exchange;
    repeat match goal with |- context [serve ?q ?o] => destruct (serve q o) end;
    injection 1 as <- <- <-; constructor.
Qed.

(** One of the calls in progress returns or has less left. *)
Definition less_left ρ' ρ : Prop :=
  ∃ t r, ρ !! t = Some r ∧
    (ρ' = delete t ρ ∨ ∃ m, left_of m (rn_prog r) ∧ ρ' = <[t := mkRunning (rn_call r) (rn_since r) m]> ρ).

Lemma less_left_insert t ρ : Acc less_left ρ → ρ !! t = None → ∀ r, Acc less_left (<[t := r]> ρ).
Proof.
  induction 1 as [ρ Hρ IH]. intros Ht [u b m].
  induction (left_of_wf m) as [m _ IHm]. constructor. intros ρ' (t' & r' & Hl & Hr).
  apply lookup_insert_Some in Hl as [[<- <-]|[Hne Hl]].
  - destruct Hr as [->|(m' & Hm & ->)].
    + rewrite delete_insert_id by done. by constructor.
    + rewrite insert_insert_eq. by apply IHm.
  - destruct Hr as [->|(m' & Hm & ->)].
    + rewrite delete_insert_ne by done. apply IH; [|by rewrite lookup_delete_ne]. exists t', r'. auto.
    + rewrite insert_insert_ne by done. apply IH; [|by rewrite lookup_insert_ne]. exists t', r'. eauto 10.
Qed.

Lemma less_left_wf ρ : Acc less_left ρ.
Proof.
  induction ρ as [|t r ρ Ht IH] using map_ind; [|by apply less_left_insert].
  constructor. intros ρ' (t & r & Hl & _). by rewrite lookup_empty in Hl.
Qed.

(** A step of a call in progress. *)
Definition works σ σ' : Prop := ∃ t, advance_thread steady_now t σ = Some σ'.

Lemma works_less σ σ' : works σ σ' → less_left (sh_running σ') (sh_running σ).
Proof.
  intros (t & (r & Hr & Ha)%advance_iff). exists t, r. split; [done|].
  destruct Ha as [a Em|k Em Eh|k Em Eh|m w e Hst]; simpl; [by left|right..].
  - exists k. rewrite Em. split; [constructor|done].
  - exists k. rewrite Em. split; [constructor|done].
  - exists m. split; [by eapply prog_step_left|done].
Qed.

Lemma works_sn σ : sn works σ.
Proof.
  remember (sh_running σ) as ρ eqn:E. revert σ E.
  induction (less_left_wf ρ) as [ρ _ IH]. intros σ ->. constructor. intros σ' Hw.
  by eapply IH; [apply works_less|].
Qed.

Lemma prog_step_some m (w : world OS) :
  match m with Return _ | Lock _ | Unlock _ => True | _ => is_Some (prog_step steady_now m w) end.
Proof. destruct m; simpl; try done; unfold exchange; try (by eexists). by destruct (serve q (w_os w)). Qed.

(** No deadlock: the holder of the mutex can go on, and when it is free all can. *)
Lemma thread_can_advance σ h t r :
  shared_ok wide σ h → sh_running σ !! t = Some r → (sh_holder σ = None ∨ sh_holder σ = Some t) →
  ∃ σ', advance_thread steady_now t σ = Some σ'.
Proof.
  intros Hok Hr Hh. destruct (ok_threads _ _ _ Hok t r Hr) as (Hd & _).
  setoid_rewrite (advance_iff steady_now t σ).
  pose proof (prog_step_some (rn_prog r) (sh_world σ)) as Hst.
  destruct (rn_prog r) eqn:Em; lazymatch type of Hst with
    | is_Some _ => destruct Hst as [[[m w] e] Hst]; eexists _, r; (split; [done|]); eapply adv_step; rewrite Em; exact Hst
    | _ => clear Hst end.
  - eexists _, r. split; [done|]. by eapply adv_return.
  - destruct Hd as [Hd _]. destruct Hh as [Hh|Hh].
    + eexists _, r. split; [done|]. by eapply adv_lock.
    + destruct (holder_section _ _ _ _ Hok Hh) as [s ->]. by rewrite held_by_self in Hd.
  - simpl in Hd. destruct (held_by h t) as [s|] eqn:E; [|done]. destruct h as [[t' s']|]; [|done].
    assert (t' = t) as -> by (simpl in E; by destruct (decide (t' = t))).
    eexists _, r. split; [done|]. eapply adv_unlock; [done|]. by rewrite (ok_holder _ _ _ Hok).
Qed.

Lemma no_deadlock σ h : shared_ok wide σ h → nf works σ → sh_running σ = ∅ ∧ sh_holder σ = None.
Proof.
  intros Hok Hnf. assert (Hno : ∀ t r, sh_running σ !! t = Some r → sh_holder σ = None ∨ sh_holder σ = Some t → False).
  { intros t r Hr Hh. destruct (thread_can_advance σ h t r Hok Hr Hh) as [σ' Ha]. apply Hnf. by exists σ', t. }
  destruct (sh_holder σ) as [t|] eqn:Eh.
  - destruct (holder_section _ _ _ _ Hok Eh) as [s ->]. destruct (ok_held_running _ _ _ Hok t s eq_refl) as [r Hr].
    destruct (Hno t r); auto.
  - split; [|done]. apply map_empty. intros t. destruct (sh_running σ !! t) as [r|] eqn:Hr; [|done].
    destruct (Hno t r); auto.
Qed.

Lemma works_reachable o σ σ' :
  shared_reachable steady_now wide o σ → rtc works σ σ' → shared_reachable steady_now wide o σ'.
Proof.
  intros Hr Hw. revert Hr. induction Hw as [σ|σ σ1 σ' (t & Ha) _ IH]; [done|]. intros Hr. apply IH.
  eapply shared_next; [done|]. by eapply step_advance.
Qed.
End Progress.

(** ** Claims *)
Section Claims.
Context {OS : Type} `{PosixLaws OS} (steady_now : nat → Z) (wide : bytes → wstring).
Implicit Types σ : shared (OS := OS).

(** The device told [names] as the entries of [d], a call stored them at time [t0], and a
    request that adds an entry to [d] or removes one has been exchanged since only by a
    call in progress, if [d] is not the root. *)
Definition backed_listing L (d : bytes) (names : list bytes) (t0 : Z) : Prop :=
  ∃ j i t t' q r, (j < i)%nat ∧ L !! j = Some (t, Did (ESend q r)) ∧ listed q r d names ∧
    L !! i = Some (t', Did (EPutDir d names t0)) ∧
    (plain_dir d → ∀ j' t2 q' r', (j < j')%nat → L !! j' = Some (t2, Did (ESend q' r')) →
       alters d q' → in_progress L t2 j').

Lemma backed_dir_listing L d names t0 : backed_dir (in_progress L) L d names t0 → backed_listing L d names t0.
Proof.
  intros (j & i & t & t' & q & r & Hij & Hj & Ht & Hi & Hno). exists j, i, t, t', q, r. split_and!; [done..|].
  intros Hd j' t2 q' r' Hlt E Ha. eapply Hno; [done..|]. by apply alters_dropped.
Qed.

(** What thread [t] learnt at position [k] of the log: from the device itself, or from a
    cache, where it had been stored at most 200 ms before. *)
Definition fresh_stat L (k t : nat) (p : bytes) (s : FileStat) : Prop :=
  (∃ q r, L !! k = Some (t, Did (ESend q r)) ∧ told q r p s) ∨
  (∃ now t0, L !! k = Some (t, Did (EGetStat p (Some s) now)) ∧
     now - t0 ≤ ms STAT_CACHE_PERIOD ∧ backed (take k L) p s t0).
Definition fresh_dir L (k t : nat) (d : bytes) (names : list bytes) : Prop :=
  (∃ q r, L !! k = Some (t, Did (ESend q r)) ∧ listed q r d names) ∨
  (∃ now t0, L !! k = Some (t, Did (EGetDir d (Some names) now)) ∧
     now - t0 ≤ ms STAT_CACHE_PERIOD ∧ backed_listing (take k L) d names t0).


(** C6. The threads never deadlock on [request_mutex], and every call returns: from any
    reachable state the calls in progress can only take finitely many steps in all,
    whatever the order, and when none of them can take a step every call has returned and
    the mutex is free. *)
Theorem calls_all_return o σ :
  shared_reachable steady_now wide o σ →
  sn (works steady_now) σ ∧
  ∀ σ', rtc (works steady_now) σ σ' → nf (works steady_now) σ' → sh_running σ' = ∅ ∧ sh_holder σ' = None.
Proof.
  intros Hr. split; [apply works_sn|]. intros σ' Hw Hnf.
  destruct (shared_ok_reachable steady_now wide o σ') as [h Hok]; [by eapply works_reachable|].
  by eapply no_deadlock.
Qed.
End Claims.

Module SharedWitnesses.
Import SingleByteStrings EndToEndWitnesses.

(** Two threads ask for the same stat; the second finds what the first has stored while
    it waited for the mutex.  Then the first lists the directory, the second creates a
    file in it, and a third finds the old listing before the second has dropped it. *)
Definition schedule : list (nat * option (client_call bytes)) :=
  [ (1%nat, Some (CStat (bs "/sdcard/b"))); (2%nat, Some (CStat (bs "/sdcard/b"))); (1%nat, None); (2%nat, None);
    (1%nat, None); (1%nat, None); (1%nat, None); (1%nat, None); (1%nat, None); (2%nat, None); (2%nat, None);
    (2%nat, None); (2%nat, None); (1%nat, None); (1%nat, Some (CList (bs "/sdcard")));
    (2%nat, Some (COpen (bs "/sdcard/new") CreateAlways true true)); (1%nat, None); (1%nat, None); (1%nat, None);
    (1%nat, None); (1%nat, None); (1%nat, None); (1%nat, None); (2%nat, None); (2%nat, None);
    (3%nat, Some (CList (bs "/sdcard"))); (3%nat, None); (3%nat, None); (3%nat, None) ].
Definition final : shared := default (connected demo_fs) (run_schedule clock ws schedule (connected demo_fs)).
Lemma final_reachable : shared_reachable clock ws demo_fs final.
Proof.
  apply (run_schedule_reachable clock ws demo_fs schedule (connected demo_fs)); [constructor|].
  unfold final. destruct (run_schedule clock ws schedule (connected demo_fs)) as [σ|] eqn:E; [done|].
  assert (Hs : bool_decide (is_Some (run_schedule clock ws schedule (connected demo_fs))) = true) by (vm_compute; reflexivity).
  by rewrite E in Hs.
Qed.


Lemma calls_all_return_witness :
  sh_holder final = Some 2%nat ∧
  sn (works clock) final ∧
  ∀ σ' : shared (OS := memfs), rtc (works clock) final σ' → nf (works clock) σ' → sh_running σ' = ∅ ∧ sh_holder σ' = None.
Proof.
  split; [vm_compute; reflexivity|]. apply (calls_all_return clock ws demo_fs final), final_reachable.
Defined.
End SharedWitnesses.
