(* ===== verification/Robust.v ===== *)
(** * Requests on any stream

    Whatever bytes the peer sends, a request over well-formed buffers returns or
    throws a C++ exception: no undefined behaviour, no endless
    loop, and buffers that are well formed either way, so the connection can be
    used again. *)

From S2P Require Import Prelude Effects Endian Wire Serialization Socket Requests Responses.
From S2P Require Import PathUtils Conversion TimedCache Posix ClientHandler Protocol Connection Client.

Section Robust.
Context {N : Type} `{SocketLaws N} `{WideStrings} (steady_now : nat → Z).
#[local] Existing Instance conn_readable.
#[local] Existing Instance conn_writable.
#[local] Existing Instance client_duplex.

Definition sound (c : connection N) : Prop :=
  DataReader.wf (cn_reader c) ∧ DataWriter.wf (cn_writer c).

(** How many bytes are still to be read. *)
Definition left (c : connection N) : Z := zlen (DataReader.rest (cn_socket c, cn_reader c)).

Lemma left_nonneg c : 0 ≤ left c.
Proof. apply zlen_nonneg. Qed.

Definition robust_at {A} (m : M (connection N) A) (P : A → Prop) (c : connection N) : Prop :=
  sound c →
  wp m (λ a c', sound c' ∧ left c' ≤ left c ∧ P a) (λ e c', sound c' ∧ catchable e) c.
Definition robust {A} (m : M (connection N) A) (P : A → Prop) : Prop := ∀ c, robust_at m P c.

Lemma robust_ret {A} (a : A) (P : A → Prop) : P a → robust (ret a) P.
Proof. by intros Ha c Hc; split_and!. Qed.

Lemma robust_from {A} c (m : M (connection N) A) P c1 :
  robust_at m P c1 → sound c1 → left c1 ≤ left c →
  wp m (λ a c', sound c' ∧ left c' ≤ left c ∧ P a) (λ e c', sound c' ∧ catchable e) c1.
Proof.
  intros Hm Hc1 Hl. eapply wp_mono; [by apply Hm| |done]. intros a c' (? & ? & ?).
  split_and!; [done|lia|done].
Qed.

Lemma robust_bind_at {A B} (m : M (connection N) A) (n : A → M (connection N) B) P Q c :
  robust_at m P c → (∀ a c', P a → left c' ≤ left c → robust_at (n a) Q c') → robust_at (bind m n) Q c.
Proof.
  intros Hm Hn Hc. wp_step. eapply wp_mono; [by apply Hm| |done].
  intros a c' (Hc' & Hl & Ha). apply robust_from; auto.
Qed.

Lemma robust_bind {A B} (m : M (connection N) A) (n : A → M (connection N) B) P Q :
  robust m P → (∀ a, P a → robust (n a) Q) → robust (bind m n) Q.
Proof. intros Hm Hn c. eapply robust_bind_at; [apply Hm|]. intros a c' Ha _. by apply Hn. Qed.

(** A decoder leaves no more than it was given. *)
Definition shrinks {A} (p : parser A) : Prop := ∀ l a tl, p l = Some (a, tl) → zlen tl ≤ zlen l.

Lemma shrinks_ret {A} (a : A) : shrinks (pret a).
Proof. by intros l b tl [= _ <-]. Qed.
Lemma shrinks_bind {A B} (p : parser A) (q : A → parser B) :
  shrinks p → (∀ a, shrinks (q a)) → shrinks (pbind p q).
Proof.
  intros Hp Hq l b tl. unfold pbind. destruct (p l) as [[a l']|] eqn:E; [|done]. intros Hb.
  apply Hp in E. apply Hq in Hb. lia.
Qed.
Lemma shrinks_take n : shrinks (ptake n).
Proof.
  intros l d tl. unfold ptake. destruct (_ <=? _); intros [= _ <-].
  unfold zlen, zdrop. rewrite length_drop. lia.
Qed.
Lemma shrinks_byte l z tl : p_u8 l = Some (z, tl) → zlen tl < zlen l.
Proof.
  unfold p_u8, p_uint, pbind, ptake. destruct (Z.leb_spec (Z.of_nat 1) (zlen l)); [|done].
  intros [= _ <-]. unfold zlen, zdrop in *. rewrite length_drop. lia.
Qed.
Lemma shrinks_uint n : shrinks (p_uint n).
Proof. apply shrinks_bind; [apply shrinks_take|intros; apply shrinks_ret]. Qed.
Lemma shrinks_string : shrinks p_string.
Proof. apply shrinks_bind; [apply shrinks_uint|intros; apply shrinks_take]. Qed.
Lemma shrinks_FileStat : shrinks (parse (A := FileStat)).
Proof. repeat (apply shrinks_bind; [apply shrinks_uint|intros]). apply shrinks_ret. Qed.
Lemma shrinks_DiskStats : shrinks (parse (A := DiskStats)).
Proof. repeat (apply shrinks_bind; [apply shrinks_uint|intros]). apply shrinks_ret. Qed.

Lemma robust_receive {A} (m : M (N * DataReader.t) A) p :
  DataReader.reads m p → shrinks p → robust (receive m) (λ a, ∃ i tl, p i = Some (a, tl)).
Proof.
  intros Hm Hp c [Hr Hw]. apply wp_zoom. simpl. eapply wp_mono; [by apply Hm|..].
  - intros a [s r] (Ha & ? & _). split; [done|]. split; [by apply Hp in Ha|eauto].
  - intros e [s r] [Hwf [He|(-> & _)]]; (split; [done|]); [by apply io_catchable|done].
Qed.

(** A writer of anything, whatever its arguments: it leaves a well-formed buffer. *)
Definition safe_writer {A} (m : M (N * DataWriter.t) A) : Prop :=
  ∀ st, DataWriter.wf (snd st) →
    wp m (λ _ st', DataWriter.wf (snd st') ∧ incoming (fst st') = incoming (fst st))
         (λ e st', DataWriter.wf (snd st') ∧ catchable e) st.

Lemma safe_writes {A} (m : M (N * DataWriter.t) A) d : DataWriter.writes m d → safe_writer m.
Proof.
  intros Hm st Hw. eapply wp_mono; [by apply Hm|..].
  - intros a st' Hd. split; apply Hd.
  - intros e st' [He ?]. split; [done|by apply io_catchable].
Qed.

Lemma safe_bind {A B} (m : M (N * DataWriter.t) A) (n : A → M (N * DataWriter.t) B) :
  safe_writer m → (∀ a, safe_writer (n a)) → safe_writer (bind m n).
Proof.
  intros Hm Hn st Hw. wp_step. eapply wp_mono; [by apply Hm| |done]. intros a st' [Hw' <-]. by apply Hn.
Qed.

Lemma safe_exact d n : n ≤ zlen d → safe_writer (DataWriter.write_exact d n).
Proof. intros Hn. by eapply safe_writes, DataWriter.writes_exact. Qed.
Lemma safe_byte z : safe_writer (DataWriter.write_byte Win32 z).
Proof. by apply safe_exact. Qed.
Lemma safe_u32 z : safe_writer (DataWriter.write_u32 Win32 z).
Proof. by apply safe_exact. Qed.
Lemma safe_u64 z : safe_writer (DataWriter.write_u64 Win32 z).
Proof. by apply safe_exact. Qed.

Lemma safe_string p : safe_writer (DataWriter.write_utf8_string Win32 p).
Proof.
  destruct (decide (short p)) as [Hp|Hp]; [by eapply safe_writes, DataWriter.writes_utf8_string|].
  intros st Hw. by apply write_long_string.
Qed.

Lemma safe_flush : safe_writer DataWriter.flush.
Proof. eapply safe_writes, DataWriter.writes_flush. Qed.

Lemma robust_transmit {A} (m : M (N * DataWriter.t) A) : safe_writer m → robust (transmit m) (λ _, True).
Proof.
  intros Hm c [Hr Hw]. apply wp_zoom. simpl. eapply wp_mono; [by apply Hm|..].
  - intros a [s w] [? Hi]. split_and!; [done| |done]. unfold left, DataReader.rest. simpl in *. by rewrite Hi.
  - by intros e [s w] [? ?].
Qed.

Lemma robust_local {A} (m : M (connection N) A) f : local_step m f → robust m (λ _, True).
Proof.
  intros Hm c [Hr Hw]. specialize (Hm c). unfold wp. destruct (m c) as [c' r].
  destruct Hm as (E1 & E2 & E3 & _ & ->). unfold sound, left. by rewrite E1, E2, E3.
Qed.

Lemma robust_path w : robust (lift (win32_path_to_unix w)) (λ _, True).
Proof.
  intros c Hc. unfold lift, wp, win32_path_to_unix. by destruct (_ =? 0).
Qed.

Lemma robust_status : robust read_status (λ _, True).
Proof.
  unfold read_status. eapply robust_bind; [eapply robust_receive; [apply DataReader.reads_byte|apply shrinks_uint]|].
  intros b _. by apply robust_ret.
Qed.

Lemma robust_request_type t : robust (write_request_type t) (λ _, True).
Proof. apply robust_transmit, safe_byte. Qed.

(** A writer, field by field. *)
Ltac safe_write :=
  lazymatch goal with
  | |- safe_writer (DataWriter.write_byte _ _) => apply safe_byte
  | |- safe_writer (DataWriter.write_u32 _ _) => apply safe_u32
  | |- safe_writer (DataWriter.write_u64 _ _) => apply safe_u64
  | |- safe_writer (DataWriter.write_utf8_string _ _) => apply safe_string
  | |- safe_writer DataWriter.flush => apply safe_flush
  | |- safe_writer (bind _ _) => apply safe_bind; [safe_write|intros ?; safe_write]
  end.

(** One statement of a request. *)
Ltac robust_known :=
  lazymatch goal with
  | |- robust (write_request_type _) _ => apply robust_request_type
  | |- robust (transmit _) _ => apply robust_transmit; safe_write
  | |- robust (lift (win32_path_to_unix _)) _ => apply robust_path
  | |- robust read_status _ => apply robust_status
  | |- robust (stat_cache_invalidate _) _ => eapply robust_local, local_drop_stat
  | |- robust (invalidate_parent_dir _) _ => eapply robust_local, local_drop_parent
  | |- robust (stat_cache_get _ _) _ => eapply robust_local, local_stat_lookup
  | |- robust (stat_cache_put _ _ _) _ => eapply robust_local, local_stat_store
  end.
Ltac robust_step :=
  lazymatch goal with
  | |- robust (bind _ _) _ => eapply robust_bind; [robust_known|intros ? _]
  | _ => robust_known
  end.

(** ** Requests answered by a status *)
Lemma robust_changing_entry t w : robust (req_changing_entry t w) (λ _, True).
Proof. unfold req_changing_entry. repeat robust_step. Qed.

Lemma robust_can_remove t w : robust (req_can_remove t w) (λ _, True).
Proof. unfold req_can_remove. repeat robust_step. Qed.

Lemma robust_move w w' b : robust (req_move_entry w w' b) (λ _, True).
Proof. unfold req_move_entry, write_MoveEntryArgs. repeat robust_step. Qed.

Lemma robust_close fd : robust (req_close_file fd) (λ _, True).
Proof. unfold req_close_file. repeat robust_step. Qed.

Lemma robust_set_len fd n : robust (req_set_file_len fd n) (λ _, True).
Proof. unfold req_set_file_len, write_TruncateHandleArgs. repeat robust_step. Qed.

Lemma robust_set_time w a m : robust (req_set_file_time w a m) (λ _, True).
Proof. unfold req_set_file_time, write_SetFileTimeArgs. repeat robust_step. Qed.

Lemma robust_write fd off d n : n ≤ zlen d → is_u32 n → robust (req_write_to_file fd off d n) (λ _, True).
Proof.
  intros Hn Hu. unfold req_write_to_file, write_WriteHandleInitArgs. do 2 robust_step.
  eapply robust_bind; [apply robust_transmit, safe_exact|intros ? _; repeat robust_step].
  pose proof (to_signed_le 32 n ltac:(lia) Hu). lia.
Qed.

(** ** Requests answered with a value *)

(** A value comes with [Success], and only then. *)
Definition delivered {A} (a : ResponseStatus * option A) : Prop := fst a = Success ↔ is_Some (snd a).

Lemma robust_stat w : robust (req_stat_file steady_now w) delivered.
Proof.
  unfold req_stat_file. do 2 robust_step. destruct a0; [by apply robust_ret|].
  robust_step. destruct a0; [by apply robust_ret|].
  destruct (ends_with a DESKTOP_INI); [apply robust_ret; split; [done|by intros []]|].
  do 4 robust_step. case_bool_decide as Hs; cbn [negb].
  - eapply robust_bind; [eapply robust_receive; [apply reads_FileStat|apply shrinks_FileStat]|intros st _]. robust_step.
    by apply robust_ret.
  - apply robust_ret. split; [done|by intros []].
Qed.

Lemma robust_open w mode ra wa :
  robust (req_open_file w mode ra wa) (λ a, delivered a ∧ ∀ fd, snd a = Some fd → is_u32 fd).
Proof.
  unfold req_open_file. robust_step.
  destruct (ends_with a DESKTOP_INI); [apply robust_ret; split; [split; [done|by intros []]|done]|].
  unfold write_OpenHandleArgs. do 4 robust_step.
  eapply robust_bind with (P := λ h : option Z, (a3 = Success ↔ is_Some h) ∧ ∀ fd, h = Some fd → is_u32 fd).
  - case_bool_decide as Hs.
    + eapply robust_bind; [eapply robust_receive; [apply DataReader.reads_u32|apply shrinks_uint]|intros fd (i & tl & Hfd)].
      apply robust_ret. split; [done|]. intros ? [= <-]. by apply (p_uint_range 4) in Hfd.
    + apply robust_ret. split; [split; [done|by intros []]|done].
  - intros h Hh. eapply robust_bind with (P := λ _, True).
    + destruct (may_create mode); [eapply robust_local, local_drop_parent|by apply robust_ret].
    + intros _ _. by apply robust_ret.
Qed.

(** The next statement of a request, in a proof by rules. *)
Ltac then_left L :=
  eapply robust_bind_at; [eapply L|intros ? ? _ ?].

Lemma robust_disk : robust req_get_disk_stats delivered.
Proof.
  unfold req_get_disk_stats. do 3 robust_step. case_bool_decide as Hs.
  - eapply robust_bind; [eapply robust_receive; [apply reads_DiskStats|apply shrinks_DiskStats]|intros ? _].
    by apply robust_ret.
  - apply robust_ret. split; [done|by intros []].
Qed.

(** ** Reads

    A read throws or returns like the others, unless the count in the answer
    exceeds the caller's buffer. *)
Definition to_come (c : connection N) : bytes := DataReader.rest (cn_socket c, cn_reader c).

Lemma receive_to_come {A} (m : M (N * DataReader.t) A) p c :
  DataReader.reads m p → sound c →
  wp (receive m) (λ a c', sound c' ∧ p (to_come c) = Some (a, to_come c'))
    (λ e c', sound c' ∧ catchable e) c.
Proof.
  intros Hm [Hr Hw]. apply wp_zoom. simpl. eapply wp_mono; [by apply Hm|..].
  - by intros a [s r] (Ha & ? & _).
  - intros e [s r] [Hwf [He|(-> & _)]]; (split; [done|]); [by apply io_catchable|done].
Qed.

Lemma transmit_to_come {A} (m : M (N * DataWriter.t) A) c :
  safe_writer m → sound c →
  wp (transmit m) (λ _ c', sound c' ∧ to_come c' = to_come c) (λ e c', sound c' ∧ catchable e) c.
Proof.
  intros Hm [Hr Hw]. apply wp_zoom. simpl. eapply wp_mono; [by apply Hm|..].
  - intros a [s w] [? Hi]. split; [done|]. unfold to_come, DataReader.rest. simpl in *. by rewrite Hi.
  - by intros e [s w] [? ?].
Qed.

(** The peer answers a read of [n] bytes with success and a larger count. *)
Definition announces_too_much (n : Z) (inp : bytes) : Prop :=
  ∃ code tl count tl', p_u8 inp = Some (code, tl) ∧ status_of_code code = Success ∧
    p_u32 tl = Some (count, tl') ∧ n < to_i32 count.

Ltac then_to_come L :=
  wp_step; eapply wp_mono; [eapply L; [..|eassumption]| |by intros ? ? [? ?]; auto].

Lemma read_overrun fd off n c :
  sound c →
  wp (req_read_from_file fd off n) (λ a c', sound c' ∧ delivered a)
    (λ e c', sound c' ∧ (catchable e ∨ e = BufferOverrun ∧ announces_too_much n (to_come c))) c.
Proof.
  intros Hc. unfold req_read_from_file, write_ReadHandleArgs, write_request_type.
  then_to_come @transmit_to_come; [safe_write|intros _ c1 [Hc1 <-]].
  then_to_come @transmit_to_come; [safe_write|intros _ c2 [Hc2 <-]].
  then_to_come @transmit_to_come; [safe_write|intros _ c3 [Hc3 <-]].
  wp_step. unfold read_status. then_to_come @receive_to_come; [apply DataReader.reads_byte|intros b c4 [Hc4 Hb]].
  wp_step. case_bool_decide as Hs; [|wp_step; split; [done|split; [done|by intros []]]].
  then_to_come @receive_to_come; [apply DataReader.reads_u32|intros count c5 [Hc5 Hn]].
  wp_step. destruct (Z.ltb_spec n (to_i32 count)).
  - wp_step. split; [done|]. right. split; [done|]. by exists b, (to_come c4), count, (to_come c5).
  - wp_step. then_to_come @receive_to_come; [apply DataReader.reads_exact|intros ? c6 [Hc6 _]]. by wp_step.
Qed.

(** ** Listings *)
Context (conversion_throws : ∀ name e, from_bytes name = Throw e → catchable e).

Lemma robust_name name : robust (lift (unix_path_to_win32 name)) (λ _, True).
Proof.
  intros c Hc. unfold lift, wp, unix_path_to_win32, wstring_from_string.
  destruct (from_bytes name) eqn:E; [done|]. split; [done|]. by eapply conversion_throws.
Qed.

Lemma robust_consume st w : robust (consume_stat st w) (λ _, True).
Proof. eapply robust_local, local_consumed. Qed.

Lemma robust_replay dir names : robust (replay_cached_dir steady_now dir names) (λ _, True).
Proof.
  induction names as [|name names IH]; simpl; [by apply robust_ret|]. robust_step.
  eapply robust_bind with (P := λ _, True); [|intros ? _; exact IH].
  destruct a; [|by apply robust_ret]. eapply robust_bind; [apply robust_name|].
  intros w _. apply robust_consume.
Qed.

(** Every turn of the loop takes at least the status off the stream. *)
Lemma status_progress c :
  sound c →
  wp read_status (λ _ c', sound c' ∧ left c' < left c) (λ e c', sound c' ∧ catchable e) c.
Proof.
  intros [Hr Hw]. unfold read_status. wp_step. apply wp_zoom. simpl.
  eapply wp_mono; [by apply DataReader.reads_byte|..].
  - intros b [s r] (Hb & ? & _). wp_step. split; [done|]. unfold left. simpl in *.
    apply shrinks_byte in Hb. lia.
  - intros e [s r] [Hwf [He|(-> & _)]]; (split; [done|]); [by apply io_catchable|done].
Qed.

Lemma robust_entries fuel dir names c :
  left c < Z.of_nat fuel → robust_at (read_entries steady_now fuel dir names) (λ _, True) c.
Proof.
  revert names c. induction fuel as [|fuel IH]; intros names c Hf Hc.
  { pose proof (left_nonneg c). lia. }
  simpl. wp_step. eapply wp_mono; [by apply status_progress| |done]. intros st c1 [Hc1 Hl1].
  assert (Hrest : ∀ names c2, left c2 ≤ left c1 → robust_at (read_entries steady_now fuel dir names) (λ _, True) c2).
  { intros names' c2 Hl2. apply IH. lia. }
  case_bool_decide; [wp_step; split_and!; [done|lia|done]|].
  apply (robust_from c); [|done|lia]. case_bool_decide; [|by apply Hrest].
  then_left @robust_receive; [apply DataReader.reads_utf8_string|apply shrinks_string|].
  then_left @robust_receive; [apply reads_FileStat|apply shrinks_FileStat|].
  then_left @robust_local; [apply local_stat_store|]. then_left robust_name. then_left robust_consume.
  apply Hrest. lia.
Qed.

Lemma robust_list fuel w c :
  left c < Z.of_nat fuel → robust_at (req_list_file_stats steady_now fuel w) (λ _, True) c.
Proof.
  intros Hf. unfold req_list_file_stats, try_use_cached_dir_listing.
  then_left robust_path. then_left @robust_bind; [eapply robust_local, local_dir_lookup| |].
  { intros [names|] _; [|apply (robust_ret false (λ _, True) I)].
    eapply robust_bind; [apply robust_replay|]. intros ? _. by apply robust_ret. }
  destruct a0; [by apply robust_ret|].
  then_left robust_request_type. then_left robust_path. then_left @robust_transmit; [safe_write|].
  then_left @robust_transmit; [safe_write|]. then_left robust_status.
  destruct (negb _); [by apply robust_ret|].
  then_left robust_entries; [lia|]. then_left @robust_local; [apply local_dir_store|]. by apply robust_ret.
Qed.
End Robust.
