(* ===== verification/Operations.v ===== *)
(** * The file system callbacks: nandroidfs/operations.cpp and FileContext.hpp

    What Dokan calls for each request of Windows: the callbacks translate it to
    requests of [Connection], keep a [FileContext] per open handle, and turn every
    exception into an unmount. *)

From S2P Require Import Prelude Effects Endian Wire Serialization Socket Requests Responses.
From S2P Require Import PathUtils Conversion TimedCache Connection.

Definition CREATE_NEW : Z := 1.
Definition CREATE_ALWAYS : Z := 2.
Definition OPEN_EXISTING : Z := 3.
Definition OPEN_ALWAYS : Z := 4.
Definition TRUNCATE_EXISTING : Z := 5.

Definition GENERIC_READ : Z := 0x80000000.
Definition GENERIC_WRITE : Z := 0x40000000.
Definition FILE_FLAG_DELETE_ON_CLOSE : Z := 0x04000000.
Definition FILE_NON_DIRECTORY_FILE : Z := 0x40.

(** [handle = -1], stored in an unsigned 32-bit field. *)
Definition NO_HANDLE : Z := to_u32 (-1).

Record FileContext : Type := mkFileContext {
  fc_handle : Z; fc_read_access : bool; fc_write_access : bool }.

(** The fields of [DOKAN_FILE_INFO] the callbacks use. *)
Record DOKAN_FILE_INFO : Type := mkFileInfo {
  fi_Context : Z; fi_DeleteOnClose : bool; fi_IsDirectory : bool }.

(** What a callback works on: the connection of the mounted device, the heap of
    file contexts, whether [unmount] has been called, and its [file_info]. *)
Record dokan (N : Type) : Type := mkDokan {
  dk_conn : connection N;
  dk_contexts : gmap Z FileContext;
  dk_unmounted : bool;
  dk_info : DOKAN_FILE_INFO;
}.
Arguments mkDokan {N} _ _ _ _.
Arguments dk_conn {N} _.
Arguments dk_contexts {N} _.
Arguments dk_unmounted {N} _.
Arguments dk_info {N} _.

Definition dokan_conn_lens {N} : lens (dokan N) (connection N) :=
  Lens dk_conn (λ c d, mkDokan c (dk_contexts d) (dk_unmounted d) (dk_info d)).

#[global] Instance dokan_conn_lens_laws {N} : LensLaws (@dokan_conn_lens N).
Proof. by split; [intros ? []|intros []|intros ? ? []]. Qed.

Record BY_HANDLE_FILE_INFORMATION : Type := mkFileInformation {
  bh_dwFileAttributes : Z; bh_nFileSizeLow : Z; bh_nFileSizeHigh : Z;
  bh_ftLastAccessTime : FILETIME; bh_ftLastWriteTime : FILETIME }.

Record WIN32_FIND_DATAW : Type := mkFindData {
  fd_dwFileAttributes : Z; fd_nFileSizeLow : Z; fd_nFileSizeHigh : Z;
  fd_ftLastAccessTime : FILETIME; fd_ftLastWriteTime : FILETIME; fd_cFileName : wstring }.

(** The capacity of [cFileName], in 16-bit units. *)
Definition MAX_PATH : Z := 260.

Definition file_information_of (stat : FileStat) : BY_HANDLE_FILE_INFORMATION :=
  {| bh_dwFileAttributes := file_attributes_from_st_mode (st_mode stat);
     bh_nFileSizeLow := to_u32 (st_size stat);
     bh_nFileSizeHigh := to_u32 (Z.shiftr (st_size stat) 32);
     bh_ftLastAccessTime := filetime_from_unix_time (st_access_time stat);
     bh_ftLastWriteTime := filetime_from_unix_time (st_write_time stat) |}.

(** [wcscpy_s] into [cFileName] ends the process when the name and its terminator
    do not fit: [None]. *)
Definition find_data_of (stat : FileStat) (file_name : wstring) : option WIN32_FIND_DATAW :=
  if zlen file_name <? MAX_PATH then
    Some {| fd_dwFileAttributes := file_attributes_from_st_mode (st_mode stat);
            fd_nFileSizeLow := to_u32 (st_size stat);
            fd_nFileSizeHigh := to_u32 (Z.shiftr (st_size stat) 32);
            fd_ftLastAccessTime := filetime_from_unix_time (st_access_time stat);
            fd_ftLastWriteTime := filetime_from_unix_time (st_write_time stat);
            fd_cFileName := file_name |}
  else None.

(** A null pointer is [None]. *)
Definition signed_time_from_ptr (file_time : option FILETIME) : Z :=
  match file_time with
  | Some f =>
      if (dwHighDateTime f =? 0) && (dwLowDateTime f =? 0) then -1
      else to_i64 (unix_time_from_filetime f)
  | None => -1
  end.

Section Callbacks.
Context {N : Type} `{Socket N} `{WideStrings} (steady_now : nat → Z).
(** Dokan's translation of the kernel's create flags to those of [CreateFile]: the
    access, the attributes and flags, and the disposition. *)
Context (DokanMapKernelToUserCreateFileFlags : Z → Z → Z → Z → Z * Z * Z).

Definition NAN_CONN {A} (m : M (connection N) A) : M (dokan N) A := zoom dokan_conn_lens m.

Definition set_info (f : DOKAN_FILE_INFO → DOKAN_FILE_INFO) : M (dokan N) unit :=
  modify (λ d, mkDokan (dk_conn d) (dk_contexts d) (dk_unmounted d) (f (dk_info d))).
Definition set_context (c : gmap Z FileContext → gmap Z FileContext) : M (dokan N) unit :=
  modify (λ d, mkDokan (dk_conn d) (c (dk_contexts d)) (dk_unmounted d) (dk_info d)).
(** [Nandroid::unmount] has the tracker destroy the device's objects, Dokan's
    handle first: no callback follows. *)
Definition unmount : M (dokan N) unit :=
  modify (λ d, mkDokan (dk_conn d) (dk_contexts d) true (dk_info d)).

(** Dereferencing a [FileContext] pointer. *)
Definition deref (p : Z) : M (dokan N) FileContext :=
  let* heap := gets dk_contexts in
  match heap !! p with Some c => ret c | None => throw UndefinedBehaviour end.
Definition NAN_FILE_CTX : M (dokan N) (Z * FileContext) :=
  let* info := gets dk_info in
  let* c := deref (fi_Context info) in ret (fi_Context info, c).

(** [NAN_HANDLER_START ... NAN_HANDLER_END]: any exception unmounts the device;
    the callback then answers [failure]. *)
Definition NAN_HANDLER {A} (failure : A) (body : M (dokan N) A) : M (dokan N) A :=
  try_catch body (λ _, do* unmount in ret failure).

(** ** Opening *)
Definition handle_create_directory (path : wstring) (creation_disposition : Z)
    (entry_exists entry_is_directory : bool) : M (dokan N) NTSTATUS :=
  if (creation_disposition =? OPEN_ALWAYS) || (creation_disposition =? CREATE_NEW)
     || (creation_disposition =? CREATE_ALWAYS) then
    let* status := NAN_CONN (req_create_directory path) in
    ret (ntstatus_from_respstatus status)
  else if entry_exists && entry_is_directory then ret STATUS_SUCCESS
  else if negb entry_exists then ret STATUS_OBJECT_NAME_NOT_FOUND
  else if negb entry_is_directory then ret STATUS_NOT_A_DIRECTORY
  else ret STATUS_UNSUCCESSFUL.

(** The [switch] of [handle_create_file]: a mode to open with, or the status
    returned on the spot. *)
Definition open_decision (creation_disposition : Z) (file_exists no_access : bool)
    : NTSTATUS + OpenMode :=
  if creation_disposition =? CREATE_ALWAYS then inr CreateOrTruncate
  else if creation_disposition =? CREATE_NEW then inr CreateAlways
  else if creation_disposition =? OPEN_ALWAYS then
    if no_access && file_exists then inl STATUS_SUCCESS else inr CreateIfNotExist
  else if creation_disposition =? OPEN_EXISTING then
    if no_access && file_exists then inl STATUS_SUCCESS
    else if negb file_exists then inl STATUS_OBJECT_NAME_NOT_FOUND
    else inr OpenOnly
  else if creation_disposition =? TRUNCATE_EXISTING then inr Truncate
  else inl STATUS_UNSUCCESSFUL.

Definition handle_create_file (path : wstring) (creation_disposition : Z) (file_exists : bool)
    (ctx : Z) : M (dokan N) NTSTATUS :=
  let* c := deref ctx in
  let no_access := negb (fc_read_access c) && negb (fc_write_access c) in
  match open_decision creation_disposition file_exists no_access with
  | inl status => ret status
  | inr mode =>
      let c := mkFileContext (fc_handle c) (fc_read_access c || no_access) (fc_write_access c) in
      do* set_context <[ctx := c]> in
      let* ' (status, handle) :=
        NAN_CONN (req_open_file path mode (fc_read_access c) (fc_write_access c)) in
      if bool_decide (status = Success) then
        do* set_context <[ctx := mkFileContext (default (fc_handle c) handle) (fc_read_access c)
                                    (fc_write_access c)]> in
        if file_exists && ((creation_disposition =? OPEN_ALWAYS) || (creation_disposition =? CREATE_ALWAYS))
        then ret STATUS_OBJECT_NAME_COLLISION else ret STATUS_SUCCESS
      else ret (ntstatus_from_respstatus status)
  end.

Definition create_file (file_name : wstring) (desired_access file_attributes create_disposition
    create_options : Z) : M (dokan N) NTSTATUS :=
  NAN_HANDLER STATUS_UNSUCCESSFUL (
    let '(generic_desiredaccess, file_attributes_and_flags, creation_disposition) :=
      DokanMapKernelToUserCreateFileFlags desired_access file_attributes create_options
        create_disposition in
    let* heap := gets dk_contexts in
    let context := fresh (dom heap) in
    do* set_context <[context := mkFileContext NO_HANDLE
          (bool_of_z (Z.land generic_desiredaccess GENERIC_READ))
          (bool_of_z (Z.land generic_desiredaccess GENERIC_WRITE))]> in
    do* set_info (λ i, mkFileInfo context
          (bool_of_z (Z.land file_attributes_and_flags FILE_FLAG_DELETE_ON_CLOSE)) (fi_IsDirectory i)) in
    let* ' (status, stat) := NAN_CONN (req_stat_file steady_now file_name) in
    if negb (bool_decide (status = Success)) && negb (bool_decide (status = FileNotFound))
    then ret (ntstatus_from_respstatus status)
    else
      let entry_exists := bool_decide (status = Success) in
      let entry_is_directory :=
        attr_is_directory (file_attributes_from_st_mode (st_mode (default FileStat_zero stat))) in
      if entry_exists && entry_is_directory && bool_of_z (Z.land create_options FILE_NON_DIRECTORY_FILE)
      then ret STATUS_FILE_IS_A_DIRECTORY
      else
        do* (if entry_exists && entry_is_directory
             then set_info (λ i, mkFileInfo (fi_Context i) (fi_DeleteOnClose i) true)
             else ret tt) in
        let* info := gets dk_info in
        if fi_IsDirectory info
        then handle_create_directory file_name creation_disposition entry_exists entry_is_directory
        else handle_create_file file_name creation_disposition entry_exists context).

(** ** Closing *)
Definition clean_up (file_name : wstring) : M (dokan N) unit :=
  NAN_HANDLER tt (
    let* info := gets dk_info in
    if fi_DeleteOnClose info then
      if fi_IsDirectory info
      then let* _ := NAN_CONN (req_remove_directory file_name) in ret tt
      else let* _ := NAN_CONN (req_remove_file file_name) in ret tt
    else ret tt).

Definition close_file : M (dokan N) unit :=
  NAN_HANDLER tt (
    let* ' (p, ctx) := NAN_FILE_CTX in
    do* (if negb (fc_handle ctx =? NO_HANDLE)
         then let* _ := NAN_CONN (req_close_file (fc_handle ctx)) in ret tt
         else ret tt) in
    set_context (delete p)).

(** ** Transfers *)
Definition read_file (buffer_len offset : Z) : M (dokan N) (NTSTATUS * option (Z * bytes)) :=
  NAN_HANDLER (STATUS_UNSUCCESSFUL, None) (
    let* ' (_, context) := NAN_FILE_CTX in
    if negb (fc_read_access context) || (fc_handle context =? NO_HANDLE)
    then ret (STATUS_ACCESS_DENIED, None)
    else
      let* ' (status, data) := NAN_CONN (req_read_from_file (fc_handle context) (to_u64 offset) buffer_len) in
      match status, data with
      | Success, Some (bytes_read, buffer) => ret (STATUS_SUCCESS, Some (to_u32 bytes_read, buffer))
      | _, _ => ret (ntstatus_from_respstatus status, None)
      end).

Definition write_file (buffer : bytes) (number_of_bytes_to_write offset : Z)
    : M (dokan N) (NTSTATUS * option Z) :=
  NAN_HANDLER (STATUS_UNSUCCESSFUL, None) (
    let* ' (_, context) := NAN_FILE_CTX in
    if negb (fc_write_access context) || (fc_handle context =? NO_HANDLE)
    then ret (STATUS_ACCESS_DENIED, None)
    else
      let* status := NAN_CONN (req_write_to_file (fc_handle context) (to_u64 offset) buffer
                                 number_of_bytes_to_write) in
      if bool_decide (status = Success) then ret (STATUS_SUCCESS, Some number_of_bytes_to_write)
      else ret (ntstatus_from_respstatus status, None)).

Definition flush_file_buffers : M (dokan N) NTSTATUS := ret STATUS_SUCCESS.

(** ** Information *)
Definition get_file_information (filename : wstring)
    : M (dokan N) (NTSTATUS * option BY_HANDLE_FILE_INFORMATION) :=
  NAN_HANDLER (STATUS_UNSUCCESSFUL, None) (
    let* ' (status, stat) := NAN_CONN (req_stat_file steady_now filename) in
    if negb (bool_decide (status = Success)) then ret (ntstatus_from_respstatus status, None)
    else
      let buffer := file_information_of (default FileStat_zero stat) in
      do* (if attr_is_directory (bh_dwFileAttributes buffer)
           then set_info (λ i, mkFileInfo (fi_Context i) (fi_DeleteOnClose i) true)
           else ret tt) in
      ret (STATUS_SUCCESS, Some buffer)).

(** The status, and the entries passed to [fill_finddata], in order: Windows keeps
    the ones it was given before an exception.  The callback given to
    [req_list_file_stats] neither touches the connection nor throws, so it is
    applied to the recorded calls; a name too long for [cFileName] ends the
    process. *)
Definition find_files (fuel : nat) (filename : wstring)
    : M (dokan N) (NTSTATUS * list WIN32_FIND_DATAW) :=
  do* NAN_CONN (modify (set_consumed [])) in
  let* status := NAN_HANDLER STATUS_UNSUCCESSFUL (
    let* status := NAN_CONN (req_list_file_stats steady_now fuel filename) in
    ret (ntstatus_from_respstatus status)) in
  let* entries := NAN_CONN (gets cn_consumed) in
  match mapM (λ e, find_data_of (fst e) (snd e)) entries with
  | Some find_data => ret (status, find_data)
  | None => throw ProcessAborted
  end.

Definition set_file_attributes (file_name : wstring) (file_attributes : Z) : M (dokan N) NTSTATUS :=
  NAN_HANDLER STATUS_UNSUCCESSFUL (
    let* ' (stat_status, stat) := NAN_CONN (req_stat_file steady_now file_name) in
    if negb (bool_decide (stat_status = Success)) then ret (ntstatus_from_respstatus stat_status)
    else
      let entry_is_dir :=
        attr_is_directory (file_attributes_from_st_mode (st_mode (default FileStat_zero stat))) in
      if (file_attributes =? 0) || (file_attributes =? FILE_ATTRIBUTE_NORMAL)
      then ret (if entry_is_dir then STATUS_UNSUCCESSFUL else STATUS_SUCCESS)
      else if file_attributes =? FILE_ATTRIBUTE_DIRECTORY
      then ret (if entry_is_dir then STATUS_SUCCESS else STATUS_UNSUCCESSFUL)
      else ret STATUS_UNSUCCESSFUL).

Definition set_file_time (file_name : wstring) (last_access_time last_write_time : option FILETIME)
    : M (dokan N) NTSTATUS :=
  NAN_HANDLER STATUS_UNSUCCESSFUL (
    let* status := NAN_CONN (req_set_file_time file_name
                      (to_u64 (signed_time_from_ptr last_access_time))
                      (to_u64 (signed_time_from_ptr last_write_time))) in
    ret (ntstatus_from_respstatus status)).

(** ** Removing and moving *)
Definition delete_file (file_name : wstring) : M (dokan N) NTSTATUS :=
  NAN_HANDLER STATUS_UNSUCCESSFUL (
    let* status := NAN_CONN (req_can_remove_file file_name) in ret (ntstatus_from_respstatus status)).

Definition delete_directory (file_name : wstring) : M (dokan N) NTSTATUS :=
  NAN_HANDLER STATUS_UNSUCCESSFUL (
    let* status := NAN_CONN (req_can_remove_directory file_name) in ret (ntstatus_from_respstatus status)).

Definition move_file (file_name new_file_name : wstring) (replace_if_existing : bool)
    : M (dokan N) NTSTATUS :=
  NAN_HANDLER STATUS_UNSUCCESSFUL (
    let* status := NAN_CONN (req_move_entry file_name new_file_name replace_if_existing) in
    ret (ntstatus_from_respstatus status)).

Definition set_end_of_file (byte_offset : Z) : M (dokan N) NTSTATUS :=
  NAN_HANDLER STATUS_UNSUCCESSFUL (
    let* ' (_, ctx) := NAN_FILE_CTX in
    if fc_write_access ctx then
      let* status := NAN_CONN (req_set_file_len (fc_handle ctx) (to_u64 byte_offset)) in
      ret (ntstatus_from_respstatus status)
    else ret STATUS_ACCESS_DENIED).

Definition set_allocation_size (byte_offset : Z) : M (dokan N) NTSTATUS := set_end_of_file byte_offset.

Definition lock_file : M (dokan N) NTSTATUS := ret STATUS_NOT_IMPLEMENTED.
Definition unlock_file : M (dokan N) NTSTATUS := ret STATUS_NOT_IMPLEMENTED.

(** ** The volume *)

(** The outputs are [free_bytes_available], [total_number_of_bytes] and
    [total_number_of_free_bytes]. *)
Definition get_disk_free_space : M (dokan N) (NTSTATUS * option (Z * Z * Z)) :=
  NAN_HANDLER (STATUS_UNSUCCESSFUL, None) (
    let* ' (status, stats) := NAN_CONN req_get_disk_stats in
    match status, stats with
    | Success, Some s =>
        ret (STATUS_SUCCESS, Some (ds_available_bytes s, ds_total_bytes s, ds_free_bytes s))
    | _, _ => ret (ntstatus_from_respstatus status, None)
    end).

Definition nandroid_volume_serial : Z := 0x20233838.
Definition FILE_CASE_SENSITIVE_SEARCH : Z := 1.
Definition FILE_CASE_PRESERVED_NAMES : Z := 2.
Definition FILE_UNICODE_ON_DISK : Z := 4.

(** The volume's name, serial number, component length, flags and file system
    name; [wcscpy_s] ends the process where a name does not fit. *)
Definition get_volume_information (device_serial_wide : wstring) (volume_name_size fs_name_size : Z)
    : M (dokan N) (NTSTATUS * (wstring * Z * Z * Z * wstring)) :=
  let fs_name := ws (bs "NTFS") in
  if (zlen device_serial_wide <? volume_name_size) && (zlen fs_name <? fs_name_size)
  then ret (STATUS_SUCCESS,
            (device_serial_wide, nandroid_volume_serial, 255,
             Z.lor (Z.lor FILE_CASE_SENSITIVE_SEARCH FILE_CASE_PRESERVED_NAMES) FILE_UNICODE_ON_DISK,
             fs_name))
  else throw ProcessAborted.

Definition mounted : M (dokan N) NTSTATUS := ret STATUS_SUCCESS.
Definition unmounted : M (dokan N) NTSTATUS := ret STATUS_SUCCESS.
Definition get_file_security : M (dokan N) NTSTATUS := ret STATUS_NOT_IMPLEMENTED.
Definition set_file_security : M (dokan N) NTSTATUS := ret STATUS_NOT_IMPLEMENTED.
Definition find_streams : M (dokan N) NTSTATUS := ret STATUS_NOT_IMPLEMENTED.
End Callbacks.
