(* ===== verification/Callbacks.v ===== *)
(** * What the callbacks guarantee

    Rules for the callbacks of Operations over the client's rules, and the
    properties of the file system Windows sees. *)

From S2P Require Import Prelude Effects Endian Wire Serialization Socket Requests Responses.
From S2P Require Import PathUtils Conversion TimedCache Posix MemFs ClientHandler Protocol FileContents.
From S2P Require Import Daemon Connection Client ClientCache EndToEnd Robust Operations.

(** ** Exceptions *)
Section Handler.
Context {N : Type}.
Implicit Types d : dokan N.

Lemma wp_conn {A} (m : M (connection N) A) (Φ : A → dokan N → Prop) E d :
  wp m (λ a c, Φ a (mkDokan c (dk_contexts d) (dk_unmounted d) (dk_info d)))
       (λ e c, E e (mkDokan c (dk_contexts d) (dk_unmounted d) (dk_info d))) (dk_conn d) →
  wp (NAN_CONN m) Φ E d.
Proof. intros Hm. by apply wp_zoom. Qed.

Definition after_unmount d : dokan N := mkDokan (dk_conn d) (dk_contexts d) true (dk_info d).

Lemma wp_handler {A} (failure : A) (body : M (dokan N) A) (Φ : A → dokan N → Prop) E d :
  wp body Φ (λ e d', catchable e ∧ Φ failure (after_unmount d')) d →
  wp (NAN_HANDLER failure body) Φ E d.
Proof.
  intros Hb. apply wp_try_catch_all. eapply wp_mono; [exact Hb|done|].
  intros e d' [He HΦ]. split; [done|]. wp_step. unfold unmount. by do 2 wp_step.
Qed.

(** A callback completes: it returns a value in a state that satisfies [Φ], or
    answers [failure] after unmounting; no exception leaves it. *)
Definition completes {A} (failure : A) (m : M (dokan N) A) (Φ : A → dokan N → Prop) d : Prop :=
  wp m (λ a d', Φ a d' ∨ a = failure ∧ dk_unmounted d' = true) (λ _ _, False) d.

Lemma completes_handler_io {A} (failure : A) (body : M (dokan N) A) Φ d :
  wp body Φ only_io d → completes failure (NAN_HANDLER failure body) Φ d.
Proof.
  intros Hb. apply wp_handler. eapply wp_mono; [exact Hb|by left|].
  intros e d' He. split; [by apply io_catchable|by right].
Qed.

Lemma wp_file_ctx ctx Φ E d :
  dk_contexts d !! fi_Context (dk_info d) = Some ctx →
  Φ (fi_Context (dk_info d), ctx) d → wp NAN_FILE_CTX Φ E d.
Proof.
  intros Hc HΦ. unfold NAN_FILE_CTX, deref. do 5 wp_step. rewrite Hc. by do 2 wp_step.
Qed.
End Handler.

(** ** Transfers *)
Section Transfers.
Context {N N' OS : Type} `{SocketLaws N} `{SocketLaws N'} `{PosixLaws OS}.
Implicit Types (d : dokan N) (o : OS) (k : local_state).

(** The dokan state is the one before, but for a connection that has exchanged
    [q] for its response. *)
Definition after_exchange (q : request) tl out k' d d' : Prop :=
  exchanged q tl out k' (dk_conn d') ∧ dk_contexts d' = dk_contexts d ∧ dk_info d' = dk_info d.

(** With the daemon on the other end, a callback that sends [q] completes with a
    value, the client's caches and a system state in [Q]. *)
Definition callback_requests {A} (failure : A) (q : request) (m : M (dokan N) A) (k : local_state)
    (o : OS) (pre : dokan N → Prop) (Q : A → local_state → OS → Prop) : Prop :=
  ∃ resp o', daemon_answers (N' := N') q o resp o' ∧
    ∀ d tl out, pre d → conn_at (dk_conn d) (resp ++ tl) out k →
      completes failure m (λ a d', ∃ k', Q a k' o' ∧ after_exchange q tl out k' d d') d.

Definition holds_context (ctx : FileContext) (d : dokan N) : Prop :=
  dk_contexts d !! fi_Context (dk_info d) = Some ctx.

Lemma wp_conn_exchange {A} (m : M (connection N) A) (Q : A → local_state → Prop)
    (Φ : A → dokan N → Prop) q tl out d :
  wp m (λ a c', ∃ k', Q a k' ∧ exchanged q tl out k' c') only_io (dk_conn d) →
  (∀ a k' d', Q a k' → after_exchange q tl out k' d d' → Φ a d') →
  wp (NAN_CONN m) Φ only_io d.
Proof.
  intros Hm HΦ. apply wp_conn. eapply wp_mono; [exact Hm| |done].
  intros a c' (k' & HQ & He). by eapply HΦ.
Qed.

Lemma visible_error_eq err : ntstatus_from_respstatus (get_status_from_errno err) = visible_error err.
Proof. unfold visible_error. by rewrite status_of_code_code by apply errno_status. Qed.

Lemma callback_requests_mono {A} (failure : A) q m k o pre (Q R : A → local_state → OS → Prop) :
  (∀ a k' o', Q a k' o' → R a k' o') →
  callback_requests failure q m k o pre Q → callback_requests failure q m k o pre R.
Proof.
  intros HQR (resp & o' & Hd & Hm). exists resp, o'. split; [done|]. intros d tl out Hp Hc.
  eapply wp_mono; [by apply Hm| |done]. intros a d' [(k' & HQ & He)|?]; [left; eauto|by right].
Qed.

Context `{!PosixFiles OS}.

Lemma read_file_spec ctx n off content pos k o :
  fc_read_access ctx = true → fc_handle ctx ≠ NO_HANDLE → is_u32 (fc_handle ctx) →
  0 ≤ off < 2 ^ 63 → 0 ≤ n < 2 ^ 31 → fd_file (to_i32 (fc_handle ctx)) o = Some (content, pos) →
  callback_requests (STATUS_UNSUCCESSFUL, None) (QRead (mkReadHandleArgs (fc_handle ctx) n off))
    (read_file n off) k o (holds_context ctx)
    (λ a k' o', k' = k ∧
       (a = (STATUS_SUCCESS, Some (zlen (ztake n (zdrop off content)), ztake n (zdrop off content))) ∨
        ∃ err, a = (visible_error err, None))).
Proof.
  intros Hr Hh Hu Ho Hn Hf.
  destruct (read_requests (N := N) (N' := N') (fc_handle ctx) off n o content pos k Hu Ho Hn Hf)
    as (resp & o' & Hd & Hm).
  exists resp, o'. split; [done|]. intros d tl out Hc Hat. apply completes_handler_io.
  wp_step. eapply wp_file_ctx; [exact Hc|]. cbv beta iota.
  rewrite Hr, (proj2 (Z.eqb_neq _ _) Hh). cbn [negb orb]. rewrite wrap_id by (unfold is_unsigned; lia).
  wp_step. eapply wp_conn_exchange; [by apply Hm|].
  intros [st r] k' d' (-> & _ & Ha) He. destruct Ha as [[= -> ->]|[err [= -> ->]]].
  - assert (is_u32 (zlen (ztake n (zdrop off content)))).
    { pose proof (zlen_nonneg (zdrop off content)). unfold is_unsigned. rewrite zlen_ztake. lia. }
    rewrite wrap_id by done. wp_step. exists k. by split; [split; [|left]|].
  - assert (Hne : get_status_from_errno err ≠ Success) by apply errno_status.
    destruct (get_status_from_errno err) eqn:E; try done; wp_step; exists k; (split; [|exact He]);
      (split; [done|]); right; exists err; rewrite <- visible_error_eq, E; done.
Qed.

Lemma write_file_spec ctx data off content pos k o :
  fc_write_access ctx = true → fc_handle ctx ≠ NO_HANDLE → is_u32 (fc_handle ctx) →
  0 ≤ off < 2 ^ 63 → zlen data < 2 ^ 31 → data ≠ [] →
  fd_file (to_i32 (fc_handle ctx)) o = Some (content, pos) →
  callback_requests (STATUS_UNSUCCESSFUL, None) (QWrite (fc_handle ctx) off data)
    (write_file data (zlen data) off) k o (holds_context ctx)
    (λ a k' o', k' = k ∧
       (a = (STATUS_SUCCESS, Some (zlen data)) ∧
        fd_file (to_i32 (fc_handle ctx)) o' = Some (overwrite off data content, off + zlen data) ∨
        ∃ err, a = (visible_error err, None))).
Proof.
  intros Hr Hh Hu Ho Hn Hne Hf.
  destruct (write_requests (N := N) (N' := N') (fc_handle ctx) off data o content pos k Hu Ho Hn Hne Hf)
    as (resp & o' & Hd & Hm).
  exists resp, o'. split; [done|]. intros d tl out Hc Hat. apply completes_handler_io.
  wp_step. eapply wp_file_ctx; [exact Hc|]. cbv beta iota.
  rewrite Hr, (proj2 (Z.eqb_neq _ _) Hh). cbn [negb orb]. rewrite wrap_id by (unfold is_unsigned; lia).
  wp_step. eapply wp_conn_exchange; [by apply Hm|].
  intros st k' d' (-> & Ha) He. destruct Ha as [[-> Hf']|[err ->]].
  - rewrite bool_decide_true by done. wp_step. exists k. split; [|exact He]. split; [done|]. by left.
  - rewrite bool_decide_false by apply errno_status. wp_step. exists k. split; [|exact He].
    split; [done|]. right. exists err. by rewrite visible_error_eq.
Qed.
End Transfers.

(** ** Opening a file *)
Section Opening.
Context {N : Type} `{SocketLaws N} `{WideStrings} (steady_now : nat → Z).
Context (flags_of : Z → Z → Z → Z → Z * Z * Z).
Implicit Types d : dokan N.

Definition wants_read (acc : Z) : bool := bool_of_z (Z.land acc GENERIC_READ).
Definition wants_write (acc : Z) : bool := bool_of_z (Z.land acc GENERIC_WRITE).

(** A context as the callbacks keep it: a descriptor comes with some access. *)
Definition context_ok (c : FileContext) : Prop :=
  is_u32 (fc_handle c) ∧
  (fc_handle c ≠ NO_HANDLE → fc_read_access c = true ∨ fc_write_access c = true).

(** What [create_file] leaves behind besides its status, also when it fails: one
    new context, at an address no other context has, with the access that was
    asked for, and the other contexts as they were. *)
Definition created (acc flags : Z) d d' : Prop :=
  let p := fresh (dom (dk_contexts d)) in
  ∃ ctx, dk_contexts d' = <[p := ctx]> (dk_contexts d) ∧ dk_contexts d !! p = None ∧
    fi_Context (dk_info d') = p ∧
    fi_DeleteOnClose (dk_info d') = bool_of_z (Z.land flags FILE_FLAG_DELETE_ON_CLOSE) ∧
    sound (dk_conn d') ∧ context_ok ctx ∧ fc_write_access ctx = wants_write acc ∧
    (wants_read acc = true → fc_read_access ctx = true).

(** A failure unmounts, whatever else the callback did. *)
Definition reported {A} (failure : A) (Φ : dokan N → Prop) d (a : A) d' : Prop :=
  Φ d' ∧ (dk_unmounted d' = dk_unmounted d ∨ a = failure ∧ dk_unmounted d' = true).

Lemma wp_reported {A} (failure : A) (body : M (dokan N) A) (Φ : dokan N → Prop) E d :
  wp body (λ _ d', Φ d' ∧ dk_unmounted d' = dk_unmounted d)
    (λ e d', catchable e ∧ Φ (after_unmount d')) d →
  wp (NAN_HANDLER failure body) (reported failure Φ d) E d.
Proof.
  intros Hb. apply wp_handler. eapply wp_mono; [exact Hb|..].
  - intros a d' [??]. split; [done|by left].
  - intros e d' [??]. split; [done|]. split; [done|by right].
Qed.

Lemma no_handle_u32 : is_u32 NO_HANDLE.
Proof. unfold is_unsigned, NO_HANDLE. by vm_compute. Qed.

Lemma wp_robust {A} (m : M (connection N) A) P (Φ : A → dokan N → Prop) E d :
  robust_at m P (dk_conn d) → sound (dk_conn d) →
  (∀ a c, sound c → P a → Φ a (mkDokan c (dk_contexts d) (dk_unmounted d) (dk_info d))) →
  (∀ e c, sound c → catchable e → E e (mkDokan c (dk_contexts d) (dk_unmounted d) (dk_info d))) →
  wp (NAN_CONN m) Φ E d.
Proof.
  intros Hm Hs HΦ HE. apply wp_conn. eapply wp_mono; [by apply Hm|..].
  - intros a c' (Hc & _ & Ha). by apply HΦ.
  - intros e c' [Hc He]. by apply HE.
Qed.

Lemma handle_create_directory_spec w disp ex dir (Φ : NTSTATUS → dokan N → Prop) E d :
  sound (dk_conn d) →
  (∀ s c, sound c → Φ s (mkDokan c (dk_contexts d) (dk_unmounted d) (dk_info d))) →
  (∀ e c, sound c → catchable e → E e (mkDokan c (dk_contexts d) (dk_unmounted d) (dk_info d))) →
  wp (handle_create_directory w disp ex dir) Φ E d.
Proof.
  intros Hs HΦ HE. unfold handle_create_directory.
  assert (Hself : ∀ s, Φ s d) by (intros s; specialize (HΦ s (dk_conn d) Hs); by destruct d).
  destruct (_ || _); [|by repeat destruct (_ && _); destruct ex, dir; apply Hself].
  wp_step. eapply wp_robust; [apply robust_changing_entry|done| |done].
  intros s c Hc _. wp_step. by apply HΦ.
Qed.

Lemma handle_create_file_spec w disp ex p ctx (Φ : dokan N → Prop) d :
  sound (dk_conn d) → dk_contexts d !! p = Some ctx → fc_handle ctx = NO_HANDLE →
  (∀ c ctx', sound c → context_ok ctx' → fc_write_access ctx' = fc_write_access ctx →
     (fc_read_access ctx = true → fc_read_access ctx' = true) →
     Φ (mkDokan c (<[p := ctx']> (dk_contexts d)) (dk_unmounted d) (dk_info d))) →
  wp (handle_create_file w disp ex p) (λ _, Φ) (λ e d', catchable e ∧ Φ d') d.
Proof.
  intros Hs Hp Hh HΦ. unfold handle_create_file, deref. do 3 wp_step. rewrite Hp. wp_step. cbv zeta.
  destruct (open_decision disp ex _) as [s|mode].
  - wp_step. specialize (HΦ (dk_conn d) ctx Hs). rewrite insert_id in HΦ by done. destruct d.
    apply HΦ; [|done..]. split; [rewrite Hh; apply no_handle_u32|done].
  - wp_step. unfold set_context. do 2 wp_step.
    set (ctx1 := mkFileContext _ _ _).
    assert (Hacc : fc_read_access ctx1 = true ∨ fc_write_access ctx1 = true).
    { subst ctx1. simpl. destruct (fc_read_access ctx), (fc_write_access ctx); auto. }
    assert (Hmono : fc_read_access ctx = true → fc_read_access ctx1 = true).
    { subst ctx1. simpl. by intros ->. }
    assert (Hok1 : context_ok ctx1) by (split; [simpl; rewrite Hh; apply no_handle_u32|done]).
    eapply wp_robust; [apply robust_open|done| |by intros; split; [|apply HΦ]].
    intros [status h] c Hc [Hd Hfd]. unfold delivered in Hd. cbn [fst snd] in *.
    case_bool_decide as Hst; [|by wp_step; apply HΦ].
    do 2 wp_step. cbn [dk_conn dk_contexts dk_unmounted dk_info]. rewrite insert_insert_eq.
    set (ctx2 := mkFileContext _ _ _).
    assert (Hok : context_ok ctx2).
    { apply Hd in Hst as [fd ->]. split; [by apply Hfd|done]. }
    destruct (_ && _); wp_step; apply HΦ; done.
Qed.

Lemma create_file_created w da fa cd co E d :
  sound (dk_conn d) →
  let '(acc, flags, _) := flags_of da fa co cd in
  wp (create_file steady_now flags_of w da fa cd co)
    (reported STATUS_UNSUCCESSFUL (created acc flags d) d) E d.
Proof.
  intros Hs. unfold create_file. destruct (flags_of da fa co cd) as [[acc flags] disp].
  apply wp_reported. unfold set_context, set_info. do 6 wp_step.
  set (p := fresh _). set (ctx := mkFileContext _ _ _).
  assert (Hp : dk_contexts d !! p = None) by apply not_elem_of_dom, is_fresh.
  assert (Hctx : context_ok ctx) by (split; [apply no_handle_u32|done]).
  assert (Hdone : ∀ c b i ctx', sound c → context_ok ctx' → fi_Context i = p →
    fi_DeleteOnClose i = bool_of_z (Z.land flags FILE_FLAG_DELETE_ON_CLOSE) →
    fc_write_access ctx' = wants_write acc → (wants_read acc = true → fc_read_access ctx' = true) →
    created acc flags d (mkDokan c (<[p := ctx']> (dk_contexts d)) b i)).
  { intros c b i ctx' ? ? ? ? ? ?. exists ctx'. by split_and!. }
  wp_step. eapply wp_robust; [apply robust_stat|done| |by intros; split; [|apply Hdone]].
  intros [status stat] c Hc _.
  cbn [dk_conn dk_contexts dk_unmounted dk_info]. destruct (_ && _); [by wp_step; split; [apply Hdone|]|].
  cbv zeta. destruct (_ && _ && _); [by wp_step; split; [apply Hdone|]|]. wp_step.
  assert (Hdir : ∀ ex dir i, fi_Context i = p →
    fi_DeleteOnClose i = bool_of_z (Z.land flags FILE_FLAG_DELETE_ON_CLOSE) →
    wp (handle_create_directory w disp ex dir)
      (λ _ d', created acc flags d d' ∧ dk_unmounted d' = dk_unmounted d)
      (λ e d', catchable e ∧ created acc flags d (after_unmount d'))
      (mkDokan c (<[p := ctx]> (dk_contexts d)) (dk_unmounted d) i)).
  { intros ex dir i Hi1 Hi2. apply handle_create_directory_spec; [done|by intros; split; [apply Hdone|]|].
    intros e c' Hc' He. split; [done|]. by apply Hdone. }
  match goal with |- wp (if ?b then _ else _) _ _ _ => destruct b end.
  - do 3 wp_step. by apply Hdir.
  - do 3 wp_step. cbn [dk_info fi_IsDirectory]. destruct (fi_IsDirectory (dk_info d)); [by apply Hdir|].
    eapply wp_mono.
    + eapply (handle_create_file_spec _ _ _ _ _
        (λ d', created acc flags d (after_unmount d') ∧ created acc flags d d' ∧ dk_unmounted d' = dk_unmounted d));
        [done|apply lookup_insert_eq|done|].
      intros c' ctx' Hc' Hok Hw Hr. cbn [dk_contexts dk_unmounted dk_info].
      rewrite insert_insert_eq. split_and!; [by apply Hdone..|done].
    + by intros ? d' (_ & ? & ?).
    + by intros e d' (? & ? & _).
Qed.
End Opening.

(** ** Information about files *)
Section Information.
Context {N N' OS : Type} `{SocketLaws N} `{SocketLaws N'} `{PosixLaws OS}.
Context `{WideStrings} (steady_now : nat → Z)
  (clock : ∀ i j, (i ≤ j)%nat → steady_now i ≤ steady_now j).
Implicit Types (d : dokan N) (o : OS) (k : local_state).

(** What Windows is to be told about a file whose [stat] gave [s]. *)
Definition describes (b : BY_HANDLE_FILE_INFORMATION) (s : posix_stat) : Prop :=
  bh_nFileSizeLow b + 2 ^ 32 * bh_nFileSizeHigh b = to_u64 (pst_size s) ∧
  (attr_is_directory (bh_dwFileAttributes b) = true ↔ Z.land (to_u16 (pst_mode s)) 0xF000 = 0x4000) ∧
  bh_ftLastAccessTime b = filetime_from_unix_time (to_u64 (pst_atime s)) ∧
  bh_ftLastWriteTime b = filetime_from_unix_time (to_u64 (pst_mtime s)).

Lemma size_halves (n : Z) : is_u64 n → to_u32 n + 2 ^ 32 * to_u32 (Z.shiftr n 32) = n.
Proof.
  unfold is_unsigned. intros Hn. rewrite Z.shiftr_div_pow2 by lia.
  rewrite (wrap_id 32 (n / 2 ^ 32)).
  - unfold wrap. pose proof (Z.div_mod n (2 ^ 32) ltac:(lia)). lia.
  - unfold is_unsigned. split; [apply Z.div_pos; lia|apply Z.div_lt_upper_bound; lia].
Qed.

Lemma attr_is_directory_mode m :
  attr_is_directory (file_attributes_from_st_mode m) = true ↔ Z.land m 0xF000 = 0x4000.
Proof.
  destruct (attributes_cases m) as [[-> E]|[-> E]]; (split; [|try done]); [done|by vm_compute].
Qed.

Lemma file_information_describes s : describes (file_information_of (stat_of_posix s)) s.
Proof.
  split_and!; [|apply attr_is_directory_mode|done..].
  apply size_halves. by apply wrap_range.
Qed.

(** C15. [get_file_information] tells Windows what the device's [stat] says: for a
    path whose stat is not cached and that does not end in desktop.ini (which is never
    asked for), the size split in two halves, directory or
    file, the access and write times converted to FILETIMEs, and IsDirectory set
    for a directory; an error of [stat] becomes its status and no information. *)
Theorem file_information_matches_device w p k o :
  win32_path_to_unix w = Ok p → short p → ends_with p DESKTOP_INI = false →
  snd (stat_lookup steady_now p k) = None →
  ∃ resp o', daemon_answers (N' := N') (QStat p) o resp o' ∧
    ∀ d tl out, conn_at (dk_conn d) (resp ++ tl) out k →
      completes (STATUS_UNSUCCESSFUL, None) (get_file_information steady_now w)
        (λ a d', o' = fst (sys_stat (c_str p) o) ∧ dk_contexts d' = dk_contexts d ∧
           match snd (sys_stat (c_str p) o) with
           | inl err => a = (visible_error err, None) ∧ dk_info d' = dk_info d
           | inr s => ∃ b, a = (STATUS_SUCCESS, Some b) ∧ describes b s ∧
               fi_IsDirectory (dk_info d') =
                 fi_IsDirectory (dk_info d) || attr_is_directory (bh_dwFileAttributes b)
           end) d.
Proof.
  intros Hw Hp Hd Hmiss.
  pose proof (stat_requests (N := N) (N' := N') steady_now clock w p k o Hw Hp Hd Hmiss)
    as (resp & o' & Hda & Hm).
  exists resp, o'. split; [done|]. intros d tl out Hc. apply completes_handler_io.
  wp_step. eapply wp_conn_exchange; [by apply Hm|]. cbv beta.
  intros [st r] k' d' [Ho Ha] (_ & Hctx & Hinfo).
  destruct (snd (sys_stat (c_str p) o)) as [err|s].
  - injection Ha as -> ->. rewrite bool_decide_false by apply errno_status. cbn [negb]. wp_step.
    by rewrite visible_error_eq.
  - destruct Ha as [[= -> ->] _]. rewrite bool_decide_true by done. cbn [negb default]. cbv zeta.
    destruct (attr_is_directory (bh_dwFileAttributes _)) eqn:Edir; unfold set_info; wp_step; do 2 wp_step;
      (split; [done|]; split; [done|]; eexists; split; [done|]; split; [apply file_information_describes|]);
      rewrite Edir; simpl; rewrite ?Hinfo, ?orb_true_r, ?orb_false_r; done.
Qed.

(** ** Listings *)

(** The conversion of names does not lengthen them: no more UTF-16 units than
    UTF-8 bytes. *)
Definition narrowing : Prop := ∀ name w, from_bytes name = Ok w → zlen w ≤ zlen name.

Lemma converted_length name w : narrowing → unix_path_to_win32 name = Ok w → zlen w ≤ zlen name.
Proof.
  intros Hn. unfold unix_path_to_win32, wstring_from_string.
  destruct (from_bytes name) as [w'|e] eqn:E; [|done]. intros [= <-].
  unfold replace_wchar, zlen. rewrite length_map. by apply Hn.
Qed.

(** The record Windows gets for an entry. *)
Definition find_data (wide : bytes → wstring) (name : bytes) (stat : FileStat) : WIN32_FIND_DATAW :=
  {| fd_dwFileAttributes := file_attributes_from_st_mode (st_mode stat);
     fd_nFileSizeLow := to_u32 (st_size stat);
     fd_nFileSizeHigh := to_u32 (Z.shiftr (st_size stat) 32);
     fd_ftLastAccessTime := filetime_from_unix_time (st_access_time stat);
     fd_ftLastWriteTime := filetime_from_unix_time (st_write_time stat);
     fd_cFileName := wide name |}.

Definition listed (wide : bytes → wstring) (es : list entry) : list WIN32_FIND_DATAW :=
  omap (λ e, match e with inl _ => None | inr (name, st) => Some (find_data wide name st) end) es.

(** Every prefix of the entries is filled in as it is to be. *)
Lemma listed_find_data wide es n :
  narrowing → Forall valid_entry es → Forall (decodes wide) es →
  mapM (λ e, find_data_of (fst e) (snd e)) (take n (entry_stats wide es)) = Some (take n (listed wide es)).
Proof.
  intros Hn. revert n. induction es as [|[s|[name st]] es IH]; intros n Hv Hd; [by destruct n|..];
    apply Forall_cons in Hv as [Hve Hv], Hd as [Hde Hd]; [by apply IH|]. destruct n as [|n]; [done|].
  simpl. destruct Hve as [Hlen _].
  pose proof (converted_length name (wide name) Hn Hde).
  replace (find_data_of st (wide name)) with (Some (find_data wide name st)).
  - simpl. unfold mret, option_ret, mbind. rewrite IH by done. done.
  - unfold find_data_of. rewrite (proj2 (Z.ltb_lt _ _)) by (unfold MAX_PATH; lia). done.
Qed.

Lemma listed_all wide es : take (length (entry_stats wide es)) (listed wide es) = listed wide es.
Proof.
  apply take_ge. induction es as [|[s|[name st]] es IH]; simpl; [done|done|]. lia.
Qed.

(** Nothing recorded yet. *)
Definition unrecorded k : local_state := mkLocal (lc_stats k) (lc_dirs k) [] (lc_ticks k).

Lemma unrecorded_lookup dir k :
  dir_lookup steady_now dir (unrecorded k) =
    (unrecorded (fst (dir_lookup steady_now dir k)), snd (dir_lookup steady_now dir k)).
Proof. unfold dir_lookup, unrecorded. simpl. by destruct (get_cached _ _ _). Qed.

(** The status and entries for the daemon's response to a listing. *)
Definition listing_of (wide : bytes → wstring) (r : response) : NTSTATUS * list WIN32_FIND_DATAW :=
  (ntstatus_from_respstatus (answer_status r), listed wide (entries_of r)).

(** The listing itself, in the handler: on success the whole response has been
    recorded, on a failure of the transport a part of it. *)
Lemma find_files_handled wide w dir fuel k o d tl out :
  win32_path_to_unix w = Ok dir → short dir → snd (dir_lookup steady_now dir k) = None →
  match snd (serve (QList dir) o) with
  | REntries es => Forall (decodes wide) es ∧ (length es < fuel)%nat
  | _ => True
  end →
  conn_at (dk_conn d) (encode_response (snd (serve (QList dir) o)) ++ tl) out (unrecorded k) →
  wp (NAN_HANDLER STATUS_UNSUCCESSFUL (
        let* status := NAN_CONN (req_list_file_stats steady_now fuel w) in
        ret (ntstatus_from_respstatus status)))
    (λ a d', let es := entries_of (snd (serve (QList dir) o)) in
       dk_contexts d' = dk_contexts d ∧ dk_info d' = dk_info d ∧
       (a = fst (listing_of wide (snd (serve (QList dir) o))) ∧ dk_unmounted d' = dk_unmounted d ∧
        cn_consumed (dk_conn d') = take (length (entry_stats wide es)) (entry_stats wide es) ∧
        (∃ k', after_exchange (QList dir) tl out k' d d')
        ∨ a = STATUS_UNSUCCESSFUL ∧ dk_unmounted d' = true ∧
          ∃ n, cn_consumed (dk_conn d') = take n (entry_stats wide es)))
    (λ _ _, False) d.
Proof.
  intros Hw Hp Hmiss Hes Hc. apply wp_handler. wp_step. apply wp_conn. cbv zeta.
  assert (Hl : dir_lookup steady_now dir (unrecorded k) =
    (unrecorded (fst (dir_lookup steady_now dir k)), None)) by by rewrite unrecorded_lookup, Hmiss.
  eapply wp_mono; [eapply (listing_exchange steady_now wide dir); [done|done|exact Hl|exact Hes|by apply serve_fits|exact Hc]|..].
  - intros a c' [-> He]. wp_step. split_and!; [done..|]. left.
    split_and!; [done|done| |by eexists]. destruct He as [(_ & _ & _ & _ & Hk) _].
    apply (f_equal lc_consumed) in Hk. change (lc_consumed (local_of c')) with (cn_consumed c') in Hk.
    cbn [dk_conn]. rewrite Hk, take_ge by done.
    destruct (snd (serve (QList dir) o)); try done. cbn [entries_of]. unfold dir_store.
    cbn [lc_consumed]. by rewrite store_entries_consumed.
  - intros e c' [He [n Hn]]. split; [by apply io_catchable|]. split_and!; [done..|]. right.
    split_and!; [done|done|]. by exists n.
Qed.

(** C14. [find_files] hands Windows every entry of the device's directory that could
    be stat-ed, in order, with its name converted, when the listing of the
    directory is not in the cache; a directory that cannot be opened gives its
    error and no entries.  When the connection breaks, the device is unmounted, the
    status is STATUS_UNSUCCESSFUL, and the entries handed over by then are the
    first ones of the directory.  The process is never ended by a name too long
    for the 260-unit field: names have at most 255 bytes and the conversion does
    not lengthen them. *)
Theorem find_files_lists_device (wide : bytes → wstring) w dir fuel k o :
  narrowing → win32_path_to_unix w = Ok dir → short dir →
  snd (dir_lookup steady_now dir k) = None →
  match snd (serve (QList dir) o) with
  | REntries es => Forall (decodes wide) es ∧ (length es < fuel)%nat
  | _ => True
  end →
  ∃ resp, daemon_answers (N' := N') (QList dir) o resp (fst (serve (QList dir) o)) ∧
    ∀ d tl out, conn_at (dk_conn d) (resp ++ tl) out k →
      wp (find_files steady_now fuel w)
        (λ a d', dk_contexts d' = dk_contexts d ∧ dk_info d' = dk_info d ∧
           (a = listing_of wide (snd (serve (QList dir) o)) ∧ dk_unmounted d' = dk_unmounted d ∧
            (∃ k', after_exchange (QList dir) tl out k' d d')
            ∨ fst a = STATUS_UNSUCCESSFUL ∧ dk_unmounted d' = true ∧
              ∃ n, snd a = take n (listed wide (entries_of (snd (serve (QList dir) o))))))
        (λ _ _, False) d.
Proof.
  intros Hn Hw Hp Hmiss Hes. pose proof (serve_fits (QList dir) o Hp) as Hfit.
  exists (encode_response (snd (serve (QList dir) o))). split; [by apply daemon_answers_serve|].
  intros d tl out Hc. unfold find_files. wp_step. apply wp_conn. wp_step. wp_step.
  assert (Hfill : ∀ n, mapM (λ e, find_data_of (fst e) (snd e))
    (take n (entry_stats wide (entries_of (snd (serve (QList dir) o))))) =
    Some (take n (listed wide (entries_of (snd (serve (QList dir) o)))))).
  { intros n. destruct (snd (serve (QList dir) o)); try by destruct n.
    destruct Hes as [Hde _]. by apply listed_find_data. }
  eapply wp_mono; [eapply (find_files_handled wide w dir fuel k o); [done..|]| |done].
  { destruct Hc as (?&?&?&?&<-). by split_and!. }
  intros a d' (Hctx & Hi & Hcase). wp_step. apply wp_conn. wp_step.
  destruct Hcase as [(-> & Hu & -> & He)|(-> & Hu & n & ->)]; rewrite Hfill; wp_step.
  - split_and!; [done..|]. left. rewrite listed_all. destruct d'. by split_and!.
  - split_and!; [done..|]. right. split_and!; [done..|]. by exists n.
Qed.
End Information.

(** ** Times *)
Section Times.
Context {N N' OS : Type} `{SocketLaws N} `{SocketLaws N'} `{PosixLaws OS} `{WideStrings}.
Implicit Types (o : OS) (k : local_state).

(** What the device is to do with a time Windows passes: nothing for a null
    pointer or the zero FILETIME, else the second it falls in, but not before
    the epoch. *)
Definition requested_time (t : option FILETIME) : timespec :=
  match t with
  | None => mkTimespec None UTIME_OMIT
  | Some f =>
      if ticks f =? 0 then mkTimespec None UTIME_OMIT
      else mkTimespec (Some (Z.max (ticks f / 10000000 - EPOCH_DIFFERENCE) 0)) 0
  end.

Definition filetime_opt_wf (t : option FILETIME) : Prop :=
  match t with Some f => filetime_wf f | None => True end.

Lemma unix_seconds_range f :
  filetime_wf f → 0 ≤ Z.max (ticks f / 10000000 - EPOCH_DIFFERENCE) 0 < 2 ^ 63.
Proof.
  intros [Hlo Hhi]. unfold is_unsigned in *. unfold EPOCH_DIFFERENCE, ticks.
  assert ((dwHighDateTime f * 2 ^ 32 + dwLowDateTime f) / 10000000 < 2 ^ 63); [|lia].
  apply Z.div_lt_upper_bound; lia.
Qed.

Lemma requested_timespec t :
  filetime_opt_wf t →
  get_timspec_from_timestamp (to_i64 (to_u64 (signed_time_from_ptr t))) = requested_time t.
Proof.
  destruct t as [f|]; [|done]. simpl. intros Hf. pose proof Hf as [Hlo Hhi]. unfold is_unsigned in *.
  rewrite to_signed_wrap; [|lia|].
  - unfold get_timspec_from_timestamp, signed_time_from_ptr. rewrite unix_time_from_ticks by done.
    destruct (Z.eqb_spec (ticks f) 0) as [E|E].
    + assert (dwHighDateTime f = 0 ∧ dwLowDateTime f = 0) as [-> ->] by (unfold ticks in E; lia). done.
    + destruct (Z.eqb_spec (dwHighDateTime f) 0) as [E1|E1], (Z.eqb_spec (dwLowDateTime f) 0) as [E2|E2];
        [by destruct E; unfold ticks; rewrite E1, E2|..]; simpl;
        rewrite to_signed_nonneg by (try done; apply unix_seconds_range; done);
        rewrite (proj2 (Z.eqb_neq _ _)) by lia; done.
  - unfold signed_time_from_ptr, is_signed. rewrite unix_time_from_ticks by done.
    destruct (_ && _); [lia|]. apply to_signed_range. lia.
Qed.

(** C16. [set_file_time] sets exactly the times Windows asks for: the device's
    [utimensat] leaves a time alone for a null pointer or the zero FILETIME, and
    otherwise gets the second the FILETIME falls in, dates before 1970 becoming
    the epoch (never the -1 that means "leave alone"); its outcome is what Windows
    is told, and the cached stat of the file is dropped. *)
Theorem set_file_time_reaches_device w p a m k o :
  win32_path_to_unix w = Ok p → short p → filetime_opt_wf a → filetime_opt_wf m →
  callback_requests (N := N) (N' := N') STATUS_UNSUCCESSFUL
    (QSetTime (mkSetFileTimeArgs p (to_i64 (to_u64 (signed_time_from_ptr a)))
                                   (to_i64 (to_u64 (signed_time_from_ptr m)))))
    (set_file_time w a m) k o (λ _, True)
    (λ s k' o', k' = drop_stat p k ∧
       match sys_utimensat (c_str p) (requested_time a) (requested_time m) o with
       | (o1, inl err) => o' = o1 ∧ s = visible_error err
       | (o1, inr _) => o' = o1 ∧ s = STATUS_SUCCESS
       end).
Proof.
  intros Hw Hp Ha Hm.
  set (ta := to_u64 (signed_time_from_ptr a)). set (tm := to_u64 (signed_time_from_ptr m)).
  set (q := QSetTime (mkSetFileTimeArgs p (to_i64 ta) (to_i64 tm))).
  assert (Hq : valid_request q) by (split_and!; [done|by apply to_signed_range..]).
  destruct (status_requests (N := N) (N' := N') q (req_set_file_time w ta tm) k (drop_stat p k) o Hq eq_refl I)
    as (resp & o' & Hd & Hreq).
  { intros s c tl out Hs Hc. by apply req_set_file_time_spec. }
  exists resp, o'. split; [done|]. intros d tl out _ Hc. apply completes_handler_io.
  wp_step. eapply wp_conn_exchange; [by apply Hreq|]. intros s k' d' [-> Hserve] He. wp_step.
  exists (drop_stat p k). split; [|done]. split; [done|]. subst q. cbn [serve] in Hserve. simpl in Hserve.
  subst ta tm. rewrite !requested_timespec in Hserve by done.
  destruct (sys_utimensat _ _ _ o) as [o1 [err|u]]; injection Hserve as <- <-; [|done].
  by rewrite visible_error_eq.
Qed.
End Times.

(** ** Claims *)
Section Claims.
Context {N N' OS : Type} `{SocketLaws N} `{SocketLaws N'} `{PosixLaws OS} `{WideStrings}.
Context (steady_now : nat → Z) (flags_of : Z → Z → Z → Z → Z * Z * Z).
Implicit Types (d : dokan N) (o : OS) (k : local_state).

(** C7. What Windows writes is what it reads back: with the daemon on the other
    end and the handle's descriptor open on a regular file, [write_file] of a
    buffer completes with an error or reports all of it written, and then
    [read_file] of as many bytes at that offset hands back the same bytes (or an
    error).  A lost connection unmounts the device and is reported as
    STATUS_UNSUCCESSFUL; no exception reaches Dokan. *)
Theorem callbacks_read_after_write `{!PosixFiles OS} ctx data off content pos k o :
  fc_read_access ctx = true → fc_write_access ctx = true →
  fc_handle ctx ≠ NO_HANDLE → is_u32 (fc_handle ctx) →
  0 ≤ off < 2 ^ 63 → zlen data < 2 ^ 31 → data ≠ [] →
  fd_file (to_i32 (fc_handle ctx)) o = Some (content, pos) →
  callback_requests (N := N) (N' := N') (STATUS_UNSUCCESSFUL, None) (QWrite (fc_handle ctx) off data)
    (write_file data (zlen data) off) k o (holds_context ctx)
    (λ a k' o', (∃ err, a = (visible_error err, None)) ∨
       a = (STATUS_SUCCESS, Some (zlen data)) ∧
       callback_requests (N := N) (N' := N') (STATUS_UNSUCCESSFUL, None)
         (QRead (mkReadHandleArgs (fc_handle ctx) (zlen data) off))
         (read_file (zlen data) off) k' o' (holds_context ctx)
         (λ b _ _, b = (STATUS_SUCCESS, Some (zlen data, data)) ∨ ∃ err, b = (visible_error err, None))).
Proof.
  intros Hr Hw Hh Hu Ho Hn Hd Hf. pose proof (zlen_nonneg data).
  eapply callback_requests_mono; [|by eapply write_file_spec].
  intros a k' o' (-> & [[-> Hf']|Herr]); [right; split; [done|]|by left].
  eapply callback_requests_mono; [|eapply (read_file_spec ctx (zlen data) off); [done..|exact Hf']].
  intros b k'' o'' [_ Hb]. by rewrite read_overwritten in Hb by lia.
Qed.

(** C13. [create_file] leaves the mount in order on every path, whatever it
    answers and whatever the peer sends: exactly one new context at an unused
    address, referred to by the caller's file info, with the write access that was
    asked for and at least the read access, a descriptor only together with some
    access, DeleteOnClose as requested, and every other context untouched.  The
    device is unmounted only with STATUS_UNSUCCESSFUL. *)
Theorem create_file_allocates w da fa cd co d :
  sound (dk_conn d) →
  let '(acc, flags, _) := flags_of da fa co cd in
  wp (create_file steady_now flags_of w da fa cd co)
    (reported STATUS_UNSUCCESSFUL (created acc flags d) d) (λ _ _, False) d.
Proof. apply create_file_created. Qed.

(** C32. A transfer the handle has no access for is refused on the spot: without
    read access, or without a descriptor, [read_file] answers access denied and
    nothing changes, no byte is sent; likewise [write_file] without write access or
    a descriptor, and [set_end_of_file] and [set_allocation_size] without write
    access. *)
Theorem transfers_need_access ctx n off data d :
  holds_context ctx d →
  (fc_read_access ctx = false ∨ fc_handle ctx = NO_HANDLE →
   read_file n off d = (d, Ok (STATUS_ACCESS_DENIED, None))) ∧
  (fc_write_access ctx = false ∨ fc_handle ctx = NO_HANDLE →
   write_file data n off d = (d, Ok (STATUS_ACCESS_DENIED, None))) ∧
  (fc_write_access ctx = false →
   set_end_of_file off d = (d, Ok STATUS_ACCESS_DENIED) ∧
   set_allocation_size off d = (d, Ok STATUS_ACCESS_DENIED)).
Proof.
  unfold holds_context. intros Hc. unfold set_allocation_size, set_end_of_file, read_file, write_file,
    NAN_HANDLER, NAN_FILE_CTX, deref, try_catch, bind, gets, ret. rewrite Hc.
  split_and!; [intros [->| ->]..|intros ->; done];
    rewrite ?Z.eqb_refl, ?orb_true_r; done.
Qed.
End Claims.

Module CallbacksWitnesses.
Import SingleByteStrings EndToEndWitnesses.

Definition ctx3 : FileContext := mkFileContext 3 true true.
Definition plain (da fa co cd : Z) : Z * Z * Z := (da, fa, cd).
(** A connection whose peer answers [inp], with one open file at address 1. *)
Definition dokan_on (inp : bytes) (ctx : FileContext) : dokan pipe :=
  mkDokan (new_connection clock (Pipe inp [] 9)) {[ 1 := ctx ]} false (mkFileInfo 1 false false).

Lemma callbacks_read_after_write_witness :
  snd (write_file (bs "new data") 8 1 (dokan_on (encode Success) ctx3)) = Ok (STATUS_SUCCESS, Some 8) ∧
  callback_requests (N := pipe) (N' := pipe) (STATUS_UNSUCCESSFUL, None)
    (QWrite (fc_handle ctx3) 1 (bs "new data"))
    (write_file (bs "new data") (zlen (bs "new data")) 1) local0 demo_open_fs (holds_context ctx3)
    (λ a k' o', (∃ err, a = (visible_error err, None)) ∨
       a = (STATUS_SUCCESS, Some (zlen (bs "new data"))) ∧
       callback_requests (N := pipe) (N' := pipe) (STATUS_UNSUCCESSFUL, None)
         (QRead (mkReadHandleArgs (fc_handle ctx3) (zlen (bs "new data")) 1))
         (read_file (zlen (bs "new data")) 1) k' o' (holds_context ctx3)
         (λ b _ _, b = (STATUS_SUCCESS, Some (zlen (bs "new data"), bs "new data")) ∨
            ∃ err, b = (visible_error err, None))).
Proof.
  split; [vm_compute; reflexivity|].
  apply (callbacks_read_after_write ctx3 (bs "new data") 1 (bs "old") 0 local0 demo_open_fs); ground.
Defined.

Lemma create_file_allocates_witness :
  wp (create_file clock plain (ws (bs "\a")) GENERIC_READ FILE_FLAG_DELETE_ON_CLOSE CREATE_NEW 0)
    (reported STATUS_UNSUCCESSFUL
       (created GENERIC_READ FILE_FLAG_DELETE_ON_CLOSE (dokan_on (encode FileNotFound) ctx3))
       (dokan_on (encode FileNotFound) ctx3)) (λ _ _, False) (dokan_on (encode FileNotFound) ctx3).
Proof.
  apply (create_file_allocates clock plain (ws (bs "\a")) GENERIC_READ FILE_FLAG_DELETE_ON_CLOSE
           CREATE_NEW 0 (dokan_on (encode FileNotFound) ctx3)).
  split; [apply DataReader.reader_create_wf|apply DataWriter.writer_create_wf]; done.
Defined.

Definition readonly3 : FileContext := mkFileContext 3 true false.

Lemma transfers_need_access_witness :
  write_file (bs "x") 1 0 (dokan_on [] readonly3) = (dokan_on [] readonly3, Ok (STATUS_ACCESS_DENIED, None)) ∧
  set_end_of_file 0 (dokan_on [] readonly3) = (dokan_on [] readonly3, Ok STATUS_ACCESS_DENIED).
Proof.
  pose proof (transfers_need_access readonly3 1 0 (bs "x") (dokan_on [] readonly3) eq_refl) as (_ & Hw & He).
  split; [apply Hw; by left|by apply He].
Defined.

Lemma file_information_matches_device_witness :
  ∃ resp o', daemon_answers (N' := pipe) (QStat (bs "/sdcard/b")) demo_fs resp o' ∧
    ∀ (d : dokan pipe) tl out, conn_at (dk_conn d) (resp ++ tl) out local0 →
      completes (STATUS_UNSUCCESSFUL, None) (get_file_information clock (ws (bs "\sdcard\b")))
        (λ a d', o' = fst (sys_stat (c_str (bs "/sdcard/b")) demo_fs) ∧ dk_contexts d' = dk_contexts d ∧
           match snd (sys_stat (c_str (bs "/sdcard/b")) demo_fs) with
           | inl err => a = (visible_error err, None) ∧ dk_info d' = dk_info d
           | inr s => ∃ b, a = (STATUS_SUCCESS, Some b) ∧ describes b s ∧
               fi_IsDirectory (dk_info d') =
                 fi_IsDirectory (dk_info d) || attr_is_directory (bh_dwFileAttributes b)
           end) d.
Proof.
  apply (file_information_matches_device clock clock_steady (ws (bs "\sdcard\b")) (bs "/sdcard/b") local0 demo_fs);
    ground.
Defined.

Lemma single_byte_narrowing : narrowing.
Proof. intros name w [= <-]. unfold zlen. by rewrite length_map. Qed.

Lemma find_files_lists_device_witness :
  listed ws (entries_of (snd (serve (QList (bs "/sdcard")) demo_fs))) ≠ [] ∧
  ∃ resp, daemon_answers (N' := pipe) (QList (bs "/sdcard")) demo_fs resp (fst (serve (QList (bs "/sdcard")) demo_fs)) ∧
    ∀ (d : dokan pipe) tl out, conn_at (dk_conn d) (resp ++ tl) out local0 →
      wp (find_files clock 9 (ws (bs "\sdcard")))
        (λ a d', dk_contexts d' = dk_contexts d ∧ dk_info d' = dk_info d ∧
           (a = listing_of ws (snd (serve (QList (bs "/sdcard")) demo_fs)) ∧ dk_unmounted d' = dk_unmounted d ∧
            (∃ k', after_exchange (QList (bs "/sdcard")) tl out k' d d')
            ∨ fst a = STATUS_UNSUCCESSFUL ∧ dk_unmounted d' = true ∧
              ∃ n, snd a = take n (listed ws (entries_of (snd (serve (QList (bs "/sdcard")) demo_fs))))))
        (λ _ _, False) d.
Proof.
  split; [vm_compute; discriminate|].
  apply (find_files_lists_device clock ws (ws (bs "\sdcard")) (bs "/sdcard") 9 local0 demo_fs
           single_byte_narrowing); [vm_compute; reflexivity|ground|ground|].
  vm_compute. split; [repeat constructor|lia].
Defined.

Definition may_2020 : option FILETIME := Some (filetime_from_unix_time 1588291200).

Lemma set_file_time_reaches_device_witness :
  requested_time may_2020 = mkTimespec (Some 1588291200) 0 ∧
  callback_requests (N := pipe) (N' := pipe) STATUS_UNSUCCESSFUL
    (QSetTime (mkSetFileTimeArgs (bs "/sdcard/b") (to_i64 (to_u64 (signed_time_from_ptr None)))
                                   (to_i64 (to_u64 (signed_time_from_ptr may_2020)))))
    (set_file_time (ws (bs "\sdcard\b")) None may_2020) local0 demo_fs (λ _, True)
    (λ s k' o', k' = drop_stat (bs "/sdcard/b") local0 ∧
       match sys_utimensat (c_str (bs "/sdcard/b")) (requested_time None) (requested_time may_2020) demo_fs with
       | (o1, inl err) => o' = o1 ∧ s = visible_error err
       | (o1, inr _) => o' = o1 ∧ s = STATUS_SUCCESS
       end).
Proof.
  split; [vm_compute; reflexivity|].
  apply (set_file_time_reaches_device (ws (bs "\sdcard\b")) (bs "/sdcard/b") None may_2020 local0 demo_fs);
    [ground|ground|done|]. split; unfold is_unsigned; vm_compute; intuition congruence.
Defined.
End CallbacksWitnesses.
