(* ===== verification/Mount.v ===== *)
(** * A mounted device under Dokan

    Windows holds handles on the files of a mounted device, each with a
    [DOKAN_FILE_INFO] that Dokan passes to every callback for it.  The states of
    a mount and the calls Dokan makes on it are a transition system: files are
    opened, used and closed in any order, and the peer may send anything. *)

From S2P Require Import Prelude Effects Endian Wire Serialization Socket Requests Responses.
From S2P Require Import PathUtils Conversion TimedCache Connection Client Robust Operations Callbacks.

(** ** Callbacks that keep the contexts *)
Section Steady.
Context {N : Type} `{SocketLaws N}.
Implicit Types d : dokan N.

(** The connection is usable, and the contexts and the caller's are the same. *)
Definition steady d d' : Prop :=
  sound (dk_conn d') ∧ dk_contexts d' = dk_contexts d ∧
  fi_Context (dk_info d') = fi_Context (dk_info d).

Lemma steady_trans d d' d'' : steady d d' → steady d' d'' → steady d d''.
Proof. unfold steady. intros (_ & ? & ?) (? & ? & ?). split_and!; congruence. Qed.

Definition keeps {A} (m : M (dokan N) A) d : Prop :=
  sound (dk_conn d) → wp m (λ _ d', steady d d') (λ e d', catchable e ∧ steady d d') d.

Lemma keeps_ret {A} (a : A) d : keeps (ret a) d.
Proof. by intros Hs. Qed.

Lemma keeps_bind {A B} (m : M (dokan N) A) (k : A → M (dokan N) B) d :
  keeps m d → (∀ a d', steady d d' → keeps (k a) d') → keeps (bind m k) d.
Proof.
  intros Hm Hk Hs. wp_step. eapply wp_mono; [exact (Hm Hs)| |done].
  intros a d' Hd'. eapply wp_mono; [exact (Hk a d' Hd' (proj1 Hd'))|..].
  - intros b d'' Hd''. exact (steady_trans _ _ _ Hd' Hd'').
  - intros e d'' [He Hd'']. split; [done|]. exact (steady_trans _ _ _ Hd' Hd'').
Qed.

Lemma keeps_conn {A} (m : M (connection N) A) P d :
  robust_at m P (dk_conn d) → keeps (NAN_CONN m) d.
Proof. intros Hm Hs. by eapply wp_robust. Qed.

Lemma keeps_get {A} (f : dokan N → A) d : keeps (gets f) d.
Proof. by intros Hs. Qed.

Lemma keeps_directory b d :
  keeps (set_info (λ i, mkFileInfo (fi_Context i) (fi_DeleteOnClose i) b)) d.
Proof. by intros Hs. Qed.

Lemma keeps_context d : is_Some (dk_contexts d !! fi_Context (dk_info d)) → keeps NAN_FILE_CTX d.
Proof. intros [ctx Hc] Hs. by eapply wp_file_ctx. Qed.

Lemma keeps_handler {A} (failure : A) body E d :
  keeps body d → sound (dk_conn d) → wp (NAN_HANDLER failure body) (λ _ d', steady d d') E d.
Proof.
  intros Hb Hs. apply wp_handler. eapply wp_mono; [by apply Hb|done|]. by intros e d' [? (?&?&?)].
Qed.
End Steady.

(** Proves [keeps] statement by statement. *)
Ltac keep :=
  lazymatch goal with
  | |- keeps (bind _ _) _ => apply keeps_bind; [keep|intros ? ? ?; keep]
  | |- keeps (ret _) _ => apply keeps_ret
  | |- keeps (gets _) _ => apply keeps_get
  | |- keeps (set_info _) _ => apply keeps_directory
  | |- keeps NAN_FILE_CTX _ => apply keeps_context; try assumption
  | |- keeps (NAN_CONN ?m) _ =>
      lazymatch m with
      | req_stat_file _ _ => eapply keeps_conn, robust_stat
      | req_remove_file _ => eapply keeps_conn, robust_changing_entry
      | req_remove_directory _ => eapply keeps_conn, robust_changing_entry
      | req_can_remove_file _ => eapply keeps_conn, robust_can_remove
      | req_can_remove_directory _ => eapply keeps_conn, robust_can_remove
      | req_move_entry _ _ _ => eapply keeps_conn, robust_move
      | req_set_file_len _ _ => eapply keeps_conn, robust_set_len
      | req_set_file_time _ _ _ => eapply keeps_conn, robust_set_time
      | req_get_disk_stats => eapply keeps_conn, robust_disk
      | req_write_to_file _ _ _ _ => eapply keeps_conn, robust_write; assumption
      | _ => idtac
      end
  | |- keeps (match ?x with _ => _ end) _ => destruct x; keep
  | |- keeps (let _ := _ in _) _ => cbv zeta; keep
  | _ => idtac
  end.

(** ** The transition system *)
Section Mount.
Context {N : Type} `{SocketLaws N} `{WideStrings} (steady_now : nat → Z).
Context (flags_of : Z → Z → Z → Z → Z * Z * Z).
Implicit Types d : dokan N.

(** The callbacks Dokan makes on an open file, but for [close_file]. *)
Inductive callback : Type :=
  | CleanUp (file_name : wstring)
  | ReadFile (buffer_len offset : Z)
  | WriteFile (buffer : bytes) (offset : Z)
  | FlushFileBuffers
  | GetFileInformation (file_name : wstring)
  | FindFiles (file_name : wstring)
  | SetFileAttributes (file_name : wstring) (file_attributes : Z)
  | SetFileTimeOf (file_name : wstring) (last_access_time last_write_time : option FILETIME)
  | DeleteFileOf (file_name : wstring)
  | DeleteDirectory (file_name : wstring)
  | MoveFile (file_name new_file_name : wstring) (replace_if_existing : bool)
  | SetEndOfFile (byte_offset : Z)
  | SetAllocationSize (byte_offset : Z)
  | LockFile
  | UnlockFile
  | GetDiskFreeSpace
  | GetVolumeInformation (device_serial : wstring) (volume_name_size fs_name_size : Z)
  | GetFileSecurity
  | SetFileSecurity
  | FindStreams.

Definition ignore {A} (m : M (dokan N) A) : M (dokan N) unit := let* _ := m in ret tt.

(** The operation table of operations.cpp.  The loop of a listing gets as many
    turns as there are bytes to come. *)
Definition run_callback (cb : callback) : M (dokan N) unit :=
  match cb with
  | CleanUp w => clean_up w
  | ReadFile n off => ignore (read_file n off)
  | WriteFile d off => ignore (write_file d (zlen d) off)
  | FlushFileBuffers => ignore flush_file_buffers
  | GetFileInformation w => ignore (get_file_information steady_now w)
  | FindFiles w => λ d, ignore (find_files steady_now (S (Z.to_nat (left (dk_conn d)))) w) d
  | SetFileAttributes w a => ignore (set_file_attributes steady_now w a)
  | SetFileTimeOf w a m => ignore (set_file_time w a m)
  | DeleteFileOf w => ignore (delete_file w)
  | DeleteDirectory w => ignore (delete_directory w)
  | MoveFile w w' b => ignore (move_file w w' b)
  | SetEndOfFile n => ignore (set_end_of_file n)
  | SetAllocationSize n => ignore (set_allocation_size n)
  | LockFile => ignore lock_file
  | UnlockFile => ignore unlock_file
  | GetDiskFreeSpace => ignore get_disk_free_space
  | GetVolumeInformation w n n' => ignore (get_volume_information w n n')
  | GetFileSecurity => ignore get_file_security
  | SetFileSecurity => ignore set_file_security
  | FindStreams => ignore find_streams
  end.

(** What Windows passes: a buffer whose length is a [DWORD]. *)
Definition sane (cb : callback) : Prop :=
  match cb with WriteFile d _ => zlen d < 2 ^ 32 | _ => True end.

(** The only ways a callback ends the process: a read whose answer announces more
    bytes than the caller's buffer holds writes past it; a listed name, the device's
    serial number or the file system's name does not fit its buffer. *)
Definition ends_process (cb : callback) (d : dokan N) (e : exn) (d' : dokan N) : Prop :=
  match cb with
  | ReadFile n _ => e = BufferOverrun ∧ announces_too_much n (to_come (dk_conn d))
  | FindFiles _ =>
      e = ProcessAborted ∧ Exists (λ entry, MAX_PATH ≤ zlen (snd entry)) (cn_consumed (dk_conn d'))
  | GetVolumeInformation serial n n' => e = ProcessAborted ∧ (n ≤ zlen serial ∨ n' ≤ 4)
  | _ => False
  end.

Context (conversion_throws : ∀ name e, from_bytes name = Throw e → catchable e).

Lemma wp_ignore {A} (m : M (dokan N) A) (Φ : dokan N → Prop) E d :
  wp m (λ _ d', Φ d') E d → wp (ignore m) (λ _ d', Φ d') E d.
Proof. intros Hm. unfold ignore. by wp_step. Qed.

Lemma unfilled (entries : list (FileStat * wstring)) :
  mapM (λ e, find_data_of (fst e) (snd e)) entries = None →
  Exists (λ entry, MAX_PATH ≤ zlen (snd entry)) entries.
Proof.
  rewrite mapM_None. intros Hx. eapply Exists_impl; [exact Hx|]. intros [st w]. simpl. unfold find_data_of.
  destruct (Z.ltb_spec (zlen w) MAX_PATH); [done|lia].
Qed.

Lemma find_files_steady w d :
  sound (dk_conn d) →
  wp (find_files steady_now (S (Z.to_nat (left (dk_conn d)))) w) (λ _ d', steady d d')
    (λ e d', ends_process (FindFiles w) d e d') d.
Proof.
  intros Hs. unfold find_files. wp_step. apply wp_conn. wp_step. wp_step.
  eapply wp_mono; [apply (keeps_handler _ _ (λ _ _, False)); [|done]| |done].
  - apply keeps_bind; [|intros; apply keeps_ret].
    eapply keeps_conn, (robust_list steady_now conversion_throws).
    pose proof (left_nonneg (dk_conn d)). change (left (dk_conn d) < Z.of_nat (S (Z.to_nat (left (dk_conn d))))). lia.
  - intros a d' Hd'. wp_step. apply wp_conn. wp_step.
    destruct (mapM _ _) eqn:E; wp_step; [by destruct Hd' as (? & ? & ?)|].
    split; [done|]. by apply unfilled.
Qed.

Lemma read_steady n off d :
  sound (dk_conn d) → is_Some (dk_contexts d !! fi_Context (dk_info d)) →
  wp (run_callback (ReadFile n off)) (λ _ d', steady d d') (ends_process (ReadFile n off) d) d.
Proof.
  intros Hs [ctx Hctx]. apply wp_ignore. unfold read_file. apply wp_try_catch. wp_step.
  eapply wp_file_ctx; [exact Hctx|]. cbv beta iota. destruct (_ || _); [by wp_step|]. wp_step.
  apply wp_conn. eapply wp_mono; [by apply read_overrun|..].
  - intros [st r] c [Hc _]. destruct st, r as [[??]|]; by wp_step.
  - intros e c [Hc [He|[-> Hn]]]; [|done]. unfold catchable in He. rewrite He. wp_step. unfold unmount. by do 2 wp_step.
Qed.

Lemma volume_steady w n n' d :
  sound (dk_conn d) →
  wp (run_callback (GetVolumeInformation w n n')) (λ _ d', steady d d')
    (ends_process (GetVolumeInformation w n n') d) d.
Proof.
  intros Hs. apply wp_ignore. unfold get_volume_information. cbv zeta.
  change (zlen (ws (bs "NTFS"))) with 4.
  destruct (Z.ltb_spec (zlen w) n); [destruct (Z.ltb_spec 4 n')|]; cbn [andb]; wp_step;
    [by split_and!|split; [done|lia]..].
Qed.

Lemma callback_steady cb d :
  sane cb → sound (dk_conn d) → is_Some (dk_contexts d !! fi_Context (dk_info d)) →
  wp (run_callback cb) (λ _ d', steady d d') (ends_process cb d) d.
Proof.
  intros Hcb Hs Hctx.
  destruct cb; try done; try (by apply read_steady); try (by apply volume_steady);
    unfold run_callback; try apply wp_ignore; try by (wp_step; split_and!).
  4: { change (wp (find_files steady_now (S (Z.to_nat (left (dk_conn d)))) file_name)
                 (λ _ d', steady d d') (ends_process (FindFiles file_name) d) d).
       by apply find_files_steady. }
  2: { simpl in Hcb. pose proof (zlen_nonneg buffer). assert (is_u32 (zlen buffer)) by (unfold is_unsigned; lia).
       assert (zlen buffer ≤ zlen buffer) by lia. unfold write_file. apply keeps_handler; [keep|done]. }
  all: unfold clean_up, get_file_information, set_file_attributes, set_file_time, delete_file,
    delete_directory, move_file, set_allocation_size, set_end_of_file, get_disk_free_space.
  all: apply keeps_handler; [keep|done].
Qed.

(** [close_file] frees the context, or leaves it when the device has gone away. *)
Lemma close_file_spec E d :
  sound (dk_conn d) → is_Some (dk_contexts d !! fi_Context (dk_info d)) →
  wp close_file (reported tt (λ d', sound (dk_conn d') ∧
    (dk_contexts d' = delete (fi_Context (dk_info d)) (dk_contexts d) ∨
     dk_contexts d' = dk_contexts d ∧ dk_unmounted d' = true)) d) E d.
Proof.
  intros Hs [ctx Hctx]. apply wp_reported. wp_step. eapply wp_file_ctx; [exact Hctx|].
  cbv beta iota. wp_step. destruct (negb _).
  - wp_step. eapply (wp_robust _ (λ _, True)); [apply robust_close|done| |].
    + intros a c Hc _. unfold set_context. do 2 wp_step. by split_and!; [|left|].
    + intros e c Hc He. split; [done|]. by split; [|right].
  - wp_step. unfold set_context. wp_step. by split_and!; [|left|].
Qed.

(** A mount: the callbacks' state and the handles Windows holds. *)
Record mount : Type := mkMount { mt_dokan : dokan N; mt_files : gmap nat DOKAN_FILE_INFO }.

(** A callback runs with the [DOKAN_FILE_INFO] of the handle it is made for. *)
Definition with_info (i : DOKAN_FILE_INFO) d : dokan N :=
  mkDokan (dk_conn d) (dk_contexts d) (dk_unmounted d) i.

(** [create_file] is followed by a handle ([Opened]) or not ([Refused]), which is
    Dokan's decision from the status; an open handle is used by callbacks and
    goes away with [close_file].  Unmounting closes Dokan's handle before it frees
    the connection, so no callback is made after it. *)
Inductive step : mount → mount → Prop :=
  | Opened h isdir w da fa cd co d files d' status :
      dk_unmounted d = false → files !! h = None →
      create_file steady_now flags_of w da fa cd co (with_info (mkFileInfo 0 false isdir) d) = (d', Ok status) →
      step (mkMount d files) (mkMount d' (<[h := dk_info d']> files))
  | Refused isdir w da fa cd co d files d' status :
      dk_unmounted d = false →
      create_file steady_now flags_of w da fa cd co (with_info (mkFileInfo 0 false isdir) d) = (d', Ok status) →
      step (mkMount d files) (mkMount d' files)
  | Called h i cb d files d' :
      dk_unmounted d = false → files !! h = Some i → sane cb →
      run_callback cb (with_info i d) = (d', Ok tt) →
      step (mkMount d files) (mkMount d' (<[h := dk_info d']> files))
  | Closed h i d files d' :
      dk_unmounted d = false → files !! h = Some i →
      close_file (with_info i d) = (d', Ok tt) →
      step (mkMount d files) (mkMount d' (delete h files)).

(** The invariant: the connection's buffers are well formed, every handle has a
    live context, and no two handles share one. *)
Definition mount_ok (m : mount) : Prop :=
  sound (dk_conn (mt_dokan m)) ∧
  (∀ h i, mt_files m !! h = Some i → is_Some (dk_contexts (mt_dokan m) !! fi_Context i)) ∧
  (∀ h h' i i', mt_files m !! h = Some i → mt_files m !! h' = Some i' →
     fi_Context i = fi_Context i' → h = h').

(** A context no handle refers to. *)
Definition orphan (p : Z) (m : mount) : Prop :=
  is_Some (dk_contexts (mt_dokan m) !! p) ∧ ∀ h i, mt_files m !! h = Some i → fi_Context i ≠ p.

Lemma create_result isdir w da fa cd co d d' status :
  sound (dk_conn d) →
  create_file steady_now flags_of w da fa cd co (with_info (mkFileInfo 0 false isdir) d) = (d', Ok status) →
  let p := fresh (dom (dk_contexts d)) in
  sound (dk_conn d') ∧ fi_Context (dk_info d') = p ∧ dk_contexts d !! p = None ∧
  ∃ ctx, dk_contexts d' = <[p := ctx]> (dk_contexts d).
Proof.
  intros Hs Hrun.
  pose proof (create_file_created steady_now flags_of w da fa cd co (λ _ _, False)
    (with_info (mkFileInfo 0 false isdir) d) Hs) as Hc.
  destruct (flags_of da fa co cd) as [[acc flags] disp]. unfold wp in Hc. rewrite Hrun in Hc.
  destruct Hc as [(ctx & ? & ? & ? & _ & ? & _) _]. eauto 6.
Qed.

Lemma call_result h i cb d files d' :
  mount_ok (mkMount d files) → files !! h = Some i → sane cb →
  run_callback cb (with_info i d) = (d', Ok tt) →
  sound (dk_conn d') ∧ dk_contexts d' = dk_contexts d ∧ fi_Context (dk_info d') = fi_Context i.
Proof.
  intros (Hs & Hlive & _) Hh Hcb Hrun. apply Hlive in Hh. simpl in Hh.
  pose proof (callback_steady cb (with_info i d) Hcb Hs Hh) as Hr. unfold wp in Hr. by rewrite Hrun in Hr.
Qed.

Lemma close_result h i d files d' :
  mount_ok (mkMount d files) → files !! h = Some i → close_file (with_info i d) = (d', Ok tt) →
  sound (dk_conn d') ∧
  (dk_contexts d' = delete (fi_Context i) (dk_contexts d) ∨
   dk_contexts d' = dk_contexts d ∧ dk_unmounted d' = true).
Proof.
  intros (Hs & Hlive & _) Hh Hrun. apply Hlive in Hh. simpl in Hh.
  pose proof (close_file_spec (λ _ _, False) (with_info i d) Hs Hh) as Hc. unfold wp in Hc.
  rewrite Hrun in Hc. apply Hc.
Qed.

Lemma step_ok m m' : mount_ok m → step m m' → mount_ok m'.
Proof.
  intros Hm Hst. destruct Hst as [h isdir w da fa cd co d files d' st _ Hh Hrun
    |isdir w da fa cd co d files d' st _ Hrun|h i cb d files d' _ Hh Hcb Hrun|h i d files d' _ Hh Hrun].
  - destruct (create_result _ _ _ _ _ _ _ _ _ (proj1 Hm) Hrun) as (Hs & Hi & Hnone & ctx & Hc).
    destruct Hm as (_ & Hlive & Hinj). split_and!; [done|..]; simpl in *; rewrite ?Hc.
    + intros h1 i1 [[<- <-]|[Hne H1']]%lookup_insert_Some; [rewrite Hi; by rewrite lookup_insert_eq|].
      rewrite lookup_insert_is_Some'. right. eauto.
    + assert (Hold : ∀ h1 i1, files !! h1 = Some i1 → fi_Context i1 ≠ fi_Context (dk_info d')).
      { intros h1 i1 H1' E. apply Hlive in H1' as [? E']. rewrite E, Hi, Hnone in E'. done. }
      intros h1 h2 i1 i2 [[<- <-]|[? E1]]%lookup_insert_Some [[<- <-]|[? E2]]%lookup_insert_Some E; try done.
      * by apply Hold in E2.
      * by apply Hold in E1.
      * eauto.
  - destruct (create_result _ _ _ _ _ _ _ _ _ (proj1 Hm) Hrun) as (Hs & Hi & Hnone & ctx & Hc).
    destruct Hm as (_ & Hlive & Hinj). split_and!; [done| |done]; simpl in *. rewrite Hc.
    intros h1 i1 H1'. rewrite lookup_insert_is_Some'. right. eauto.
  - destruct (call_result _ _ _ _ _ _ Hm Hh Hcb Hrun) as (Hs & Hc & Hi).
    destruct Hm as (_ & Hlive & Hinj). split_and!; [done|..]; simpl in *; rewrite ?Hc.
    + intros h1 i1 [[<- <-]|[Hne H1']]%lookup_insert_Some; [rewrite Hi|]; eauto.
    + intros h1 h2 i1 i2 [[<- <-]|[? E1]]%lookup_insert_Some [[<- <-]|[? E2]]%lookup_insert_Some E;
        rewrite ?Hi in E; eauto.
  - destruct (close_result _ _ _ _ _ Hm Hh Hrun) as [Hs Hc].
    destruct Hm as (_ & Hlive & Hinj). split_and!; [done|..]; simpl in *.
    + intros h1 i1 [Hne E1]%lookup_delete_Some. pose proof (Hlive _ _ E1) as Hl.
      destruct Hc as [->|[-> _]]; [|done]. rewrite lookup_delete_ne; [done|]. intros E.
      apply Hne. by eapply Hinj.
    + intros h1 h2 i1 i2 [_ E1]%lookup_delete_Some [_ E2]%lookup_delete_Some E. eauto.
Qed.

Lemma steps_ok m m' : mount_ok m → rtc step m m' → mount_ok m'.
Proof. intros Hm Hst. revert Hm. induction Hst; eauto using step_ok. Qed.

Lemma orphan_step p m m' : mount_ok m → orphan p m → step m m' → orphan p m'.
Proof.
  intros Hm [Hp Ho] Hst. destruct Hst as [h isdir w da fa cd co d files d' st _ Hh Hrun
    |isdir w da fa cd co d files d' st _ Hrun|h i cb d files d' _ Hh Hcb Hrun|h i d files d' _ Hh Hrun];
    simpl in *.
  - destruct (create_result _ _ _ _ _ _ _ _ _ (proj1 Hm) Hrun) as (Hs & Hi & Hnone & ctx & Hc).
    split; simpl; [rewrite Hc, lookup_insert_is_Some'; by right|].
    intros h1 i1 [[<- <-]|[Hne H1']]%lookup_insert_Some; [|eauto]. rewrite Hi. intros E.
    simpl in *. rewrite <- E, Hnone in Hp. by destruct Hp.
  - destruct (create_result _ _ _ _ _ _ _ _ _ (proj1 Hm) Hrun) as (Hs & Hi & Hnone & ctx & Hc).
    split; simpl; [rewrite Hc, lookup_insert_is_Some'; by right|done].
  - destruct (call_result _ _ _ _ _ _ Hm Hh Hcb Hrun) as (Hs & Hc & Hi). split; simpl; [by rewrite Hc|].
    intros h1 i1 [[<- <-]|[Hne H1']]%lookup_insert_Some; [rewrite Hi|]; eauto.
  - destruct (close_result _ _ _ _ _ Hm Hh Hrun) as [Hs Hc]. split; simpl.
    + destruct Hc as [->|[-> _]]; [|done]. rewrite lookup_delete_ne; [done|eauto].
    + intros h1 i1 [_ E1]%lookup_delete_Some. eauto.
Qed.

Lemma orphan_steps p m m' : mount_ok m → orphan p m → rtc step m m' → orphan p m'.
Proof. intros Hm Ho Hst. revert Hm Ho. induction Hst; eauto using step_ok, orphan_step. Qed.
End Mount.

(** ** Claims *)
Section Claims.
Context {N : Type} `{SocketLaws N} `{WideStrings} (steady_now : nat → Z).
Context (flags_of : Z → Z → Z → Z → Z * Z * Z).

(** C4. No callback uses a freed or foreign file context, whatever Windows does
    and whatever the peer sends: from a well-formed mount, every state reached by
    opening, using and closing files in any order is well formed (each handle has
    a live context of its own), and until the device is unmounted every callback
    on an open handle returns: no exception leaves it, no dangling pointer is
    followed and its loops finish.  Three callbacks can end the process instead,
    and only so: [read_file], when the peer's answer announces more bytes than the
    buffer it was asked to fill holds; [find_files], when a name it lists has 260
    UTF-16 units or more; [get_volume_information], when the serial number or the
    name NTFS does not fit the buffers of Windows.  The string conversion is
    assumed to throw only C++ exceptions. *)
Theorem callbacks_never_dangle (m m' : mount (N := N)) :
  (∀ name e, from_bytes name = Throw e → catchable e) →
  mount_ok m → rtc (step steady_now flags_of) m m' →
  mount_ok m' ∧
  (dk_unmounted (mt_dokan m') = false → ∀ h i, mt_files m' !! h = Some i →
    (∀ cb, sane cb →
       ∃ d' r, run_callback steady_now cb (with_info i (mt_dokan m')) = (d', r) ∧
         (r = Ok tt ∨ ∃ e, r = Throw e ∧ ends_process cb (with_info i (mt_dokan m')) e d')) ∧
    (∃ d', close_file (with_info i (mt_dokan m')) = (d', Ok tt)) ∧
    (∀ w da fa cd co, ∃ d' status, create_file steady_now flags_of w da fa cd co (mt_dokan m') = (d', Ok status))).
Proof.
  intros Hconv Hm Hst. pose proof (steps_ok _ _ Hconv _ _ Hm Hst) as Hm'. split; [done|].
  intros _ h i Hi. pose proof Hm' as (Hs & Hlive & _). apply Hlive in Hi.
  assert (Hsi : sound (dk_conn (with_info i (mt_dokan m')))) by done. split_and!.
  - intros cb Hcb. pose proof (callback_steady steady_now Hconv cb _ Hcb Hsi Hi) as Hw.
    unfold wp in Hw. destruct (run_callback _ _ _) as [d' [[]|e]]; eexists _, _; (split; [reflexivity|]); eauto.
  - pose proof (close_file_spec (λ _ _, False) _ Hsi Hi) as Hw. unfold wp in Hw.
    destruct (close_file _) as [d' [[]|]]; [by exists d'|done].
  - intros w da fa cd co.
    pose proof (create_file_created steady_now flags_of w da fa cd co (λ _ _, False) _ Hs) as Hw.
    destruct (flags_of da fa co cd) as [[acc flags] disp]. unfold wp in Hw.
    destruct (create_file _ _ _ _ _ _ _ _) as [d' [st|]]; [by eauto|done].
Qed.

(** C39. An open that Dokan refuses leaks its context: [create_file] allocates it
    before it knows the outcome and nothing frees it on failure.  When no handle
    follows a [create_file] (Dokan makes no [close_file] for it), the new context
    is still allocated in every later state of the mount, out of reach of every
    handle. *)
Theorem refused_open_leaks isdir w da fa cd co (m : mount (N := N)) d' status :
  (∀ name e, from_bytes name = Throw e → catchable e) →
  mount_ok m → dk_unmounted (mt_dokan m) = false →
  create_file steady_now flags_of w da fa cd co (with_info (mkFileInfo 0 false isdir) (mt_dokan m)) = (d', Ok status) →
  ∃ p, dk_contexts (mt_dokan m) !! p = None ∧
    ∀ m'', rtc (step steady_now flags_of) (mkMount d' (mt_files m)) m'' → orphan p m''.
Proof.
  intros Hconv Hm Hu Hrun. destruct m as [d files].
  pose proof (Refused steady_now flags_of _ _ _ _ _ _ _ files _ _ Hu Hrun) as Hstep.
  destruct (create_result _ _ _ _ _ _ _ _ _ _ _ (proj1 Hm) Hrun) as (_ & Hi & Hnone & ctx & Hc).
  exists (fresh (dom (dk_contexts d))). split; [done|]. intros m'' Hst.
  eapply orphan_steps; [exact Hconv|by eapply step_ok| |exact Hst].
  simpl in *. split; simpl; [by rewrite Hc, lookup_insert_eq|]. intros h i Hh E.
  destruct Hm as (_ & Hlive & _). apply Hlive in Hh as [? Hh]. simpl in Hh. by rewrite E, Hnone in Hh.
Qed.
End Claims.

Module MountWitnesses.
Import SingleByteStrings.

Definition plain_flags (da fa co cd : Z) : Z * Z * Z := (da, fa, cd).
Definition still (i : nat) : Z := 0.

(** A mount with no handles, whose peer answers "not found", then opens the file
    as descriptor 3, then says no more. *)
Definition answers : bytes := encode FileNotFound ++ encode Success ++ e_u32 3.
Definition m0 : mount (N := pipe) :=
  mkMount (mkDokan (new_connection still (Pipe answers [] 9)) ∅ false (mkFileInfo 0 false false)) ∅.
Definition created0 : dokan pipe * result NTSTATUS :=
  create_file still plain_flags (ws (bs "\a")) GENERIC_READ 0 CREATE_NEW 0
    (with_info (mkFileInfo 0 false false) (mt_dokan m0)).
Definition m1 : mount (N := pipe) := mkMount (fst created0) {[ 7%nat := dk_info (fst created0) ]}.

Lemma m0_ok : mount_ok m0.
Proof.
  assert (Hno : ∀ h, mt_files m0 !! h = None) by (intros h; apply lookup_empty).
  split_and!; [|by intros h i; rewrite Hno|by intros h h' i i'; rewrite Hno].
  split; [apply DataReader.reader_create_wf|apply DataWriter.writer_create_wf]; done.
Qed.

Lemma single_byte_throws name e : from_bytes name = Throw e → catchable e.
Proof. done. Qed.

Lemma callbacks_never_dangle_witness :
  snd created0 = Ok STATUS_SUCCESS ∧ dk_contexts (fst created0) = {[ 0 := mkFileContext 3 true false ]} ∧
  (mount_ok m1 ∧
   (dk_unmounted (mt_dokan m1) = false → ∀ h i, mt_files m1 !! h = Some i →
    (∀ cb, sane cb →
       ∃ d' r, run_callback still cb (with_info i (mt_dokan m1)) = (d', r) ∧
         (r = Ok tt ∨ ∃ e, r = Throw e ∧ ends_process cb (with_info i (mt_dokan m1)) e d')) ∧
    (∃ d', close_file (with_info i (mt_dokan m1)) = (d', Ok tt)) ∧
    (∀ w da fa cd co, ∃ d' status, create_file still plain_flags w da fa cd co (mt_dokan m1) = (d', Ok status)))).
Proof.
  split; [vm_compute; reflexivity|]. split; [vm_compute; reflexivity|].
  apply (callbacks_never_dangle still plain_flags m0 m1 single_byte_throws m0_ok).
  apply rtc_once. unfold m0, m1.
  apply (Opened still plain_flags 7 false (ws (bs "\a")) GENERIC_READ 0 CREATE_NEW 0 _ ∅ _ STATUS_SUCCESS);
    [done|done|vm_compute; reflexivity].
Defined.

Definition refused0 : dokan pipe * result NTSTATUS :=
  create_file still plain_flags (ws (bs "\a")) GENERIC_READ 0 OPEN_EXISTING 0
    (with_info (mkFileInfo 0 false false) (mt_dokan m0)).

Lemma refused_open_leaks_witness :
  snd refused0 = Ok STATUS_OBJECT_NAME_NOT_FOUND ∧
  ∃ p, dk_contexts (mt_dokan m0) !! p = None ∧
    ∀ m'', rtc (step still plain_flags) (mkMount (fst refused0) (mt_files m0)) m'' → orphan p m''.
Proof.
  split; [vm_compute; reflexivity|].
  apply (refused_open_leaks still plain_flags false (ws (bs "\a")) GENERIC_READ 0 OPEN_EXISTING 0 m0
           (fst refused0) STATUS_OBJECT_NAME_NOT_FOUND single_byte_throws m0_ok eq_refl).
  vm_compute. reflexivity.
Defined.
End MountWitnesses.
