(* ===== verification/Lines.v ===== *)
(** * Lines of text

    Both parsers of process output split it at newlines: the reference they are
    compared with, and what [find] does on it. *)

From S2P Require Import Prelude PathUtils.

Definition newline : byte := x0a.
Definition carriage_return : byte := x0d.

(** The complete lines of a text, without their newlines, and the rest. *)
Fixpoint lines_of (s : bytes) : list bytes * bytes :=
  match s with
  | [] => ([], [])
  | c :: s =>
      let '(ls, rest) := lines_of s in
      if bool_decide (c = newline) then ([] :: ls, rest)
      else match ls with
           | [] => ([], c :: rest)
           | l :: ls => ((c :: l) :: ls, rest)
           end
  end.

Lemma lines_of_partial s : newline ∉ s → lines_of s = ([], s).
Proof.
  induction s as [|c s IH]; [done|]. intros [Hc Hs]%not_elem_of_cons. simpl. rewrite IH by done.
  by rewrite bool_decide_false by congruence.
Qed.

Lemma lines_of_line l s :
  newline ∉ l → lines_of (l ++ newline :: s) = (l :: fst (lines_of s), snd (lines_of s)).
Proof.
  induction l as [|c l IH].
  - intros _. simpl. by destruct (lines_of s).
  - intros [Hc Hl]%not_elem_of_cons. simpl. rewrite IH by done.
    by rewrite bool_decide_false by congruence.
Qed.

(** Every text is lines and a rest without newlines. *)
Lemma lines_of_spec s :
  s = concat (map (λ l, l ++ [newline]) (fst (lines_of s))) ++ snd (lines_of s) ∧
  Forall (λ l, newline ∉ l) (fst (lines_of s)) ∧ newline ∉ snd (lines_of s).
Proof.
  induction s as [|c s (E & Hls & Hr)]; [by split_and!; [|constructor|apply not_elem_of_nil]|].
  simpl. destruct (lines_of s) as [ls rest]. simpl in *. case_bool_decide as Hc.
  - subst c. simpl. split_and!; [by f_equal|constructor; [apply not_elem_of_nil|done]|done].
  - destruct ls as [|l ls]; simpl in *.
    + split_and!; [by f_equal|constructor|]. apply not_elem_of_cons. by split; [congruence|].
    + apply Forall_cons in Hls as [Hl Hls]. split_and!; [by f_equal| |done].
      constructor; [|done]. apply not_elem_of_cons. by split; [congruence|].
Qed.

(** Text that arrives in pieces. *)
Lemma lines_of_app s t :
  lines_of (s ++ t) =
    (fst (lines_of s) ++ fst (lines_of (snd (lines_of s) ++ t)), snd (lines_of (snd (lines_of s) ++ t))).
Proof.
  destruct (lines_of_spec s) as (E & Hls & Hr). destruct (lines_of s) as [ls rest]. simpl in *. subst s.
  induction Hls as [|l ls Hl Hls IH]; simpl; [by destruct (lines_of (rest ++ t))|].
  rewrite <- !app_assoc. simpl. rewrite lines_of_line by done. rewrite <- app_assoc in IH. by rewrite IH.
Qed.

(** ** [find] locates the end of the next line *)
Lemma find_from_spec c s i :
  match find_from c s i with
  | Some j => ∃ l rest, s = l ++ c :: rest ∧ c ∉ l ∧ j = (i + length l)%nat
  | None => c ∉ s
  end.
Proof.
  revert i. induction s as [|d s IH]; intros i; simpl; [apply not_elem_of_nil|].
  case_bool_decide as Hd.
  - exists [], s. simpl. subst d. split_and!; [done|apply not_elem_of_nil|lia].
  - specialize (IH (S i)). destruct (find_from c s (S i)) as [j|].
    + destruct IH as (l & rest & -> & Hl & ->). exists (d :: l), rest. simpl.
      split_and!; [done| |lia]. apply not_elem_of_cons. by split; [congruence|].
    + apply not_elem_of_cons. by split; [congruence|].
Qed.

(** With the bytes before [from] done, the next newline ends the next line. *)
Lemma find_newline s from :
  match find s newline from with
  | Some j => ∃ l, newline ∉ l ∧ j = (from + length l)%nat ∧ drop from s = l ++ newline :: drop (S j) s
  | None => newline ∉ drop from s
  end.
Proof.
  unfold find. pose proof (find_from_spec newline (drop from s) from) as Hf.
  destruct (find_from newline (drop from s) from) as [j|]; [|done].
  destruct Hf as (l & rest & E & Hl & ->). exists l. split_and!; [done|done|].
  assert (Hd : drop (S (from + length l)) s = rest); [|by rewrite Hd].
  replace (S (from + length l))%nat with (from + S (length l))%nat by lia.
  rewrite <- drop_drop, E. rewrite cons_middle, app_assoc.
  apply drop_app_length'. rewrite length_app. simpl. lia.
Qed.
