(* ===== verification/Logger.v ===== *)
(** * Logging: nandroidfs/Logger.hpp and Logger.cpp

    Levels, contexts, and the line written to standard output for a message.  The
    formatting of the message itself is the standard library's: a message is the
    text that comes out of it. *)

From S2P Require Import Prelude Effects Lines.

(** The enumerators, and any other value an [int] converted to the type can have. *)
Inductive LogLevel : Type :=
  | Trace | Debug | Info | Warn | Error
  | OtherLevel (value : Z).

Definition level_value (level : LogLevel) : Z :=
  match level with
  | Trace => 0 | Debug => 1 | Info => 2 | Warn => 3 | Error => 4
  | OtherLevel value => value
  end.

Definition get_log_level_name (level : LogLevel) : bytes :=
  if level_value level =? level_value Trace then bs "TCE"
  else if level_value level =? level_value Debug then bs "DBG"
  else if level_value level =? level_value Info then bs "INF"
  else if level_value level =? level_value Warn then bs "WAR"
  else if level_value level =? level_value Error then bs "ERR"
  else bs "UNK".

(** The only sink, [StdOutSink], appends to standard output, under its mutex. *)
Definition log_line_of (level : LogLevel) (context message : bytes) : bytes :=
  bs "[" ++ get_log_level_name level ++ bs "(" ++ context ++ bs ")] " ++ message ++ [newline].

Definition sink_log (level : LogLevel) (context message : bytes) : M bytes unit :=
  modify (λ stdout, stdout ++ log_line_of level context message).

(** A logger; all loggers of a process share the sink. *)
Record ContextLogger : Type := mkLogger { min_level : LogLevel; lg_context : bytes }.

Definition with_context (logger : ContextLogger) (new_context : bytes) (new_min_level : option LogLevel)
    : ContextLogger :=
  mkLogger (default (min_level logger) new_min_level) (lg_context logger ++ bs ", " ++ new_context).

Definition replace_context (logger : ContextLogger) (context : bytes) (new_min_level : option LogLevel)
    : ContextLogger :=
  mkLogger (default (min_level logger) new_min_level) context.

Definition log (logger : ContextLogger) (level : LogLevel) (message : bytes) : M bytes unit :=
  if level_value (min_level logger) <=? level_value level then sink_log level (lg_context logger) message
  else ret tt.

Definition trace logger := log logger Trace.
Definition debug logger := log logger Debug.
Definition info logger := log logger Info.
Definition warn logger := log logger Warn.
Definition error logger := log logger Error.

(** ** What ends up on standard output *)

(** How the program makes a logger out of another one: with more context or other
    context, and with the same level or another one. *)
Inductive derivation : Type :=
  | With (context : bytes) (level : option LogLevel)
  | Replace (context : bytes) (level : option LogLevel).

Definition derive1 (logger : ContextLogger) (d : derivation) : ContextLogger :=
  match d with
  | With context level => with_context logger context level
  | Replace context level => replace_context logger context level
  end.
Definition derive (root : ContextLogger) (ds : list derivation) : ContextLogger := foldl derive1 root ds.

(** Calls of loggers derived from one root, in the order in which they get the sink's
    mutex. *)
Record log_call : Type := mkCall { lc_derived : list derivation; lc_level : LogLevel; lc_message : bytes }.

Definition run_calls (root : ContextLogger) (calls : list log_call) : M bytes unit :=
  foldr (λ c k, do* log (derive root (lc_derived c)) (lc_level c) (lc_message c) in k) (ret tt) calls.

(** ** The lines there are to be

    The labels of the levels by number; the contexts given since the last replacement,
    separated by commas; the level given last. *)
Definition level_labels : list bytes := [bs "TCE"; bs "DBG"; bs "INF"; bs "WAR"; bs "ERR"].
Definition level_label (v : Z) : bytes :=
  if v <? 0 then bs "UNK" else nth (Z.to_nat v) level_labels (bs "UNK").

Fixpoint context_parts (ds : list derivation) (parts : list bytes) : list bytes :=
  match ds with
  | [] => parts
  | With context _ :: ds => context_parts ds (parts ++ [context])
  | Replace context _ :: ds => context_parts ds [context]
  end.
Fixpoint joined (parts : list bytes) : bytes :=
  match parts with
  | [] => []
  | [part] => part
  | part :: parts => part ++ bs ", " ++ joined parts
  end.

Definition derived_level (d : derivation) : option LogLevel :=
  match d with With _ level | Replace _ level => level end.
Definition wanted_level (first : LogLevel) (ds : list derivation) : LogLevel :=
  default first (last (omap derived_level ds)).

Definition expected_lines (context : bytes) (level : LogLevel) (calls : list log_call) : list bytes :=
  map (λ c, bs "[" ++ level_label (level_value (lc_level c)) ++
            bs "(" ++ joined (context_parts (lc_derived c) [context]) ++ bs ")] " ++ lc_message c)
    (base.filter (λ c, level_value (wanted_level level (lc_derived c)) ≤ level_value (lc_level c)) calls).

(** ** The loggers have that context and that level *)
Lemma level_name_label level : get_log_level_name level = level_label (level_value level).
Proof.
  unfold get_log_level_name, level_label. generalize (level_value level). intros v.
  change (level_value Trace) with 0. change (level_value Debug) with 1. change (level_value Info) with 2.
  change (level_value Warn) with 3. change (level_value Error) with 4.
  destruct (Z.ltb_spec v 0).
  { by rewrite !(proj2 (Z.eqb_neq v _)) by lia. }
  destruct (Z.eqb_spec v 0) as [->|]; [done|]. destruct (Z.eqb_spec v 1) as [->|]; [done|].
  destruct (Z.eqb_spec v 2) as [->|]; [done|]. destruct (Z.eqb_spec v 3) as [->|]; [done|].
  destruct (Z.eqb_spec v 4) as [->|]; [done|].
  rewrite nth_overflow; [done|]. simpl. lia.
Qed.

Lemma joined_snoc parts part : parts ≠ [] → joined (parts ++ [part]) = joined parts ++ bs ", " ++ part.
Proof.
  induction parts as [|p [|q parts] IH]; [done|done|]. intros _.
  change (p ++ bs ", " ++ joined ((q :: parts) ++ [part]) = (p ++ bs ", " ++ joined (q :: parts)) ++ bs ", " ++ part).
  rewrite IH by done. by rewrite <- !app_assoc.
Qed.

Lemma derive_context root ds parts :
  parts ≠ [] → lg_context root = joined parts → lg_context (derive root ds) = joined (context_parts ds parts).
Proof.
  revert root parts. induction ds as [|[c l|c l] ds IH]; intros root parts Hp Hc; [done|..]; cbn [derive foldl derive1].
  - apply IH; [by destruct parts|]. rewrite joined_snoc by done. cbn [with_context lg_context]. by rewrite Hc.
  - by apply IH.
Qed.

Lemma derive_level root ds : min_level (derive root ds) = wanted_level (min_level root) ds.
Proof.
  unfold wanted_level. revert root. induction ds as [|d ds IH]; intros root; [done|]. cbn [derive foldl]. rewrite IH.
  assert (Hd : min_level (derive1 root d) = default (min_level root) (derived_level d)) by (by destruct d).
  rewrite Hd. cbn [omap list_omap]. destruct (derived_level d) as [l|]; [|done].
  rewrite last_cons. by destruct (last (omap derived_level ds)).
Qed.

Lemma run_calls_output root calls stdout :
  run_calls root calls stdout =
    (stdout ++ concat (map (λ l, l ++ [newline]) (expected_lines (lg_context root) (min_level root) calls)), Ok tt).
Proof.
  revert stdout. induction calls as [|c calls IH]; intros stdout; simpl.
  { unfold expected_lines. simpl. by rewrite app_nil_r. }
  unfold expected_lines in *. rewrite filter_cons. unfold bind, log. rewrite derive_level.
  destruct (Z.leb_spec (level_value (wanted_level (min_level root) (lc_derived c))) (level_value (lc_level c))) as [Hl|Hl];
    case_decide; try lia; unfold sink_log, modify, ret; fold (run_calls root calls); rewrite IH; [|done].
  cbn [map concat]. unfold log_line_of. rewrite level_name_label, (derive_context root (lc_derived c) [lg_context root]) by done.
  by rewrite <- !app_assoc.
Qed.

(** ** Text without newlines *)
Definition context_of (d : derivation) : bytes := match d with With c _ | Replace c _ => c end.

Lemma label_line v : newline ∉ level_label v.
Proof.
  assert (Hl : Forall (λ l, newline ∉ l) (bs "UNK" :: level_labels)).
  { apply (bool_decide_eq_true_1 _). vm_compute. reflexivity. }
  unfold level_label. destruct (v <? 0); [by inversion Hl|].
  destruct (nth_in_or_default (Z.to_nat v) level_labels (bs "UNK")) as [Hin| ->]; [|by inversion Hl].
  rewrite Forall_forall in Hl. apply Hl. right. by apply list_elem_of_In.
Qed.

Lemma joined_line parts : Forall (λ p, newline ∉ p) parts → newline ∉ joined parts.
Proof.
  induction 1 as [|p [|q parts] Hp Hps IH]; [apply not_elem_of_nil|done|].
  change (newline ∉ p ++ bs ", " ++ joined (q :: parts)). rewrite !not_elem_of_app. split_and!; [done| |done]. apply (bool_decide_eq_true_1 _). vm_compute. reflexivity.
Qed.

Lemma parts_line ds parts :
  Forall (λ d, newline ∉ context_of d) ds → Forall (λ p, newline ∉ p) parts →
  Forall (λ p, newline ∉ p) (context_parts ds parts).
Proof.
  intros Hd. revert parts. induction Hd as [|[c l|c l] ds Hc Hds IH]; intros parts Hp; [done|..]; simpl; apply IH.
  - apply Forall_app. by repeat constructor.
  - by repeat constructor.
Qed.

(** ** Claims *)

(** C33. The log is one line per message: whatever loggers the messages go through, made
    out of a root by any sequence of additions to and replacements of the context, with
    or without a new level, standard output holds exactly one line for each message of
    at least the level given last to its logger, in order, and nothing for the others.
    The line has the three letters of the level, the contexts given since the last
    replacement, separated by commas, and the message, provided messages and contexts
    hold no newline. *)
Theorem log_one_line_per_message root calls :
  newline ∉ lg_context root →
  Forall (λ c, Forall (λ d, newline ∉ context_of d) (lc_derived c) ∧ newline ∉ lc_message c) calls →
  wp (run_calls root calls)
    (λ _ stdout, lines_of stdout = (expected_lines (lg_context root) (min_level root) calls, [])) (λ _ _, False) [].
Proof.
  intros Hr Hc. unfold wp. rewrite run_calls_output. rewrite app_nil_l.
  assert (Hl : Forall (λ l, newline ∉ l) (expected_lines (lg_context root) (min_level root) calls)).
  { unfold expected_lines. apply Forall_fmap, Forall_forall. intros c [_ Hin]%list_elem_of_filter.
    rewrite Forall_forall in Hc. destruct (Hc c Hin) as (Hx & Hm). cbn [compose]. rewrite !not_elem_of_app.
    split_and!; try done; try (apply (bool_decide_eq_true_1 _); vm_compute; reflexivity); [apply label_line|].
    apply joined_line, parts_line; [done|]. by repeat constructor. }
  induction Hl as [|l ls Hl Hls IH]; simpl; [done|].
  rewrite <- app_assoc. simpl. rewrite lines_of_line by done. by rewrite IH.
Qed.

Module LoggerWitnesses.
Definition root : ContextLogger := mkLogger Debug (bs "main").
Definition tracker_logger : list derivation := [With (bs "DeviceTracker") None].
Definition device_logger : list derivation := tracker_logger ++ [Replace (bs "1WMHH") None].
Definition calls : list log_call :=
  [mkCall [] Info (bs "nandroidfs is starting up"); mkCall tracker_logger Trace (bs "not shown");
   mkCall (device_logger ++ [With (bs "Connection") None]) Debug (bs "handshake succeeded");
   mkCall (device_logger ++ [With (bs "operations") (Some Warn)]) Info (bs "not shown either");
   mkCall [With (bs "loud") (Some Trace)] Trace (bs "shown")].

Lemma log_one_line_per_message_witness :
  expected_lines (bs "main") Debug calls =
    [bs "[INF(main)] nandroidfs is starting up"; bs "[DBG(1WMHH, Connection)] handshake succeeded";
     bs "[TCE(main, loud)] shown"] ∧
  wp (run_calls root calls)
    (λ _ stdout, lines_of stdout = (expected_lines (lg_context root) (min_level root) calls, [])) (λ _ _, False) [].
Proof.
  split; [vm_compute; reflexivity|]. apply (log_one_line_per_message root calls);
    [apply (bool_decide_eq_true_1 _); vm_compute; reflexivity|].
  repeat constructor; try (apply (bool_decide_eq_true_1 _); vm_compute; reflexivity).
Defined.
End LoggerWitnesses.
