(* ===== verification/Traffic.v ===== *)
(** * The traffic log of debug builds: nandroidfs/Connection.cpp

    With [_DEBUG], [Connection] counts the bytes it reads and writes, a thread logs
    and resets the counters every second, and the destructor waits for that thread.
    The counted socket is a socket again, so that everything proved of [Connection]
    over a socket holds in debug builds too. *)

From stdpp Require Import pretty.
From S2P Require Import Prelude Effects Serialization Socket Lines Logger.

(** ** The counters *)

(** [data_written] and [data_read] are [int]s: [overflowed] remembers an addition
    whose result an [int] cannot hold, which is undefined. *)
Record meter (N : Type) : Type := mkMeter {
  mt_socket : N;
  data_written : Z;
  data_read : Z;
  overflowed : bool;
}.
Arguments mkMeter {N} _ _ _ _.
Arguments mt_socket {N} _.
Arguments data_written {N} _.
Arguments data_read {N} _.
Arguments overflowed {N} _.

Definition fits_int (z : Z) : bool := (- 2 ^ 31 <=? z) && (z <? 2 ^ 31).

Definition count_written {N} (result : Z) (m : meter N) : meter N :=
  mkMeter (mt_socket m) (data_written m + result) (data_read m)
    (overflowed m || negb (fits_int (data_written m + result))).
Definition count_read {N} (result : Z) (m : meter N) : meter N :=
  mkMeter (mt_socket m) (data_written m) (data_read m + result)
    (overflowed m || negb (fits_int (data_read m + result))).

Section Meter.
Context {N : Type} `{Socket N}.

Definition over {A} (f : N → N * A) (m : meter N) : meter N * A :=
  let '(s, a) := f (mt_socket m) in (mkMeter s (data_written m) (data_read m) (overflowed m), a).

(** [recv] and [send] with the count that follows each when it did not fail. *)
#[global] Instance metered_socket : Socket (meter N) := {|
  recv n m := let '(m', (r, d)) := over (recv n) m in (if r =? -1 then m' else count_read r m', (r, d));
  send d m := let '(m', r) := over (send d) m in (if r =? -1 then m' else count_written r m', r);
  errno m := errno (mt_socket m);
|}.
End Meter.

#[global] Instance metered_laws {N} `{SocketLaws N} : SocketLaws (meter N).
Proof.
  refine {| sock_incoming m := sock_incoming (mt_socket m); sock_outgoing m := sock_outgoing (mt_socket m) |}.
  - intros n m Hn. pose proof (recv_law n (mt_socket m) Hn) as L. simpl. unfold over.
    destruct (recv n (mt_socket m)) as [s' [r d]]. destruct (Z.eqb_spec r (-1)); [by left|exact L].
  - intros d m Hd. pose proof (send_law d (mt_socket m) Hd) as L. simpl. unfold over.
    destruct (send d (mt_socket m)) as [s' r]. destruct (Z.eqb_spec r (-1)); [by left|exact L].
Defined.

(** ** What is counted is what goes over the socket *)
Section Counted.
Context {N : Type} `{SocketLaws N}.
Implicit Types m : meter N.

(** [written] bytes have gone out and [read] bytes have come in since. *)
Definition moved (written read : Z) m m' : Prop :=
  zlen (sock_outgoing m') = zlen (sock_outgoing m) + written ∧
  zlen (sock_incoming m) = zlen (sock_incoming m') + read ∧ 0 ≤ written ∧ 0 ≤ read ∧
  data_written m' = data_written m + written ∧ data_read m' = data_read m + read ∧
  (overflowed m = false → 0 ≤ data_written m → 0 ≤ data_read m →
   data_written m' < 2 ^ 31 → data_read m' < 2 ^ 31 → overflowed m' = false).

Lemma moved_refl m : moved 0 0 m m.
Proof. unfold moved. split_and!; lia || done. Qed.

Lemma moved_trans w r w' r' m m1 m2 : moved w r m m1 → moved w' r' m1 m2 → moved (w + w') (r + r') m m2.
Proof. unfold moved. intros (? & ? & ? & ? & ? & ? & Ho) (? & ? & ? & ? & ? & ? & Ho'). split_and!; try lia.
  intros. apply Ho'; [apply Ho|..]; done || lia. Qed.

Lemma metered_read n m : 0 < n → wp (connection_read n) (λ d m', moved 0 (zlen d) m m') (λ _ _, True) m.
Proof.
  intros Hn. pose proof (recv_law n m Hn) as L. unfold wp, connection_read, bind, recv_call.
  destruct (recv n m) as [m' [r d]] eqn:E. destruct (throw_on_error_checks r m') as [[-> Hr]|(e & -> & _)]; [|done].
  destruct L as [|(-> & _ & Hi & _ & Ho)]; [done|]. simpl in E, Hi, Ho. unfold over in E.
  destruct (recv n (mt_socket m)) as [s' [r' d']]. simplify_eq. rewrite (proj2 (Z.eqb_neq _ _)) in * by done.
  unfold ret, moved. rewrite ztake_all by lia. simpl in *. rewrite Ho, Hi. zlen_norm. pose proof (zlen_nonneg d).
  split_and!; try lia. intros ->. unfold fits_int. intros.
  rewrite (proj2 (Z.leb_le _ _)), (proj2 (Z.ltb_lt _ _)) by lia. done.
Qed.

Lemma metered_send d m r m' :
  d ≠ [] → send d m = (m', r) → r ≠ -1 → 1 ≤ r ≤ zlen d ∧ moved r 0 m m'.
Proof.
  intros Hd E Hr. pose proof (send_law d m Hd) as L. rewrite E in L. destruct L as [|(Hb & Ho & Hi)]; [done|].
  split; [done|]. simpl in E, Hi, Ho. unfold over in E. destruct (send d (mt_socket m)) as [s' r']. simplify_eq.
  rewrite (proj2 (Z.eqb_neq _ _)) in * by done. unfold moved. simpl in *. rewrite Ho, Hi. zlen_norm.
  split_and!; try lia. intros ->. unfold fits_int. intros.
  rewrite (proj2 (Z.leb_le _ _)), (proj2 (Z.ltb_lt _ _)) by lia. done.
Qed.

Lemma metered_loop fuel d m :
  zlen d < Z.of_nat fuel →
  wp (send_loop throw_on_error fuel d (zlen d)) (λ _ m', moved (zlen d) 0 m m') (λ _ _, True) m.
Proof.
  revert d m. induction fuel as [|fuel IH]; intros d m Hf; pose proof (zlen_nonneg d); [lia|].
  simpl. apply wp_if; intros Hl.
  2: { wp_step. assert (d = []) as -> by (apply zlen_zero; lia). apply moved_refl. }
  rewrite (ztake_all (zlen d)) by lia. unfold wp, bind, send_call. destruct (send d m) as [m1 r] eqn:E.
  destruct (throw_on_error_checks r m1) as [[-> Hr]|(e & -> & _)]; [|done].
  destruct (metered_send d m r m1) as [Hb Hm]; [by intros ->|done|done|].
  replace (zlen d - r) with (zlen (zdrop r d)) by (zlen_norm; lia).
  eapply wp_mono; [apply (IH (zdrop r d) m1); zlen_norm; lia| |done]. intros [] m2 Hm2.
  replace (zlen d) with (r + zlen (zdrop r d)) by (zlen_norm; lia). by apply (moved_trans _ 0 _ 0 _ m1).
Qed.

Lemma metered_write d m : wp (connection_write d) (λ _ m', moved (zlen d) 0 m m') (λ _ _, True) m.
Proof. apply metered_loop. unfold zlen. lia. Qed.
End Counted.

(** ** The thread that logs *)

(** It waits for [request_mutex], sleeps until a time, or is done. *)
Inductive log_pc : Type := Locking | Sleeping (until : Z) | Stopped.

(** [tr_held] is whether a request holds [request_mutex]. *)
Record traffic (N : Type) : Type := mkTraffic {
  tr_meter : meter N;
  tr_held : bool;
  kill_data_log : bool;
  tr_pc : log_pc;
  tr_stdout : bytes;
  tr_now : Z;
}.
Arguments mkTraffic {N} _ _ _ _ _ _.
Arguments tr_meter {N} _.
Arguments tr_held {N} _.
Arguments kill_data_log {N} _.
Arguments tr_pc {N} _.
Arguments tr_stdout {N} _.
Arguments tr_now {N} _.

Definition LOG_INTERVAL_MS : Z := 1000.

Definition traffic_text (written_kb read_kb : Z) : bytes :=
  bs ("wrote " +:+ pretty written_kb +:+ "KiB, read " +:+ pretty read_kb +:+ "KiB").

Definition reset_counters {N} (m : meter N) : meter N := mkMeter (mt_socket m) 0 0 (overflowed m).

(** The line a round of the loop logs. *)
Definition traffic_line (logger : ContextLogger) (written read : Z) : bytes → bytes :=
  λ stdout, fst (debug logger (traffic_text (Z.shiftr written 10) (Z.shiftr read 10)) stdout).

Section Thread.
Context {N : Type} `{SocketLaws N} (logger : ContextLogger).

(** Requests read and write while they hold the mutex; a round of the thread and the
    destructor's store are one step each, as they hold it too.  No request begins
    once the destructor has run. *)
Inductive traffic_step : traffic N → traffic N → Prop :=
  | request_begins m p o t : traffic_step (mkTraffic m false false p o t) (mkTraffic m true false p o t)
  | request_writes d m m' k p o t : connection_write d m = (m', Ok tt) →
      traffic_step (mkTraffic m true k p o t) (mkTraffic m' true k p o t)
  | request_reads n d m m' k p o t : 0 < n → connection_read n m = (m', Ok d) →
      traffic_step (mkTraffic m true k p o t) (mkTraffic m' true k p o t)
  | request_ends m k p o t : traffic_step (mkTraffic m true k p o t) (mkTraffic m false k p o t)
  | destructor_kills m p o t : traffic_step (mkTraffic m false false p o t) (mkTraffic m false true p o t)
  | log_reports m o t :
      traffic_step (mkTraffic m false false Locking o t)
        (mkTraffic (reset_counters m) false false (Sleeping (t + LOG_INTERVAL_MS))
           (traffic_line logger (data_written m) (data_read m) o) t)
  | log_stops m o t : traffic_step (mkTraffic m false true Locking o t) (mkTraffic m false true Stopped o t)
  | time_passes m h k d o t : t < d →
      traffic_step (mkTraffic m h k (Sleeping d) o t) (mkTraffic m h k (Sleeping d) o (t + 1))
  | log_wakes m h k d o t : d ≤ t →
      traffic_step (mkTraffic m h k (Sleeping d) o t) (mkTraffic m h k Locking o t).

Inductive traffic_reachable (s : traffic N) : traffic N → Prop :=
  | traffic_here : traffic_reachable s s
  | traffic_next s1 s2 : traffic_reachable s s1 → traffic_step s1 s2 → traffic_reachable s s2.

(** The thread as the constructor starts it. *)
Definition start_log (m : N) (t : Z) : traffic N := mkTraffic (mkMeter m 0 0 false) false false Locking [] t.

(** The lines for rounds between which so many bytes were written and read. *)
Definition traffic_lines (rounds : list (Z * Z)) : bytes :=
  foldl (λ o '(w, r), traffic_line logger w r o) [] rounds.
Definition sum_of (l : list Z) : Z := foldr Z.add 0 l.

Definition accounted (m0 : N) (rounds : list (Z * Z)) (s : traffic N) : Prop :=
  tr_stdout s = traffic_lines rounds ∧
  zlen (sock_outgoing (tr_meter s)) = zlen (sock_outgoing m0) + sum_of (rounds.*1) + data_written (tr_meter s) ∧
  zlen (sock_incoming m0) = zlen (sock_incoming (tr_meter s)) + sum_of (rounds.*2) + data_read (tr_meter s) ∧
  0 ≤ data_written (tr_meter s) ∧ 0 ≤ data_read (tr_meter s) ∧
  (Forall (λ '(w, r), w < 2 ^ 31 ∧ r < 2 ^ 31) rounds →
   data_written (tr_meter s) < 2 ^ 31 → data_read (tr_meter s) < 2 ^ 31 → overflowed (tr_meter s) = false).

Lemma sum_of_app l x : sum_of (l ++ [x]) = sum_of l + x.
Proof. induction l as [|y l IH]; simpl; lia. Qed.

Lemma accounted_moved m0 rounds w r m m' h k p o t :
  moved w r m m' → accounted m0 rounds (mkTraffic m h k p o t) → accounted m0 rounds (mkTraffic m' h k p o t).
Proof. unfold moved, accounted. simpl. intros (? & ? & ? & ? & Ew & Er & Ho) (? & ? & ? & ? & ? & Hf).
  split_and!; [done|lia..|]. intros. apply Ho; [apply Hf|..]; done || lia. Qed.

Lemma wp_result {S A} (x : M S A) (Φ : A → S → Prop) E s s' a : wp x Φ E s → x s = (s', Ok a) → Φ a s'.
Proof. unfold wp. intros Hw E0. by rewrite E0 in Hw. Qed.

(** Every byte is accounted for: what went over the socket is what was logged, to the
    KiB, and what is still in the counters; and these do not overflow unless two
    gigabytes go by between two rounds. *)
Lemma traffic_accounted m0 t0 s :
  traffic_reachable (start_log m0 t0) s → ∃ rounds, accounted m0 rounds s.
Proof.
  induction 1 as [|s1 s2 _ [rounds IH] Hs].
  { exists []. unfold accounted. simpl. split_and!; [done|lia..]. }
  destruct Hs as [m p o t|d m m' k p o t Hd|n d m m' k p o t Hn Hd|m k p o t|m p o t|m o t|m o t|m h k d o t Ht|m h k d o t Ht];
    try (by exists rounds).
  - exists rounds. eapply accounted_moved; [|exact IH]. by eapply (wp_result _ _ _ _ _ _ (metered_write d m)).
  - exists rounds. eapply accounted_moved; [|exact IH]. by eapply (wp_result _ _ _ _ _ _ (metered_read n m Hn)).
  - exists (rounds ++ [(data_written m, data_read m)]). destruct IH as (Eo & Ew & Er & _ & _ & Hf). unfold accounted, traffic_lines in *.
    simpl in *. rewrite foldl_app, !fmap_app. simpl. rewrite !sum_of_app, Eo. split_and!; [done|lia..|].
    intros [Hr [? ?]%Forall_singleton]%Forall_app. auto.
Qed.

(** The destructor does not wait for ever: once it has set the flag, with no request
    running, the thread stops without logging again, by the end of its sleep. *)
Definition stopped_by (o : bytes) (d : Z) (s : traffic N) : Prop :=
  tr_pc s = Stopped ∧ tr_stdout s = o ∧ tr_now s ≤ d.

Lemma log_thread_stops m p o t d :
  t ≤ d → (∀ u, p = Sleeping u → u ≤ d) →
  inevitable traffic_step (stopped_by o d) (mkTraffic m false true p o t).
Proof.
  intros Ht Hp.
  assert (Hlock : ∀ t, t ≤ d → inevitable traffic_step (stopped_by o d) (mkTraffic m false true Locking o t)).
  { intros t' Ht'. apply inev_next; [eexists; apply log_stops|]. intros s' Hs. inversion Hs; subst. by apply inev_now. }
  destruct p as [|u|]; [by apply Hlock| |by apply inev_now].
  specialize (Hp u eq_refl). remember (Z.to_nat (u - t)) as k eqn:Ek. revert t Ht Ek.
  induction k as [|k IH]; intros t Ht Ek.
  - apply inev_next; [eexists; apply log_wakes; lia|]. intros s' Hs. inversion Hs; subst; [lia|]. by apply Hlock.
  - apply inev_next; [eexists; apply time_passes; lia|]. intros s' Hs. inversion Hs; subst; [|by apply Hlock].
    apply IH; lia.
Qed.
End Thread.

Module TrafficWitnesses.
Definition conn_logger : ContextLogger := with_context (mkLogger Trace (bs "main")) (bs "Connection") None.

(** A write of 3000 bytes is counted whatever the socket takes at once, and the next
    round logs its two whole KiB. *)
Example three_thousand :
  let m := fst (connection_write (replicate 3000 x41) (mkMeter (Pipe [] [] 99) 0 0 false)) in
  data_written m = 3000 ∧ overflowed m = false ∧
  traffic_line conn_logger (data_written m) (data_read m) [] =
    bs "[DBG(main, Connection)] wrote 2KiB, read 0KiB" ++ [newline].
Proof. vm_compute. auto. Qed.
End TrafficWitnesses.
