(* ===== verification/Nandroid.v ===== *)
(** * A mounted device's life: nandroidfs/Nandroid.cpp

    Starting the daemon through adb, waiting until it says it is ready, connecting
    and mounting; the daemon's output as it arrives from the thread that runs adb;
    and the destructor. *)

From stdpp Require Import pretty.
From S2P Require Import Prelude Effects Endian Wire Serialization Socket Requests Responses.
From S2P Require Import PathUtils Conversion TimedCache WinPath Adb Connection Client Connect Lines.

(** ** The daemon's output

    The members the agent's thread shares with [begin], and the lines passed to
    the logger. *)
Record agent : Type := mkAgent {
  agent_output_buffer : bytes;
  agent_ready : bool;
  agent_ready_notified : bool;
  agent_dead_notified : bool;
  agent_log : list bytes;
}.

Definition new_agent : agent := mkAgent [] false false false [].

Definition set_output (b : bytes) (a : agent) : agent :=
  mkAgent b (agent_ready a) (agent_ready_notified a) (agent_dead_notified a) (agent_log a).
Definition notify_ready (a : agent) : agent :=
  mkAgent (agent_output_buffer a) true true (agent_dead_notified a) (agent_log a).
Definition log_line (l : bytes) (a : agent) : agent :=
  mkAgent (agent_output_buffer a) (agent_ready a) (agent_ready_notified a) (agent_dead_notified a)
    (agent_log a ++ [l]).

Definition drop_ending (c : byte) (line : bytes) : bytes :=
  if ends_with_char line c then pop_back line else line.

(** The loop over the newlines of the buffer; [start] is [last_newline_idx + 1].
    The second argument of [substr] is a length, for which the source passes the
    index of the newline. *)
Fixpoint scan_output (fuel : nat) (start : nat) : M agent nat :=
  match fuel with
  | O => throw OutOfFuel
  | S fuel =>
      let* buffer := gets agent_output_buffer in
      match find buffer newline start with
      | None => ret start
      | Some next_newline_idx =>
          let line := substr buffer start next_newline_idx in
          do* (if starts_with line AGENT_READY_MSG then modify notify_ready else ret tt) in
          do* modify (log_line (drop_ending carriage_return (drop_ending newline line))) in
          scan_output fuel (S next_newline_idx)
      end
  end.

Definition handle_daemon_output (buffer : bytes) : M agent unit :=
  do* modify (λ a, set_output (agent_output_buffer a ++ buffer) a) in
  let* output := gets agent_output_buffer in
  let* start := scan_output (S (length output)) 0 in
  modify (set_output (drop start output)).

(** The end of [invoke_daemon], however adb ended. *)
Definition agent_exited : M agent unit :=
  modify (λ a, mkAgent (agent_output_buffer a) false true true (agent_log a)).

Inductive agent_event : Type :=
  | Output (chunk : bytes)
  | Exited.

Definition agent_event_step (e : agent_event) : M agent unit :=
  match e with Output chunk => handle_daemon_output chunk | Exited => agent_exited end.

(** The agent's thread up to the moment [begin] wakes up. *)
Fixpoint run_agent (events : list agent_event) : M agent unit :=
  match events with
  | [] => ret tt
  | e :: events => do* agent_event_step e in run_agent events
  end.

(** ** What the output means *)
Definition ready_line (l : bytes) : bool := starts_with l AGENT_READY_MSG.

Lemma starts_with_spec s p : starts_with s p = true ↔ ∃ t, s = p ++ t.
Proof.
  unfold starts_with. rewrite bool_decide_eq_true. split.
  - intros E. exists (drop (length p) s). rewrite <- E at 1. by rewrite take_drop.
  - intros [t ->]. by rewrite take_app_length.
Qed.

(** A prefix without newlines does not see past the end of the line. *)
Lemma starts_with_line p l s : newline ∉ p → starts_with (l ++ newline :: s) p = starts_with l p.
Proof.
  intros Hp. apply eq_true_iff_eq. rewrite !starts_with_spec. split.
  - intros [t E]. apply app_eq_inv in E as [(k & -> & E)|(k & -> & E)]; [by exists k|].
    destruct k as [|c k]; [exists []; by rewrite !app_nil_r|].
    injection E as <- _. exfalso. apply Hp. set_solver.
  - intros [t ->]. exists (t ++ newline :: s). by rewrite app_assoc.
Qed.

Lemma starts_with_take n l s p :
  newline ∉ p → (length l ≤ n)%nat → starts_with (take n (l ++ newline :: s)) p = starts_with l p.
Proof.
  intros Hp Hn. destruct (decide (n = length l)) as [->|Hne]; [by rewrite take_app_length|].
  rewrite take_app_ge by lia. replace (n - length l)%nat with (S (n - length l - 1)) by lia.
  simpl. by apply starts_with_line.
Qed.

Lemma ready_msg_line : newline ∉ AGENT_READY_MSG.
Proof. apply (bool_decide_eq_true_1 _). vm_compute. reflexivity. Qed.

Lemma scan_output_spec fuel start a :
  (length (drop start (agent_output_buffer a)) < fuel)%nat →
  wp (scan_output fuel start)
    (λ start' a', let '(ls, rest) := lines_of (drop start (agent_output_buffer a)) in
       drop start' (agent_output_buffer a) = rest ∧ agent_output_buffer a' = agent_output_buffer a ∧
       agent_ready a' = agent_ready a || existsb ready_line ls ∧
       agent_ready_notified a' = agent_ready_notified a || existsb ready_line ls ∧
       agent_dead_notified a' = agent_dead_notified a)
    (λ _ _, False) a.
Proof.
  revert start a. induction fuel as [|fuel IH]; intros start a Hf; [lia|]. simpl. do 2 wp_step.
  pose proof (find_newline (agent_output_buffer a) start) as Hn.
  destruct (find _ newline start) as [j|].
  - destruct Hn as (l & Hl & -> & E).
    assert (Hlen : (length l + S (length (drop (S (start + length l)) (agent_output_buffer a))) ≤ fuel)%nat).
    { rewrite E, length_app in Hf. simpl in Hf. lia. }
    rewrite E, lines_of_line by done. cbv zeta. unfold substr. rewrite E.
    rewrite starts_with_take by (apply ready_msg_line || lia).
    assert (Hrest : ∀ a1, agent_output_buffer a1 = agent_output_buffer a →
      agent_ready a1 = agent_ready a || ready_line l →
      agent_ready_notified a1 = agent_ready_notified a || ready_line l →
      agent_dead_notified a1 = agent_dead_notified a →
      wp (scan_output fuel (S (start + length l)))
        (λ start' a', drop start' (agent_output_buffer a) = snd (lines_of (drop (S (start + length l)) (agent_output_buffer a))) ∧
           agent_output_buffer a' = agent_output_buffer a ∧
           agent_ready a' = agent_ready a || existsb ready_line (l :: fst (lines_of (drop (S (start + length l)) (agent_output_buffer a)))) ∧
           agent_ready_notified a' = agent_ready_notified a || existsb ready_line (l :: fst (lines_of (drop (S (start + length l)) (agent_output_buffer a)))) ∧
           agent_dead_notified a' = agent_dead_notified a) (λ _ _, False) a1).
    { intros a1 E1 E2 E3 E4. eapply wp_mono; [apply IH; rewrite E1; lia| |done].
      intros start' a'. rewrite E1, E2, E3, E4. destruct (lines_of _) as [ls rest]. simpl.
      intros (? & ? & -> & -> & ->). rewrite <- !orb_assoc. done. }
    fold (ready_line l). wp_step. destruct (ready_line l) eqn:Er.
    + wp_step. wp_step. wp_step. apply Hrest; simpl; rewrite ?orb_true_r; done.
    + wp_step. wp_step. wp_step. apply Hrest; simpl; rewrite ?orb_false_r; done.
  - wp_step. rewrite lines_of_partial by done. simpl. by rewrite !orb_false_r.
Qed.

Lemma handle_daemon_output_spec chunk a :
  wp (handle_daemon_output chunk)
    (λ _ a', let '(ls, rest) := lines_of (agent_output_buffer a ++ chunk) in
       agent_output_buffer a' = rest ∧
       agent_ready a' = agent_ready a || existsb ready_line ls ∧
       agent_ready_notified a' = agent_ready_notified a || existsb ready_line ls ∧
       agent_dead_notified a' = agent_dead_notified a)
    (λ _ _, False) a.
Proof.
  unfold handle_daemon_output. do 4 wp_step. wp_step.
  eapply wp_mono; [apply scan_output_spec, Nat.lt_succ_diag_r| |done]. intros start a' Hs. wp_step. simpl in *.
  destruct (lines_of _) as [ls rest]. by destruct Hs as (<- & _ & ? & ? & ?).
Qed.

(** Output in pieces amounts to the whole output at once. *)
Lemma run_output_spec chunks a :
  newline ∉ agent_output_buffer a →
  wp (run_agent (map Output chunks))
    (λ _ a', let '(ls, rest) := lines_of (agent_output_buffer a ++ concat chunks) in
       agent_output_buffer a' = rest ∧
       agent_ready a' = agent_ready a || existsb ready_line ls ∧
       agent_ready_notified a' = agent_ready_notified a || existsb ready_line ls ∧
       agent_dead_notified a' = agent_dead_notified a)
    (λ _ _, False) a.
Proof.
  revert a. induction chunks as [|chunk chunks IH]; intros a Hb; simpl.
  - wp_step. rewrite app_nil_r, lines_of_partial by done. simpl. by rewrite !orb_false_r.
  - wp_step. eapply wp_mono; [apply handle_daemon_output_spec| |done]. intros [] a1 H1.
    rewrite app_assoc, (lines_of_app (_ ++ chunk)).
    destruct (lines_of_spec (agent_output_buffer a ++ chunk)) as (_ & _ & Hr).
    destruct (lines_of (agent_output_buffer a ++ chunk)) as [ls rest]. simpl in *.
    destruct H1 as (E1 & E2 & E3 & E4). eapply wp_mono; [apply IH; by rewrite E1| |done].
    intros [] a'. rewrite E1, E2, E3, E4. destruct (lines_of (rest ++ _)) as [ls' rest']. simpl.
    rewrite existsb_app, !orb_assoc. done.
Qed.

Lemma run_agent_app e e' : run_agent (e ++ e') ≡ bind (run_agent e) (λ _, run_agent e').
Proof.
  induction e as [|x e IH]; simpl; [by intros s|]. intros s. unfold bind at 1 2.
  change ((bind (agent_event_step x) (λ _, run_agent (e ++ e')) s) =
          (bind (bind (agent_event_step x) (λ _, run_agent e)) (λ _, run_agent e') s)).
  unfold bind. destruct (agent_event_step x s) as [s1 [[]|]]; [|done]. apply IH.
Qed.

(** ** Starting up *)

(** Dokan: mounting on a letter gives a status, closing the handle unmounts. *)
Class Dokan (W : Type) : Type := {
  DokanCreateFileSystem : Z → W → W * Z;
  DokanCloseHandle : Z → W → W * unit;
}.

(** The members [begin] and the destructor use: whether the thread that runs the
    agent was started, the socket and the connection, and the letter of the mounted
    drive, which stands for Dokan's handle of it. *)
Record nandroid (N : Type) : Type := mkNandroid {
  nd_serial : bytes;
  nd_wide_serial : wstring;
  nd_agent : agent;
  nd_thread : bool;
  nd_connection : option (Z * connection N);
  nd_instance : option Z;
  nd_port : Z;
}.
Arguments mkNandroid {N} _ _ _ _ _ _ _.
Arguments nd_serial {N} _.
Arguments nd_wide_serial {N} _.
Arguments nd_agent {N} _.
Arguments nd_thread {N} _.
Arguments nd_connection {N} _.
Arguments nd_instance {N} _.
Arguments nd_port {N} _.

(** The constructor. *)
Definition new_nandroid {N} `{WideStrings} (device_serial : bytes) (port_num : Z) : result (nandroid N) :=
  match wstring_from_string device_serial with
  | Ok wide_device_serial => Ok (mkNandroid device_serial wide_device_serial new_agent false None None port_num)
  | Throw e => Throw e
  end.

Definition set_agent {N} (a : agent) (n : nandroid N) : nandroid N :=
  mkNandroid (nd_serial n) (nd_wide_serial n) a (nd_thread n) (nd_connection n) (nd_instance n) (nd_port n).
Definition start_thread {N} (n : nandroid N) : nandroid N :=
  mkNandroid (nd_serial n) (nd_wide_serial n) (nd_agent n) true (nd_connection n) (nd_instance n) (nd_port n).
Definition set_connection {N} (c : Z * connection N) (n : nandroid N) : nandroid N :=
  mkNandroid (nd_serial n) (nd_wide_serial n) (nd_agent n) (nd_thread n) (Some c) (nd_instance n) (nd_port n).
Definition set_instance {N} (l : Z) (n : nandroid N) : nandroid N :=
  mkNandroid (nd_serial n) (nd_wide_serial n) (nd_agent n) (nd_thread n) (nd_connection n) (Some l) (nd_port n).

(** The object's functions run on the host and the object. *)
Definition agent_lens {W N} : lens (W * nandroid N) agent :=
  Lens (λ s, nd_agent (snd s)) (λ a s, (fst s, set_agent a (snd s))).

(** The arguments given to adb; a port is printed in decimal. *)
Definition AGENT_REL_PATH : wstring := ws (bs "nandroid-daemon").
Definition AGENT_DEST_PATH : wstring := ws (bs "/data/local/tmp/nandroid-daemon").
Definition decimal (z : Z) : wstring := ws (bs (pretty z)).
Definition push_args (agent_path : wstring) : wstring :=
  ws (bs "push ") ++ [quote] ++ agent_path ++ [quote] ++ space ++ AGENT_DEST_PATH.
Definition chmod_args : wstring := ws (bs "shell chmod +x ") ++ AGENT_DEST_PATH.
Definition forward_args (port_num : Z) : wstring :=
  ws (bs "forward tcp:") ++ decimal port_num ++ ws (bs " tcp:") ++ decimal AGENT_PORT.
Definition agent_args : wstring := ws (bs "shell .") ++ AGENT_DEST_PATH.
Definition pkill_args : wstring := ws (bs "shell pkill nandroid-daemon").

Definition DOKAN_SUCCESS : Z := 0.
Definition DOKAN_ERROR : Z := -1.
Definition DOKAN_DRIVE_LETTER_ERROR : Z := -2.
Definition DOKAN_DRIVER_INSTALL_ERROR : Z := -3.
Definition DOKAN_START_ERROR : Z := -4.
Definition DOKAN_MOUNT_ERROR : Z := -5.
Definition DOKAN_MOUNT_POINT_ERROR : Z := -6.
Definition DOKAN_VERSION_ERROR : Z := -7.

Definition letter_D : Z := 68.
Definition letter_Z : Z := 90.

(** What a status other than success and "mount point in use" is reported as. *)
Definition dokan_error (status : Z) : string :=
  if status =? DOKAN_ERROR then "Unspecified dokan error"
  else if status =? DOKAN_DRIVE_LETTER_ERROR then "Invalid drive letter"
  else if status =? DOKAN_DRIVER_INSTALL_ERROR then "Failed to install dokan driver"
  else if status =? DOKAN_START_ERROR then "Internal driver error"
  else if status =? DOKAN_MOUNT_POINT_ERROR then "Mount point was invalid"
  else if status =? DOKAN_VERSION_ERROR then "Incompatible with installed version of dokan"
  else "Unknown error occured".

(** [while (status == DOKAN_MOUNT_ERROR)], the next letter each time; returns
    the letter that was mounted. *)
Fixpoint mount_loop {W} `{Dokan W} (fuel : nat) (letter : Z) : M W Z :=
  match fuel with
  | O => throw OutOfFuel
  | S fuel =>
      let* status := os_call (DokanCreateFileSystem letter) in
      if status =? DOKAN_SUCCESS then ret letter
      else if status =? DOKAN_MOUNT_ERROR then
        if letter =? letter_Z then
          throw (RuntimeError "No valid mount points found! All drive letters must be occupied")
        else mount_loop fuel (letter + 1)
      else throw (RuntimeError (dokan_error status))
  end.

Section Nandroid.
Context {W N : Type} `{Processes W} `{!ExePath W} `{!Winsock W N} `{!Dokan W} `{!Socket N}.
Context (steady_now : nat → Z).

(** The system, inside the host, beside the object. *)
Definition on_os {A} (m : M W A) : M (host W * nandroid N) A := zoom fst_lens (zoom os_lens m).

Definition mount_filesystem : M (host W * nandroid N) unit :=
  let* letter := on_os (mount_loop 23 letter_D) in
  modify (λ '(h, n), (h, set_instance letter n)).

(** [invoke_adb_with_serial(wide_device_serial, args)] *)
Definition adb_for_device (args : wstring) : M (host W * nandroid N) bytes :=
  let* n := gets snd in
  zoom fst_lens (invoke_adb_with_serial (nd_wide_serial n) args).

(** [new Connection("localhost", port_num)] *)
Definition connect : M (host W * nandroid N) unit :=
  let* n := gets snd in
  let* c := on_os (create_connection steady_now (bs "localhost") (nd_port n)) in
  modify (λ '(h, n), (h, set_connection c n)).

(** [events] is what the agent's thread does before this thread wakes up; if it
    does not notify, the wait does not end ([OutOfFuel]). *)
Definition begin (events : list agent_event) : M (host W * nandroid N) unit :=
  let* agent_path := gets (λ s, get_abs_path_from_rel_to_exe AGENT_REL_PATH (hs_os (fst s))) in
  match agent_path with
  | None => throw (RuntimeError "Failed to get agent path")
  | Some agent_path =>
      let* _ := adb_for_device (push_args agent_path) in
      let* _ := adb_for_device chmod_args in
      let* port_num := gets (λ s, nd_port (snd s)) in
      let* _ := adb_for_device (forward_args port_num) in
      do* modify (λ '(h, n), (h, start_thread n)) in
      do* zoom agent_lens (run_agent events) in
      let* a := gets (λ s, nd_agent (snd s)) in
      if negb (agent_ready_notified a) then throw OutOfFuel
      else
        do* zoom agent_lens (modify (λ a, mkAgent (agent_output_buffer a) (agent_ready a) false
                                            (agent_dead_notified a) (agent_log a))) in
        if negb (agent_ready a) then throw (RuntimeError "Agent failed to start up")
        else
          do* connect in
          mount_filesystem
  end.

(** The agent's thread: adb runs the agent, its output goes to
    [handle_daemon_output], and whoever waits is told when it has ended, however it
    ended. *)
Definition invoke_daemon (wide_device_serial : wstring) : M (host W * agent) unit :=
  do* try_catch
        (let* exit_code := invoke_adb_capture_output wide_device_serial agent_args handle_daemon_output in ret tt)
        (λ ex, ret tt) in
  zoom snd_lens agent_exited.

Definition get_conn (n : nandroid N) : result (connection N) :=
  match nd_connection n with
  | Some (_, c) => Ok c
  | None => Throw (RuntimeError "Attempting to get connection when not yet connected/mounted")
  end.

(** The destructor: the drive and the connection go, the agent is killed unless it
    has ended within the two seconds it is given ([exits]), and its thread is
    joined.  Joining a thread that was never started throws, in a destructor, which
    ends the program; an adb that does not come back keeps the destructor waiting. *)
Definition destroy (exits : bool) (h : host W) (n : nandroid N) : fate (host W) :=
  let run (m : M (host W) unit) (h : host W) : host W := fst (m h) in
  let h := match nd_instance n with
           | Some instance => run (zoom os_lens (os_call (DokanCloseHandle instance))) h
           | None => h
           end in
  let h := match nd_connection n with
           | Some (conn_sock, _) => run (zoom os_lens (destroy_connection conn_sock)) h
           | None => h
           end in
  let kill := if agent_dead_notified (nd_agent n) || exits then ret tt
              else try_catch (let* _ := invoke_adb_with_serial (nd_wide_serial n) pkill_args in ret tt)
                     (λ ex, ret tt) in
  match kill h with
  | (h, Ok _) => if nd_thread n then Done h else Ended
  | (_, Throw _) => Stuck
  end.
End Nandroid.

(** ** The agent's thread *)
Section Thread.
Context {W N : Type} `{Processes W} `{!ExePath W} `{!Winsock W N} `{!Dokan W} `{!Socket N}.
Context (steady_now : nat → Z).

(** adb, whatever it does, leaves the object alone. *)
Lemma wp_adb {B} args (k : bytes → M (host W * nandroid N) B) Φ n (h : host W) :
  (∀ b h', wp (k b) Φ (λ _ _, True) (h', n)) →
  wp (let* b := adb_for_device args in k b) Φ (λ _ _, True) (h, n).
Proof.
  intros Hk. unfold adb_for_device. do 3 wp_step. apply wp_zoom. unfold wp at 1. cbn [view fst_lens update fst snd].
  destruct (invoke_adb_with_serial _ _ h) as [h' [b|e]]; [apply Hk|exact I].
Qed.

(** A computation on the system leaves the object alone too. *)
Lemma wp_on_os {A B} (m : M W A) (k : A → M (host W * nandroid N) B) Φ n (h : host W) :
  (∀ a h', wp (k a) Φ (λ _ _, True) (h', n)) →
  wp (let* a := on_os m in k a) Φ (λ _ _, True) (h, n).
Proof.
  intros Hk. unfold on_os. wp_step. do 2 apply wp_zoom. unfold wp at 1. cbn [view fst_lens os_lens update fst snd].
  destruct (m _) as [w' [a|e]]; [apply Hk|exact I].
Qed.

(** A device that was started has its thread, and is the one it was created for. *)
Lemma begin_thread events (h : host W) (n : nandroid N) :
  wp (begin steady_now events)
    (λ _ s, nd_thread (snd s) = true ∧ nd_serial (snd s) = nd_serial n) (λ _ _, True) (h, n).
Proof.
  unfold begin. do 2 wp_step. destruct (get_abs_path_from_rel_to_exe _ _) as [path|]; [|by wp_step].
  apply wp_adb. intros _ h1. apply wp_adb. intros _ h2. do 2 wp_step. apply wp_adb. intros _ h3.
  do 3 wp_step. apply wp_zoom. unfold wp at 1. destruct (run_agent events _) as [a [[]|e]]; [|exact I].
  do 2 wp_step. simpl. destruct (negb _); [by wp_step|]. wp_step. apply wp_zoom. wp_step. simpl.
  destruct (negb _); [by wp_step|]. unfold connect. do 3 wp_step. cbn [snd]. apply wp_on_os. intros c h4. wp_step.
  unfold mount_filesystem. apply wp_on_os. intros l h5. by wp_step.
Qed.
End Thread.

(** The consumer is called as the events say. *)
Lemma consume_daemon_output chunks :
  consume_all handle_daemon_output chunks = run_agent (map Output chunks).
Proof. induction chunks as [|chunk chunks IH]; [done|]. simpl. by rewrite IH. Qed.

Lemma handle_daemon_output_returns chunk a : wp (handle_daemon_output chunk) (λ _ _, True) (λ _ _, False) a.
Proof. eapply wp_mono; [apply handle_daemon_output_spec|done|done]. Qed.

(** ** Mounting *)
Section Mounting.
Context {W : Type} `{Dokan W}.

Lemma mount_loop_first (w w' : W) letter fuel l :
  letter ≤ l → l ≤ letter_Z → l - letter < Z.of_nat fuel →
  (∀ l', letter ≤ l' < l → DokanCreateFileSystem l' w = (w, DOKAN_MOUNT_ERROR)) →
  DokanCreateFileSystem l w = (w', DOKAN_SUCCESS) →
  mount_loop fuel letter w = (w', Ok l).
Proof.
  revert letter. induction fuel as [|fuel IH]; intros letter Hl Hz Hf Hbusy Hfree; [lia|].
  simpl. unfold bind, os_call. destruct (decide (letter = l)) as [->|Hne]; [by rewrite Hfree|].
  rewrite Hbusy by lia. simpl. rewrite (proj2 (Z.eqb_neq letter letter_Z)) by lia.
  apply IH; [lia|lia|lia| |done]. intros l' Hl'. apply Hbusy. lia.
Qed.

Lemma mount_loop_full (w : W) letter fuel :
  letter ≤ letter_Z → letter_Z - letter < Z.of_nat fuel →
  (∀ l', letter ≤ l' ≤ letter_Z → DokanCreateFileSystem l' w = (w, DOKAN_MOUNT_ERROR)) →
  mount_loop fuel letter w =
    (w, Throw (RuntimeError "No valid mount points found! All drive letters must be occupied")).
Proof.
  revert letter. induction fuel as [|fuel IH]; intros letter Hl Hf Hbusy; [lia|].
  simpl. unfold bind, os_call. rewrite Hbusy by lia. simpl.
  destruct (Z.eqb_spec letter letter_Z) as [->|Hne]; [done|].
  apply IH; [lia|lia|]. intros l' Hl'. apply Hbusy. lia.
Qed.
End Mounting.

(** ** The waits end *)
Lemma mount_loop_ends {W} `{Dokan W} fuel letter (w : W) :
  letter ≤ letter_Z → letter_Z - letter < Z.of_nat fuel →
  wp (mount_loop fuel letter) (λ _ _, True) (λ e _, catchable e) w.
Proof.
  revert letter w. induction fuel as [|fuel IH]; intros letter w Hl Hf; [lia|]. simpl. wp_step. apply wp_os_call.
  destruct (DokanCreateFileSystem letter w) as [w' status]. cbn [fst snd].
  wp_step; [by wp_step|]. wp_step; [|by wp_step]. wp_step; [by wp_step|].
  apply IH; [|lia]. apply Z.eqb_neq in H2. lia.
Qed.

Section Waits.
Context {W N : Type} `{ProcessLaws W} `{!ExePath W} `{WinsockLaws W N} `{!Dokan W} (steady_now : nat → Z).

(** The thread's run, as events. *)
Lemma invoke_daemon_spec serial (h : host W) :
  wp (invoke_daemon serial)
    (λ _ st, let a := snd st in ∃ chunks,
       run_agent (map Output chunks ++ [Exited]) new_agent = (a, Ok tt) ∧
       agent_ready a = false ∧ agent_ready_notified a = true ∧ agent_dead_notified a = true)
    (λ _ _, False) (h, new_agent).
Proof.
  unfold invoke_daemon. wp_step.
  assert (Hend : ∀ h' (a : agent), (∃ chunks, consume_all handle_daemon_output chunks new_agent = (a, Ok tt)) →
    wp (zoom snd_lens agent_exited)
      (λ _ st, let a := snd st in ∃ chunks,
         run_agent (map Output chunks ++ [Exited]) new_agent = (a, Ok tt) ∧
         agent_ready a = false ∧ agent_ready_notified a = true ∧ agent_dead_notified a = true)
      (λ _ _, False) (h' : host W, a)).
  { intros h' a [chunks Hr]. rewrite consume_daemon_output in Hr. apply wp_zoom. unfold agent_exited. wp_step. simpl.
    exists chunks. split; [|done]. rewrite (run_agent_app _ _ new_agent). unfold bind. by rewrite Hr. }
  apply wp_try_catch_all. wp_step.
  eapply wp_mono; [apply invoke_adb_capture_output_spec, handle_daemon_output_returns| |].
  - intros code [h' a] (path & w & chunks & _ & Hr). wp_step. apply Hend. by exists chunks.
  - intros e [h' a] [He Hr]. split; [done|]. wp_step. by apply Hend.
Qed.

(** The destructor comes back, or joins a thread that was never started. *)
Lemma destroy_spec b (h : host W) (n : nandroid N) :
  fwp (destroy b h n) (λ _, nd_thread n = true) (nd_thread n = false).
Proof.
  unfold destroy. cbv zeta.
  match goal with |- fwp (match ?k ?h0 with _ => _ end) _ _ =>
    assert (Hk : wp k (λ _ _, True) (λ _ _, False) h0); [|unfold wp in Hk; destruct (k h0) as [h' [[]|e]]] end.
  - destruct (_ || b); [by wp_step|]. apply wp_try_catch_all. wp_step.
    eapply wp_mono; [apply invoke_adb_with_serial_catchable|by intros; wp_step|].
    intros e h' He. split; [done|]. by wp_step.
  - by destruct (nd_thread n).
  - done.
Qed.

(** [begin] does not wait for ever once the thread has notified. *)
Lemma begin_wakes events a (h : host W) (n : nandroid N) :
  nd_agent n = new_agent → run_agent events new_agent = (a, Ok tt) → agent_ready_notified a = true →
  wp (begin steady_now events) (λ _ _, True) (λ e _, catchable e) (h, n).
Proof.
  intros Ha Hrun Hn. unfold begin. do 2 wp_step. destruct (get_abs_path_from_rel_to_exe _ _) as [path|]; [|by wp_step].
  assert (Hadb : ∀ {B} args (k : bytes → M (host W * nandroid N) B) h1,
    (∀ b h2, wp (k b) (λ _ _, True) (λ e _, catchable e) (h2, n)) →
    wp (let* b := adb_for_device args in k b) (λ _ _, True) (λ e _, catchable e) (h1, n)).
  { intros B args k h1 Hk. unfold adb_for_device. do 3 wp_step. apply wp_zoom. cbn [view fst_lens update fst snd].
    eapply wp_mono; [apply invoke_adb_with_serial_catchable| |done]. intros b h2 _. apply Hk. }
  apply Hadb. intros _ h1. apply Hadb. intros _ h2. do 2 wp_step. apply Hadb. intros _ h3.
  do 3 wp_step. apply wp_zoom. cbn [view agent_lens snd fst start_thread nd_agent]. unfold wp at 1.
  rewrite Ha, Hrun. do 2 wp_step. simpl. rewrite Hn. simpl. wp_step. apply wp_zoom. wp_step. simpl.
  wp_step; [by wp_step|]. wp_step. unfold connect. do 3 wp_step. unfold on_os. do 2 apply wp_zoom.
  eapply wp_mono; [apply create_connection_spec| |by intros e w (_ & ? & _)]. intros c w _. wp_step.
  unfold mount_filesystem, on_os. wp_step. do 2 apply wp_zoom.
  eapply wp_mono; [apply mount_loop_ends; unfold letter_Z, letter_D; lia| |done]. intros l w' _. by wp_step.
Qed.
End Waits.

(** ** Claims *)

(** C22. The client sees that the daemon is ready exactly when it has printed a whole
    line that starts with the ready message, however its output is cut into
    chunks: a chunk may hold part of a line or many lines, and the text after the
    last newline is kept for later (although the lines are cut out with a wrong
    length).  While the daemon runs nobody is told that it has ended; when it has
    exited, whatever it printed before, both waits are notified and the client no
    longer takes it for ready. *)
Theorem agent_ready_detected (chunks : list bytes) :
  wp (run_agent (map Output chunks))
    (λ _ a, agent_ready a = existsb ready_line (fst (lines_of (concat chunks))) ∧
       agent_ready_notified a = agent_ready a ∧ agent_dead_notified a = false ∧
       agent_output_buffer a = snd (lines_of (concat chunks)))
    (λ _ _, False) new_agent ∧
  wp (run_agent (map Output chunks ++ [Exited]))
    (λ _ a, agent_ready a = false ∧ agent_ready_notified a = true ∧ agent_dead_notified a = true)
    (λ _ _, False) new_agent.
Proof.
  pose proof (run_output_spec chunks new_agent (not_elem_of_nil newline)) as Hout. split.
  - eapply wp_mono; [exact Hout| |done].
    intros [] a. simpl. destruct (lines_of _). simpl. by intros (-> & -> & -> & ->).
  - unfold wp in *. rewrite (run_agent_app _ _ new_agent). unfold bind.
    by destruct (run_agent (map Output chunks) new_agent) as [a [[]|e]].
Qed.

Section Claims.
Context {W N : Type} `{ProcessLaws W} `{!ExePath W} `{WinsockLaws W N} `{!Dokan W}.

(** C18. Whoever waits for the agent is woken.  The thread that runs it ends, whatever
    becomes of adb and the agent, after treating the output as a sequence of chunks
    followed by the notification that the agent is gone; and as soon as the events of
    the thread include a notification (which therefore comes), the wait in [begin] is
    over: [begin] returns or throws, without waiting for ever, for an address that
    accepts or for a drive letter either. *)
Theorem starter_is_woken serial (h : host W) steady_now (n : nandroid N) :
  wp (invoke_daemon serial)
    (λ _ st, let a := snd st in ∃ chunks,
       run_agent (map Output chunks ++ [Exited]) new_agent = (a, Ok tt) ∧
       agent_ready a = false ∧ agent_ready_notified a = true ∧ agent_dead_notified a = true)
    (λ _ _, False) (h, new_agent) ∧
  ∀ events a, nd_agent n = new_agent → run_agent events new_agent = (a, Ok tt) → agent_ready_notified a = true →
    wp (begin steady_now events) (λ _ _, True) (λ e _, catchable e) (h, n).
Proof. split; [apply invoke_daemon_spec|]. intros events a. apply begin_wakes. Qed.

(** The drive gets the first free letter from D: when Dokan reports every
    letter before [l] as taken and mounts [l], the file system is mounted there;
    when all of D to Z are taken, mounting fails with that message.  The search
    always ends. *)
Theorem mounts_first_free_letter (h : host W) (w' : W) (n : nandroid N) (l : Z) :
  (letter_D ≤ l ≤ letter_Z →
   (∀ l', letter_D ≤ l' < l → DokanCreateFileSystem l' (hs_os h) = (hs_os h, DOKAN_MOUNT_ERROR)) →
   DokanCreateFileSystem l (hs_os h) = (w', DOKAN_SUCCESS) →
   mount_filesystem (h, n) = ((mkHost w' (adb_invoke_path h), set_instance l n), Ok tt)) ∧
  ((∀ l', letter_D ≤ l' ≤ letter_Z → DokanCreateFileSystem l' (hs_os h) = (hs_os h, DOKAN_MOUNT_ERROR)) →
   mount_filesystem (h, n) =
     ((h, n), Throw (RuntimeError "No valid mount points found! All drive letters must be occupied"))).
Proof.
  destruct h as [w p]. unfold mount_filesystem, bind, on_os, zoom. unfold letter_D, letter_Z.
  cbn [view fst_lens os_lens hs_os fst update]. split.
  - intros Hl Hbusy Hfree. erewrite mount_loop_first; [done|..]; unfold letter_Z in *; try done; try lia.
  - intros Hbusy. rewrite mount_loop_full; [done|..]; unfold letter_Z in *; try done; try lia.
Qed.
End Claims.

(** ** The concrete system's drives *)
Definition set_letters (l : list Z) (w : mini_os) : mini_os :=
  MiniOs (os_open w) (os_pending w) (os_exits w) (os_program w) (os_ran w) l
    (os_sockets w) (os_peers w) (os_uses w) (os_reach w).

#[global] Instance mini_dokan : Dokan mini_os := {|
  DokanCreateFileSystem l w :=
    if bool_decide (l ∈ os_letters w) then (w, DOKAN_MOUNT_ERROR)
    else (set_letters (l :: os_letters w) w, DOKAN_SUCCESS);
  DokanCloseHandle l w := (set_letters (base.filter (λ x, x ≠ l) (os_letters w)) w, tt);
|}.

(** adb on the path: [adb devices] prints [listing], everything else works. *)
Definition working_adb (listing : bytes) (c : wstring) : option (list bytes * Z) :=
  if bool_decide (c = command_line (ws (bs "adb")) (ws (bs "devices"))) then Some ([listing], 0)
  else Some ([], 0).

(** adb that can be started but fails at everything. *)
Definition broken_adb (c : wstring) : option (list bytes * Z) := Some ([bs "adb: error"], 1).

Module NandroidWitnesses.
Import SingleByteStrings.
Definition clock (i : nat) : Z := 0.
Definition busy : mini_os := MiniOs [] ∅ ∅ (working_adb []) [] [68; 69] [] ∅ 0 [25989].
Definition device : nandroid pipe := mkNandroid (bs "1WMHH") (ws (bs "1WMHH")) new_agent false None None 25989.

Example device_created : new_nandroid (bs "1WMHH") 25989 = Ok device.
Proof. reflexivity. Qed.

Definition started : host mini_os * nandroid pipe * result unit :=
  begin clock [Output (bs "NANDROID_READY_FOR"); Output (bs "_CONNECTION" ++ [newline])] (mkHost busy None, device).

(** The whole start-up: the ready message in two pieces, the third letter. *)
Example begin_mounts :
  snd started = Ok tt ∧ nd_instance (snd (fst started)) = Some 70 ∧
  os_ran (hs_os (fst (fst started))) =
    [ ws (bs "adb");
      ws (bs "adb -s 1WMHH push ") ++ [quote] ++ ws (bs "C:\nandroidfs\nandroid-daemon") ++ [quote] ++
        ws (bs " /data/local/tmp/nandroid-daemon");
      ws (bs "adb -s 1WMHH shell chmod +x /data/local/tmp/nandroid-daemon");
      ws (bs "adb -s 1WMHH forward tcp:25989 tcp:28933") ].
Proof. vm_compute. done. Qed.

(** Taken down again, nothing is left of it. *)
Example destroyed_clean :
  match destroy true (fst (fst started)) (snd (fst started)) with
  | Done h => os_letters (hs_os h) = [68; 69] ∧ os_sockets (hs_os h) = [] ∧ os_uses (hs_os h) = 0 ∧ os_open (hs_os h) = []
  | _ => False
  end.
Proof. vm_compute. done. Qed.

(** The ready message cut in two, with text before and after it. *)
Definition cut_output : list bytes :=
  [bs "starting" ++ [newline] ++ bs "NANDROID_READY_FOR"; bs "_CONNECTION" ++ [newline] ++ bs "wai"].

Lemma agent_ready_detected_witness :
  agent_ready (fst (run_agent (map Output cut_output) new_agent)) = true ∧
  agent_ready (fst (run_agent (map Output (take 1 cut_output)) new_agent)) = false ∧
  wp (run_agent (map Output cut_output ++ [Exited]))
    (λ _ a, agent_ready a = false ∧ agent_ready_notified a = true ∧ agent_dead_notified a = true)
    (λ _ _, False) new_agent.
Proof.
  split; [vm_compute; reflexivity|]. split; [vm_compute; reflexivity|].
  exact (proj2 (agent_ready_detected cut_output)).
Defined.

Lemma mounts_first_free_letter_witness :
  mount_filesystem (mkHost busy None, device) =
    ((mkHost (set_letters [70; 68; 69] busy) None, set_instance 70 device), Ok tt).
Proof.
  apply (proj1 (mounts_first_free_letter (mkHost busy None) (set_letters [70; 68; 69] busy) device 70)).
  - unfold letter_D, letter_Z. lia.
  - unfold letter_D. intros l' Hl'. assert (l' = 68 ∨ l' = 69) as [-> | ->] by lia; reflexivity.
  - reflexivity.
Defined.

Lemma starter_is_woken_witness :
  wp (begin clock [Output (AGENT_READY_MSG ++ [newline])]) (λ _ _, True) (λ e _, catchable e)
    (mkHost busy None, device).
Proof.
  refine (proj2 (starter_is_woken (ws (bs "1WMHH")) (mkHost busy None) clock device)
    [Output (AGENT_READY_MSG ++ [newline])]
    (mkAgent [] true true false [AGENT_READY_MSG]) _ _ _); vm_compute; reflexivity.
Defined.
End NandroidWitnesses.
