(* ===== verification/DeviceTracker.v ===== *)
(** * The devices: nandroidfs/DeviceTracker.cpp

    Which devices adb reports as authorized, and the set of mounted instances kept
    in step with them. *)

From S2P Require Import Prelude Effects Endian Wire Serialization Socket Requests Responses.
From S2P Require Import PathUtils Conversion TimedCache WinPath Adb Connection Client Connect Lines Nandroid.

(** ** Parsing [adb devices] *)
Definition tab : byte := x09.
Definition LIST_HEADER : bytes := bs "List of devices attached".
Definition DEVICE_STATUS : bytes := bs "device".

(** The serial number in a line, if it is that of an authorized device. *)
Definition device_of_line (line : bytes) : option bytes :=
  let line := drop_ending carriage_return line in
  if bool_decide (line = LIST_HEADER) || bool_decide (line = []) then None
  else
    match find line tab 0 with
    | None => None
    | Some tab_idx =>
        let serial_no := substr line 0 tab_idx in
        let status := drop (S tab_idx) line in
        if bool_decide (status = DEVICE_STATUS) then Some serial_no else None
    end.

(** The loop over the newlines; [start] is [prev_newline_pos + 1].  [None] is a
    loop that ran out of its bound. *)
Fixpoint scan_devices (fuel : nat) (output : bytes) (start : nat) (devices : gset bytes)
    : option (gset bytes) :=
  match fuel with
  | O => None
  | S fuel =>
      match find output newline start with
      | None => Some devices
      | Some next_newline_pos =>
          let line := substr output start (next_newline_pos - start) in
          scan_devices fuel output (S next_newline_pos)
            (match device_of_line line with Some s => {[ s ]} ∪ devices | None => devices end)
      end
  end.

Definition list_authorized_adb_devices (output : bytes) : option (gset bytes) :=
  scan_devices (S (length output)) output 0 ∅.

(** The serials of the lines that name an authorized device. *)
Definition devices_in (lines : list bytes) : gset bytes := list_to_set (omap device_of_line lines).

Lemma scan_devices_spec fuel output start devices :
  (length (drop start output) < fuel)%nat →
  scan_devices fuel output start devices = Some (devices_in (fst (lines_of (drop start output))) ∪ devices).
Proof.
  revert start devices. induction fuel as [|fuel IH]; intros start devices Hf; [lia|]. simpl.
  pose proof (find_newline output start) as Hn. destruct (find output newline start) as [j|].
  - destruct Hn as (l & Hl & -> & E). rewrite E, lines_of_line by done. cbn [fst].
    unfold substr. rewrite E. replace (start + length l - start)%nat with (length l) by lia.
    rewrite take_app_length, IH.
    + unfold devices_in. simpl. destruct (device_of_line l); simpl; f_equal; set_solver.
    + rewrite E, length_app in Hf. simpl in Hf. lia.
  - rewrite lines_of_partial by done. unfold devices_in. simpl. f_equal. set_solver.
Qed.

(** A line as adb prints it. *)
Definition adb_line (serial status : bytes) : bytes := serial ++ tab :: status ++ [carriage_return].

Lemma find_tab s t : tab ∉ s → find (s ++ tab :: t) tab 0 = Some (length s).
Proof.
  intros Hs. unfold find. rewrite drop_0.
  assert (Hg : ∀ i, find_from tab (s ++ tab :: t) i = Some (i + length s)%nat); [|by rewrite Hg].
  induction s as [|c s IH]; intros i; simpl; [f_equal; lia|].
  apply not_elem_of_cons in Hs as [Hc Hs]. rewrite bool_decide_false by congruence.
  rewrite IH by done. f_equal. lia.
Qed.

Lemma device_of_adb_line serial status :
  tab ∉ serial → tab ∉ status →
  device_of_line (adb_line serial status) =
    if bool_decide (status = DEVICE_STATUS) then Some serial else None.
Proof.
  intros Hs Ht. unfold device_of_line.
  assert (E : drop_ending carriage_return (adb_line serial status) = serial ++ tab :: status).
  { unfold drop_ending, adb_line. rewrite app_comm_cons, app_assoc, ends_with_char_snoc.
    by rewrite bool_decide_true, pop_back_snoc. }
  rewrite E. cbv zeta. rewrite (bool_decide_false (_ = LIST_HEADER)).
  - rewrite (bool_decide_false (_ = [])) by (by destruct serial). simpl.
    rewrite find_tab by done. unfold substr. rewrite drop_0, take_app_length.
    replace (drop (S (length serial)) (serial ++ tab :: status)) with status; [done|].
    rewrite cons_middle, app_assoc. symmetry. apply drop_app_length'. rewrite length_app. simpl. lia.
  - intros E'. assert (tab ∈ LIST_HEADER) by (rewrite <- E'; set_solver).
    assert (Hno : tab ∉ LIST_HEADER) by (apply (bool_decide_eq_true_1 _); vm_compute; reflexivity).
    done.
Qed.

(** ** The tracker *)
Record tracker (W N : Type) : Type := mkTracker {
  tr_host : host W;
  current_port : Z;
  instances : gmap bytes (nandroid N);
  failed_to_connect : gset bytes;
}.
Arguments mkTracker {W N} _ _ _ _.
Arguments tr_host {W N} _.
Arguments current_port {W N} _.
Arguments instances {W N} _.
Arguments failed_to_connect {W N} _.

Definition new_tracker {W N} (h : host W) : tracker W N := mkTracker h 25989 ∅ ∅.

Section Tracker.
Context {W N : Type} `{Processes W} `{!ExePath W} `{!Winsock W N} `{!Dokan W} `{!Socket N} `{WideStrings}.
Context (steady_now : nat → Z).
(** What the agent of a device prints until its starter wakes up, and whether it
    ends in time when its connection is closed. *)
Context (agent_of : bytes → host W → list agent_event) (exits : bytes → host W → bool).
(** The order in which an [unordered_set] or [unordered_map] is walked. *)
Context (order : gset bytes → list bytes).
Implicit Types t : tracker W N.

(** A start that fails with an exception has the instance deleted, and the exception
    is passed on. *)
Definition connect_to_device_internal (serial : bytes) t : fate (tracker W N * result unit) :=
  match new_nandroid serial (current_port t) with
  | Throw e => if is_catchable e then Done (t, Throw e) else Stuck
  | Ok n =>
      let port := to_u16 (current_port t + 1) in
      match begin steady_now (agent_of serial (tr_host t)) (tr_host t, n) with
      | ((h, n), Ok _) =>
          Done (mkTracker h port (<[serial := n]> (instances t)) (failed_to_connect t), Ok tt)
      | ((h, n), Throw e) =>
          if is_catchable e then
            let? h := destroy (exits serial h) h n in
            Done (mkTracker h port (instances t) (failed_to_connect t), Throw e)
          else Stuck
      end
  end.

Definition connect_to_device := connect_to_device_internal.

(** [unmount_device], which a device calls on itself. *)
Definition unmount_device (handle : nandroid N) t : fate (tracker W N) :=
  let? h := destroy (exits (nd_serial handle) (tr_host t)) (tr_host t) handle in
  Done (mkTracker h (current_port t) (delete (nd_serial handle) (instances t)) (failed_to_connect t)).

(** One turn of the last loop of [update_connected_devices]. *)
Definition remove_device (serial : bytes) t : fate (tracker W N) :=
  match instances t !! serial with
  | Some n =>
      let? h := destroy (exits serial (tr_host t)) (tr_host t) n in
      Done (mkTracker h (current_port t) (delete serial (instances t)) (failed_to_connect t))
  | None => Done t
  end.

(** One device of the first loop of [update_connected_devices]. *)
Definition consider_device (serial : bytes) t : fate (tracker W N) :=
  if bool_decide (serial ∈ dom (instances t)) || bool_decide (serial ∈ failed_to_connect t) then Done t
  else
    let? ' (t, r) := connect_to_device_internal serial t in
    match r with
    | Ok _ => Done t
    | Throw e =>
        Done (mkTracker (tr_host t) (current_port t) (instances t) ({[ serial ]} ∪ failed_to_connect t))
    end.

Fixpoint for_each (f : bytes → tracker W N → fate (tracker W N)) (l : list bytes) t : fate (tracker W N) :=
  match l with
  | [] => Done t
  | s :: l => let? t := f s t in for_each f l t
  end.

Definition update_connected_devices t : fate (tracker W N * result unit) :=
  match invoke_adb (ws (bs "devices")) (tr_host t) with
  | (h, Throw e) =>
      if is_catchable e then Done (mkTracker h (current_port t) (instances t) (failed_to_connect t), Throw e)
      else Stuck
  | (h, Ok output) =>
      let t := mkTracker h (current_port t) (instances t) (failed_to_connect t) in
      match list_authorized_adb_devices output with
      | None => Stuck
      | Some devices =>
          let? t := for_each consider_device (order devices) t in
          let? t := for_each remove_device (order (dom (instances t) ∖ devices)) t in
          Done (t, Ok tt)
      end
  end.

(** The destructor: [delete pair.second] for every instance. *)
Fixpoint delete_instances (l : list bytes) t (h : host W) : fate (host W) :=
  match l with
  | [] => Done h
  | serial :: l =>
      match instances t !! serial with
      | Some n => let? h := destroy (exits serial h) h n in delete_instances l t h
      | None => delete_instances l t h
      end
  end.

Definition destroy_tracker t : fate (host W) :=
  delete_instances (order (dom (instances t))) t (tr_host t).

(** ** Invariants of the two loops *)

(** Every instance has its thread and carries the serial it is stored under. *)
Definition running t : Prop :=
  ∀ s n, instances t !! s = Some n → nd_thread n = true ∧ nd_serial n = s.

(** The events of an agent's thread that happen before its starter wakes up include the
    notification, which comes on every path of the thread ([invoke_daemon_spec]). *)
Definition agents_notify : Prop :=
  ∀ s h, ∃ a, run_agent (agent_of s h) new_agent = (a, Ok tt) ∧ agent_ready_notified a = true.

(** The start of the device failed before its agent's thread was started. *)
Definition unprepared (s : bytes) : Prop :=
  ∃ h port n h' n' e, new_nandroid s port = Ok n ∧
    begin (N := N) steady_now (agent_of s h) (h, n) = ((h', n'), Throw e) ∧ nd_thread n' = false.

Definition considered (l : list bytes) t t' : Prop :=
  running t' ∧ failed_to_connect t ⊆ failed_to_connect t' ∧
  failed_to_connect t' ⊆ failed_to_connect t ∪ list_to_set l ∧
  (∀ s n, instances t !! s = Some n → instances t' !! s = Some n) ∧
  dom (instances t') ⊆ dom (instances t) ∪ list_to_set l ∧
  (∀ s, s ∈ failed_to_connect t → s ∉ dom (instances t) → s ∉ dom (instances t')) ∧
  ∀ s, s ∈ l → s ∈ dom (instances t') ∨ s ∈ failed_to_connect t'.

(** A device that was to be tried is unprepared. *)
Definition one_unprepared (l : list bytes) t : Prop :=
  ∃ s, s ∈ l ∧ s ∉ dom (instances t) ∧ s ∉ failed_to_connect t ∧ unprepared s.
End Tracker.

Section Rounds.
Context {W N : Type} `{ProcessLaws W} `{!ExePath W} `{WinsockLaws W N} `{!Dokan W} `{WideStrings}.
Context (steady_now : nat → Z).
Context (agent_of : bytes → host W → list agent_event) (exits : bytes → host W → bool).
Context (order : gset bytes → list bytes).
Implicit Types t : tracker W N.
Context (conversion_throws : ∀ name e, from_bytes name = Throw e → catchable e).
Context (notified : agents_notify agent_of).

Lemma destroy_running b (h : host W) (n : nandroid N) : nd_thread n = true → ∃ h', destroy b h n = Done h'.
Proof.
  intros Hn. pose proof (destroy_spec b h n) as Hd. rewrite Hn in Hd. destruct (destroy b h n); [by eexists|done..].
Qed.

Lemma destroy_tracker_runs t : running t → ∃ h, destroy_tracker exits order t = Done h.
Proof.
  intros Hr. unfold destroy_tracker. generalize (tr_host t). induction (order _) as [|s l IH]; intros h; simpl; [by eexists|].
  destruct (instances t !! s) as [n|] eqn:En; [|apply IH].
  destruct (destroy_running (exits s h) h n) as [h' ->]; [by apply (Hr s)|apply IH].
Qed.

(** A start works, or fails with an exception and has the instance deleted. *)
Lemma connect_device_spec s t :
  fwp (connect_to_device_internal steady_now agent_of exits s t)
    (λ '(t', r), failed_to_connect t' = failed_to_connect t ∧
       match r with
       | Ok _ => ∃ n, nd_thread n = true ∧ nd_serial n = s ∧ instances t' = <[s := n]> (instances t)
       | Throw e => instances t' = instances t
       end)
    (unprepared (N := N) steady_now agent_of s).
Proof.
  unfold connect_to_device_internal. destruct (new_nandroid s (current_port t)) as [n0|e] eqn:En.
  2: { unfold new_nandroid, wstring_from_string in En. destruct (from_bytes s) eqn:E; [done|].
       injection En as <-. apply conversion_throws in E. unfold catchable in E. by rewrite E. }
  pose proof En as En'. unfold new_nandroid in En'. destruct (wstring_from_string s) as [w|]; [injection En' as <-|done].
  set (n0 := mkNandroid _ _ _ _ _ _ _) in *.
  destruct (notified s (tr_host t)) as (a & Hrun & Ha).
  pose proof (wp_conj _ _ _ _ _ _ (begin_thread steady_now (agent_of s (tr_host t)) (tr_host t) n0)
    (begin_wakes steady_now _ a (tr_host t) n0 eq_refl Hrun Ha)) as Hb. unfold wp in Hb.
  destruct (begin steady_now _ _) as [[h n] [[]|e]] eqn:Eb; simpl in Hb.
  - split; [done|]. by exists n; destruct Hb as [[? ?] _].
  - destruct Hb as [_ He]. unfold catchable in He. rewrite He. apply fwp_bind.
    eapply fwp_mono; [apply destroy_spec|done|]. intros Hn. by exists (tr_host t), (current_port t), n0, h, n, e.
Qed.

Lemma consider_device_spec s t :
  running t →
  fwp (consider_device steady_now agent_of exits s t) (considered [s] t) (one_unprepared steady_now agent_of [s] t).
Proof.
  intros Hr. unfold consider_device.
  assert (Hsame : s ∈ dom (instances t) ∨ s ∈ failed_to_connect t → considered [s] t t).
  { intros Hs. unfold considered. split_and!; try done; [set_solver..|]. by intros s' ->%list_elem_of_singleton. }
  case_bool_decide as Hin; simpl; [by apply Hsame; left|].
  case_bool_decide as Hf; simpl; [by apply Hsame; right|].
  apply fwp_bind. eapply fwp_mono; [apply connect_device_spec| |].
  - intros [t' [[]|e]] [Ef Hi]; simpl.
    + destruct Hi as (n & Hn & Hser & Hi). unfold considered, running. rewrite Hi, Ef, dom_insert.
      apply not_elem_of_dom in Hin. split_and!; [|set_solver..| |set_solver| |].
      * intros s' n'. intros [[<- <-]|[_ Hl]]%lookup_insert_Some; [done|by apply Hr].
      * intros s' n' Hl. rewrite lookup_insert_ne; [done|]. congruence.
      * intros s'. set_solver.
      * intros s'. set_solver.
    + unfold considered, running. simpl. rewrite Hi, Ef. split_and!; [done|set_solver..|]. intros s'. set_solver.
  - intros Hu. exists s. split_and!; [set_solver|done..].
Qed.

Lemma considered_trans s l t t1 t2 : considered [s] t t1 → considered l t1 t2 → considered (s :: l) t t2.
Proof.
  intros (Hr1 & Hf1 & Hg1 & Hi1 & Hd1 & Hn1 & Hs1) (Hr2 & Hf2 & Hg2 & Hi2 & Hd2 & Hn2 & Hs2).
  split_and!; [done|clear -Hf1 Hf2; set_solver|clear -Hg1 Hg2; set_solver|by auto
              |clear -Hd1 Hd2; set_solver|by auto|].
  intros s' [->|Hs']%elem_of_cons; [|by auto].
  destruct (Hs1 s ltac:(apply elem_of_cons; by left)) as [[n Hn]%elem_of_dom|]; [left|right; by apply Hf2].
  apply elem_of_dom. eauto.
Qed.

Lemma consider_all l t :
  running t →
  fwp (for_each (consider_device steady_now agent_of exits) l t) (considered l t)
    (one_unprepared steady_now agent_of l t).
Proof.
  revert t. induction l as [|s l IH]; intros t Hr; simpl.
  { unfold considered. split_and!; try done; [set_solver..|]. intros s. set_solver. }
  apply fwp_bind. eapply fwp_mono; [by apply consider_device_spec| |].
  - intros t1 H1'. pose proof H1' as (Hr1 & Hf1 & _ & Hi1 & _). eapply fwp_mono; [by apply IH| |].
    + intros t2. by apply considered_trans.
    + intros (s' & Hs' & Hd & Hf & Hu). exists s'. split_and!; [by apply elem_of_cons; right| |set_solver|done].
      intros [n Hn]%elem_of_dom. apply Hd. apply elem_of_dom. eauto.
  - intros (s' & Hs' & Hd & Hf & Hu). exists s'. split_and!; [set_solver|done..].
Qed.

Lemma unmount_all l t :
  running t →
  ∃ t', for_each (remove_device exits) l t = Done t' ∧ running t' ∧ failed_to_connect t' = failed_to_connect t ∧
    ∀ s, instances t' !! s = if bool_decide (s ∈ l) then None else instances t !! s.
Proof.
  revert t. induction l as [|s l IH]; intros t Hr; simpl.
  { exists t. split_and!; done. }
  assert (Hone : ∃ t1, remove_device exits s t = Done t1 ∧ failed_to_connect t1 = failed_to_connect t ∧
    instances t1 = delete s (instances t)).
  { unfold remove_device. destruct (instances t !! s) as [n|] eqn:E.
    - destruct (destroy_running (exits s (tr_host t)) (tr_host t) n) as [w ->]; [by apply (Hr s)|]. eauto.
    - exists t. by rewrite delete_id. }
  destruct Hone as (t1 & -> & Hf & Hi). simpl. destruct (IH t1) as (t2 & -> & Hr2 & Hf2 & Hi2).
  { intros s' n. rewrite Hi. intros [_ Hl]%lookup_delete_Some. by apply Hr. }
  exists t2. split_and!; [done|done|congruence|]. intros s'. rewrite Hi2, Hi.
  destruct (decide (s' = s)) as [->|Hne].
  - rewrite lookup_delete_eq, (bool_decide_true (s ∈ s :: l)) by set_solver. by case_bool_decide.
  - rewrite lookup_delete_ne by done. by rewrite (bool_decide_ext (s' ∈ s :: l) (s' ∈ l)) by set_solver.
Qed.

(** No round gets stuck, and what it throws are C++ exceptions. *)
Lemma for_each_returns (f : bytes → tracker W N → fate (tracker W N)) l t :
  (∀ s t, fwp (f s t) (λ _, True) True) → fwp (for_each f l t) (λ _, True) True.
Proof.
  intros Hf. revert t. induction l as [|s l IH]; intros t; [done|]. simpl. apply fwp_bind.
  eapply fwp_mono; [apply Hf| |done]. intros t' _. apply IH.
Qed.

Lemma update_returns t :
  fwp (update_connected_devices steady_now agent_of exits order t)
    (λ '(t', r), match r with Ok _ => True | Throw e => catchable e end) True.
Proof.
  unfold update_connected_devices. pose proof (invoke_adb_catchable (ws (bs "devices")) (tr_host t)) as Ha.
  unfold wp in Ha. destruct (invoke_adb _ _) as [h [output|e]].
  2: { unfold catchable in *. by rewrite Ha. }
  unfold list_authorized_adb_devices. rewrite scan_devices_spec by (rewrite drop_0; lia). cbv zeta.
  assert (Hdestroy : ∀ b h (n : nandroid N), fwp (destroy b h n) (λ _, True) True)
    by (intros; eapply fwp_mono; [apply destroy_spec|done..]).
  apply fwp_bind. eapply fwp_mono; [apply for_each_returns| |done].
  - intros s t1. unfold consider_device. destruct (_ || _); [done|]. apply fwp_bind.
    eapply fwp_mono; [apply connect_device_spec| |done]. intros [t2 [[]|e]] _; done.
  - intros t1 _. apply fwp_bind. eapply fwp_mono; [apply for_each_returns|done|done].
    intros s t2. unfold remove_device. destruct (instances t2 !! s); [|done]. apply fwp_bind.
    eapply fwp_mono; [apply Hdestroy|done|done].
Qed.

Lemma destroy_tracker_returns t : fwp (destroy_tracker exits order t) (λ _, True) True.
Proof.
  unfold destroy_tracker. generalize (tr_host t). induction (order _) as [|s l IH]; intros h; simpl; [done|].
  destruct (instances t !! s) as [n|]; [|apply IH]. apply fwp_bind.
  eapply fwp_mono; [apply destroy_spec| |done]. intros h' _. apply IH.
Qed.

(** What a round leaves behind, the devices [D] being listed. *)
Definition tracks (D : gset bytes) t t' : Prop :=
  running t' ∧ dom (instances t') ⊆ D ∧ D ⊆ dom (instances t') ∪ failed_to_connect t' ∧
  failed_to_connect t ⊆ failed_to_connect t' ⊆ failed_to_connect t ∪ D ∧
  (∀ s n, s ∈ D → instances t !! s = Some n → instances t' !! s = Some n) ∧
  (∀ s, s ∈ failed_to_connect t → s ∉ dom (instances t) → s ∉ dom (instances t')).

Lemma update_spec t h output :
  (∀ X, order X ≡ₚ elements X) → running t → invoke_adb (ws (bs "devices")) (tr_host t) = (h, Ok output) →
  fwp (update_connected_devices steady_now agent_of exits order t)
    (λ '(t', r), r = Ok tt ∧ tracks (devices_in (fst (lines_of output))) t t')
    (∃ s, s ∈ devices_in (fst (lines_of output)) ∧ s ∉ dom (instances t) ∧ s ∉ failed_to_connect t ∧
       unprepared (N := N) steady_now agent_of s).
Proof.
  intros Hord Hr Hadb. unfold update_connected_devices. rewrite Hadb.
  unfold list_authorized_adb_devices. rewrite scan_devices_spec by (rewrite drop_0; lia).
  rewrite drop_0. cbv zeta. set (D := devices_in _). rewrite !(union_empty_r_L D).
  set (t0 := mkTracker _ _ _ _).
  assert (Hin : ∀ X s, s ∈ order X ↔ s ∈ X) by (intros X s; rewrite Hord; apply elem_of_elements).
  apply fwp_bind. eapply fwp_mono; [by apply (consider_all (order D) t0)| |].
  2: { intros (s & Hs & ?). exists s. by rewrite <- (Hin D). }
  intros t1 (Hr1 & Hf1 & Hg1 & Hi1 & Hd1 & Hn1 & Hs1). cbv beta.
  destruct (unmount_all (order (dom (instances t1) ∖ D)) t1 Hr1) as (t2 & -> & Hr2 & Hf2 & Hi2). simpl.
  assert (Hl : list_to_set (order D) = D) by (apply set_eq; intros s; by rewrite elem_of_list_to_set, Hin).
  assert (Hdom : ∀ s, s ∈ dom (instances t2) ↔ s ∈ dom (instances t1) ∧ s ∈ D).
  { intros s. rewrite !elem_of_dom, Hi2. case_bool_decide as Hs; rewrite Hin, elem_of_difference, elem_of_dom in Hs;
      [split; [by intros []|tauto]|]. split; [|tauto]. intros Hx. split; [done|]. by apply dec_stable; tauto. }
  rewrite Hl in *. split; [done|]. split_and!; [done|set_solver| |rewrite Hf2; set_solver|rewrite Hf2; set_solver| |].
  - intros s Hs. rewrite elem_of_union, Hdom, Hf2. destruct (Hs1 s) as [?|?]; [by apply Hin|auto|auto].
  - intros s n Hs Hn. rewrite Hi2, bool_decide_false by (rewrite Hin; set_solver). by apply Hi1.
  - intros s Hs Hd [Hs' _]%Hdom. by apply (Hn1 s).
Qed.
End Rounds.

(** ** Claims *)
Section Claims.
Context {W N : Type} `{ProcessLaws W} `{!ExePath W} `{WinsockLaws W N} `{!Dokan W} `{WideStrings}.
Context (steady_now : nat → Z).
Context (agent_of : bytes → host W → list agent_event) (exits : bytes → host W → bool).
Context (order : gset bytes → list bytes).
Implicit Types t : tracker W N.


(** C40. A device that cannot be prepared ends the program: when the daemon cannot be
    found or adb fails to copy it to the device, the exception makes the tracker
    delete the instance, whose destructor joins a thread that was never started;
    that throws in a destructor, so the connection attempt ends the program, instead
    of failing with an exception. *)
Theorem failed_preparation_ends_program serial t wide :
  wstring_from_string serial = Ok wide →
  match get_abs_path_from_rel_to_exe AGENT_REL_PATH (hs_os (tr_host t)) with
  | None => True
  | Some path => ∃ h' e, invoke_adb_with_serial wide (push_args path) (tr_host t) = (h', Throw e)
  end →
  connect_to_device steady_now agent_of exits serial t = Ended.
Proof.
  intros Hw Hfail. unfold connect_to_device, connect_to_device_internal, new_nandroid. rewrite Hw.
  unfold begin, bind at 1, gets. cbn [fst].
  assert (Hend : ∀ (h : host W) (n : nandroid N), nd_thread n = false → destroy (exits serial h) h n = Ended).
  { intros h n Hn. pose proof (destroy_spec (exits serial h) h n) as Hd. rewrite Hn in Hd. by destruct (destroy _ h n). }
  destruct (get_abs_path_from_rel_to_exe _ _) as [path|].
  - destruct Hfail as (h' & e & Hrun). pose proof (invoke_adb_with_serial_catchable wide (push_args path) (tr_host t)) as He.
    unfold wp in He. rewrite Hrun in He. unfold adb_for_device, bind, gets, zoom.
    cbn [snd fst fst_lens view nd_wide_serial]. rewrite Hrun. unfold catchable in He. rewrite He. cbn [update fst_lens snd]. by rewrite Hend.
  - cbn [throw is_catchable]. by rewrite Hend.
Qed.
End Claims.

Module TrackerWitnesses.
Import SingleByteStrings.

Definition quick (i : nat) : Z := 0.
Definition prompt_agent {W} (s : bytes) (h : W) : list agent_event :=
  [Output (AGENT_READY_MSG ++ [newline])].
Definition in_time {W} (s : bytes) (h : W) : bool := true.

Lemma prompt_notifies : agents_notify (@prompt_agent (host mini_os)).
Proof. intros s h. eexists. split; [vm_compute; reflexivity|reflexivity]. Qed.

Lemma narrow_throws name e : from_bytes name = Throw e → catchable e.
Proof. done. Qed.

(** One device is mounted and gone; adb lists one that is new and one that is not
    authorized. *)
Definition listing : bytes :=
  LIST_HEADER ++ [newline] ++ adb_line (bs "new") DEVICE_STATUS ++ [newline] ++
  adb_line (bs "locked") (bs "unauthorized") ++ [newline].
Definition gone : nandroid pipe :=
  mkNandroid (bs "gone") (ws (bs "gone")) new_agent true None (Some 68) 25989.
Definition attached : host mini_os :=
  mkHost (MiniOs [] ∅ ∅ (working_adb listing) [] [68] [] ∅ 0 [25989; 25990]) None.
Definition tracker0 : tracker mini_os pipe := mkTracker attached 25990 {[ bs "gone" := gone ]} ∅.

Lemma tracker0_running : running tracker0.
Proof. intros s n. simpl. rewrite lookup_singleton_Some. by intros [<- <-]. Qed.

(** The new device is mounted on the second letter, the other one is gone. *)
Example round_mounts :
  match update_connected_devices quick prompt_agent in_time elements tracker0 with
  | Done (t', Ok _) => (nd_instance <$> instances t') = {[ bs "new" := Some 69 ]}
  | _ => False
  end.
Proof. vm_compute. reflexivity. Qed.


Definition no_adb : tracker mini_os pipe :=
  mkTracker (mkHost (MiniOs [] ∅ ∅ broken_adb [] [] [] ∅ 0 []) None) 25990 ∅ ∅.

Lemma failed_preparation_ends_program_witness :
  connect_to_device quick prompt_agent in_time (bs "new") no_adb = Ended.
Proof.
  apply (failed_preparation_ends_program quick prompt_agent in_time (bs "new") no_adb (ws (bs "new")));
    [reflexivity|]. vm_compute. eexists _, _. reflexivity.
Defined.
End TrackerWitnesses.
