(* ===== verification/TrayMenu.v ===== *)
(** * The tray menu: nandroidfs/TrayMenu.hpp and TrayMenu.cpp

    The icon in the notification area with its menu, the console that can be shown
    and hidden from there, and the thread that handles the messages.  Windows is an
    interface: what each call acquires, releases and shows. *)

From S2P Require Import Prelude Effects Conversion WinPath.

(** ** The window system *)

(** What a process can hold of it: the window class of the tray menu, windows of that
    class, icons, menus and tray icons. *)
Inductive resource : Type :=
  | RClass
  | RWindow (window : Z)
  | RIcon (icon : Z)
  | RMenu (menu : Z)
  | RTray (window id : Z).

#[global] Instance resource_eq_dec : EqDecision resource.
Proof. solve_decision. Defined.

#[global] Instance resource_countable : Countable resource.
Proof.
  refine (inj_countable'
    (λ r, match r with
          | RClass => inl (inl tt)
          | RWindow w => inl (inr w)
          | RIcon i => inr (inl i)
          | RMenu m => inr (inr (inl m))
          | RTray w i => inr (inr (inr (w, i)))
          end)
    (λ c, match c with
          | inl (inl _) => RClass
          | inl (inr w) => RWindow w
          | inr (inl i) => RIcon i
          | inr (inr (inl m)) => RMenu m
          | inr (inr (inr (w, i))) => RTray w i
          end) _).
  by intros [].
Defined.

(** Handles are zero when a call fails; [ExtractIcon] can also give 1, which is no
    icon.  [DefWindowProc] tells whether it sent the window the message to close, as it
    does for a system command.  The observations: the resources held, the console
    ([None]: there is none; otherwise whether it is shown), whether one can be
    allocated, and whether an item of a menu is checked. *)
Class Gui (G : Type) : Type := {
  RegisterClass : G → G * bool;
  UnregisterClass : G → G * unit;
  CreateWindowEx : G → G * Z;
  DestroyWindow : Z → G → G * unit;
  ExtractIcon : option wstring → G → G * Z;
  DestroyIcon : Z → G → G * unit;
  CreatePopupMenu : G → G * Z;
  InsertMenu : Z → Z → wstring → G → G * bool;
  SetMenuItemInfo : Z → Z → bool → G → G * bool;
  TrackPopupMenu : Z → G → G * unit;
  Shell_NotifyIcon_add : Z → Z → Z → G → G * bool;
  Shell_NotifyIcon_setversion : Z → Z → G → G * bool;
  Shell_NotifyIcon_delete : Z → Z → G → G * unit;
  AllocConsole : G → G * bool;
  SetConsoleCtrlHandler : G → G * unit;
  ShowConsoleWindow : bool → G → G * unit;
  DefWindowProc : Z → Z → Z → G → G * bool;
  PostMessage : Z → Z * Z * Z → G → G * bool;
  resources : G → gset resource;
  console : G → option bool;
  console_available : G → bool;
  checked : Z → Z → G → bool;
}.

(** A call that has nothing to do with the console and the menu's marks. *)
Definition same_view {G} `{Gui G} (g g' : G) : Prop :=
  console g' = console g ∧ console_available g' = console_available g ∧
  ∀ m i, checked m i g' = checked m i g.

Definition acquires {G} `{Gui G} (r : resource) (g g' : G) : Prop :=
  r ∉ resources g ∧ resources g' = {[ r ]} ∪ resources g ∧ same_view g g'.
Definition releases {G} `{Gui G} (r : resource) (g g' : G) : Prop :=
  resources g' = resources g ∖ {[ r ]} ∧ same_view g g'.
Definition keeps {G} `{Gui G} (g g' : G) : Prop :=
  resources g' = resources g ∧ same_view g g'.

(** A window exists only as long as its class does, which cannot be unregistered
    before; a tray icon is removed by way of its window. *)
Definition no_window (X : gset resource) : Prop := ∀ w, RWindow w ∉ X.

Class GuiLaws (G : Type) `{Gui G} : Prop := {
  class_law : ∀ g, RClass ∉ resources g → no_window (resources g);
  register_law : ∀ g, let '(g', ok) := RegisterClass g in if ok then acquires RClass g g' else keeps g g';
  unregister_law : ∀ g, no_window (resources g) → releases RClass g (fst (UnregisterClass g));
  unregister_early_law : ∀ g w, RWindow w ∈ resources g → keeps g (fst (UnregisterClass g));
  window_law : ∀ g, let '(g', w) := CreateWindowEx g in if w =? 0 then keeps g g' else acquires (RWindow w) g g';
  destroy_window_law : ∀ w g, releases (RWindow w) g (fst (DestroyWindow w g));
  icon_law : ∀ p g, let '(g', i) := ExtractIcon p g in 
    if (i =? 0) || (i =? 1) then keeps g g' else acquires (RIcon i) g g';
  destroy_icon_law : ∀ i g, if i =? 1 then keeps g (fst (DestroyIcon i g)) else releases (RIcon i) g (fst (DestroyIcon i g));
  menu_law : ∀ g, let '(g', m) := CreatePopupMenu g in if m =? 0 then keeps g g' else acquires (RMenu m) g g';
  insert_law : ∀ m i t g, keeps g (fst (InsertMenu m i t g));
  item_law : ∀ m i b g, let '(g', ok) := SetMenuItemInfo m i b g in
    resources g' = resources g ∧ console g' = console g ∧ console_available g' = console_available g ∧
    ∀ m' i', checked m' i' g' = if ok && (m' =? m) && (i' =? i) then b else checked m' i' g;
  popup_law : ∀ m g, keeps g (fst (TrackPopupMenu m g));
  add_law : ∀ w i ic g, let '(g', ok) := Shell_NotifyIcon_add w i ic g in
    if ok then acquires (RTray w i) g g' else keeps g g';
  setversion_law : ∀ w i g, keeps g (fst (Shell_NotifyIcon_setversion w i g));
  delete_law : ∀ w i g, RWindow w ∈ resources g → releases (RTray w i) g (fst (Shell_NotifyIcon_delete w i g));
  alloc_law : ∀ g, let '(g', ok) := AllocConsole g in
    ok = console_available g ∧ resources g' = resources g ∧ (∀ m i, checked m i g' = checked m i g) ∧
    console_available g' = (if ok then false else console_available g) ∧
    (console g' = if ok then Some true else console g);
  handler_law : ∀ g, keeps g (fst (SetConsoleCtrlHandler g));
  show_law : ∀ b g, let g' := fst (ShowConsoleWindow b g) in
    resources g' = resources g ∧ (∀ m i, checked m i g' = checked m i g) ∧
    console g' = match console g with Some _ => Some b | None => None end;
  default_law : ∀ m w l g, keeps g (fst (DefWindowProc m w l g));
  post_law : ∀ w m g, keeps g (fst (PostMessage w m g));
}.

(** ** The object *)
Definition WM_CLOSE : Z := 0x10.
Definition WM_QUIT : Z := 0x12.
Definition WM_CONTEXTMENU : Z := 0x7B.
Definition WM_COMMAND : Z := 0x111.
Definition WM_APP : Z := 0x8000.
Definition TRAY_ICON_CLICK_MSG : Z := WM_APP + 1.
Definition QUIT_ITEM_ID : Z := 1.
Definition CONSOLE_ITEM_ID : Z := 2.
Definition CTRL_C_EVENT : Z := 0.
Definition default_tray_icon_id : Z := 1.

Definition LOWORD (z : Z) : Z := Z.land z 0xFFFF.
Definition HIWORD (z : Z) : Z := Z.land (Z.shiftr z 16) 0xFFFF.

(** The members; [tm_thread] is whether [event_loop_thread] was started. *)
Record TrayMenuManager : Type := mkTray {
  initialised : bool;
  init_succeeded : bool;
  init_process_finished : bool;
  alloced_console : bool;
  console_enabled : bool;
  window_class_registered : bool;
  tray_icon_window : Z;
  tray_icon_id : Z;
  right_click_menu : Z;
  exe_icon : Z;
  tm_thread : bool;
}.

Definition new_tray : TrayMenuManager := mkTray false false false false false false 0 0 0 0 false.

Definition set_init (i s f : bool) (t : TrayMenuManager) : TrayMenuManager :=
  mkTray i s f (alloced_console t) (console_enabled t) (window_class_registered t) (tray_icon_window t)
    (tray_icon_id t) (right_click_menu t) (exe_icon t) (tm_thread t).
Definition set_thread (t : TrayMenuManager) : TrayMenuManager :=
  mkTray (initialised t) (init_succeeded t) (init_process_finished t) (alloced_console t) (console_enabled t)
    (window_class_registered t) (tray_icon_window t) (tray_icon_id t) (right_click_menu t) (exe_icon t) true.
Definition set_console (a e : bool) (t : TrayMenuManager) : TrayMenuManager :=
  mkTray (initialised t) (init_succeeded t) (init_process_finished t) a e
    (window_class_registered t) (tray_icon_window t) (tray_icon_id t) (right_click_menu t) (exe_icon t) (tm_thread t).
Definition set_resources (c : bool) (w i m e : Z) (t : TrayMenuManager) : TrayMenuManager :=
  mkTray (initialised t) (init_succeeded t) (init_process_finished t) (alloced_console t) (console_enabled t)
    c w i m e (tm_thread t).

(** The process's side of it: the window system, the static [inst] (the address of
    the object it points to), the object, and how often the callback was called. *)
Record tray (G : Type) : Type := mkState {
  tm_gui : G;
  tm_inst : option Z;
  tm_this : TrayMenuManager;
  tm_quits : nat;
}.
Arguments mkState {G} _ _ _ _.
Arguments tm_gui {G} _.
Arguments tm_inst {G} _.
Arguments tm_this {G} _.
Arguments tm_quits {G} _.

Definition set_this {G} (f : TrayMenuManager → TrayMenuManager) : M (tray G) unit :=
  modify (λ s, mkState (tm_gui s) (tm_inst s) (f (tm_this s)) (tm_quits s)).

Section TrayMenu.
Context {G : Type} `{Gui G} `{!ExePath G}.

Definition gui {A} (f : G → G * A) : M (tray G) A :=
  λ s, let '(g, a) := f (tm_gui s) in (mkState g (tm_inst s) (tm_this s) (tm_quits s), Ok a).
Definition this : M (tray G) TrayMenuManager := gets tm_this.

(** The constructor of the object at [addr]: [compare_exchange_strong] with null. *)
Definition construct (addr : Z) : M (tray G) unit :=
  λ s, match tm_inst s with
       | Some _ => (s, Throw (RuntimeError "Attemted to create multiple instances of TrayMenuManager"))
       | None => (mkState (tm_gui s) (Some addr) new_tray (tm_quits s), Ok tt)
       end.

Definition release_resources : M (tray G) unit :=
  let* t := this in
  do* (if negb (tray_icon_id t =? 0) then gui (Shell_NotifyIcon_delete (tray_icon_window t) (tray_icon_id t))
       else ret tt) in
  do* (if negb (tray_icon_window t =? 0) then gui (DestroyWindow (tray_icon_window t)) else ret tt) in
  do* set_this (λ t, set_resources (window_class_registered t) 0 (tray_icon_id t) (right_click_menu t) (exe_icon t) t) in
  do* (if negb (exe_icon t =? 0) then gui (DestroyIcon (exe_icon t)) else ret tt) in
  if window_class_registered t then gui UnregisterClass else ret tt.

Definition register_window_class : M (tray G) bool := gui RegisterClass.

Definition load_window_icon : M (tray G) bool :=
  let* exe_path := gets (λ s, get_exe_path (tm_gui s)) in
  let* icon := gui (ExtractIcon exe_path) in
  do* set_this (λ t, set_resources (window_class_registered t) (tray_icon_window t) (tray_icon_id t)
                       (right_click_menu t) icon t) in
  ret (negb (icon =? 0)).

Definition create_rightclick_menu : M (tray G) bool :=
  let* menu := gui CreatePopupMenu in
  do* set_this (λ t, set_resources (window_class_registered t) (tray_icon_window t) (tray_icon_id t)
                       menu (exe_icon t) t) in
  if menu =? 0 then ret false
  else
    let* ok := gui (InsertMenu menu QUIT_ITEM_ID (ws (bs "Quit NandroidFS"))) in
    if negb ok then ret false
    else
      let* ok := gui (InsertMenu menu CONSOLE_ITEM_ID (ws (bs "Show Console"))) in
      if negb ok then ret false else ret true.

Definition update_rightclick_menu : M (tray G) bool :=
  let* t := this in
  if right_click_menu t =? 0 then ret false
  else gui (SetMenuItemInfo (right_click_menu t) CONSOLE_ITEM_ID (console_enabled t)).

(** [initialise_internal] from the icon on. *)
Definition initialise_icon : M (tray G) bool :=
  let* ok := load_window_icon in
  if negb ok then ret false
  else
    let* ok := create_rightclick_menu in
    if negb ok then ret false
    else
      let* _ := update_rightclick_menu in
      let* t := this in
      let* ok := gui (Shell_NotifyIcon_add (tray_icon_window t) default_tray_icon_id (exe_icon t)) in
      if negb ok then ret false
      else
        do* set_this (λ t, set_resources (window_class_registered t) (tray_icon_window t) default_tray_icon_id
                             (right_click_menu t) (exe_icon t) t) in
        gui (Shell_NotifyIcon_setversion (tray_icon_window t) default_tray_icon_id).

Definition initialise_internal : M (tray G) bool :=
  let* ok := register_window_class in
  if negb ok then ret false
  else
    do* set_this (λ t, set_resources true (tray_icon_window t) (tray_icon_id t) (right_click_menu t) (exe_icon t) t) in
    let* window := gui CreateWindowEx in
    do* set_this (λ t, set_resources (window_class_registered t) window (tray_icon_id t) (right_click_menu t) (exe_icon t) t) in
    if window =? 0 then ret false
    else initialise_icon.

Definition set_console_enabled (new_enabled : bool) : M (tray G) bool :=
  let* t := this in
  if eqb new_enabled (console_enabled t) then ret true
  else
    let* allocated :=
      (if new_enabled then
         if negb (alloced_console t) then
           let* ok := gui AllocConsole in
           if negb ok then ret false
           else
             do* gui SetConsoleCtrlHandler in
             do* set_this (λ t, set_console true (console_enabled t) t) in
             ret true
         else do* gui (ShowConsoleWindow true) in ret true
       else if alloced_console t then do* gui (ShowConsoleWindow false) in ret true
       else ret true) in
    if negb allocated then ret false
    else
      do* set_this (λ t, set_console (alloced_console t) new_enabled t) in
      let* _ := update_rightclick_menu in
      ret true.

(** The callback given to the constructor. *)
Definition quit_callback : M (tray G) unit :=
  modify (λ s, mkState (tm_gui s) (tm_inst s) (tm_this s) (S (tm_quits s))).

(** [TrayMenuManager::inst.load()->...]: without an instance, a null dereference. *)
Definition with_inst (m : M (tray G) unit) : M (tray G) unit :=
  let* inst := gets tm_inst in
  match inst with Some _ => m | None => throw UndefinedBehaviour end.

Definition tray_window_proc (msg w_param l_param : Z) : M (tray G) unit :=
  if msg =? WM_CLOSE then with_inst release_resources
  else if msg =? TRAY_ICON_CLICK_MSG then
    if LOWORD l_param =? WM_CONTEXTMENU then
      with_inst
        (let* t := this in
         if negb (right_click_menu t =? 0) then gui (TrackPopupMenu (right_click_menu t)) else ret tt)
    else ret tt
  else if (msg =? WM_COMMAND) && (HIWORD w_param =? 0) then
    if LOWORD w_param =? QUIT_ITEM_ID then with_inst quit_callback
    else if LOWORD w_param =? CONSOLE_ITEM_ID then
      with_inst (let* t := this in let* _ := set_console_enabled (negb (console_enabled t)) in ret tt)
    else ret tt
  else
    let* closes := gui (DefWindowProc msg w_param l_param) in
    if closes then with_inst release_resources else ret tt.

Definition console_handler (signal : Z) : M (tray G) bool :=
  do* (if signal =? CTRL_C_EVENT then with_inst quit_callback else ret tt) in
  ret true.

(** The messages that [GetMessage] retrieves, as number and parameters; returns whether
    the loop has ended, or waits for the next message.  [GetMessage] returns zero for
    WM_QUIT, which ends the loop.  (Its error, an invalid window, does not occur while
    the window exists.) *)
Fixpoint event_loop (messages : list (Z * Z * Z)) : M (tray G) bool :=
  let* t := this in
  if tray_icon_window t =? 0 then ret true
  else
    match messages with
    | [] => ret false
    | (msg, w_param, l_param) :: messages =>
        if msg =? WM_QUIT then ret true
        else
          do* tray_window_proc msg w_param l_param in
          event_loop messages
    end.

(** [debug] says whether [_DEBUG] is defined. *)
Definition window_thread_entry_point (debug : bool) (messages : list (Z * Z * Z)) : M (tray G) bool :=
  let* success := initialise_internal in
  do* (if negb success then release_resources else ret tt) in
  do* (if debug then let* _ := set_console_enabled true in ret tt else ret tt) in
  do* set_this (λ t, set_init (initialised t) success true t) in
  event_loop messages.

(** The thread runs up to the end of the initialisation while the caller waits;
    what it does afterwards is up to the messages. *)
Definition initialise (debug : bool) : M (tray G) bool :=
  let* t := this in
  if initialised t then throw (RuntimeError "already initialised")
  else
    do* set_this (λ t, set_thread (set_init true (init_succeeded t) (init_process_finished t) t)) in
    let* _ := window_thread_entry_point debug [] in
    let* t := this in
    if negb (init_process_finished t) then throw OutOfFuel
    else ret (init_succeeded t).

(** The destructor: the window is told to close, which [PostMessage] may fail to do, and
    the thread is joined.  [ended] says whether its loop had ended by then, otherwise
    [messages] are still in its queue; a loop that does not end keeps the destructor
    waiting.  Joining a thread that was never started ends the program. *)
Definition destruct_tray (ended : bool) (messages : list (Z * Z * Z)) (s : tray G) : fate (tray G * result unit) :=
  let close := (WM_CLOSE, 0, 0) in
  let '(s, posted) :=
    if negb (tray_icon_window (tm_this s) =? 0)
    then let '(g, ok) := PostMessage (tray_icon_window (tm_this s)) close (tm_gui s) in
         (mkState g (tm_inst s) (tm_this s) (tm_quits s), ok)
    else (s, false) in
  if negb (tm_thread (tm_this s)) then Ended
  else
    match (if ended then ret true else event_loop (messages ++ if posted then [close] else [])) s with
    | (s, Ok true) => Done (mkState (tm_gui s) None (tm_this s) (tm_quits s), Ok tt)
    | (_, Ok false) => Stuck
    | (s, Throw e) => Done (s, Throw e)
    end.
End TrayMenu.

(** ** What the object holds *)
Definition own (handle : Z) (r : resource) : gset resource := if handle =? 0 then ∅ else {[ r ]}.

Definition own_class (t : TrayMenuManager) : gset resource :=
  if window_class_registered t then {[ RClass ]} else ∅.
Definition own_menu (t : TrayMenuManager) : gset resource := own (right_click_menu t) (RMenu (right_click_menu t)).

(** The number 1 is no icon. *)
Definition own_icon (icon : Z) : gset resource := if icon =? 1 then ∅ else own icon (RIcon icon).

(** The resources the members stand for. *)
Definition owned (t : TrayMenuManager) : gset resource :=
  own_class t ∪ own (tray_icon_window t) (RWindow (tray_icon_window t)) ∪
  own_icon (exe_icon t) ∪ own_menu t ∪
  own (tray_icon_id t) (RTray (tray_icon_window t) (tray_icon_id t)).

(** The menu is none of the other resources, so giving those back leaves it. *)
Lemma own_menu_apart t h r : (∀ m, r ≠ RMenu m) → own_menu t ## own h r.
Proof.
  intros Hr. specialize (Hr (right_click_menu t)). unfold own_menu, own. destruct (_ =? 0), (_ =? 0); set_solver.
Qed.

Lemma own_menu_icon t h : own_menu t ## own_icon h.
Proof. unfold own_icon. destruct (h =? 1); [set_solver|]. by apply own_menu_apart. Qed.

(** The only window among the members' resources. *)
Lemma owned_window t w : RWindow w ∈ owned t ↔ w = tray_icon_window t ∧ w ≠ 0.
Proof.
  unfold owned, own_class, own_menu, own_icon, own. rewrite !elem_of_union.
  destruct (window_class_registered t), (Z.eqb_spec (tray_icon_window t) 0), (exe_icon t =? 1), (exe_icon t =? 0),
    (right_click_menu t =? 0), (tray_icon_id t =? 0); set_solver.
Qed.

Lemma own_class_own t : own_class t = own (if window_class_registered t then 1 else 0) RClass.
Proof. unfold own_class. by destruct (window_class_registered t). Qed.

Lemma give_back (C W I m T R : gset resource) :
  m ## C → m ## W → m ## I → m ## T → C ∪ W ∪ I ∪ m ∪ T ## R →
  ((((C ∪ W ∪ I ∪ m ∪ T) ∪ R) ∖ T ∖ W) ∖ I) ∖ C = m ∪ R.
Proof. intros. apply set_eq. intros x. set_solver. Qed.

Section Properties.
Context {G : Type} `{GuiLaws G} `{!ExePath G}.
Implicit Types (s : tray G) (t : TrayMenuManager) (R : gset resource).

(** Besides [R], exactly what the members stand for is held. *)
Definition holds R s : Prop :=
  resources (tm_gui s) = owned (tm_this s) ∪ R ∧ owned (tm_this s) ## R ∧
  (window_class_registered (tm_this s) = true → no_window R) ∧
  (tray_icon_id (tm_this s) ≠ 0 → tray_icon_window (tm_this s) ≠ 0).

(** The object has given back everything but its menu, and its window is gone. *)
Definition released R s : Prop :=
  tray_icon_window (tm_this s) = 0 ∧ resources (tm_gui s) = own_menu (tm_this s) ∪ R.

(** The menu's marks can always be set. *)
Definition marks_work : Prop := ∀ m i b (g : G), snd (SetMenuItemInfo m i b g) = true.

(** The console is shown exactly when it is enabled, and the menu says so. *)
Definition console_ok s : Prop :=
  console (tm_gui s) = (if alloced_console (tm_this s) then Some (console_enabled (tm_this s)) else None) ∧
  (console_enabled (tm_this s) = true → alloced_console (tm_this s) = true).
Definition mark_ok s : Prop :=
  marks_work → right_click_menu (tm_this s) ≠ 0 →
  checked (right_click_menu (tm_this s)) CONSOLE_ITEM_ID (tm_gui s) = console_enabled (tm_this s).

Lemma wp_gui {A} (f : G → G * A) Φ E s :
  Φ (snd (f (tm_gui s))) (mkState (fst (f (tm_gui s))) (tm_inst s) (tm_this s) (tm_quits s)) →
  wp (gui f) Φ E s.
Proof. unfold wp, gui. by destruct (f (tm_gui s)). Qed.

Lemma own_zero r : own 0 r = ∅.
Proof. done. Qed.
Lemma own_nonzero h r : h ≠ 0 → own h r = {[ r ]}.
Proof. intros Hh. unfold own. by rewrite (proj2 (Z.eqb_neq h 0)). Qed.

(** [DestroyWindow] and the like on a member that may be zero. *)
Lemma wp_release_if h (f : G → G * unit) X Φ (E : exn → tray G → Prop) s :
  (h = 0 → X = ∅) →
  (h ≠ 0 → resources (fst (f (tm_gui s))) = resources (tm_gui s) ∖ X) →
  (∀ g, resources g = resources (tm_gui s) ∖ X → Φ tt (mkState g (tm_inst s) (tm_this s) (tm_quits s))) →
  wp (if negb (h =? 0) then gui f else ret tt) Φ E s.
Proof.
  intros Hz Hf HΦ. destruct (Z.eqb_spec h 0) as [Eh|Eh]; cbn [negb].
  - wp_step. destruct s as [g i t q]. apply HΦ. by rewrite Hz, difference_empty_L.
  - apply wp_gui. specialize (Hf Eh). destruct (f (tm_gui s)) as [g []]. by apply HΦ.
Qed.

Lemma destroy_icon_own i (g : G) : i ≠ 0 → resources (fst (DestroyIcon i g)) = resources g ∖ own_icon i.
Proof.
  intros Hi. pose proof (destroy_icon_law i g) as L. unfold own_icon. destruct (i =? 1).
  - destruct L as [-> _]. by rewrite difference_empty_L.
  - rewrite own_nonzero by done. apply L.
Qed.

Lemma release_resources_spec R s :
  holds R s →
  wp release_resources
    (λ _ s', released R s' ∧ tm_inst s' = tm_inst s ∧ tm_quits s' = tm_quits s ∧
       own_menu (tm_this s') = own_menu (tm_this s) ∧ tm_thread (tm_this s') = tm_thread (tm_this s))
    (λ _ _, False) s.
Proof.
  intros (Hr & Hd & Hno & Hid). unfold release_resources, this. do 3 wp_step.
  eapply (wp_release_if _ _ (own (tray_icon_id (tm_this s)) (RTray (tray_icon_window (tm_this s)) (tray_icon_id (tm_this s)))));
    [by intros ->| |].
  { intros Hi. rewrite own_nonzero by done. apply delete_law. rewrite Hr, elem_of_union, owned_window. auto. }
  intros g1 E1. cbn [tm_inst tm_this tm_quits tm_gui] in *. wp_step.
  eapply (wp_release_if _ _ (own (tray_icon_window (tm_this s)) (RWindow (tray_icon_window (tm_this s)))));
    [by intros ->|intros Hw; rewrite own_nonzero by done; apply destroy_window_law|].
  intros g2 E2. cbn [tm_inst tm_this tm_quits tm_gui] in *. wp_step.
  unfold set_this. do 2 wp_step. cbn [tm_inst tm_this tm_quits tm_gui].
  eapply (wp_release_if _ _ (own_icon (exe_icon (tm_this s)))); [by intros ->|apply destroy_icon_own|].
  intros g3 E3. cbn [tm_inst tm_this tm_quits tm_gui] in *.
  assert (Hfinal : ∀ g, resources g = resources g3 ∖ own_class (tm_this s) →
    resources g = own_menu (tm_this s) ∪ R).
  { intros g ->. rewrite E3, E2, E1, Hr. unfold owned in *. rewrite own_class_own in *.
    by apply give_back; [apply own_menu_apart; congruence|apply own_menu_apart; congruence|apply own_menu_icon
      |apply own_menu_apart; congruence|]. }
  destruct (window_class_registered (tm_this s)) eqn:Ec.
  - apply wp_gui. cbn [tm_gui].
    assert (Hnw : no_window (resources g3)).
    { intros w. rewrite E3, E2, E1, Hr, !elem_of_difference, elem_of_union, owned_window.
      intros [[[[[-> Hw]|Hw] _] Hn] _]; [|by apply (Hno eq_refl w)]. rewrite own_nonzero in Hn by done. set_solver. }
    destruct (unregister_law g3 Hnw) as [E4 _]. destruct (UnregisterClass g3) as [g4 []].
    cbn [fst snd] in *. split; [|done]. split; [done|]. apply (Hfinal g4). unfold own_class. by rewrite E4, Ec.
  - wp_step. split; [|done]. split; [done|]. apply (Hfinal g3). unfold own_class. rewrite Ec. by rewrite difference_empty_L.
Qed.

(** Nothing acquired yet. *)
Definition blank t : Prop :=
  window_class_registered t = false ∧ tray_icon_window t = 0 ∧ tray_icon_id t = 0 ∧
  right_click_menu t = 0 ∧ exe_icon t = 0.

Lemma blank_owned t : blank t → owned t = ∅.
Proof.
  intros (E1 & E2 & E3 & E4 & E5). unfold owned, own_class, own_menu. rewrite E1, E2, E3, E4, E5.
  change (own_icon 0) with (∅ : gset resource). rewrite !own_zero. set_solver.
Qed.

End Properties.

(** The object with other members for the resources; everything but the window
    system's resources as before. *)
Definition remember {G} `{Gui G} (R : gset resource) (s s' : tray G) (c : bool) (w i m e : Z) : Prop :=
  ∃ g, s' = mkState g (tm_inst s) (set_resources c w i m e (tm_this s)) (tm_quits s) ∧
    holds R s' ∧ console g = console (tm_gui s) ∧ console_available g = console_available (tm_gui s).

Section Acquire.
Context {G : Type} `{GuiLaws G} `{!ExePath G}.
Implicit Types (s : tray G) (t : TrayMenuManager) (R : gset resource).

(** A member that was zero gets the handle a call returned, which stands for [X]:
    nothing if the call failed. *)
Lemma remember_handle R s g X c w i m e :
  holds R s →
  (X = ∅ ∧ keeps (tm_gui s) g ∨ ∃ r, X = {[ r ]} ∧ acquires r (tm_gui s) g) →
  owned (set_resources c w i m e (tm_this s)) = X ∪ owned (tm_this s) →
  (c = true → no_window R) → (i ≠ 0 → w ≠ 0) →
  remember R s (mkState g (tm_inst s) (set_resources c w i m e (tm_this s)) (tm_quits s)) c w i m e.
Proof.
  intros (Hr0 & Hd & _ & _) L Ho Hc Hi. exists g. unfold holds. cbn [tm_gui tm_this]. rewrite Ho.
  destruct L as [(-> & Hr & Hv & Ha & _)|(r & -> & Hf & Hr & Hv & Ha & _)]; rewrite Hr, Hr0;
    split_and!; try done; set_solver.
Qed.

(** The cases of [remember_handle] for a handle that is zero when the call failed. *)
Lemma handle_cases (g g' : G) h r :
  (if h =? 0 then keeps g g' else acquires r g g') →
  own h r = ∅ ∧ keeps g g' ∨ ∃ r', own h r = {[ r' ]} ∧ acquires r' g g'.
Proof. unfold own. destruct (h =? 0); eauto. Qed.

Lemma load_window_icon_spec R s :
  holds R s → exe_icon (tm_this s) = 0 →
  wp load_window_icon
    (λ ok s', ∃ e, let t := tm_this s in
       remember R s s' (window_class_registered t) (tray_icon_window t) (tray_icon_id t) (right_click_menu t) e)
    (λ _ _, False) s.
Proof.
  intros Hh He. unfold load_window_icon, set_this. do 3 wp_step. apply wp_gui.
  pose proof (icon_law (get_exe_path (tm_gui s)) (tm_gui s)) as L.
  destruct (ExtractIcon _ _) as [g e]. cbn [fst snd]. do 3 wp_step. exists e. cbv zeta.
  apply (remember_handle R s g (own_icon e)); [done| | |apply Hh|apply Hh].
  - unfold own_icon, own. destruct (e =? 1), (e =? 0); eauto.
  - unfold owned, own_class, own_menu. cbn. rewrite He. change (own_icon 0) with (∅ : gset resource). set_solver.
Qed.

Lemma create_rightclick_menu_spec R s :
  holds R s → right_click_menu (tm_this s) = 0 →
  wp create_rightclick_menu
    (λ ok s', ∃ m, let t := tm_this s in (ok = true → m ≠ 0) ∧
       remember R s s' (window_class_registered t) (tray_icon_window t) (tray_icon_id t) m (exe_icon t))
    (λ _ _, False) s.
Proof.
  intros Hh He. unfold create_rightclick_menu, set_this. wp_step. apply wp_gui.
  pose proof (menu_law (tm_gui s)) as L. destruct (CreatePopupMenu _) as [g m]. cbn [fst snd]. do 2 wp_step. cbn.
  set (t' := set_resources _ _ _ _ _ _).
  assert (Hm : remember R s (mkState g (tm_inst s) t' (tm_quits s)) (window_class_registered (tm_this s))
    (tray_icon_window (tm_this s)) (tray_icon_id (tm_this s)) m (exe_icon (tm_this s))).
  { apply (remember_handle R s g (own m (RMenu m))); [done|by apply handle_cases| |apply Hh|apply Hh].
    unfold owned, own_class, own_menu. cbn. rewrite He, own_zero. set_solver. }
  destruct Hm as (g' & Eg & Hg & Hv & Hav). injection Eg as <-.
  assert (Hk : ∀ g1, keeps g g1 → remember R s (mkState g1 (tm_inst s) t' (tm_quits s))
    (window_class_registered (tm_this s)) (tray_icon_window (tm_this s)) (tray_icon_id (tm_this s)) m (exe_icon (tm_this s))).
  { intros g1 (Hr & Hv1 & Hav1 & _). exists g1. split_and!; [done| |congruence|congruence].
    unfold holds in *. cbn [tm_gui tm_this] in *. by rewrite Hr. }
  destruct (Z.eqb_spec m 0) as [_|Hne]; [wp_step; exists m; split; [done|]; by apply Hk|].
  wp_step. apply wp_gui. cbn [tm_gui]. pose proof (insert_law m QUIT_ITEM_ID (ws (bs "Quit NandroidFS")) g) as L1.
  destruct (InsertMenu _ _ _ _) as [g1 ok]. cbn [fst snd] in *.
  destruct ok; cbn [negb]; [|wp_step; exists m; split; [done|]; by apply Hk].
  wp_step. apply wp_gui. cbn [tm_gui]. pose proof (insert_law m CONSOLE_ITEM_ID (ws (bs "Show Console")) g1) as L2.
  destruct (InsertMenu _ _ _ _) as [g2 ok]. cbn [fst snd] in *.
  assert (L3 : keeps g g2).
  { destruct L1 as (? & ? & ? & ?), L2 as (? & ? & ? & ?). unfold keeps, same_view. split_and!; congruence. }
  destruct ok; cbn [negb]; wp_step; exists m; (split; [done|]); by apply Hk.
Qed.

Lemma remember_trans R s s1 s2 c w i m e c' w' i' m' e' :
  remember R s s1 c w i m e → remember R s1 s2 c' w' i' m' e' → remember R s s2 c' w' i' m' e'.
Proof.
  intros (g1 & -> & _ & Hv1 & Ha1) (g2 & -> & Hh2 & Hv2 & Ha2). exists g2. split_and!; [done|done|..]; simpl in *; congruence.
Qed.

(** The menu shows what the flag says. *)
Lemma update_rightclick_menu_spec s :
  wp update_rightclick_menu
    (λ _ s', ∃ g, s' = mkState g (tm_inst s) (tm_this s) (tm_quits s) ∧ resources g = resources (tm_gui s) ∧
       console g = console (tm_gui s) ∧ console_available g = console_available (tm_gui s) ∧ mark_ok s') (λ _ _, False) s.
Proof.
  unfold update_rightclick_menu, this. do 2 wp_step. destruct (Z.eqb_spec (right_click_menu (tm_this s)) 0) as [E|E].
  { wp_step. exists (tm_gui s). destruct s. by split_and!; [..|intros _ ?]. }
  apply wp_gui. pose proof (item_law (right_click_menu (tm_this s)) CONSOLE_ITEM_ID (console_enabled (tm_this s)) (tm_gui s)) as L.
  destruct (SetMenuItemInfo _ _ _ _) as [g ok] eqn:Es. cbn [fst snd]. destruct L as (Hr & Hc & Hav & Hm).
  exists g. split_and!; [done..|]. intros Hw _. cbn [tm_gui tm_this]. rewrite Hm.
  specialize (Hw (right_click_menu (tm_this s)) CONSOLE_ITEM_ID (console_enabled (tm_this s)) (tm_gui s)).
  rewrite Es in Hw. simpl in Hw. subst ok. by rewrite !Z.eqb_refl.
Qed.

Lemma remember_holds R s s' c w i m e : remember R s s' c w i m e → holds R s'.
Proof. by intros (g & -> & ? & _). Qed.

Lemma remember_same R s g :
  holds R s → keeps (tm_gui s) g →
  let t := tm_this s in
  remember R s (mkState g (tm_inst s) t (tm_quits s)) (window_class_registered t) (tray_icon_window t)
    (tray_icon_id t) (right_click_menu t) (exe_icon t).
Proof.
  destruct s as [g0 i0 [] q0]. intros (Hr & Hd & Hno & Hid) (Hr' & Hv & Ha & _). exists g. unfold holds. cbn in *. by rewrite Hr', Hr.
Qed.

Lemma initialise_icon_spec R s :
  holds R s → let t := tm_this s in
  tray_icon_window t ≠ 0 → tray_icon_id t = 0 → right_click_menu t = 0 → exe_icon t = 0 →
  wp initialise_icon
    (λ ok s', ∃ i m e, remember R s s' (window_class_registered t) (tray_icon_window t) i m e ∧
       (ok = true → mark_ok s')) (λ _ _, False) s.
Proof.
  cbv zeta. intros Hh Hw Hi Hm He. unfold initialise_icon, this. wp_step.
  eapply wp_mono; [by apply (load_window_icon_spec R s)| |done]. intros ok s1 (e & H1). cbv zeta in H1.
  destruct ok; cbn [negb]; [|wp_step; by eexists _, _, _].
  wp_step. eapply wp_mono; [apply (create_rightclick_menu_spec R s1); [by eapply remember_holds|]| |done].
  { by destruct H1 as (g & -> & _). }
  intros ok s2 (m & Hne & H2). cbv zeta in H2.
  pose proof (remember_trans _ _ _ _ _ _ _ _ _ _ _ _ _ _ H1 H2) as H3.
  assert (Es1 : ∃ g, s1 = mkState g (tm_inst s) (set_resources (window_class_registered (tm_this s)) (tray_icon_window (tm_this s))
    (tray_icon_id (tm_this s)) (right_click_menu (tm_this s)) e (tm_this s)) (tm_quits s)) by (destruct H1 as (g & -> & _); by exists g).
  destruct Es1 as [g1 ->]. cbn [tm_this set_resources window_class_registered tray_icon_window tray_icon_id exe_icon] in H3.
  destruct ok; cbn [negb]; [|wp_step; by eexists _, _, _].
  wp_step. eapply wp_mono; [apply update_rightclick_menu_spec| |done].
  intros _ s3 (g3 & -> & Hr3 & Hv3 & Ha3 & Hm3). do 2 wp_step. destruct H3 as (g2 & -> & Hh2 & Hv2 & Ha2).
  cbn [tm_gui tm_this tm_inst tm_quits set_resources tray_icon_window exe_icon] in *.
  set (T := set_resources (window_class_registered (tm_this s)) (tray_icon_window (tm_this s))
    (tray_icon_id (tm_this s)) m e (tm_this s)) in *. set (s3 := mkState g3 (tm_inst s) T (tm_quits s)) in *.
  assert (Hh3 : holds R s3) by (unfold holds in *; cbn [tm_gui tm_this s3] in *; rewrite Hr3; exact Hh2).
  assert (H3 : remember R s s3 (window_class_registered (tm_this s)) (tray_icon_window (tm_this s)) (tray_icon_id (tm_this s)) m e)
    by (exists g3; split_and!; [done|done|congruence|congruence]).
  wp_step. apply wp_gui. pose proof (add_law (tray_icon_window (tm_this s)) default_tray_icon_id e g3) as L.
  cbn [tm_gui s3]. change (tm_gui s3) with g3. destruct (Shell_NotifyIcon_add _ _ _ _) as [g4 ok]. cbn [fst snd].
  destruct ok; cbn [negb]; [|wp_step; exists (tray_icon_id (tm_this s)), m, e; split; [|done];
    eapply remember_trans; [exact H3|exact (remember_same R s3 g4 Hh3 L)]].
  assert (H4 : remember R s3 (mkState g4 (tm_inst s) (set_resources (window_class_registered (tm_this s))
    (tray_icon_window (tm_this s)) default_tray_icon_id m e T) (tm_quits s)) (window_class_registered (tm_this s))
    (tray_icon_window (tm_this s)) default_tray_icon_id m e).
  { apply (remember_handle R s3 g4 {[ RTray (tray_icon_window (tm_this s)) default_tray_icon_id ]});
      [done|right; eauto| |apply Hh3|done].
    unfold owned, own_class, own_menu. cbn. rewrite Hi, ?own_zero. set_solver. }
  pose proof (remember_trans _ _ _ _ _ _ _ _ _ _ _ _ _ _ H3 H4) as H5.
  unfold set_this. do 2 wp_step. apply wp_gui. cbn [tm_gui tm_this tm_inst tm_quits].
  set (s5 := mkState g4 (tm_inst s) _ (tm_quits s)) in H4, H5.
  pose proof (setversion_law (tray_icon_window (tm_this s)) default_tray_icon_id g4) as L5.
  cbn [tray_icon_window T set_resources]. change (tray_icon_window (tm_this s3)) with (tray_icon_window (tm_this s)).
  destruct (Shell_NotifyIcon_setversion _ _ _) as [g5 ok]. cbn [fst snd] in *.
  exists default_tray_icon_id, m, e. split.
  - eapply remember_trans; [exact H5|]. exact (remember_same R s5 g5 (remember_holds _ _ _ _ _ _ _ _ H5) L5).
  - intros _ Hw' Hm'. cbn in Hm' |- *. specialize (Hm3 Hw' Hm'). cbn in Hm3.
    destruct L as (_ & _ & _ & _ & Hc4), L5 as (_ & _ & _ & Hc5). by rewrite Hc5, Hc4.
Qed.

Lemma initialise_internal_spec R s :
  blank (tm_this s) → resources (tm_gui s) = R →
  wp initialise_internal
    (λ ok s', ∃ c w i m e, remember R s s' c w i m e ∧ (ok = true → w ≠ 0 ∧ mark_ok s')) (λ _ _, False) s.
Proof.
  intros Hb HR. assert (Hh : holds R s).
  { unfold holds. rewrite blank_owned by done. rewrite HR. destruct Hb as (-> & _ & -> & _). split_and!; [set_solver..|done|done]. }
  destruct Hb as (E1 & E2 & E3 & E4 & E5).
  unfold initialise_internal, register_window_class, this. wp_step. apply wp_gui.
  pose proof (register_law (tm_gui s)) as L. destruct (RegisterClass _) as [g1 ok]. cbn [fst snd].
  destruct ok; cbn [negb].
  2: { wp_step. pose proof (remember_same R s g1 Hh L) as Hs. cbv zeta in Hs. by eexists _, _, _, _, _. }
  unfold set_this. do 3 wp_step. cbn [tm_gui tm_this tm_inst tm_quits]. rewrite E2, E3, E4, E5.
  set (s1 := mkState g1 _ _ _).
  assert (Hno : no_window R) by (rewrite <- HR; apply class_law; apply L).
  assert (H1 : remember R s s1 true 0 0 0 0).
  { apply (remember_handle R s g1 {[ RClass ]}); [done|right; eauto| |done|done].
    unfold owned, own_class, own_menu. cbn. rewrite E1, E2, E3, E4, E5. rewrite ?own_zero. set_solver. }
  pose proof (remember_holds _ _ _ _ _ _ _ _ H1) as Hh1.
  apply wp_gui. pose proof (window_law g1) as L2. change (tm_gui s1) with g1.
  destruct (CreateWindowEx _) as [g2 w]. cbn [fst snd]. do 2 wp_step.
  pose (s2 := mkState g2 (tm_inst s1) (set_resources true w 0 0 0 (tm_this s1)) (tm_quits s1)).
  assert (H2 : remember R s1 s2 true w 0 0 0).
  { apply (remember_handle R s1 g2 (own w (RWindow w))); [done|by apply handle_cases| |done|done].
    unfold owned, own_class, own_menu. cbn. rewrite ?own_zero. set_solver. }
  pose proof (remember_trans _ _ _ _ _ _ _ _ _ _ _ _ _ _ H1 H2) as H3.
  pose proof (remember_holds _ _ _ _ _ _ _ _ H3) as Hh2.
  destruct (Z.eqb_spec w 0) as [Hw|Hw]; [wp_step; exists true, w, 0, 0, 0; by split|].
  eapply wp_mono; [by apply (initialise_icon_spec R s2)| |done].
  intros ok s3 (i & m & e & H4 & Hok). exists true, w, i, m, e. split; [by eapply remember_trans|]. auto.
Qed.
End Acquire.

(** ** Messages *)
Section Messages.
Context {G : Type} `{GuiLaws G} `{!ExePath G}.
Implicit Types (s : tray G) (t : TrayMenuManager) (R : gset resource).

(** What is true between two messages. *)
Definition serving R s : Prop :=
  holds R s ∧ console_ok s ∧ mark_ok s ∧ tray_icon_window (tm_this s) ≠ 0 ∧ is_Some (tm_inst s) ∧
  tm_thread (tm_this s) = true.

(** There is a console, or one can be allocated. *)
Definition can_console s : Prop :=
  alloced_console (tm_this s) = true ∨ console_available (tm_gui s) = true.

(** The end of [set_console_enabled], with the console shown or hidden. *)
Lemma console_changed R s (a new_enabled : bool) :
  holds R s → console (tm_gui s) = (if a then Some new_enabled else None) → (new_enabled = true → a = true) →
  alloced_console (tm_this s) = a → tray_icon_window (tm_this s) ≠ 0 → is_Some (tm_inst s) →
  tm_thread (tm_this s) = true →
  wp (do* set_this (λ t, set_console (alloced_console t) new_enabled t) in
      let* _ := update_rightclick_menu in ret true)
    (λ ok s', serving R s' ∧ tm_quits s' = tm_quits s ∧ tm_inst s' = tm_inst s ∧
       ok = true ∧ console_enabled (tm_this s') = new_enabled ∧ alloced_console (tm_this s') = a)
    (λ _ _, False) s.
Proof.
  intros Hh Hc Ha Ea Hw Hi Ht. unfold set_this. do 3 wp_step.
  eapply wp_mono; [apply update_rightclick_menu_spec| |done]. intros _ s' (g & -> & Hr & Hv & _ & Hm). wp_step.
  cbn [tm_gui tm_this tm_inst tm_quits] in *. split; [|done].
  unfold serving, holds, console_ok in *. cbn [tm_gui tm_this tm_inst] in *. rewrite Hr, Hv, Hc.
  split; [exact Hh|]. split_and!; [cbn; by rewrite Ea|cbn; by rewrite Ea|exact Hm|exact Hw|exact Hi|exact Ht].
Qed.

Lemma set_console_enabled_spec R s new_enabled :
  serving R s →
  wp (set_console_enabled new_enabled)
    (λ ok s', serving R s' ∧ tm_quits s' = tm_quits s ∧ tm_inst s' = tm_inst s ∧
       console_enabled (tm_this s') = (if ok then new_enabled else console_enabled (tm_this s)) ∧
       (can_console s → ok = true ∧ can_console s'))
    (λ _ _, False) s.
Proof.
  intros Hs. pose proof Hs as (Hh & [Hc Ha] & Hm & Hw & Hi & Ht). unfold set_console_enabled, this. do 2 wp_step.
  destruct (eqb_spec new_enabled (console_enabled (tm_this s))) as [->|Hne]; [by wp_step|].
  assert (Hend : ∀ s1, holds R s1 → console (tm_gui s1) = Some new_enabled → alloced_console (tm_this s1) = true →
    tray_icon_window (tm_this s1) ≠ 0 → tm_inst s1 = tm_inst s → tm_quits s1 = tm_quits s →
    tm_thread (tm_this s1) = true →
    wp (do* set_this (λ t, set_console (alloced_console t) new_enabled t) in
        let* _ := update_rightclick_menu in ret true)
      (λ ok s', serving R s' ∧ tm_quits s' = tm_quits s ∧ tm_inst s' = tm_inst s ∧
         console_enabled (tm_this s') = (if ok then new_enabled else console_enabled (tm_this s)) ∧
         (can_console s → ok = true ∧ can_console s')) (λ _ _, False) s1).
  { intros s1 Hh1 Hc1 Ea1 Hw1 Ei Eq Et. eapply wp_mono; [eapply (console_changed R s1 true); try done; by rewrite Ei| |done].
    intros ok s' (? & ? & ? & -> & ? & ?). split_and!; [done|congruence|congruence|done|]. intros _. by split; [|left]. }
  wp_step. destruct new_enabled, (alloced_console (tm_this s)) eqn:Ea; cbn [negb].
  - wp_step. apply wp_gui. destruct (show_law true (tm_gui s)) as (Hr & _ & Hv).
    destruct (ShowConsoleWindow _ _) as [g []]. cbn [fst snd] in *. wp_step. cbn [negb].
    apply Hend; try done; [unfold holds in *; cbn; by rewrite Hr|cbn; by rewrite Hv, Hc].
  - wp_step. apply wp_gui. pose proof (alloc_law (tm_gui s)) as L.
    destruct (AllocConsole _) as [g ok] eqn:Eal. cbn [fst snd]. destruct L as (Hok & Hr & Hck & Hav & Hv). destruct ok; cbn [negb].
    + wp_step. apply wp_gui. cbn [tm_gui tm_this tm_inst tm_quits]. destruct (handler_law g) as (Hr2 & Hv2 & _).
      destruct (SetConsoleCtrlHandler g) as [g2 []]. cbn [fst snd] in *. unfold set_this. do 3 wp_step. cbn [negb].
      apply Hend; try done; [unfold holds in *; cbn; by rewrite Hr2, Hr|cbn; by rewrite Hv2, Hv].
    + wp_step. cbn [negb]. wp_step.
      split; [|split_and!; [done..|]; intros [Hcc|Hcc]; congruence].
      unfold serving, holds, console_ok in *. cbn [tm_gui tm_this tm_inst].
      rewrite Hr, Hv, Ea. split; [exact Hh|]. split_and!; [done|done| |done|done|done].
      intros Hw1 Hw2. cbn [tm_gui tm_this] in *. rewrite Hck. by apply Hm.
  - wp_step. apply wp_gui. destruct (show_law false (tm_gui s)) as (Hr & _ & Hv).
    destruct (ShowConsoleWindow _ _) as [g []]. cbn [fst snd] in *. wp_step. cbn [negb].
    apply Hend; try done; [unfold holds in *; cbn; by rewrite Hr|cbn; by rewrite Hv, Hc].
  - exfalso. destruct (console_enabled (tm_this s)); [|done]. by specialize (Ha eq_refl).
Qed.

(** Without a window there may still be a console. *)
Lemma set_console_enabled_frame s new_enabled :
  wp (set_console_enabled new_enabled)
    (λ _ s', resources (tm_gui s') = resources (tm_gui s) ∧ tm_inst s' = tm_inst s ∧ tm_quits s' = tm_quits s ∧
       ∃ a e, tm_this s' = set_console a e (tm_this s))
    (λ _ _, False) s.
Proof.
  destruct s as [g i t q]. unfold set_console_enabled, this, set_this. do 2 wp_step. cbn [tm_this].
  destruct (eqb _ _); [wp_step; split_and!; [done..|]; exists (alloced_console t), (console_enabled t); by destruct t|].
  assert (Hend : ∀ g1 a, resources g1 = resources g →
    wp (do* modify (λ s, mkState (tm_gui s) (tm_inst s) (set_console (alloced_console (tm_this s)) new_enabled (tm_this s)) (tm_quits s)) in
        let* _ := update_rightclick_menu in ret true)
      (λ _ s', resources (tm_gui s') = resources g ∧ tm_inst s' = i ∧ tm_quits s' = q ∧
         ∃ a e, tm_this s' = set_console a e t) (λ _ _, False) (mkState g1 i (set_console a (console_enabled t) t) q)).
  { intros g1 a Hr. do 3 wp_step. eapply wp_mono; [apply update_rightclick_menu_spec| |done].
    intros _ s' (g2 & -> & Hr2 & _). wp_step. cbn in *. split_and!; [congruence|done..|by eexists _, _]. }
  assert (Et : set_console (alloced_console t) (console_enabled t) t = t) by (by destruct t).
  wp_step. destruct new_enabled, (alloced_console t) eqn:Ea; cbn [negb].
  - wp_step. apply wp_gui. destruct (show_law true g) as (Hr & _). cbn [tm_gui] in *.
    destruct (ShowConsoleWindow _ _) as [g1 []]. wp_step. cbn [negb]. specialize (Hend g1 true Hr). by rewrite Et in Hend.
  - wp_step. apply wp_gui. pose proof (alloc_law g) as L. cbn [tm_gui]. destruct (AllocConsole g) as [g1 ok].
    destruct L as (_ & Hr & _). cbn [fst snd]. destruct ok; cbn [negb].
    + wp_step. apply wp_gui. cbn [tm_gui tm_this tm_inst tm_quits]. destruct (handler_law g1) as (Hr2 & _).
      destruct (SetConsoleCtrlHandler g1) as [g2 []]. cbn [fst snd] in *. do 3 wp_step. cbn [negb]. apply Hend. by rewrite <- Hr.
    + wp_step. cbn [negb]. wp_step. cbn. split_and!; [done..|]. exists false, (console_enabled t). done.
  - wp_step. apply wp_gui. destruct (show_law false g) as (Hr & _). cbn [tm_gui] in *.
    destruct (ShowConsoleWindow _ _) as [g1 []]. wp_step. cbn [negb]. specialize (Hend g1 true Hr). by rewrite Et in Hend.
  - wp_step. cbn [negb]. specialize (Hend g false eq_refl). by rewrite Et in Hend.
Qed.

(** The messages that matter. *)
Definition is_close (m : Z * Z * Z) : bool := let '(msg, _, _) := m in msg =? WM_CLOSE.
Definition is_quit (m : Z * Z * Z) : bool := let '(msg, _, _) := m in msg =? WM_QUIT.
Definition is_item (item : Z) (m : Z * Z * Z) : bool :=
  let '(msg, w_param, _) := m in (msg =? WM_COMMAND) && (HIWORD w_param =? 0) && (LOWORD w_param =? item).
Definition count_messages (p : Z * Z * Z → bool) (messages : list (Z * Z * Z)) : nat := length (List.filter p messages).

(** The default treatment of the message can close the window. *)
Definition default_closes (m : Z * Z * Z) : Prop :=
  let '(msg, w_param, l_param) := m in ∃ g : G, snd (DefWindowProc msg w_param l_param g) = true.
Definition may_close (m : Z * Z * Z) : Prop := is_close m = true ∨ default_closes m.

(** The window is gone; what is left can be joined. *)
Definition closed R s : Prop := released R s ∧ is_Some (tm_inst s) ∧ tm_thread (tm_this s) = true.

(** The window stays open: the quit item was counted, the console item toggled. *)
Definition stays R (m : Z * Z * Z) s s' : Prop :=
  is_close m = false ∧ serving R s' ∧
  tm_quits s' = (tm_quits s + count_messages (is_item QUIT_ITEM_ID) [m])%nat ∧
  (can_console s → can_console s' ∧
   console_enabled (tm_this s') = xorb (console_enabled (tm_this s)) (is_item CONSOLE_ITEM_ID m)).
Definition after_message R (m : Z * Z * Z) s s' : Prop :=
  closed R s' ∧ may_close m ∨ stays R m s s'.

Lemma serving_keep R s g :
  serving R s → keeps (tm_gui s) g → serving R (mkState g (tm_inst s) (tm_this s) (tm_quits s)).
Proof.
  intros (Hh & Hc & Hm & Hs) (Hr & Hv & _ & Hk). unfold serving, holds, console_ok, mark_ok in *.
  cbn [tm_gui tm_this tm_inst]. rewrite Hr, Hv, Hk. done.
Qed.

Lemma stays_keep R m s g :
  serving R s → keeps (tm_gui s) g →
  is_close m = false → is_item QUIT_ITEM_ID m = false → is_item CONSOLE_ITEM_ID m = false →
  stays R m s (mkState g (tm_inst s) (tm_this s) (tm_quits s)).
Proof.
  intros Hs Hk Ec Eq Ei. unfold stays, count_messages. cbn [List.filter].
  rewrite Eq, Ei, xorb_false_r. split_and!; [done|by apply serving_keep|simpl; lia|].
  intros Hcc. split; [|done]. destruct Hk as (_ & _ & Ha & _). unfold can_console in *. simpl. by rewrite Ha.
Qed.

Lemma stays_same R m s :
  serving R s → is_close m = false → is_item QUIT_ITEM_ID m = false → is_item CONSOLE_ITEM_ID m = false →
  stays R m s s.
Proof. intros Hs. destruct s as [g i t q]. by apply (stays_keep R m (mkState g i t q) g). Qed.

Lemma close_window R m s :
  serving R s → may_close m →
  wp (with_inst release_resources) (λ _ s', after_message R m s s') (λ _ _, False) s.
Proof.
  intros Hs Hm. pose proof Hs as (Hh & _ & _ & _ & [addr Hi] & Ht). unfold with_inst. do 2 wp_step. rewrite Hi.
  eapply wp_mono; [by apply release_resources_spec| |done].
  intros [] s' (Hr & Ei & Eq & _ & Et). left. unfold closed. rewrite Ei, Et. by split_and!; [|eauto| |].
Qed.

Lemma default_spec R msg w_param l_param s :
  serving R s → let m := (msg, w_param, l_param) in
  is_close m = false → is_item QUIT_ITEM_ID m = false → is_item CONSOLE_ITEM_ID m = false →
  wp (let* closes := gui (DefWindowProc msg w_param l_param) in
      if closes : bool then with_inst release_resources else ret tt)
    (λ _ s', after_message R m s s') (λ _ _, False) s.
Proof.
  cbv zeta. intros Hs Ec Eq Ei. wp_step. apply wp_gui. pose proof (default_law msg w_param l_param (tm_gui s)) as L.
  destruct (DefWindowProc _ _ _ _) as [g closes] eqn:E. cbn [fst snd] in *. destruct closes.
  - eapply wp_mono; [apply (close_window R (msg, w_param, l_param)); [by apply serving_keep|]| |done].
    + right. exists (tm_gui s). by rewrite E.
    + intros _ s' [H1|(H1 & H2 & H3 & H4)]; [by left|right]. split_and!; try done. intros Hcc. apply H4.
      destruct L as (_ & _ & Ha & _). unfold can_console in *. simpl. by rewrite Ha.
  - wp_step. right. by apply stays_keep.
Qed.

Lemma tray_window_proc_spec R m s :
  serving R s →
  wp (let '(msg, w_param, l_param) := m in tray_window_proc msg w_param l_param)
    (λ _ s', after_message R m s s') (λ _ _, False) s.
Proof.
  intros Hs. pose proof Hs as (Hh & _ & _ & _ & [addr Hi] & Ht).
  pose proof (stays_keep R m s) as Hkeep. pose proof (stays_same R m s Hs) as Hno.
  destruct m as [[msg w_param] l_param]. pose proof (default_spec R msg w_param l_param s Hs) as Hdef. cbv zeta in Hdef.
  unfold tray_window_proc. unfold is_item, is_close in Hkeep, Hno, Hdef.
  destruct (Z.eqb_spec msg WM_CLOSE) as [->|Hne]; [by apply close_window; [|left]|].
  destruct (Z.eqb_spec msg TRAY_ICON_CLICK_MSG) as [->|Hne2].
  { destruct (LOWORD l_param =? WM_CONTEXTMENU); [|wp_step; right; by apply Hno]. unfold with_inst, this.
    do 2 wp_step. rewrite Hi. do 2 wp_step.
    destruct (right_click_menu (tm_this s) =? 0); cbn [negb]; [wp_step; right; by apply Hno|].
    apply wp_gui. right. apply Hkeep; [done|apply popup_law|done..]. }
  destruct (Z.eqb_spec msg WM_COMMAND) as [->|Hne3]; cbn [andb] in *; [|by apply Hdef].
  destruct (HIWORD w_param =? 0) eqn:Eh; cbn [andb] in *; [|by apply Hdef]. unfold with_inst, this.
  destruct (Z.eqb_spec (LOWORD w_param) QUIT_ITEM_ID) as [Eq|Hq].
  { do 2 wp_step. rewrite Hi. unfold quit_callback. wp_step. right. unfold stays, count_messages. cbn. rewrite Eh, Eq. cbn.
    rewrite xorb_false_r. split_and!; [done|by apply (serving_keep R s (tm_gui s))|lia|done]. }
  destruct (Z.eqb_spec (LOWORD w_param) CONSOLE_ITEM_ID) as [Ec|Hc]; [|wp_step; right; by apply Hno].
  do 2 wp_step. rewrite Hi. do 3 wp_step. eapply wp_mono; [by apply (set_console_enabled_spec R s)| |done].
  intros ok s' (Hs' & Eq & _ & He & Hok). wp_step. right. unfold stays, count_messages. cbn. rewrite Eh, Ec. cbn.
  split_and!; [done|done|lia|]. intros Hcc. destruct (Hok Hcc) as [-> ?]. split; [done|]. by rewrite He, xorb_true_r.
Qed.

(** The loop waits for the next message, the window having stayed open; or it has
    ended, because the window was closed or because of a WM_QUIT, which releases
    nothing. *)
Definition loop_waits R (messages : list (Z * Z * Z)) s s' : Prop :=
  existsb is_close messages = false ∧ existsb is_quit messages = false ∧ serving R s' ∧
  tm_quits s' = (tm_quits s + count_messages (is_item QUIT_ITEM_ID) messages)%nat ∧
  (can_console s →
   console_enabled (tm_this s') =
     xorb (console_enabled (tm_this s)) (Nat.odd (count_messages (is_item CONSOLE_ITEM_ID) messages))).
Definition loop_ended R (messages : list (Z * Z * Z)) s' : Prop :=
  closed R s' ∧ Exists may_close messages ∨ serving R s' ∧ existsb is_quit messages = true.

Lemma event_loop_closed messages s :
  tray_icon_window (tm_this s) = 0 → event_loop messages s = (s, Ok true).
Proof. intros Hw. by destruct messages as [|[[? ?] ?] ?]; simpl; unfold bind, this, gets; rewrite Hw. Qed.

Lemma event_loop_spec R messages s :
  serving R s →
  wp (event_loop messages)
    (λ ended s', if ended : bool then loop_ended R messages s' else loop_waits R messages s s') (λ _ _, False) s.
Proof.
  revert s. induction messages as [|[[msg w_param] l_param] messages IH]; intros s Hs; simpl;
    pose proof Hs as (_ & _ & _ & Hw & _); unfold this; do 2 wp_step; rewrite (proj2 (Z.eqb_neq _ 0)) by done.
  { wp_step. unfold loop_waits, count_messages. simpl. rewrite xorb_false_r. split_and!; [done..|lia|done]. }
  destruct (msg =? WM_QUIT) eqn:Eq; [wp_step; right; simpl; by rewrite Eq|].
  wp_step. eapply wp_mono; [by apply (tray_window_proc_spec R (msg, w_param, l_param))| |done].
  intros [] s1 [[H1 Hm]|(Ec & H1 & Hq & Hx)].
  { unfold wp. rewrite event_loop_closed by apply H1. left. by split; [|left]. }
  eapply wp_mono; [by apply IH| |done]. intros [] s2 H2.
  - destruct H2 as [[H2 Hm]|[H2 Hm]]; [left; by split; [|right]|right]. simpl. rewrite Hm. by rewrite orb_true_r.
  - destruct H2 as (Hc2 & Hq2 & H2 & Hn2 & Hx2). unfold loop_waits, count_messages in *. simpl in Ec.
    cbn [existsb is_close is_quit List.filter] in *. rewrite Ec, Eq. split_and!; [done|done|done| |].
    + rewrite Hn2, Hq. destruct (is_item QUIT_ITEM_ID (msg, w_param, l_param)); cbn [length]; lia.
    + intros Hcc. destruct (Hx Hcc) as [Hcc1 E1]. rewrite (Hx2 Hcc1), E1.
      destruct (is_item CONSOLE_ITEM_ID (msg, w_param, l_param)); [|by rewrite xorb_false_r].
      cbn [length]. rewrite Nat.odd_succ, <- Nat.negb_odd. generalize (Nat.odd (length (List.filter (is_item CONSOLE_ITEM_ID) messages))).
      intros b. by destruct (console_enabled (tm_this s)), b.
Qed.
End Messages.

(** ** From the constructor to the destructor *)
Section Lifetime.
Context {G : Type} `{GuiLaws G} `{!ExePath G}.
Implicit Types (s : tray G) (R : gset resource).

(** A new object, not yet initialised, in a process without a console. *)
Definition fresh_object R s : Prop :=
  tm_this s = new_tray ∧ is_Some (tm_inst s) ∧ resources (tm_gui s) = R ∧ console (tm_gui s) = None.

Lemma construct_spec addr R s :
  tm_inst s = None → resources (tm_gui s) = R → console (tm_gui s) = None →
  wp (construct addr) (λ _ s', fresh_object R s' ∧ tm_inst s' = Some addr ∧ tm_quits s' = tm_quits s) (λ _ _, False) s.
Proof. intros Hi Hr Hc. unfold wp, construct. rewrite Hi. split; [|done]. unfold fresh_object. simpl. eauto. Qed.

(** The end of the thread's part in the initialisation. *)
Lemma finish_initialisation debug success R s :
  (if success : bool then serving R s ∧ console_enabled (tm_this s) = false else closed R s) →
  wp (do* (if debug : bool then let* _ := set_console_enabled true in ret tt else ret tt) in
      do* set_this (λ t, set_init (initialised t) success true t) in
      event_loop [])
    (λ _ s', (if success then serving R s' ∧ (debug = false ∨ can_console s → console_enabled (tm_this s') = debug) ∧
                (can_console s → can_console s')
              else closed R s') ∧
       tm_inst s' = tm_inst s ∧ tm_quits s' = tm_quits s ∧
       init_process_finished (tm_this s') = true ∧ init_succeeded (tm_this s') = success)
    (λ _ _, False) s.
Proof.
  intros Hs. wp_step.
  assert (Hd : wp (if debug then let* _ := set_console_enabled true in ret tt else ret tt)
    (λ _ s', (if success then serving R s' ∧ (debug = false ∨ can_console s → console_enabled (tm_this s') = debug) ∧
                (can_console s → can_console s')
              else closed R s') ∧ tm_inst s' = tm_inst s ∧ tm_quits s' = tm_quits s) (λ _ _, False) s).
  { destruct debug; [|wp_step; destruct success; [by destruct Hs as [? ?]; split_and!|done]]. wp_step. destruct success.
    - destruct Hs as [Hs E]. eapply wp_mono; [by apply (set_console_enabled_spec R s true)| |done].
      intros ok s' (Hs' & Eq & Ei & Ee & Hok). wp_step. split_and!; [done| | |done|done].
      + intros [|Hw]; [done|]. by rewrite Ee, (proj1 (Hok Hw)).
      + intros Hw. by apply Hok.
    - eapply wp_mono; [apply (set_console_enabled_frame s true)| |done].
      intros ok s' (Hr & Ei & Eq & a & e & Et). wp_step. split_and!; [|done|done].
      destruct Hs as ([Hw Hr0] & Hi & Ht). unfold closed, released, own_menu in *. by rewrite Hr, Et, Ei. }
  eapply wp_mono; [exact Hd| |done]. intros [] [g i t q] (H1 & Ei & Eq). unfold set_this. do 2 wp_step. cbn in Ei, Eq.
  subst i q. cbn [tm_gui tm_inst tm_this tm_quits event_loop]. unfold this. do 2 wp_step. cbn [tm_this set_init tray_icon_window].
  destruct success.
  - destruct H1 as (H1 & Hc & Hcc). pose proof H1 as (_ & _ & _ & Hw & _). rewrite (proj2 (Z.eqb_neq _ 0)) by exact Hw. wp_step. done.
  - pose proof H1 as ([Hw _] & _). rewrite (proj2 (Z.eqb_eq _ 0)) by exact Hw. wp_step. done.
Qed.

Lemma initialise_spec debug R s :
  fresh_object R s →
  wp (initialise debug)
    (λ ok s', (if ok then serving R s' ∧ (debug = false ∨ console_available (tm_gui s) = true → console_enabled (tm_this s') = debug) ∧
                 (console_available (tm_gui s) = true → can_console s')
               else closed R s') ∧
       tm_inst s' = tm_inst s ∧ tm_quits s' = tm_quits s)
    (λ _ _, False) s.
Proof.
  destruct s as [g inst t q]. intros (Et & [addr Ei] & Hr & Hc). cbn in Et, Ei, Hr, Hc. subst t inst.
  unfold initialise, this, set_this. do 2 wp_step. cbn [initialised new_tray tm_this]. do 3 wp_step.
  unfold window_thread_entry_point. wp_step. eapply wp_mono; [by apply (initialise_internal_spec R)| |done].
  intros ok s1 (c & w & i & m & e & (g1 & -> & Hh & Hv & Hav) & Hok). cbn [tm_gui tm_this tm_inst tm_quits] in *.
  set (s1 := mkState g1 _ _ _) in *. wp_step.
  apply (wp_mono _ (λ _ s2, (if ok then serving R s2 ∧ console_enabled (tm_this s2) = false ∧
      (console_available g = true → can_console s2) else closed R s2) ∧
    tm_inst s2 = Some addr ∧ tm_quits s2 = q) _ (λ _ _, False)); [| |done].
  - destruct ok; cbn [negb].
    + destruct (Hok eq_refl) as [Hw Hm]. wp_step. split; [|done].
      split; [|split; [done|intros Ha; right; simpl; by rewrite Hav]].
      unfold serving, console_ok. cbn. rewrite Hv, Hc. eauto 10.
    + eapply wp_mono; [by apply (release_resources_spec R)| |done].
      intros [] s2 (Hr2 & Ei2 & Eq2 & _ & Et2). unfold closed. rewrite Ei2. by split_and!.
  - intros [] s2 (H2 & Ei2 & Eq2). eapply wp_mono; [apply (finish_initialisation debug ok R s2)| |done].
    { destruct ok; [|done]. by destruct H2 as (? & ? & _). }
    intros _ s3 (H3 & Ei3 & Eq3 & Ef & Es). do 2 wp_step. rewrite Ef. cbn [negb]. wp_step.
    rewrite Es. split_and!; [|congruence..]. destruct ok; [|done]. cbn [tm_gui].
    destruct H2 as (_ & _ & Hcc), H3 as (H3 & Hd & Hc3). split_and!; [done|intros [?|?]; auto|auto].
Qed.

(** The window's queue takes the message to close. *)
Definition posts_work : Prop := ∀ w m (g : G), snd (PostMessage w m g) = true.

(** Nothing was released: the window is still open. *)
Definition left_open R s : Prop := holds R s ∧ tray_icon_window (tm_this s) ≠ 0.

(** The thread ends once the window was told to close, and the object goes. *)
Lemma destruct_tray_spec R (ended : bool) earlier messages s :
  posts_work → closed R s ∨ serving R s ∧ (ended = true → existsb is_quit earlier = true) →
  ∃ s', destruct_tray ended messages s = Done (s', Ok tt) ∧ tm_inst s' = None ∧
    (released R s' ∨ left_open R s' ∧ existsb is_quit (earlier ++ messages) = true).
Proof.
  intros Hp Hs. rewrite existsb_app.
  assert (Ht : tm_thread (tm_this s) = true) by (by destruct Hs as [(_ & _ & ?)|[(_ & _ & _ & _ & _ & ?) _]]).
  unfold destruct_tray. destruct Hs as [[[Hw Hr] _]|[Hs He]].
  - rewrite Hw. cbn [Z.eqb negb]. rewrite Ht. cbn [negb].
    replace ((if ended then ret true else event_loop _) s) with (s, Ok true : result bool)
      by (by destruct ended; [|rewrite event_loop_closed]).
    eexists. split; [done|]. split; [done|]. by left.
  - pose proof Hs as (_ & _ & _ & Hw & _). rewrite (proj2 (Z.eqb_neq _ 0)) by done. cbn [negb].
    set (close := (WM_CLOSE, 0, 0)). pose proof (post_law (tray_icon_window (tm_this s)) close (tm_gui s)) as L.
    specialize (Hp (tray_icon_window (tm_this s)) close (tm_gui s)). destruct (PostMessage _ _ _) as [g ok]. cbn in L, Hp.
    subst ok. pose proof (serving_keep R s g Hs L) as Hs1. set (s1 := mkState g _ _ _) in *.
    change (tm_this s1) with (tm_this s). rewrite Ht. cbn [negb]. destruct ended.
    + cbn [ret]. eexists. split; [done|]. split; [done|]. right. rewrite He by done.
      split; [|done]. split; [apply Hs1|done].
    + pose proof (event_loop_spec R (messages ++ [close]) s1 Hs1) as Hl. unfold wp in Hl.
      destruct (event_loop _ s1) as [s2 [[]|]]; [| |done].
      * eexists. split; [done|]. split; [done|]. destruct Hl as [[[Hl _] _]|[Hl Hq]]; [by left|right].
        rewrite existsb_app in Hq. cbn in Hq. rewrite orb_false_r in Hq. rewrite Hq, orb_true_r.
        split; [|done]. split; [apply Hl|]. by destruct Hl as (_ & _ & _ & ? & _).
      * destruct Hl as [Hl _]. rewrite existsb_app in Hl. cbn in Hl. by rewrite orb_true_r in Hl.
Qed.
End Lifetime.

(** ** Claims *)
Section Claims.
Context {G : Type} `{GuiLaws G} `{!ExePath G}.
Implicit Types (s : tray G) (R : gset resource).

(** C19. The tray icon cleans up after itself: an object can be constructed when there
    is no other, and only then; whether or not the window system lets it create its
    class, window, icon, menu and tray icon, whatever messages came in before the
    destructor and wait in the queue then, the destructor returns when the message to
    close can be posted: the thread that handles the messages ends, and everything that
    was acquired is released, and nothing else, except for the menu, which is never
    destroyed.  The one exception is a WM_QUIT among the messages, which can end the
    loop before the window is closed, and then everything stays.  After a failed
    initialisation everything but the menu has been released already. *)
Theorem tray_released_but_menu debug addr R s :
  tm_inst s = None → resources (tm_gui s) = R → console (tm_gui s) = None → posts_work (G := G) →
  wp (do* construct addr in initialise debug)
    (λ ok s1, (ok = false → released R s1) ∧ snd (construct addr s1) ≠ Ok tt ∧
       ∀ messages queue,
         wp (event_loop messages)
           (λ ended s2, ∃ s3, destruct_tray ended queue s2 = Done (s3, Ok tt) ∧ tm_inst s3 = None ∧
              (released R s3 ∨ left_open R s3 ∧ existsb is_quit (messages ++ queue) = true))
           (λ _ _, False) s1)
    (λ _ _, False) s.
Proof.
  intros Hi Hr Hc Hp. wp_step. eapply wp_mono; [by apply (construct_spec addr R)| |done]. intros [] s0 (Hf & Ei & _).
  eapply wp_mono; [by apply (initialise_spec debug R)| |done]. intros ok s1 (H1 & Ei1 & _). split_and!.
  - intros ->. apply H1.
  - unfold construct. by rewrite Ei1, Ei.
  - intros messages queue. destruct ok.
    + eapply wp_mono; [apply (event_loop_spec R), H1| |done]. intros ended s2 H2. apply destruct_tray_spec; [done|].
      destruct ended; [destruct H2 as [[? _]|[? ?]]; auto|]. right. destruct H2 as (_ & _ & ? & _). done.
    + unfold wp. rewrite event_loop_closed by apply H1. apply destruct_tray_spec; [done|]. by left.
Qed.

(** C23. The console follows the menu: whatever messages have been handled, as long as
    the thread still waits for more (no message has closed the window or ended the
    loop), the console is shown exactly when it is enabled (and allocated before), the
    item of the menu is checked exactly then if the window system can set marks, each
    choice of that item has toggled it, from hidden, or shown in a debug build, if a
    console could be allocated at the start, and the callback was called once for each
    choice of the quit item.  The loop is ended only by a WM_QUIT or a message that
    closes the window. *)
Theorem console_follows_menu debug R s messages :
  fresh_object R s →
  wp (let* ok := initialise debug in let* ended := event_loop messages in ret (ok, ended))
    (λ '(ok, ended) s', ok = true →
       if ended : bool then Exists (λ m, may_close (G := G) m ∨ is_quit m = true) messages
       else
         console_ok s' ∧ mark_ok s' ∧ tm_quits s' = (tm_quits s + count_messages (is_item QUIT_ITEM_ID) messages)%nat ∧
         (console_available (tm_gui s) = true →
          console (tm_gui s') =
            (if xorb debug (Nat.odd (count_messages (is_item CONSOLE_ITEM_ID) messages)) then Some true
             else if alloced_console (tm_this s') then Some false else None)))
    (λ _ _, False) s.
Proof.
  intros Hf. wp_step. eapply wp_mono; [by apply (initialise_spec debug R)| |done]. intros ok s1 (H1 & _ & Eq).
  wp_step. destruct ok.
  - destruct H1 as (H1 & E1 & Hcc). eapply wp_mono; [by apply (event_loop_spec R)| |done].
    intros ended s2 H2. wp_step. intros _. destruct ended.
    + destruct H2 as [[_ Hm]|[_ Hm]]; [eapply Exists_impl; [exact Hm|by left]|].
      apply existsb_exists in Hm as (m & Hin & Hm). apply Exists_exists. exists m. rewrite list_elem_of_In. auto.
    + destruct H2 as (_ & _ & H2 & Hq & Hx). destruct H2 as (_ & Hc & Hm & _).
      split_and!; [done|done|congruence|]. intros Ha. specialize (Hx (Hcc Ha)).
      rewrite (E1 (or_intror Ha)) in Hx. destruct Hc as [-> Hal]. rewrite Hx in Hal |- *.
      destruct (xorb _ _); [by rewrite Hal|done].
  - unfold wp at 1. destruct H1 as [[Hz _] _]. rewrite event_loop_closed by done. by wp_step.
Qed.

(** Ctrl + C after the object is gone is fatal: the console's handler stays
    registered, and once the destructor has returned it goes through a null pointer,
    where before it calls the callback once. *)
Theorem ctrl_c_needs_object ended messages s s' :
  destruct_tray ended messages s = Done (s', Ok tt) →
  console_handler CTRL_C_EVENT s' = (s', Throw UndefinedBehaviour) ∧
  (is_Some (tm_inst s) →
   console_handler CTRL_C_EVENT s = (mkState (tm_gui s) (tm_inst s) (tm_this s) (S (tm_quits s)), Ok true)).
Proof.
  unfold destruct_tray. intros Hd. split.
  - destruct (if negb (_ =? 0) then _ else _) as [s1 posted]. destruct (negb _); [done|].
    match type of Hd with match ?m with _ => _ end = _ => destruct m as [s2 [[]|]] end; [|done..].
    by injection Hd as <-.
  - intros [addr Hi]. clear -Hi. destruct s as [g i t q]. simpl in Hi. by subst i.
Qed.
End Claims.

(** ** A concrete window system

    Handles are numbers; [dg_fails] says which calls fail. *)
Inductive gui_call : Type := CallWindow | CallIcon | CallNoExe | CallMenu | CallAdd | CallConsole.

#[global] Instance gui_call_eq_dec : EqDecision gui_call.
Proof. solve_decision. Defined.

Record demo_gui : Type := mkGui {
  dg_resources : list resource;
  dg_console : option bool;
  dg_checked : Z → Z → bool;
  dg_fails : list gui_call;
}.

Definition handle_of (r : resource) : Z :=
  match r with RClass => 0 | RWindow h | RIcon h | RMenu h | RTray h _ => h end.
Definition fresh_handle (l : list resource) : Z := foldr (λ r h, Z.max (handle_of r + 1) h) 2 l.
Definition is_window (r : resource) : bool := match r with RWindow _ => true | _ => false end.
Definition WM_SYSCOMMAND : Z := 0x112.
Definition SC_CLOSE : Z := 0xF060.

Lemma fresh_handle_above l r : r ∈ l → handle_of r < fresh_handle l.
Proof.
  induction l as [|x l IH]; [by intros []%not_elem_of_nil|].
  intros [->|Hr]%elem_of_cons; simpl; [lia|]. specialize (IH Hr). lia.
Qed.
Lemma fresh_handle_pos l : 2 ≤ fresh_handle l.
Proof. induction l; simpl; lia. Qed.

(** Windows without their class are left out. *)
Definition visible_resources (l : list resource) : list resource :=
  if bool_decide (RClass ∈ l) then l else List.filter (λ r, negb (is_window r)) l.

Lemma elem_of_visible r l : r ∈ visible_resources l ↔ r ∈ l ∧ (is_window r = true → RClass ∈ l).
Proof.
  unfold visible_resources. case_bool_decide as Hc; [tauto|].
  rewrite (list_elem_of_In (List.filter _ _)), filter_In, <- list_elem_of_In. split.
  - intros [? Hw%negb_true_iff]. split; [done|congruence].
  - intros [? Hw]. split; [done|]. apply negb_true_iff, not_true_iff_false. auto.
Qed.

Definition gui_add (r : resource) (g : demo_gui) : demo_gui :=
  mkGui (r :: dg_resources g) (dg_console g) (dg_checked g) (dg_fails g).
Definition gui_remove (r : resource) (g : demo_gui) : demo_gui :=
  mkGui (base.filter (λ x, x ≠ r) (dg_resources g)) (dg_console g) (dg_checked g) (dg_fails g).
Definition gui_new (c : gui_call) (mk : Z → resource) (g : demo_gui) : demo_gui * Z :=
  if bool_decide (c ∈ dg_fails g) then (g, 0)
  else let h := fresh_handle (dg_resources g) in (gui_add (mk h) g, h).
Definition dg_has_console (g : demo_gui) : bool :=
  bool_decide (dg_console g = None) && negb (bool_decide (CallConsole ∈ dg_fails g)).
Definition set_gui_console (c : option bool) (g : demo_gui) : demo_gui :=
  mkGui (dg_resources g) c (dg_checked g) (dg_fails g).

#[global] Instance demo_gui_ops : Gui demo_gui := {|
  RegisterClass g :=
    if bool_decide (RClass ∈ dg_resources g) then (g, false)
    else (mkGui (RClass :: visible_resources (dg_resources g)) (dg_console g) (dg_checked g) (dg_fails g), true);
  UnregisterClass g := (if existsb is_window (dg_resources g) then g else gui_remove RClass g, tt);
  CreateWindowEx g := if bool_decide (RClass ∈ dg_resources g) then gui_new CallWindow RWindow g else (g, 0);
  DestroyWindow w g := (gui_remove (RWindow w) g, tt);
  ExtractIcon _ g := if bool_decide (CallNoExe ∈ dg_fails g) then (g, 1) else gui_new CallIcon RIcon g;
  DestroyIcon i g := (if i =? 1 then g else gui_remove (RIcon i) g, tt);
  CreatePopupMenu := gui_new CallMenu RMenu;
  InsertMenu _ _ _ g := (g, true);
  SetMenuItemInfo m i b g :=
    (mkGui (dg_resources g) (dg_console g) (λ m' i', if (m' =? m) && (i' =? i) then b else dg_checked g m' i')
       (dg_fails g), true);
  TrackPopupMenu _ g := (g, tt);
  Shell_NotifyIcon_add w i _ g :=
    if bool_decide (CallAdd ∈ dg_fails g) || bool_decide (RTray w i ∈ dg_resources g) then (g, false)
    else (gui_add (RTray w i) g, true);
  Shell_NotifyIcon_setversion _ _ g := (g, true);
  Shell_NotifyIcon_delete w i g := (gui_remove (RTray w i) g, tt);
  AllocConsole g :=
    if dg_has_console g then (set_gui_console (Some true) g, true) else (g, false);
  SetConsoleCtrlHandler g := (g, tt);
  ShowConsoleWindow b g := (set_gui_console (match dg_console g with Some _ => Some b | None => None end) g, tt);
  DefWindowProc m w _ g := (g, (m =? WM_SYSCOMMAND) && (Z.land w 0xFFF0 =? SC_CLOSE));
  PostMessage _ _ g := (g, true);
  resources g := list_to_set (visible_resources (dg_resources g));
  console := dg_console;
  console_available := dg_has_console;
  checked m i g := dg_checked g m i;
|}.

#[global] Instance demo_gui_exe : ExePath demo_gui := {|
  GetModuleFileName _ _ := Some (ws (bs "nandroidfs.exe")); PathRemoveFileSpec p := []; PathCombine d f := f |}.

Lemma demo_resources r g : r ∈ resources (G := demo_gui) g ↔ r ∈ dg_resources g ∧ (is_window r = true → RClass ∈ dg_resources g).
Proof. simpl. by rewrite elem_of_list_to_set, elem_of_visible. Qed.

Lemma demo_add r g :
  r ∉ dg_resources g → r ≠ RClass → (is_window r = true → RClass ∈ dg_resources g) → acquires r g (gui_add r g).
Proof.
  intros Hr Hc Hw. split; [rewrite demo_resources; tauto|]. split; [|done]. apply set_eq. intros x.
  rewrite elem_of_union, !demo_resources, elem_of_singleton. simpl. rewrite !elem_of_cons.
  destruct (decide (x = r)) as [->|]; [tauto|]. intuition congruence.
Qed.

Lemma demo_remove r g : r ≠ RClass → releases r g (gui_remove r g).
Proof.
  intros Hc. split; [|done]. apply set_eq. intros x.
  rewrite elem_of_difference, !demo_resources, elem_of_singleton. simpl. rewrite !list_elem_of_filter.
  intuition congruence.
Qed.

Lemma demo_new c mk g :
  (∀ h, handle_of (mk h) = h) → (∀ h, mk h ≠ RClass) → (∀ h, is_window (mk h) = true → RClass ∈ dg_resources g) →
  let '(g', h) := gui_new c mk g in h ≠ 1 ∧ if h =? 0 then keeps g g' else acquires (mk h) g g'.
Proof.
  intros Hmk Hc Hw. unfold gui_new. case_bool_decide; [by split|]. cbv zeta.
  pose proof (fresh_handle_pos (dg_resources g)). split; [lia|]. rewrite (proj2 (Z.eqb_neq _ 0)) by lia.
  apply demo_add; [|done|by apply Hw]. intros Hin%fresh_handle_above. rewrite Hmk in Hin. lia.
Qed.

Lemma demo_windows g : existsb is_window (dg_resources g) = true ↔ ∃ w, RWindow w ∈ dg_resources g.
Proof.
  rewrite existsb_exists. split.
  - intros (r & Hr & Hw). destruct r; try done. exists window. by apply list_elem_of_In.
  - intros [w Hw]. exists (RWindow w). by rewrite <- list_elem_of_In.
Qed.

#[global] Instance demo_gui_laws : GuiLaws demo_gui.
Proof.
  split; try done.
  - intros g Hc w. rewrite demo_resources. intros [_ Hw]. apply Hc. rewrite demo_resources. auto.
  - intros g. simpl. case_bool_decide as Hc; [done|]. split; [rewrite demo_resources; tauto|]. split; [|done].
    apply set_eq. intros x. rewrite elem_of_union, !demo_resources, elem_of_singleton. simpl.
    rewrite !elem_of_cons, elem_of_visible. destruct (decide (x = RClass)) as [->|]; [tauto|]. intuition congruence.
  - intros g Hno. simpl. destruct (existsb is_window _) eqn:E.
    + apply demo_windows in E as [w Hw]. split; [|done]. apply set_eq. intros x. rewrite elem_of_difference, !demo_resources, elem_of_singleton.
      assert (RClass ∉ dg_resources g) by (intros Hc; apply (Hno w); rewrite demo_resources; auto). intuition congruence.
    + split; [|done]. apply set_eq. intros x. rewrite elem_of_difference, !demo_resources, elem_of_singleton. simpl.
      rewrite !list_elem_of_filter. destruct (is_window x) eqn:Ew; [|intuition congruence].
      assert (x ∉ dg_resources g); [|tauto]. intros Hx. destruct x as [|w| | |]; try done.
      assert (existsb is_window (dg_resources g) = true) by (apply demo_windows; eauto). congruence.
  - intros g w Hw. simpl. rewrite demo_resources in Hw. rewrite (proj2 (demo_windows g)) by (exists w; tauto). done.
  - intros g. simpl. case_bool_decide; [|done]. pose proof (demo_new CallWindow RWindow g) as L.
    destruct (gui_new _ _ _). by apply L.
  - intros w g. by apply demo_remove.
  - intros p g. simpl. case_bool_decide; [done|]. pose proof (demo_new CallIcon RIcon g) as L.
    destruct (gui_new _ _ _) as [g' h]. destruct L as [Hh L]; [done..|]. rewrite (proj2 (Z.eqb_neq h 1)) by done. by rewrite orb_false_r.
  - intros i g. simpl. destruct (i =? 1); [done|]. by apply demo_remove.
  - intros g. simpl. pose proof (demo_new CallMenu RMenu g) as L. destruct (gui_new _ _ _). by apply L.
  - intros w i ic g. simpl. case_bool_decide; [done|]. case_bool_decide; [done|]. by apply demo_add.
  - intros w i g _. by apply demo_remove.
  - intros g. simpl. destruct (dg_has_console g) eqn:E; split_and!; done.
Qed.

Module TrayWitnesses.
Definition desktop (fails : list gui_call) : tray demo_gui :=
  mkState (mkGui [RIcon 7] None (λ _ _, false) fails) None new_tray 0.
Definition toggle : Z * Z * Z := (WM_COMMAND, CONSOLE_ITEM_ID, 0).
Definition quit : Z * Z * Z := (WM_COMMAND, QUIT_ITEM_ID, 0).
Definition object : tray demo_gui := mkState (tm_gui (desktop [])) (Some 99) new_tray 0.

(** With the icon refused, the class and the window go again. *)
Example icon_refused :
  let '(s, r) := (do* construct 99 in initialise false) (desktop [CallIcon]) in
  r = Ok false ∧ dg_resources (tm_gui s) = [RIcon 7].
Proof. vm_compute. done. Qed.

(** An executable without an icon gives the number 1, which the object takes for one. *)
Example no_icon :
  let '(s, r) := (do* construct 99 in initialise false) (desktop [CallNoExe]) in
  r = Ok true ∧ exe_icon (tm_this s) = 1.
Proof. vm_compute. done. Qed.

Lemma demo_posts : posts_work (G := demo_gui).
Proof. done. Qed.

Lemma tray_released_but_menu_witness :
  wp (do* construct 99 in initialise true)
    (λ ok s1, (ok = false → released (resources (tm_gui (desktop []))) s1) ∧ snd (construct 99 s1) ≠ Ok tt ∧
       ∀ messages queue,
         wp (event_loop messages)
           (λ ended s2, ∃ s3, destruct_tray ended queue s2 = Done (s3, Ok tt) ∧ tm_inst s3 = None ∧
              (released (resources (tm_gui (desktop []))) s3 ∨
               left_open (resources (tm_gui (desktop []))) s3 ∧ existsb is_quit (messages ++ queue) = true))
           (λ _ _, False) s1)
    (λ _ _, False) (desktop []).
Proof.
  apply (tray_released_but_menu true 99 (resources (tm_gui (desktop []))) (desktop []));
    [reflexivity..|exact demo_posts].
Defined.

(** A WM_QUIT ends the thread with everything still held. *)
Example quit_leaves_everything :
  match (let* ok := do* construct 99 in initialise false in let* ended := event_loop [(WM_QUIT, 0, 0)] in ret ended) (desktop []) with
  | (s, Ok ended) =>
      match destruct_tray ended [] s with
      | Done (s', Ok _) => length (dg_resources (tm_gui s')) = 6%nat
      | _ => False
      end
  | _ => False
  end.
Proof. vm_compute. reflexivity. Qed.

Definition toggled : M (tray demo_gui) (bool * bool) :=
  let* ok := initialise true in let* ended := event_loop [toggle; quit] in ret (ok, ended).

Lemma console_follows_menu_witness :
  snd (toggled object) = Ok (true, false) ∧ console_available (tm_gui object) = true ∧
  console (tm_gui (fst (toggled object))) = Some false ∧
  wp toggled
    (λ '(ok, ended) s', ok = true →
       if ended : bool then Exists (λ m, may_close (G := demo_gui) m ∨ is_quit m = true) [toggle; quit]
       else
         console_ok s' ∧ mark_ok s' ∧ tm_quits s' = (tm_quits object + count_messages (is_item QUIT_ITEM_ID) [toggle; quit])%nat ∧
         (console_available (tm_gui object) = true →
          console (tm_gui s') =
            (if xorb true (Nat.odd (count_messages (is_item CONSOLE_ITEM_ID) [toggle; quit])) then Some true
             else if alloced_console (tm_this s') then Some false else None)))
    (λ _ _, False) object.
Proof.
  split; [vm_compute; reflexivity|]. split; [vm_compute; reflexivity|]. split; [vm_compute; reflexivity|].
  apply (console_follows_menu true (resources (tm_gui object)) object [toggle; quit]).
  split_and!; [reflexivity|by exists 99|reflexivity..].
Defined.

Definition gone : tray demo_gui := mkState (tm_gui object) None (set_thread new_tray) 0.
Definition unused : tray demo_gui := mkState (tm_gui object) (Some 99) (set_thread new_tray) 0.

Lemma ctrl_c_needs_object_witness :
  console_handler CTRL_C_EVENT gone = (gone, Throw UndefinedBehaviour) ∧
  (is_Some (tm_inst unused) →
   console_handler CTRL_C_EVENT unused =
     (mkState (tm_gui unused) (tm_inst unused) (tm_this unused) (S (tm_quits unused)), Ok true)).
Proof. apply (ctrl_c_needs_object false [] unused gone). reflexivity. Defined.
End TrayWitnesses.
