(* ===== verification/App.v ===== *)
(** * The client's entry point: nandroidfs/main.cpp

    The main thread, which looks for devices until it is told to stop, and the
    request to stop, which comes from another thread (the tray menu or Ctrl + C);
    and [WinMain] around it. *)

From stdpp Require Import pretty.
From S2P Require Import Prelude Effects Endian Wire Serialization Socket Requests Responses.
From S2P Require Import PathUtils Conversion TimedCache WinPath Adb Connection Client Connect Lines Logger.
From S2P Require Import Nandroid DeviceTracker TrayMenu.

Definition DEVICE_CHECK_INTERVAL_MS : Z := 1000.

(** ** The main thread *)

(** How [scan_for_devices] is left, the tracker being destroyed: normally, by an
    exception, or not at all because the program has ended. *)
Inductive outcome (W : Type) : Type :=
  | Returned (h : host W)
  | Threw (e : exn) (h : host W)
  | Terminated.
Arguments Returned {W} _.
Arguments Threw {W} _ _.
Arguments Terminated {W}.

(** Where the main thread is.  [shutdown_mutex] is held in [Testing] alone; a wait
    ends at its deadline, when it is notified, or for no reason. *)
Inductive main_pc (W : Type) : Type :=
  | Testing
  | Updating
  | Waiting (deadline : Z) (notified : bool)
  | Left (how : outcome W).
Arguments Testing {W}.
Arguments Updating {W}.
Arguments Waiting {W} _ _.
Arguments Left {W} _.

Record app (W N : Type) : Type := mkApp {
  ap_pc : main_pc W;
  ap_tracker : tracker W N;
  shutdown_requested : bool;
  ap_now : Z;
}.
Arguments mkApp {W N} _ _ _ _.
Arguments ap_pc {W N} _.
Arguments ap_tracker {W N} _.
Arguments shutdown_requested {W N} _.
Arguments ap_now {W N} _.

Section App.
Context {W N : Type} `{Processes W} `{!ExePath W} `{!Winsock W N} `{!Dokan W} `{!Socket N} `{WideStrings}.
Context (steady_now : nat → Z).
Context (agent_of : bytes → host W → list agent_event) (exits : bytes → host W → bool).
Context (order : gset bytes → list bytes).

Definition update (t : tracker W N) : fate (tracker W N * result unit) :=
  update_connected_devices steady_now agent_of exits order t.

(** Leaving the function destroys the tracker; [None] where that does not come back. *)
Definition leave (t : tracker W N) (thrown : option exn) : option (outcome W) :=
  match destroy_tracker exits order t with
  | Done h => Some (match thrown with None => Returned h | Some e => Threw e h end)
  | Ended => Some Terminated
  | Stuck => None
  end.

(** The callback may have been called before the mutex is locked for the first time. *)
Definition start (h : host W) (requested : bool) (now : Z) : app W N := mkApp Testing (new_tracker h) requested now.

(** The steps of the main thread, of time while it waits, and of the thread that
    runs the callback given to the tray menu; a call of the callback that changes
    nothing is no step.  An update that is stuck is left by no step. *)
Inductive app_step : app W N → app W N → Prop :=
  | step_go t now : app_step (mkApp Testing t false now) (mkApp Updating t false now)
  | step_stop t now how :
      leave t None = Some how → app_step (mkApp Testing t true now) (mkApp (Left how) t true now)
  | step_updated t t' r now now' :
      now ≤ now' → update t = Done (t', Ok tt) →
      app_step (mkApp Updating t r now) (mkApp (Waiting (now' + DEVICE_CHECK_INTERVAL_MS) false) t' r now')
  | step_update_threw t t' e r now now' how :
      now ≤ now' → update t = Done (t', Throw e) → catchable e → leave t' (Some e) = Some how →
      app_step (mkApp Updating t r now) (mkApp (Left how) t' r now')
  | step_update_ended t r now now' :
      now ≤ now' → update t = Ended →
      app_step (mkApp Updating t r now) (mkApp (Left Terminated) t r now')
  | step_time t d n r now :
      now < d → app_step (mkApp (Waiting d n) t r now) (mkApp (Waiting d n) t r (now + 1))
  | step_wake t d n r now : app_step (mkApp (Waiting d n) t r now) (mkApp Testing t r now)
  | step_quit_update t now : app_step (mkApp Updating t false now) (mkApp Updating t true now)
  | step_quit_wait t d r now :
      app_step (mkApp (Waiting d false) t r now) (mkApp (Waiting d true) t true now).

(** ** Executions *)
Inductive reachable_from (s : app W N) : app W N → Prop :=
  | reach_refl : reachable_from s s
  | reach_step s1 s2 : reachable_from s s1 → app_step s1 s2 → reachable_from s s2.

#[local] Abbreviation inevitably := (inevitable app_step).

(** [n] rounds of [update] that return. *)
Inductive rounds : nat → tracker W N → tracker W N → Prop :=
  | rounds_none t : rounds 0 t t
  | rounds_more n t t1 t2 : rounds n t t1 → update t1 = Done (t2, Ok tt) → rounds (S n) t t2.

Definition left_with (how : outcome W) (t : tracker W N) (deadline : Z) (s : app W N) : Prop :=
  ap_pc s = Left how ∧ ap_tracker s = t ∧ ap_now s ≤ deadline.

(** ** The request to stop is served *)
Section Served.
Context (t : tracker W N) (how : outcome W) (Hleave : leave t None = Some how).

Lemma testing_stops now : inevitably (left_with how t now) (mkApp Testing t true now).
Proof.
  apply inev_next; [eexists; by apply step_stop|]. intros s' Hs. inversion Hs; subst.
  apply inev_now. split_and!; [simpl; congruence|done..].
Qed.

Lemma left_with_mono d d' s : d ≤ d' → left_with how t d s → left_with how t d' s.
Proof. intros Hd (? & ? & ?). split_and!; [done|done|lia]. Qed.

Lemma waiting_stops d n now :
  inevitably (left_with how t (Z.max now d)) (mkApp (Waiting d n) t true now).
Proof.
  remember (Z.to_nat (d - now)) as k eqn:Ek. revert now n Ek.
  induction k as [k IH] using lt_wf_ind. intros now n Ek.
  assert (Hwake : inevitably (left_with how t (Z.max now d)) (mkApp Testing t true now)).
  { eapply inevitable_mono; [|apply testing_stops]. intros s'. apply left_with_mono. lia. }
  assert (Htime : now < d → ∀ n, inevitably (left_with how t (Z.max now d)) (mkApp (Waiting d n) t true (now + 1))).
  { intros Hd n'. eapply inevitable_mono; [|by eapply (IH (Z.to_nat (d - (now + 1)))); [lia|]].
    intros s'. apply left_with_mono. lia. }
  assert (Hn : inevitably (left_with how t (Z.max now d)) (mkApp (Waiting d true) t true now)).
  { apply inev_next; [eexists; apply step_wake|]. intros s' Hs. inversion Hs; subst; auto. }
  destruct n; [done|]. apply inev_next; [eexists; apply step_wake|]. intros s' Hs. inversion Hs; subst; auto.
Qed.
End Served.

(** The loop is left. *)
Definition has_left (s : app W N) : Prop := ∃ how, ap_pc s = Left how.

Lemma left_with_left how t d s : left_with how t d s → has_left s.
Proof. intros (E & _). by eexists. Qed.

(** No round and no destructor gets stuck. *)
Definition comes_back : Prop :=
  (∀ t, fwp (update t) (λ '(_, r), match r with Ok _ => True | Throw e => catchable e end) True) ∧
  ∀ t, fwp (destroy_tracker exits order t) (λ _, True) True.

Lemma leaves t thrown : comes_back → ∃ how, leave t thrown = Some how.
Proof.
  intros [_ Hd]. specialize (Hd t). unfold leave. destruct (destroy_tracker exits order t); [by eexists|by eexists|done].
Qed.

Lemma updating_stops t now : comes_back → inevitably has_left (mkApp Updating t true now).
Proof.
  intros Hcb. apply inev_next.
  - pose proof (proj1 Hcb t) as Hu. destruct (update t) as [[t' [[]|e]]| |] eqn:E; [| | |done].
    + eexists. by apply (step_updated t t' true now now); [lia|].
    + destruct (leaves t' (Some e) Hcb) as [how Hl]. eexists. by apply (step_update_threw t t' e true now now how); [lia|..].
    + eexists. by apply (step_update_ended t true now now); [lia|].
  - intros s' Hs. inversion Hs; subst.
    + destruct (leaves t' None Hcb) as [how Hl].
      eapply inevitable_mono; [|by apply (waiting_stops t' how)]. intros s'. apply left_with_left.
    + apply inev_now. by eexists.
    + apply inev_now. by eexists.
Qed.

Lemma requested_stops s : comes_back → shutdown_requested s = true → inevitably has_left s.
Proof.
  intros Hcb. destruct s as [[| |d n|how] t r now]; simpl; intros ->.
  - destruct (leaves t None Hcb) as [how Hl].
    eapply inevitable_mono; [|by apply (testing_stops t how)]. intros s'. apply left_with_left.
  - by apply updating_stops.
  - destruct (leaves t None Hcb) as [how Hl].
    eapply inevitable_mono; [|by apply (waiting_stops t how)]. intros s'. apply left_with_left.
  - apply inev_now. by eexists.
Qed.

(** ** What has happened by then *)

(** The program was ended by a round, or by a destructor on the way out. *)
Definition ended_at (t : tracker W N) : Prop :=
  update t = Ended ∨ destroy_tracker exits order t = Ended ∨
  ∃ t' e, update t = Done (t', Throw e) ∧ destroy_tracker exits order t' = Ended.

Definition history (t0 : tracker W N) (s : app W N) : Prop :=
  ∃ n, match ap_pc s with
       | Left (Returned h) => rounds n t0 (ap_tracker s) ∧ destroy_tracker exits order (ap_tracker s) = Done h ∧
           shutdown_requested s = true
       | Left (Threw e h) => destroy_tracker exits order (ap_tracker s) = Done h ∧ catchable e ∧
           ∃ t, rounds n t0 t ∧ update t = Done (ap_tracker s, Throw e)
       | Left Terminated => ∃ t, rounds n t0 t ∧ ended_at t
       | Waiting _ notified => rounds n t0 (ap_tracker s) ∧ (notified = true → shutdown_requested s = true)
       | _ => rounds n t0 (ap_tracker s)
       end.

Lemma reachable_history h r now s : reachable_from (start h r now) s → history (new_tracker h) s.
Proof.
  induction 1 as [|s1 s2 _ [n IH] Hs]; [exists 0%nat; constructor|].
  unfold history. inversion Hs as [|t now0 how Hl|t t' r0 now0 now' _ Hu|t t' e r0 now0 now' how _ Hu He Hl
    |t r0 now0 now' _ Hu|t d n0 r0 now0|t d n0 r0 now0|t now0|t d r0 now0]; subst; simpl in *.
  - by exists n.
  - exists n. unfold leave in Hl. destruct (destroy_tracker exits order t) eqn:E; [|injection Hl as <-|done].
    + injection Hl as <-. done.
    + exists t. split; [done|]. right. by left.
  - exists (S n). split; [by econstructor|done].
  - exists n. unfold leave in Hl. destruct (destroy_tracker exits order t') eqn:E; [|injection Hl as <-|done].
    + injection Hl as <-. eauto.
    + exists t. split; [done|]. right. right. eauto.
  - exists n, t. split; [done|]. by left.
  - by exists n.
  - exists n. by destruct IH.
  - by exists n.
  - exists n. by destruct IH.
Qed.
End App.

(** ** The process around it *)
Definition ERROR_SUCCESS : Z := 0.
Definition ERROR_ALREADY_EXISTS : Z := 183.

(** Standard output, the texts of the message boxes shown, and how often Dokan was
    initialised and not yet shut down. *)
Record process : Type := mkProcess { pr_stdout : bytes; pr_boxes : list bytes; pr_dokan : Z }.

Definition stdout_lens : lens process bytes :=
  Lens pr_stdout (λ o p, mkProcess o (pr_boxes p) (pr_dokan p)).
Definition message_box (text : bytes) : M process unit :=
  modify (λ p, mkProcess (pr_stdout p) (pr_boxes p ++ [text]) (pr_dokan p)).
Definition dokan_uses (d : Z) : M process unit :=
  modify (λ p, mkProcess (pr_stdout p) (pr_boxes p) (pr_dokan p + d)).

Definition already_running_text : bytes :=
  bs "NandroidFS is already running. Only one instance is allowed at any one time." ++ [newline] ++
  bs "Please exit the existing instance if you wish to restart the program.".

(** [last_error] is what [GetLastError] gives after [CreateMutex]. *)
Definition prompt_if_already_running (last_error : Z) : M process bool :=
  if last_error =? ERROR_SUCCESS then ret true
  else if last_error =? ERROR_ALREADY_EXISTS then do* message_box already_running_text in ret false
  else ret false.

(** [ex.what()] of an exception that leaves [scan_for_devices]. *)
Definition exception_text (e : exn) : bytes :=
  match e with
  | RuntimeError what => bs what
  | EOFException => bs "EOF reached while reading from stream"
  | WinSockException err_code => bs ("Failed to operate on socket: " +:+ pretty err_code)
  | _ => bs "Unknown exception"
  end.

Definition main_logger : ContextLogger := mkLogger Trace (bs "main").

(** The [try] block and its handler, [how] being how [scan_for_devices] was left; the
    handler catches C++ exceptions. *)
Definition try_scan {W} (how : outcome W) (p : process) : fate (process * result Z) :=
  let '(p, _) :=
    (do* zoom stdout_lens (info main_logger (bs "nandroidfs is starting up")) in
     do* dokan_uses 1 in
     zoom stdout_lens (info main_logger (bs "nandroidfs is periodically checking for new devices"))) p in
  match how with
  | Returned _ =>
      Done ((do* zoom stdout_lens (info main_logger (bs "got Ctrl + C signal, shutting down active filesystems")) in
             do* zoom stdout_lens (info main_logger (bs "goodbye!")) in
             do* dokan_uses (-1) in
             ret 0) p)
  | Threw ex _ =>
      if is_catchable ex then
        Done ((do* dokan_uses (-1) in
               do* zoom stdout_lens (error main_logger
                     (bs "nandroidfs crashed due to an unhandled error: " ++ exception_text ex)) in
               do* message_box (exception_text ex) in
               ret 1) p)
      else Stuck
  | Terminated => Ended
  end.

(** An exception that nothing catches ends the program. *)
Definition uncaught {A} (e : exn) : fate A := if is_catchable e then Ended else Stuck.

Section WinMain.
Context {W G : Type} `{Gui G} `{!ExePath G}.

(** The tray menu is the object at [addr]: its thread handles [messages] before the
    object is destroyed on the way out, and [queue] is what is left to it then. *)
Definition WinMain (debug : bool) (last_error addr : Z) (messages queue : list (Z * Z * Z)) (how : outcome W)
    (p : process) (s : tray G) : fate (process * tray G * result Z) :=
  match prompt_if_already_running last_error p with
  | (p, Ok false) => Done (p, s, Ok 1)
  | (p, Ok true) =>
      match (do* construct addr in initialise debug) s with
      | (s, Ok tray_ok) =>
          let '(p, _) :=
            (if negb tray_ok then zoom stdout_lens (error main_logger (bs "failed to create tray menu")) else ret tt) p in
          let? ' (p, r) := try_scan how p in
          match event_loop messages s with
          | (s, Ok ended) =>
              let? ' (s, destroyed) := destruct_tray ended queue s in
              match destroyed with Ok _ => Done (p, s, r) | Throw e => uncaught e end
          | (_, Throw e) => uncaught e
          end
      | (_, Throw e) => uncaught e
      end
  | (p, Throw e) => uncaught e
  end.
End WinMain.

(** What is left of the tray menu: nothing but its menu, unless a WM_QUIT came first. *)
Definition taken_down {G} `{Gui G} (R : gset resource) (messages : list (Z * Z * Z)) (s : tray G) : Prop :=
  tm_inst s = None ∧ (released R s ∨ left_open R s ∧ existsb is_quit messages = true).

(** The tray menu is no obstacle: it is set up, if the window system lets it, and
    taken down again. *)
Lemma WinMain_spec {W G} `{GuiLaws G} `{!ExePath G} debug addr messages queue (how : outcome W) p (s : tray G) R :
  tm_inst s = None → resources (tm_gui s) = R → console (tm_gui s) = None → posts_work (G := G) →
  ∃ out s', taken_down R (messages ++ queue) s' ∧
    WinMain debug ERROR_SUCCESS addr messages queue how p s =
      let? ' (p', r) := try_scan how (mkProcess out (pr_boxes p) (pr_dokan p)) in Done (p', s', r).
Proof.
  intros Hi Hr Hc Hp. unfold WinMain. cbn [prompt_if_already_running ERROR_SUCCESS Z.eqb ret].
  assert (Ht : wp (do* construct addr in initialise debug)
    (λ (ok : bool) s1, if ok then serving R s1 else closed R s1) (λ _ _, False) s).
  { wp_step. eapply wp_mono; [by apply (construct_spec addr R)| |done]. intros [] s0 (Hf & _).
    eapply wp_mono; [by apply (initialise_spec debug R)| |done]. intros [] s1 (H1 & _); [apply H1|done]. }
  unfold wp in Ht. destruct ((do* construct addr in initialise debug) s) as [s1 [tray_ok|]]; [|done].
  assert (Hl : wp (event_loop messages)
    (λ ended s2, closed R s2 ∨ serving R s2 ∧ (ended = true → existsb is_quit messages = true)) (λ _ _, False) s1).
  { destruct tray_ok.
    - eapply wp_mono; [by apply (event_loop_spec R)| |done]. intros [] s2 H2.
      + destruct H2 as [[? _]|[? ?]]; auto.
      + right. by destruct H2 as (_ & _ & ? & _).
    - unfold wp. rewrite event_loop_closed by apply Ht. auto. }
  unfold wp in Hl. destruct (event_loop messages s1) as [s2 [ended|]]; [|done].
  destruct (destruct_tray_spec R ended messages queue s2 Hp Hl) as (s3 & E3 & Hi3 & Hs3). rewrite E3. cbn [fate_bind].
  destruct tray_ok; cbn [negb].
  - exists (pr_stdout p), s3. split; [done|]. by destruct p.
  - by exists (pr_stdout p ++ log_line_of Error (bs "main") (bs "failed to create tray menu")), s3.
Qed.

(** ** Claims *)
Section Claims.
Context {W N : Type} `{ProcessLaws W} `{!ExePath W} `{WinsockLaws W N} `{!Dokan W} `{WideStrings}.
Context (steady_now : nat → Z).
Context (agent_of : bytes → host W → list agent_event) (exits : bytes → host W → bool).
Context (order : gset bytes → list bytes).

Lemma rounds_come_back :
  (∀ name e, from_bytes name = Throw e → catchable e) → agents_notify agent_of →
  comes_back (N := N) steady_now agent_of exits order.
Proof.
  intros Hconv Hn. split; [intros t; by apply update_returns|intros t; apply destroy_tracker_returns].
Qed.

(** C5. A request to stop is served: once the callback was called, every execution of
    the main thread leaves the loop, whatever else happens: no round of updates and no
    destructor of a device waits for ever.  While it waits between
    two rounds no further round begins, and it leaves by the end of that wait, one
    second at most, although a call of the callback while devices are updated does
    not wake the wait that follows; and if every device has its thread, the loop
    returns then, every instance having been destroyed.  A round that is being made when the
    callback is called can also leave the loop by an exception, or end the program.
    It is assumed that the string conversion throws only C++ exceptions and that the
    thread of an agent notifies its starter, which it does on every path. *)
Theorem shutdown_is_served (s : app W N) :
  (∀ name e, from_bytes name = Throw e → catchable e) → agents_notify agent_of →
  shutdown_requested s = true →
  inevitable (app_step steady_now agent_of exits order) has_left s ∧
  ∀ d n, ap_pc s = Waiting d n →
    ∃ how, leave exits order (ap_tracker s) None = Some how ∧
      (running (ap_tracker s) → ∃ h, how = Returned h) ∧
      inevitable (app_step steady_now agent_of exits order)
        (left_with how (ap_tracker s) (Z.max (ap_now s) d)) s.
Proof.
  intros Hconv Hn Hr. pose proof (rounds_come_back Hconv Hn) as Hcb. split; [by apply requested_stops|].
  destruct s as [pc t r now]. simpl in *. subst r. intros d n ->.
  destruct (leaves steady_now agent_of exits order t None Hcb) as [how Hl]. exists how. split_and!; [done| |by apply waiting_stops].
  intros Hrun. destruct (destroy_tracker_runs exits order t Hrun) as [h Hd]. unfold leave in Hl. rewrite Hd in Hl.
  injection Hl as <-. by eexists.
Qed.

(** C24. The main thread stops only when it is asked to, an update throws or the program is
    ended: in every
    reachable state in which [scan_for_devices] has returned, the callback was called,
    some number of rounds of updates have been made one after the other on the tracker
    that was created, and all its instances have been destroyed; [WinMain] then shuts
    Dokan down, takes the tray menu down and returns 0.  If it was left by an exception,
    that is a C++ exception from the
    update of the tracker, all its instances have been destroyed, and [WinMain] shuts
    Dokan down, reports it, takes the tray menu down and returns 1.  This holds whether
    or not the tray menu could be set up and whatever messages it got, if the message
    to close it can be posted; a WM_QUIT among them can leave it in place.  When the
    mutex says that the program is running already, [WinMain] shows a box that says so,
    does nothing else and returns 1, and it does the same without a box for any other
    error. *)
Theorem loop_left_for_a_reason {G} `{GuiLaws G} `{!ExePath G} (h : host W) requested now (s : app W N) how
    debug addr messages queue p (tray : tray G) R :
  reachable_from steady_now agent_of exits order (start h requested now) s → ap_pc s = Left how →
  tm_inst tray = None → resources (tm_gui tray) = R → console (tm_gui tray) = None → posts_work (G := G) →
  match how with
  | Returned h' => shutdown_requested s = true ∧
      (∃ n, rounds steady_now agent_of exits order n (new_tracker h) (ap_tracker s)) ∧
      destroy_tracker exits order (ap_tracker s) = Done h' ∧
      ∃ out tray', taken_down R (messages ++ queue) tray' ∧
        WinMain debug ERROR_SUCCESS addr messages queue how p tray =
          Done (mkProcess out (pr_boxes p) (pr_dokan p), tray', Ok 0)
  | Threw e h' => catchable e ∧ (∃ n t, rounds steady_now agent_of exits order n (new_tracker h) t ∧
        update steady_now agent_of exits order t = Done (ap_tracker s, Throw e)) ∧
      destroy_tracker exits order (ap_tracker s) = Done h' ∧
      ∃ out tray', taken_down R (messages ++ queue) tray' ∧
        WinMain debug ERROR_SUCCESS addr messages queue how p tray =
          Done (mkProcess out (pr_boxes p ++ [exception_text e]) (pr_dokan p), tray', Ok 1)
  | Terminated => (∃ n t, rounds steady_now agent_of exits order n (new_tracker h) t ∧
        ended_at steady_now agent_of exits order t) ∧
      WinMain debug ERROR_SUCCESS addr messages queue how p tray = Ended
  end ∧
  ∀ last_error, last_error ≠ ERROR_SUCCESS →
    WinMain debug last_error addr messages queue how p tray =
      Done (mkProcess (pr_stdout p)
              (if last_error =? ERROR_ALREADY_EXISTS then pr_boxes p ++ [already_running_text] else pr_boxes p)
              (pr_dokan p), tray, Ok 1).
Proof.
  intros Hr Hpc Hi Hres Hc Hp. split.
  - apply reachable_history in Hr as [n Hh]. rewrite Hpc in Hh.
    assert (Hd : ∀ d, d + 1 + -1 = d) by (intros; lia).
    destruct (WinMain_spec debug addr messages queue how p tray R Hi Hres Hc Hp) as (out & tray' & Ht & ->).
    destruct how as [h'|e h'|].
    + destruct Hh as (Hn & Hds & Hq). split_and!; [done|eauto|done|]. cbn. rewrite Hd. eauto.
    + destruct Hh as (Hds & He & t & Hn & Hu). split_and!; [done|eauto|done|]. unfold catchable in He.
      cbn. rewrite He. cbn. rewrite Hd. eauto.
    + destruct Hh as (t & Hn & He). split; [eauto|done].
  - intros last_error Hne. unfold WinMain, prompt_if_already_running. rewrite (proj2 (Z.eqb_neq _ _)) by done.
    destruct p as [out boxes uses]. by destruct (last_error =? ERROR_ALREADY_EXISTS).
Qed.
End Claims.

Module AppWitnesses.
Import SingleByteStrings TrackerWitnesses TrayWitnesses.

(** The callback was called while the devices were updated. *)
Definition asked : app mini_os pipe := mkApp (Waiting 1500 false) tracker0 true 700.

Lemma shutdown_is_served_witness :
  inevitable (app_step quick prompt_agent in_time elements) has_left asked ∧
  ∀ d n, ap_pc asked = Waiting d n →
    ∃ how, leave in_time elements (ap_tracker asked) None = Some how ∧
      (running (ap_tracker asked) → ∃ h, how = Returned h) ∧
      inevitable (app_step quick prompt_agent in_time elements)
        (left_with how (ap_tracker asked) (Z.max (ap_now asked) d)) asked.
Proof.
  apply (shutdown_is_served quick prompt_agent in_time elements asked);
    [exact narrow_throws|exact prompt_notifies|reflexivity].
Defined.

(** One round, the callback during the wait, and the end. *)
Definition after_round : tracker mini_os pipe :=
  match update quick prompt_agent in_time elements (new_tracker attached) with Done (t, _) => t | _ => new_tracker attached end.
Definition left_host : host mini_os :=
  match destroy_tracker in_time elements after_round with Done h => h | _ => attached end.
Definition stopped : app mini_os pipe := mkApp (Left (Returned left_host)) after_round true 0.

Lemma round_returns :
  update quick prompt_agent in_time elements (new_tracker attached) = Done (after_round, Ok tt).
Proof. vm_compute. reflexivity. Qed.

Lemma stopped_reachable : reachable_from quick prompt_agent in_time elements (start attached false 0) stopped.
Proof.
  eapply reach_step; [|apply step_stop; vm_compute; reflexivity]. eapply reach_step; [|apply (step_wake _ _ _ _ _ 1000 true)].
  eapply reach_step; [|apply step_quit_wait with (r := false)].
  eapply reach_step; [|apply (step_updated _ _ _ _ (new_tracker attached) after_round false 0 0); [lia|apply round_returns]].
  eapply reach_step; [|apply step_go]. apply reach_refl.
Qed.

Lemma loop_left_for_a_reason_witness :
  (shutdown_requested stopped = true ∧
   (∃ n, rounds quick prompt_agent in_time elements n (new_tracker attached) (ap_tracker stopped)) ∧
   destroy_tracker in_time elements (ap_tracker stopped) = Done left_host ∧
   ∃ out tray', taken_down (resources (tm_gui (desktop []))) ([toggle; quit] ++ []) tray' ∧
     WinMain false 0 99 [toggle; quit] [] (Returned left_host) (mkProcess [] [] 0) (desktop []) =
       Done (mkProcess out [] 0, tray', Ok 0)) ∧
  ∀ last_error, last_error ≠ ERROR_SUCCESS →
    WinMain false last_error 99 [toggle; quit] [] (Returned left_host) (mkProcess [] [] 0) (desktop []) =
      Done (mkProcess [] (if last_error =? ERROR_ALREADY_EXISTS then [already_running_text] else []) 0, desktop [], Ok 1).
Proof.
  apply (loop_left_for_a_reason quick prompt_agent in_time elements attached false 0 stopped (Returned left_host) false 99
    [toggle; quit] [] (mkProcess [] [] 0) (desktop []) (resources (tm_gui (desktop []))));
    [apply stopped_reachable|vm_compute; reflexivity|reflexivity..|exact demo_posts].
Defined.
End AppWitnesses.
